(* ===== verification/_CoqProject ===== *)
-Q . S2P
Prelude.v
CppString.v
StringHelper.v
HttpParser.v
HttpConstantsCpp11.v
HttpParserSpec.v
HttpRoundTrip.v
HttpTheorems.v
HttpParserCpp11.v
HttpBuilds.v
HttpGenerator.v
HttpGeneratorTheorems.v
ShmVector.v
ShmObjects.v
ShmObjectTheorems.v
ShmTests.v
ShmConcurrent.v
ShmLiveness.v
ShmTheorems.v
ShmQueue.v
ShmClients.v
ShmProducers.v
ShmThreadTests.v
Memory.v
Connection.v
Server.v
ServerDelivery.v
ServerEdges.v
XmlParser.v
XmlStrings.v
XmlOrder.v
XmlLifecycle.v
XmlDtd.v
Filesystem.v
Configuration.v
ServerMain.v
Backends.v
BackendTheorems.v
SystemTheorems.v
ServerTheorems.v
XmlTheorems.v
NlapTheorems.v
ParserTests.v
UnitTests.v
XmlTests.v
