(* ===== verification/Prelude.v ===== *)
(** * FalconAS / NLAP: a verification library

    This library models the HTTP server of the repository in Rocq, component by
    component, and proves what makes each component correct; where the code
    does not do what it means to, a theorem says exactly what it does instead.

    ** The program

    [main] constructs [Server] and runs [Server::init]: the static files of the
    configured namespaces are mapped, a socket is bound, the privileges of root
    are dropped, and a loop around [epoll] runs until [SIGTERM]. Each round
    first polls for new connections ([acceptClient], [ClientHandler::addClient])
    and then for readable clients ([processClients], [readClientData]). A
    [Client] is an [HTTPParser]: [receiveData] reads the socket into a segment
    of the receive block the [MemoryManager] cut out and appends it to the
    parser's buffer. The parser splits the buffer at the empty line that ends a
    request head, reads request line, headers and query parameters, waits for
    the body of a POST, and collects the finished requests. [HTTPGenerator]
    prints the head of a response and accounts for what has been sent of it and
    of its body. [SHMVector] is the container for what server and
    application-server processes share in memory; a back end
    ([Backend::Processor]) hands a request to Java or Python and stores the
    answer there; [XMLParser] takes NLAP messages apart. The last three are not
    called by the server loop yet. [Configuration] reads the server's settings
    and builds, with [Filesystem], the table of static files.

    ** The files

    - Prelude.v (this file): machine integers, faults, the state monad and its
      rewriting tactic [run], hash tables, generic lemmas.
    - CppString.v: the part of [std::string] and of streams the sources use:
      [find], [rfind], [substr], [getline], [to_string], [stoi], [std::hex].
    - StringHelper.v: Modules [StringHelper] ([split] in both forms, [rsplit],
      [is_digits]) and [JSON] ([URLParamsMap2JSON]) of lib/http/httpparser.hpp.
    - HttpParser.v: Module [HTTPParser] of lib/http/httpparser.cpp. One record
      for the object, one definition per member function, up to [appendBuffer];
      [feed] is a sequence of receives. The class [Frontend] is what the body of
      the parser needs from the two functions in which the builds differ.
    - HttpParserSpec.v: Module [ParserSpec]: the meaning of one token of the
      stream, the member functions in these terms, and the invariants.
    - HttpRoundTrip.v: Module [RoundTrip]: a printer for requests, and that the
      parser reads it back.
    - HttpTheorems.v: the properties of the parser.
    - HttpConstantsCpp11.v, HttpParserCpp11.v, HttpBuilds.v: Module [Cpp11], the legacy build of
      lib/http/httpparser-cpp11.cpp as another instance of [Frontend], and the
      comparison of the builds.
    - HttpGenerator.v, HttpGeneratorTheorems.v: Module [HTTPGenerator] of
      lib/http/httpgenerator.cpp and its properties.
    - ShmObjects.v, ShmObjectTheorems.v: Module [ShmObjects], the same class for
      elements of any type: which objects are alive, the calls of constructors
      and destructors, copies that throw.
    - ShmVector.v, ShmConcurrent.v, ShmLiveness.v, ShmTheorems.v: Module
      [SHMVector] of src/SHMVector.hpp as programs of single memory accesses, run
      alone and interleaved with those of other processes, under any scheduler;
      class [Pod] is what the vector asks of its element type.
    - ShmQueue.v, ShmClients.v, ShmProducers.v: Module [ShmQueue]: the vector as a
      queue; Module [ShmClients]: processes whose calls depend on results, reduced
      by a simulation to lists of operations; Module [ShmProducers]: producers and
      consumers of one vector.
    - Memory.v: Modules [MemoryManager] (src/MemoryManager.hpp) and [Vector]
      (src/Vector.hpp).
    - Connection.v: Module [Connection]: src/Client.cpp and
      src/ClientHandler.cpp over a store of receive segments.
    - Server.v, ServerDelivery.v, ServerEdges.v: Module [Server]: the setup, as a
      trace of system calls, and the loop of src/Server.cpp, with src/Global.hpp
      and src/Helper.hpp; Module [ServerDelivery]: one client over many rounds;
      Module [ServerEdges]: the events of edge-triggered epoll.
    - XmlParser.v, XmlOrder.v: Module [XMLParser] of lib/xml/xmlparser.cpp, and
      its tree as one scan of the message. XmlStrings.v: Module [XmlStrings]: the
      conversion of the strings of the XML library.
    - XmlLifecycle.v: Module [XmlLifecycle]: constructors, destructor and the
      reference count of the XML library, as steps of interleaved threads.
    - XmlDtd.v: Module [XmlDtd]: the bytes of lib/xml/static-dtd.hpp, a reader of
      their element declarations, and validity.
    - Filesystem.v: Module [Filesystem] of src/Filesystem.cpp.
    - Configuration.v: Modules [Configuration], [CPU], [ASProcessHandler] and
      [Event], of the files of the same names.
    - ServerMain.v: Module [ServerMain]: the whole program, src/main.cpp and
      [Server::init], composed of the modules before it.
    - Backends.v, BackendTheorems.v: Modules [JavaBackend] and [PythonBackend],
      of src/ASBackend.
    - SystemTheorems.v, ServerTheorems.v: the properties of the memory helpers,
      of connections and of the server; XmlTheorems.v, NlapTheorems.v: those of
      the message parser and of the static files.
    - ParserTests.v, UnitTests.v, XmlTests.v, ShmTests.v: the repository's test
      cases of the parser, the generator, the helpers, the message parser and the
      vector, evaluated on the model. ShmThreadTests.v: the cases that start
      threads, proved for every interleaving.

    ** How code corresponds to definitions

    Definitions carry the names of the code. A member function that changes its
    object is a computation [St S A]: it yields the object as it is at the end
    and either a value or a [fault], which is an exception that leaves the
    function, the end of the process, or undefined behaviour. A fault keeps the
    mutations made before it, as the code does. Unsigned integers are numbers
    of type [Z] with their wrap-around written out ([u16], [u32], [u64]). A
    member that a constructor leaves indeterminate is an [option]. Hash tables
    are finite maps; where the order of iteration shows, it is a parameter, any
    enumeration of the entries ([IterOrder]). Buffers that are shared and
    written through pointers, the receive block and the shared segment, are
    explicit stores. Operations of a part of a larger object are lifted to it by
    [zoom] (ServerMain.v).

    ** What the theorems show

    - Parsing is independent of how the network cuts the stream (C1, C4):
      pipelines of GET requests, arbitrary streams of GET tokens and a POST with
      its body (C5) are delivered complete, in order and once, within the size of
      the parser's buffer; C5 excludes bodies that hold the end marker, which the
      parser takes apart (C11). The same end to end, from the bytes that arrive
      at the server's sockets in any number of rounds, among other clients (C2).
      Readiness is edge-triggered: no input is left unread for want of an event
      but behind a result of [read] that asks to try again, where it is (C3 says
      where reading stops). No receive breaks the invariant of the object (C6), and
      what is delivered is valid, with a payload of the announced length modulo
      65536 (C7); printed queries read back (C8). C9 to C11 describe the errors: rejected tokens, and situations in
      which a request or the connection is lost. C12: [split].
    - Both builds agree on header lines with one separator, hence on pipelines
      of such requests (C13).
    - A generated response is framed so that it reads back (C14), within the
      fixed buffer only up to its size (C15); the sending protocol delivers
      header and body under exactly stated conditions (C16); the members keep
      their types, and no indeterminate one is read once a message is prepared
      (C17).
    - The shared vector refines a list, sequentially and under every interleaving
      of processes that choose their calls by the results of earlier ones (C18 to
      C20: refinement, linearizability, mutual exclusion); every operation returns,
      however the scheduler chooses among the processes that are not spinning
      (C21); the vector is a queue (C22), which brings everything from producers to
      consumers (C23). This is for processes that live: one that is killed inside
      takes the lock with it ([killed_holder_blocks]).
      For elements of any type, in segments that are large enough and aligned, as
      long as no copy throws, each object is constructed and destroyed once (C24),
      and a reference follows its index (C25). A copy that throws leaks the
      lock (C26), as does an erase beyond the end.
    - A client's bytes reach its own parser, whatever other clients do; the
      handler's invariant survives every run of the loop, faults included (C27),
      and a fault of one client ends it (C28). The program serves only as the
      unprivileged user, after a complete setup (C29), and [SIGTERM] ends it
      (C30).
    - Segments are handed out in turn and do not overlap (C31); the multiple
      erase removes what its bound lets through.
    - Framing of NLAP messages, acceptance of all or nothing (C32, C33). The tree
      of any document: its nodes are the paths of the document, and their
      addresses what one scan for the texts of the leaves writes, the last one
      of a path; siblings of one name lose all but the last, and with different
      names the tree represents the document (C34). Of valid messages without
      declarations of their own the tree has the parts the document type
      requires, and every leaf outside the payload has its own place (C35). What is put in front of a message (C36). The
      XML library is initialised while a parser lives (C37), but for copies and
      for threads that race (C38).
    - The static file table knows exactly the files below its directory, when
      that can be read (C39). What the memory holds after an answer in Java, which
      nothing bounds: the answer, and over it its length (C40).

    Theorems without a number are of the same kind; their witnesses follow them.

    ** Fuel

    Loops whose end is not structural take a number of rounds. [split_loop] and
    [split_view_loop] consume the delimiter in each round, so the length of the
    string and one more is enough (C12, [split_view_spec]); [rsplit_loop] moves
    its position down ([rsplit_loop_total]); [shift] and the destructor
    of the vector run at most its size ([shift_list], [shift_spec],
    [destroy_loop_spec]); [receive_loop] takes one more round than the kernel
    has results for the descriptor ([receive_loop_spec]); the framing loop of
    the message parser consumes an end marker ([split_messages_complete]);
    [to_hex_digits] prints at most 16 digits ([to_hex_facts]). The value for
    exhausted fuel is reached in none of them. The server's loop runs over a
    list of rounds: the theorems hold for every list, and what follows the
    signal in it is not executed.

    ** Parameters and limits

    Not under the repository's control, and so parameters: the kernel (results
    of calls, readiness, bytes to read), [malloc], the clock, the JSON document
    behind nlohmann's library, the documents and reports of Xerces, the Java
    virtual machine and the Python interpreter, the directory tree, the contents
    of files and the values of [std::hash]. Of Xerces the theorems assume nothing
    but, in C35, that its validating run accepts only valid documents under the
    document type the parser inserts ([validates]). The layout of the memory the back
    ends write to is a parameter as well: they call members and use a type which
    the repository does not declare. Inputs of [XMLParser::parse] hold no null
    byte, since the code takes them as C strings. The number of bytes of a
    receive is a [uint16_t] and the receive buffer 4096 bytes, so a chunk has
    less than 65536 bytes.

    Not modelled: the text of log messages (where printing one changes state, it
    is: [debug_enabled]); exceptions the XML library throws; what [fstat] leaves
    behind when it fails on a file that was opened; the text of an address that
    [inet_addr] converts; overflow of an [int] in addresses of segments the
    memory manager never hands out; the mappings of
    [Filesystem], which nothing reads; destructors that only log; the handler
    of [std::terminate] of debug builds; the body of
    [ASProcessHandler::forkProcessASHandler], which is commented out. Of the
    tests, the programs of test/performance and test/eval, the scripts that talk
    to a running server and the one that forks children of its own. A pointer
    that is formed out of range but not used is no fault in the model; an access
    through it is. The members of the parser that no function reads (the request
    counters) are left out. Memory is sequentially consistent, which is what the
    acquire and release on the vector's flag give the accesses between them; the
    reads the code makes without the flag see the current value. *)
From stdpp Require Export base tactics option list numbers gmap strings.
From Stdlib Require Export Ascii ZArith Lia.
From stdpp Require Import options.

(** ** Bytes *)

Abbreviation bytes := (list ascii) (only parsing).

(** A literal of the source as a byte list. *)
Definition str (s : string) : bytes := String.list_ascii_of_string s.

Definition CR : ascii := "013"%char.
Definition LF : ascii := "010"%char.
Definition CRLF : bytes := [CR; LF].


(** ** Machine integers

    The source's unsigned types wrap; a w-bit value is kept as a [Z] in
    [0, 2^w). *)

Definition wrap (w : Z) (z : Z) : Z := (z `mod` 2 ^ w)%Z.
Definition u8 : Z → Z := wrap 8.
Definition u16 : Z → Z := wrap 16.
Definition u32 : Z → Z := wrap 32.
Definition u64 : Z → Z := wrap 64.

(** ** Faults and the state monad

    A C++ operation ends with a value, with an exception, by terminating the
    process, or in undefined behaviour; in each case the object keeps the
    mutations made so far, which is what [St] records. *)

Inductive exception : Set :=
| out_of_range
| invalid_argument
| bad_alloc
| filesystem_error
| bad_function_call
| json_exception
| error_already_set.

Inductive fault : Set :=
| Throw (e : exception)
| Exit (code : Z)
| Undefined.

#[global] Instance exception_eq_dec : EqDecision exception.
Proof. solve_decision. Defined.

#[global] Instance fault_eq_dec : EqDecision fault.
Proof. solve_decision. Defined.

Definition St (S A : Type) : Type := S → S * (fault + A).

#[global] Instance St_ret {S} : MRet (St S) := λ A a s, (s, inr a).

#[global] Instance St_bind {S} : MBind (St S) := λ A B f m s,
  match m s with
  | (s', inl e) => (s', inl e)
  | (s', inr a) => f a s'
  end.

(** Computations without state. *)
#[global] Instance sum_ret {E} : MRet (sum E) := λ A a, inr a.

#[global] Instance sum_bind {E} : MBind (sum E) := λ A B f m,
  match m with inl e => inl e | inr a => f a end.

Definition get {S} : St S S := λ s, (s, inr s).
Definition modify {S} (f : S → S) : St S () := λ s, (f s, inr ()).
Definition fail {S A} (e : fault) : St S A := λ s, (s, inl e).
Definition lift {S A} (r : fault + A) : St S A := λ s, (s, r).

(** ** Ordered iteration over a hash table

    [std::unordered_map] iterates over its entries in an unspecified order:
    an iteration order is any function that enumerates the entries of the map
    exactly once. *)

Class IterOrder (iter : gmap bytes bytes → list (bytes * bytes)) : Prop :=
  iter_perm m : iter m ≡ₚ map_to_list m.

#[global] Instance map_to_list_order : IterOrder map_to_list.
Proof. intros m. reflexivity. Qed.

(** [unordered_map::emplace] keeps the entry that is already there. *)
Definition emplace {V} (k : bytes) (v : V) (m : gmap bytes V) : gmap bytes V :=
  match m !! k with
  | Some _ => m
  | None => <[k := v]> m
  end.

(** ** Generic lemmas *)

Lemma wrap_range w z : (0 <= w)%Z → (0 <= wrap w z < 2 ^ w)%Z.
Proof. intros Hw. apply Z.mod_pos_bound. lia. Qed.

Lemma u16_range z : (0 <= u16 z < 65536)%Z.
Proof. by apply (wrap_range 16). Qed.

Lemma u32_range z : (0 <= u32 z < 4294967296)%Z.
Proof. by apply (wrap_range 32). Qed.

Lemma u64_range z : (0 <= u64 z < 18446744073709551616)%Z.
Proof. by apply (wrap_range 64). Qed.

Lemma wrap_id w z : (0 <= z < 2 ^ w)%Z → wrap w z = z.
Proof. apply Z.mod_small. Qed.

Lemma emplace_lookup {V} k (v : V) m :
  emplace k v m !! k = Some (default v (m !! k)).
Proof.
  unfold emplace. destruct (m !! k) eqn:E; simpl; [done|].
  by rewrite lookup_insert_eq.
Qed.

Lemma emplace_lookup_ne {V} k k' (v : V) m :
  k ≠ k' → emplace k v m !! k' = m !! k'.
Proof.
  intros Hne. unfold emplace. destruct (m !! k); [done|].
  by rewrite lookup_insert_ne.
Qed.

(** Emplacing before the union with a map inserts into the right-hand side. *)
Lemma emplace_union {V} k (v : V) m m' :
  emplace k v m ∪ m' = m ∪ <[k := v]> m'.
Proof.
  apply map_eq. intros i. rewrite !lookup_union. destruct (decide (k = i)) as [<-|Hne].
  - rewrite emplace_lookup, lookup_insert_eq. destruct (m !! k), (m' !! k); done.
  - by rewrite emplace_lookup_ne, lookup_insert_ne.
Qed.

Lemma take_length_prefix {A} (l k : list A) :
  l `prefix_of` k ↔ take (length l) k = l.
Proof.
  split.
  - intros [r ->]. by rewrite take_app_length.
  - intros H. exists (drop (length l) k). by rewrite <-H at 1; rewrite take_drop.
Qed.

Lemma nonempty_length {A} (l : list A) : l ≠ [] → 0 < length l.
Proof. destruct l; simpl; [done|lia]. Qed.

Lemma nonempty_length_inv {A} (l : list A) : 0 < length l → l ≠ [].
Proof. destruct l; simpl; [lia|done]. Qed.

Lemma reverse_nonempty {A} (l : list A) : l ≠ [] → reverse l ≠ [].
Proof. intros H Hr. apply H. by rewrite <-(reverse_involutive l), Hr. Qed.

(** Two adjacent pieces of a buffer, by machine offsets. *)
Lemma take_drop_pieces {A} (l : list A) (off k n : Z) :
  (0 <= off)%Z → (0 <= k <= n)%Z →
  take (Z.to_nat k) (drop (Z.to_nat off) l) ++
    take (Z.to_nat (n - k)) (drop (Z.to_nat (off + k)) l) =
  take (Z.to_nat n) (drop (Z.to_nat off) l).
Proof.
  intros Ho Hk. rewrite Z2Nat.inj_sub, Z2Nat.inj_add, <-drop_drop, take_take_drop by lia.
  f_equal. lia.
Qed.

(** A partial function has one list of results. *)
Lemma Forall2_functional {A B} (f : A → option B) l k1 k2 :
  Forall2 (λ x y, f x = Some y) l k1 → Forall2 (λ x y, f x = Some y) l k2 → k1 = k2.
Proof.
  intros H1 H2. apply mapM_Some in H1, H2. congruence.
Qed.

(** ** Running the monad *)

Create Rewrite HintDb run.

Section run_lemmas.
Context {S A B : Type}.
Implicit Types (s : S).

Lemma run_get (f : S → St S B) s : (get ≫= f) s = f s s.
Proof. done. Qed.

Lemma run_modify (g : S → S) (f : () → St S B) s : (modify g ≫= f) s = f () (g s).
Proof. done. Qed.

Lemma run_bind_ret (a : A) (f : A → St S B) s : ((mret a : St S A) ≫= f) s = f a s.
Proof. done. Qed.

Lemma run_ret (a : A) s : (mret a : St S A) s = (s, inr a).
Proof. done. Qed.

Lemma run_fail e s : (fail e : St S A) s = (s, inl e).
Proof. done. Qed.

Lemma run_modify_end (g : S → S) s : modify g s = (g s, inr ()).
Proof. done. Qed.

Lemma run_lift_ok (a : A) (f : A → St S B) s : (lift (inr a) ≫= f) s = f a s.
Proof. done. Qed.

Lemma run_lift_fail e (f : A → St S B) s : (lift (inl e) ≫= f) s = (s, inl e).
Proof. done. Qed.

Lemma run_bind (m : St S A) (f : A → St S B) s s' r :
  m s = (s', r) →
  (m ≫= f) s = match r with inl e => (s', inl e) | inr a => f a s' end.
Proof. unfold mbind, St_bind. by intros ->. Qed.
End run_lemmas.

#[export] Hint Rewrite @run_get @run_modify @run_bind_ret @run_ret @run_fail
  @run_modify_end @run_lift_ok @run_lift_fail : run.

(** ** Automation *)

(** Ranges of the machine integers and non-empty lists. *)
Create HintDb cpp discriminated.

#[export] Hint Resolve u16_range u32_range u64_range nonempty_length nonempty_length_inv
  reverse_nonempty : cpp.

(** Case analysis on every [match]/[if] scrutinee of the goal, closing the
    easy cases. *)
Ltac case_all := repeat (case_match; simplify_eq/=; try done).

(** Runs a monadic computation one bind at a time. *)
Ltac run := autorewrite with run; cbv beta.

(** Decides a closed decidable goal by evaluation. *)
Ltac by_decide :=
  match goal with |- ?P => refine (@bool_decide_unpack P _ _); vm_compute; exact I end.
