(* ===== verification/CppString.v ===== *)
(** * The part of [std::string] / [std::string_view] the sources use

    Searches return [None] for [npos]. [substr] is the slice itself; its
    throwing form, for the one caller whose position may lie beyond the end,
    is [substr_at]. *)
From S2P Require Export Prelude.
From stdpp Require Import options.

(** ** Operations *)

Fixpoint starts_with (p s : bytes) : bool :=
  match p, s with
  | [], _ => true
  | _ :: _, [] => false
  | c :: p', d :: s' => if decide (c = d) then starts_with p' s' else false
  end.

(** [s.find(p)] *)
Fixpoint find (p s : bytes) : option nat :=
  if starts_with p s then Some 0
  else match s with
       | [] => None
       | _ :: s' => S <$> find p s'
       end.

(** [s.find(p, pos)] *)
Definition find_from (p s : bytes) (pos : nat) : option nat :=
  if decide (pos <= length s) then Nat.add pos <$> find p (drop pos s) else None.

(** The comparison loop of [rfind], running down from position [i]. *)
Fixpoint rfind_down (p s : bytes) (i : nat) : option nat :=
  if starts_with p (drop i s) then Some i
  else match i with
       | O => None
       | S i' => rfind_down p s i'
       end.

(** [s.rfind(p, pos)] *)
Definition rfind (p s : bytes) (pos : nat) : option nat :=
  if decide (length p <= length s)
  then rfind_down p s (Nat.min (length s - length p) pos)
  else None.

(** [s.substr(pos, n)] for a [pos] within the string *)
Definition substr (s : bytes) (pos n : nat) : bytes := take n (drop pos s).

(** [s.substr(pos, n)] with its check *)
Definition substr_at (s : bytes) (pos n : nat) : fault + bytes :=
  if decide (pos <= length s) then inr (substr s pos n) else inl (Throw out_of_range).

(** The lines [getline(ss, line, '\n')] delivers from a stream over [s]. *)
Fixpoint getlines (s : bytes) : list bytes :=
  match s with
  | [] => []
  | c :: s' =>
      if decide (c = LF) then [] :: getlines s'
      else match getlines s' with
           | [] => [[c]]
           | l :: ls => (c :: l) :: ls
           end
  end.

Definition is_digit (c : ascii) : bool :=
  bool_decide (48 <= Ascii.nat_of_ascii c <= 57).

Definition is_space (c : ascii) : bool := Ascii.is_space c.

Definition digit_val (c : ascii) : Z := Z.of_nat (Ascii.nat_of_ascii c) - 48.

Definition digits_val (ds : bytes) : Z :=
  foldl (λ acc c, acc * 10 + digit_val c)%Z 0%Z ds.

Fixpoint span (f : ascii → bool) (s : bytes) : bytes * bytes :=
  match s with
  | [] => ([], [])
  | c :: s' => if f c then let '(a, r) := span f s' in (c :: a, r) else ([], s)
  end.

(** [stoi(s)]: leading white space, an optional sign, the longest run of
    digits; no digits and a value beyond [int] are exceptions. *)
Definition stoi (s : bytes) : fault + Z :=
  let s1 := (span is_space s).2 in
  let '(sign, s2) :=
    match s1 with
    | "+"%char :: r => (1%Z, r)
    | "-"%char :: r => ((-1)%Z, r)
    | _ => (1%Z, s1)
    end in
  match (span is_digit s2).1 with
  | [] => inl (Throw invalid_argument)
  | ds =>
      let v := (sign * digits_val ds)%Z in
      if decide (- 2 ^ 31 <= v < 2 ^ 31)%Z then inr v else inl (Throw out_of_range)
  end.

(** [to_string(n)] for an unsigned value, most significant digit first. *)
Definition digit_chr (d : Z) : ascii := Ascii.ascii_of_nat (Z.to_nat (48 + d)).

Fixpoint to_digits (fuel : nat) (n : Z) (acc : bytes) : bytes :=
  match fuel with
  | O => acc
  | S fuel =>
      let acc' := digit_chr (n `mod` 10) :: acc in
      if decide (n < 10)%Z then acc' else to_digits fuel (n `div` 10) acc'
  end.

(** Twenty digits are enough for any 64-bit value. *)
Definition to_string (n : Z) : bytes := to_digits 20 n [].

(** A number on a stream in hexadecimal ([std::hex]), at most 64 bits. *)
Definition hex_chr (d : Z) : ascii :=
  Ascii.ascii_of_nat (Z.to_nat (if decide (d < 10)%Z then 48 + d else 87 + d)).

Fixpoint to_hex_digits (fuel : nat) (n : Z) (acc : bytes) : bytes :=
  match fuel with
  | O => acc
  | S fuel =>
      let acc' := hex_chr (n `mod` 16) :: acc in
      if decide (n < 16)%Z then acc' else to_hex_digits fuel (n `div` 16) acc'
  end.

Definition to_hex (n : Z) : bytes := to_hex_digits 16 n [].

(** The value of hexadecimal digits. *)
Definition hex_digit_val (c : ascii) : Z :=
  let n := Z.of_nat (Ascii.nat_of_ascii c) in
  if decide (n < 58)%Z then n - 48 else n - 87.

Definition hex_val (ds : bytes) : Z := foldl (λ acc c, acc * 16 + hex_digit_val c)%Z 0%Z ds.

Definition is_hex_digit (c : ascii) : bool :=
  bool_decide (48 <= Ascii.nat_of_ascii c <= 57 ∨ 97 <= Ascii.nat_of_ascii c <= 102).

(** ** Occurrences *)

Definition occurs (p s : bytes) (i : nat) : Prop := p `prefix_of` drop i s.

(** ** Prefix test *)

Lemma starts_with_spec p s : starts_with p s = true ↔ p `prefix_of` s.
Proof.
  revert s. induction p as [|c p IH]; intros [|d s]; simpl.
  - split; [intros _; apply prefix_nil|done].
  - split; [intros _; apply prefix_nil|done].
  - split; [done|]. intros H. by apply prefix_nil_not in H.
  - case_decide as E.
    + subst. rewrite IH. split; [apply prefix_cons|apply prefix_cons_inv_2].
    + split; [done|]. intros H. by apply prefix_cons_inv_1 in H.
Qed.

Lemma starts_with_false p s : starts_with p s = false ↔ ¬ p `prefix_of` s.
Proof. rewrite <-starts_with_spec. by destruct (starts_with p s). Qed.

Lemma starts_with_app p r : starts_with p (p ++ r) = true.
Proof. apply starts_with_spec. by exists r. Qed.

Lemma occurs_S p c s i : occurs p (c :: s) (S i) ↔ occurs p s i.
Proof. done. Qed.

Lemma occurs_lt p s i : p ≠ [] → occurs p s i → i + length p <= length s.
Proof.
  intros Hp [r Hr]. apply (f_equal length) in Hr.
  rewrite length_drop, length_app in Hr. destruct p; simpl in *; [done|lia].
Qed.

Lemma occurs_split p s i :
  occurs p s i → s = take i s ++ p ++ drop (i + length p) s.
Proof.
  intros [r Hr]. rewrite <-(take_drop i s) at 1. f_equal.
  rewrite <-drop_drop, Hr. f_equal. by rewrite drop_app_length.
Qed.

Lemma occurs_app p s t i :
  i + length p <= length s → occurs p (s ++ t) i ↔ occurs p s i.
Proof.
  intros Hi. unfold occurs.
  rewrite drop_app_le by lia. split.
  - intros H%take_length_prefix. rewrite take_app_le in H by (rewrite length_drop; lia).
    by apply take_length_prefix.
  - intros [r Hr]. rewrite Hr. exists (r ++ t). by rewrite app_assoc.
Qed.

(** ** [find] *)

Lemma find_unfold p s :
  find p s = if starts_with p s then Some 0
             else match s with [] => None | _ :: s' => S <$> find p s' end.
Proof. by destruct s. Qed.

Lemma find_Some p s i :
  find p s = Some i ↔
  occurs p s i ∧ i <= length s ∧ ∀ j, j < i → ¬ occurs p s j.
Proof.
  revert i. induction s as [|c s IH]; intros i; rewrite find_unfold;
    destruct (starts_with p _) eqn:E.
  - apply starts_with_spec in E. split.
    + intros [= <-]. split; [done|]. split; [lia|]. intros j Hj. lia.
    + intros (_ & Hi & _). simpl in Hi. by replace i with 0 by lia.
  - apply starts_with_false in E. split; [done|]. intros (H & Hi & _).
    simpl in Hi. replace i with 0 in H by lia. done.
  - apply starts_with_spec in E. split.
    + intros [= <-]. split; [done|]. split; [lia|]. intros j Hj. lia.
    + intros (_ & _ & Hmin). destruct i as [|i]; [done|].
      exfalso. apply (Hmin 0); [lia|done].
  - apply starts_with_false in E. destruct i as [|i].
    + split; [by destruct (find p s)|]. by intros (H & _).
    + transitivity (find p s = Some i).
      { destruct (find p s); simpl; split; congruence. }
      rewrite IH. rewrite occurs_S. simpl. split.
      * intros (H & Hi & Hmin). split; [done|]. split; [lia|].
        intros [|j] Hj; [done|]. rewrite occurs_S. apply Hmin. lia.
      * intros (H & Hi & Hmin). split; [done|]. split; [lia|].
        intros j Hj. specialize (Hmin (S j)). rewrite occurs_S in Hmin.
        apply Hmin. lia.
Qed.

Lemma find_None p s : find p s = None ↔ ∀ i, i <= length s → ¬ occurs p s i.
Proof.
  induction s as [|c s IH]; rewrite find_unfold; destruct (starts_with p _) eqn:E.
  - apply starts_with_spec in E. split; [done|]. intros H. by destruct (H 0).
  - apply starts_with_false in E. split; [|done]. intros _ i Hi.
    simpl in Hi. by replace i with 0 by lia.
  - apply starts_with_spec in E. split; [done|]. intros H.
    destruct (H 0); [simpl; lia|done].
  - apply starts_with_false in E.
    transitivity (find p s = None); [by destruct (find p s)|].
    rewrite IH. split.
    + intros H [|i] Hi; [done|]. rewrite occurs_S. apply H. simpl in Hi. lia.
    + intros H i Hi. rewrite <-(occurs_S p c). apply H. simpl. lia.
Qed.

Lemma find_bound p s i : p ≠ [] → find p s = Some i → i + length p <= length s.
Proof. intros Hp (H & _ & _)%find_Some. by apply occurs_lt. Qed.

Lemma find_split p s i :
  find p s = Some i → s = take i s ++ p ++ drop (i + length p) s.
Proof. intros (H & _ & _)%find_Some. by apply occurs_split. Qed.

(** The leftmost occurrence does not move when bytes are appended. *)
Lemma find_app p s t i : p ≠ [] → find p s = Some i → find p (s ++ t) = Some i.
Proof.
  intros Hp H. pose proof (find_bound _ _ _ Hp H) as Hb.
  apply find_Some in H as (Ho & Hi & Hmin). apply find_Some.
  split; [by apply occurs_app|]. split; [rewrite length_app; lia|].
  intros j Hj Hoj. apply (Hmin j Hj). apply occurs_app with t; [lia|done].
Qed.

Lemma find_prefix_None p s t : find p (s ++ t) = None → p ≠ [] → find p s = None.
Proof.
  intros H Hp. destruct (find p s) as [i|] eqn:E; [|done].
  by rewrite (find_app p s t i Hp E) in H.
Qed.

(** Everything before the leftmost occurrence is free of the pattern. *)
Lemma find_take_None p s i : p ≠ [] → find p s = Some i → find p (take i s) = None.
Proof.
  intros Hp H. destruct (find p (take i s)) as [j|] eqn:E; [|done]. exfalso.
  pose proof (find_bound _ _ _ Hp E) as Hb. rewrite length_take in Hb.
  assert (length p ≠ 0) by (destruct p; simpl; [done|lia]).
  rewrite <-(take_drop i s) in H. rewrite (find_app _ _ _ _ Hp E) in H.
  simplify_eq. lia.
Qed.

Lemma find_char_None c s : find [c] s = None ↔ c ∉ s.
Proof.
  induction s as [|d s IH]; simpl.
  - split; [intros _; set_solver|done].
  - case_decide as E; subst.
    + split; [done|]. intros H. set_solver.
    + transitivity (find [c] s = None); [by destruct (find [c] s)|].
      rewrite IH. set_solver.
Qed.

Lemma find_char_app c s t : c ∉ s → find [c] (s ++ c :: t) = Some (length s).
Proof.
  induction s as [|d s IH]; simpl; intros Hc.
  - by rewrite decide_True.
  - rewrite decide_False by set_solver. rewrite IH by set_solver. done.
Qed.

(** ** [rfind] *)

Lemma rfind_down_Some p s i k :
  rfind_down p s i = Some k ↔
  occurs p s k ∧ k <= i ∧ ∀ j, k < j <= i → ¬ occurs p s j.
Proof.
  induction i as [|i IH]; simpl; destruct (starts_with p _) eqn:E.
  - apply starts_with_spec in E. split.
    + intros [= <-]. split; [done|]. split; [lia|]. intros j Hj. lia.
    + intros (_ & Hk & _). by replace k with 0 by lia.
  - apply starts_with_false in E. split; [done|]. intros (H & Hk & _).
    by replace k with 0 in H by lia.
  - apply starts_with_spec in E. split.
    + intros [= <-]. split; [done|]. split; [lia|]. intros j Hj. lia.
    + intros (_ & Hk & Hmax). destruct (decide (k = S i)); [congruence|].
      exfalso. apply (Hmax (S i)); [lia|done].
  - apply starts_with_false in E. rewrite IH. split.
    + intros (H & Hk & Hmax). split; [done|]. split; [lia|]. intros j Hj.
      destruct (decide (j = S i)) as [->|]; [done|]. apply Hmax. lia.
    + intros (H & Hk & Hmax). destruct (decide (k = S i)) as [->|]; [done|].
      split; [done|]. split; [lia|]. intros j Hj. apply Hmax. lia.
Qed.

Lemma rfind_down_None p s i :
  rfind_down p s i = None ↔ ∀ j, j <= i → ¬ occurs p s j.
Proof.
  induction i as [|i IH]; simpl; destruct (starts_with p _) eqn:E.
  - apply starts_with_spec in E. split; [done|]. intros H. by destruct (H 0).
  - apply starts_with_false in E. split; [|done]. intros _ j Hj.
    by replace j with 0 by lia.
  - apply starts_with_spec in E. split; [done|]. intros H. by destruct (H (S i)).
  - apply starts_with_false in E. rewrite IH. split; [|eauto with lia].
    intros H j Hj. destruct (decide (j = S i)) as [->|]; [done|]. apply H. lia.
Qed.

Lemma rfind_Some p s pos k :
  p ≠ [] → rfind p s pos = Some k ↔
  occurs p s k ∧ k <= pos ∧ ∀ j, k < j <= pos → ¬ occurs p s j.
Proof.
  intros Hp. unfold rfind. case_decide as Hl.
  - rewrite rfind_down_Some. split.
    + intros (H & Hk & Hmax). split; [done|]. split; [lia|]. intros j Hj Ho.
      pose proof (occurs_lt _ _ _ Hp Ho). apply (Hmax j); [lia|done].
    + intros (H & Hk & Hmax). pose proof (occurs_lt _ _ _ Hp H).
      split; [done|]. split; [lia|]. intros j Hj. apply Hmax. lia.
  - split; [done|]. intros (H & _). apply occurs_lt in H; [lia|done].
Qed.

Lemma rfind_None p s pos :
  p ≠ [] → rfind p s pos = None ↔ ∀ j, j <= pos → ¬ occurs p s j.
Proof.
  intros Hp. unfold rfind. case_decide as Hl.
  - rewrite rfind_down_None. split; [|eauto with lia]. intros H j Hj Ho.
    pose proof (occurs_lt _ _ _ Hp Ho). apply (H j); [lia|done].
  - split; [|done]. intros _ j Hj Ho. apply occurs_lt in Ho; [lia|done].
Qed.

Lemma rfind_bound p s pos k :
  p ≠ [] → rfind p s pos = Some k → k + length p <= length s ∧ k <= pos.
Proof.
  intros Hp (H & Hk & _)%rfind_Some; [|done]. split; [|done]. by apply occurs_lt.
Qed.

(** ** A one-character pattern *)

Lemma occurs_char c s i : occurs [c] s i ↔ s !! i = Some c.
Proof.
  unfold occurs. split.
  - intros [r Hr]. apply (f_equal (λ l, l !! 0)) in Hr.
    rewrite lookup_drop, Nat.add_0_r in Hr. done.
  - intros H. exists (drop (S i) s). simpl. by apply drop_S.
Qed.

Lemma rfind_char_none c w rest sp :
  c ∉ w → sp < length w → rfind [c] (w ++ rest) sp = None.
Proof.
  intros Hc Hsp. apply rfind_None; [done|]. intros j Hj Ho%occurs_char.
  rewrite lookup_app_l in Ho by lia. apply Hc. by eapply list_elem_of_lookup_2.
Qed.

Lemma rfind_char_word c Y w rest :
  c ∉ w → rfind [c] (Y ++ c :: w ++ rest) (length Y + length w) = Some (length Y).
Proof.
  intros Hc. apply rfind_Some; [done|]. split; [|split; [lia|]].
  - apply occurs_char. by rewrite list_lookup_middle.
  - intros j Hj Ho%occurs_char.
    rewrite lookup_app_r in Ho by lia.
    destruct (j - length Y) as [|i] eqn:E; [lia|]. simpl in Ho.
    rewrite lookup_app_l in Ho by lia. apply Hc. by eapply list_elem_of_lookup_2.
Qed.

(** ** Decimal numbers *)

Lemma digit_chr_spec d :
  (0 <= d < 10)%Z → is_digit (digit_chr d) = true ∧ digit_val (digit_chr d) = d.
Proof.
  intros Hd. unfold is_digit, digit_val, digit_chr.
  rewrite Ascii.nat_ascii_embedding by lia.
  split; [apply bool_decide_eq_true; lia|lia].
Qed.

Lemma digits_val_snoc ds c : digits_val (ds ++ [c]) = (digits_val ds * 10 + digit_val c)%Z.
Proof. unfold digits_val. by rewrite foldl_app. Qed.

Lemma to_digits_spec fuel n acc :
  (0 <= n < 10 ^ Z.of_nat fuel)%Z → fuel ≠ 0 →
  ∃ ds, to_digits fuel n acc = ds ++ acc ∧ ds ≠ [] ∧
    forallb is_digit ds = true ∧ digits_val ds = n.
Proof.
  revert n acc. induction fuel as [|fuel IH]; intros n acc Hn Hf; [done|]. simpl.
  destruct (digit_chr_spec (n `mod` 10)) as [Hd Hv]; [apply Z.mod_pos_bound; lia|].
  case_decide as Hlt.
  - exists [digit_chr (n `mod` 10)]. simpl. rewrite Hd. split; [done|].
    split; [done|]. split; [done|]. unfold digits_val. simpl. rewrite Hv.
    rewrite Z.mod_small by lia. lia.
  - assert (fuel ≠ 0) by (intros ->; simpl in Hn; lia).
    rewrite Nat2Z.inj_succ, Z.pow_succ_r in Hn by lia.
    destruct (IH (n `div` 10)%Z (digit_chr (n `mod` 10) :: acc)) as (ds & -> & Hne & Hds & Hval).
    { split; [apply Z.div_pos; lia|apply Z.div_lt_upper_bound; lia]. }
    { done. }
    exists (ds ++ [digit_chr (n `mod` 10)]). rewrite <-app_assoc. split; [done|].
    split; [by destruct ds|]. rewrite forallb_app, digits_val_snoc, Hds, Hval. simpl.
    rewrite Hd, Hv. split; [done|]. pose proof (Z.div_mod n 10). lia.
Qed.

Lemma to_string_digits n :
  (0 <= n < 10 ^ 20)%Z →
  to_string n ≠ [] ∧ forallb is_digit (to_string n) = true ∧ digits_val (to_string n) = n.
Proof.
  intros Hn. destruct (to_digits_spec 20 n []) as (ds & E & Hne & Hds & Hv); [done|done|].
  unfold to_string. rewrite E, app_nil_r. done.
Qed.

Lemma span_all f s : forallb f s = true → span f s = (s, []).
Proof.
  induction s as [|c s IH]; simpl; [done|]. intros [-> Hs]%andb_true_iff.
  by rewrite IH.
Qed.

Lemma digit_not_space c : is_digit c = true → is_space c = false.
Proof. destruct c as [[] [] [] [] [] [] [] []]; vm_compute; congruence. Qed.

Lemma digit_not_sign c : is_digit c = true → c ≠ "+"%char ∧ c ≠ "-"%char.
Proof. intros H. split; intros ->; discriminate. Qed.

Lemma span_head_false f c s : f c = false → span f (c :: s) = ([], c :: s).
Proof. simpl. by intros ->. Qed.

(** On a non-empty run of digits [stoi] is the decimal value, when it fits. *)
Lemma stoi_digits s :
  s ≠ [] → forallb is_digit s = true →
  stoi s = if decide (digits_val s < 2 ^ 31)%Z then inr (digits_val s)
           else inl (Throw out_of_range).
Proof.
  intros Hne Hs. destruct s as [|c s]; [done|].
  assert (is_digit c = true) as Hc by (simpl in Hs; by apply andb_true_iff in Hs as [? _]).
  unfold stoi. rewrite (span_head_false is_space) by by apply digit_not_space. simpl.
  destruct (digit_not_sign _ Hc) as [Hp Hm].
  assert (0 <= digits_val (c :: s))%Z as Hpos.
  { clear -Hs. induction (c :: s) as [|d l IH] using rev_ind; [done|].
    rewrite forallb_app in Hs. apply andb_true_iff in Hs as [Hl Hd].
    rewrite digits_val_snoc. specialize (IH Hl). simpl in Hd.
    rewrite andb_true_r in Hd. unfold is_digit in Hd.
    apply bool_decide_eq_true in Hd. unfold digit_val. lia. }
  assert ((match c with
           | "+"%char => (1%Z, s) | "-"%char => ((-1)%Z, s) | _ => (1%Z, c :: s) end)
          = (1%Z, c :: s)) as ->.
  { destruct c as [[] [] [] [] [] [] [] []]; congruence. }
  rewrite span_all by done. cbn [fst].
  rewrite Z.mul_1_l. repeat case_decide; (done || lia).
Qed.

Lemma stoi_to_string n : (0 <= n < 2 ^ 31)%Z → stoi (to_string n) = inr n.
Proof.
  intros Hn. destruct (to_string_digits n) as (Hne & Hds & Hv); [lia|].
  rewrite stoi_digits by done. rewrite Hv. by rewrite decide_True by lia.
Qed.

(** ** Hexadecimal *)

Lemma hex_chr_facts d :
  (0 <= d < 16)%Z → is_hex_digit (hex_chr d) = true ∧ hex_digit_val (hex_chr d) = d.
Proof.
  intros H. assert (d = 0 ∨ d = 1 ∨ d = 2 ∨ d = 3 ∨ d = 4 ∨ d = 5 ∨ d = 6 ∨ d = 7 ∨ d = 8 ∨ d = 9 ∨
    d = 10 ∨ d = 11 ∨ d = 12 ∨ d = 13 ∨ d = 14 ∨ d = 15)%Z as Hd by lia.
  by repeat destruct Hd as [-> |Hd]; subst.
Qed.

Lemma to_hex_digits_spec fuel : ∀ n acc,
  (0 <= n < 16 ^ Z.of_nat fuel)%Z → 0 < fuel →
  ∃ ds, to_hex_digits fuel n acc = ds ++ acc ∧ 0 < length ds <= fuel ∧
    forallb is_hex_digit ds = true ∧ hex_val ds = n.
Proof.
  induction fuel as [|fuel IH]; intros n acc Hn Hf; [lia|]. cbn [to_hex_digits].
  destruct (hex_chr_facts (n `mod` 16)) as [Hd Hv]; [apply Z.mod_pos_bound; lia|].
  case_decide as Hs.
  - exists [hex_chr (n `mod` 16)]. cbn [forallb length]. rewrite Hd. split; [done|].
    split; [lia|]. split; [done|]. unfold hex_val. cbn [foldl]. rewrite Hv, Z.mod_small; lia.
  - destruct fuel as [|fuel]; [cbn in Hn; lia|].
    destruct (IH (n `div` 16)%Z (hex_chr (n `mod` 16) :: acc)) as (ds & -> & Hl & Hh & Hval).
    { split; [apply Z.div_pos; lia|]. apply Z.div_lt_upper_bound; [lia|].
      rewrite (Nat2Z.inj_succ (S fuel)), Z.pow_succ_r in Hn by lia. lia. }
    { lia. }
    exists (ds ++ [hex_chr (n `mod` 16)]). split; [by rewrite <-app_assoc|].
    split; [rewrite length_app; simpl; lia|]. split.
    + rewrite forallb_app, Hh. cbn. by rewrite Hd.
    + unfold hex_val in *. rewrite foldl_app, Hval. cbn [foldl]. rewrite Hv.
      pose proof (Z.div_mod n 16). lia.
Qed.

(** What is printed reads back; hence different numbers print differently. *)
Lemma to_hex_facts n :
  (0 <= n < 2 ^ 64)%Z →
  hex_val (to_hex n) = n ∧ forallb is_hex_digit (to_hex n) = true ∧ 0 < length (to_hex n) <= 16.
Proof.
  intros Hn. destruct (to_hex_digits_spec 16 n []) as (ds & E & Hl & Hh & Hv); [lia|lia|].
  unfold to_hex. rewrite E, app_nil_r. done.
Qed.

Lemma to_hex_inj n m :
  (0 <= n < 2 ^ 64)%Z → (0 <= m < 2 ^ 64)%Z → to_hex n = to_hex m ↔ n = m.
Proof.
  intros Hn Hm. split; [|by intros ->]. intros E.
  destruct (to_hex_facts n Hn) as [<- _], (to_hex_facts m Hm) as [<- _]. by rewrite E.
Qed.
