(* ===== verification/StringHelper.v ===== *)
(** * [StringHelper] and [JSON] of lib/http/httpparser.hpp *)
From S2P Require Export CppString.
From stdpp Require Import options.

Module StringHelper.

(** ** Operations *)

(** Destructive [split(StringRef, Delimiter, ResultRef)]: the [while] loop with
    an explicit step budget; [None] is an exhausted budget. The result is the
    pair of the final [StringRef] and [ResultRef]. *)
Fixpoint split_loop (fuel : nat) (StringRef Delimiter : bytes)
    (ResultRef : list bytes) : option (bytes * list bytes) :=
  match fuel with
  | O => None
  | S fuel =>
      match find Delimiter StringRef with
      | None => Some (StringRef, ResultRef)
      | Some pos =>
          split_loop fuel (drop (pos + length Delimiter) StringRef) Delimiter
            (ResultRef ++ [substr StringRef 0 pos])
      end
  end.

(** Each round removes at least the delimiter, so one step more than the bytes
    of the string is enough (lemma [split_total]). *)
Definition split (StringRef Delimiter : bytes) (ResultRef : list bytes) :
    bytes * list bytes :=
  default (StringRef, ResultRef)
    (split_loop (S (length StringRef)) StringRef Delimiter ResultRef).

(** Non-destructive [split(sv, delim, out)]: the [for] loop consumes [sv] and
    what is left at the end is one more slice unless it is empty. *)
Fixpoint split_view_loop (fuel : nat) (sv delim : bytes) (out : list bytes) :
    option (list bytes) :=
  match fuel with
  | O => None
  | S fuel =>
      match find delim sv with
      | Some pos =>
          split_view_loop fuel (drop (pos + length delim) sv) delim
            (out ++ [substr sv 0 pos])
      | None => Some (if decide (sv = []) then out else out ++ [sv])
      end
  end.

Definition split_view (sv delim : bytes) (out : list bytes) : list bytes :=
  default out (split_view_loop (S (length sv)) sv delim out).

(** The [while] loop of [rsplit]; the result is [FindPosLast] and
    [ResultRef]. *)
Fixpoint rsplit_loop (fuel : nat) (String Delimiter : bytes)
    (StartPos FindPosLast : nat) (ResultRef : list bytes) : option (nat * list bytes) :=
  match fuel with
  | O => None
  | S fuel =>
      match rfind Delimiter String StartPos with
      | None => Some (FindPosLast, ResultRef)
      | Some FindPos =>
          let ResultRef' :=
            ResultRef ++ [substr String (FindPos + length Delimiter) (StartPos - FindPos)] in
          if decide (FindPos < length Delimiter) then Some (FindPos, ResultRef')
          else rsplit_loop fuel String Delimiter (FindPos - length Delimiter)
                 FindPos ResultRef'
      end
  end.

Definition rsplit (String : bytes) (StartPos : nat) (Delimiter : bytes)
    (ResultRef : list bytes) : list bytes :=
  if decide (StartPos < length Delimiter) then ResultRef ++ [substr String 0 StartPos]
  else
    let StartPos' := StartPos - length Delimiter in
    match rsplit_loop (S StartPos') String Delimiter StartPos' 0 ResultRef with
    | None => ResultRef
    | Some (FindPosLast, ResultRef') => ResultRef' ++ [substr String 0 FindPosLast]
    end.

Definition is_digits (checkdigits : bytes) : bool := forallb is_digit checkdigits.

(** ** Specification vocabulary *)

(** [join d ts] writes the delimiter after every token. *)
Definition join (d : bytes) (ts : list bytes) : bytes := concat (map (λ t, t ++ d) ts).

(** Writes the delimiter between consecutive tokens. *)
Fixpoint intercalate (d : bytes) (ts : list bytes) : bytes :=
  match ts with
  | [] => []
  | [t] => t
  | t :: ts => t ++ d ++ intercalate d ts
  end.

Lemma intercalate_cons d t u ts :
  intercalate d (t :: u :: ts) = t ++ d ++ intercalate d (u :: ts).
Proof. done. Qed.

Lemma intercalate_snoc d ts t :
  ts ≠ [] → intercalate d (ts ++ [t]) = intercalate d ts ++ d ++ t.
Proof.
  induction ts as [|u ts IH]; [done|]. intros _.
  destruct ts as [|v ts]; simpl in *; [done|].
  rewrite IH by done. by rewrite <-!app_assoc.
Qed.

(** ** Destructive split *)

Lemma split_loop_acc fuel s d out :
  split_loop fuel s d out =
  (λ r : bytes * list bytes, (r.1, out ++ r.2)) <$> split_loop fuel s d [].
Proof.
  revert s out. induction fuel as [|fuel IH]; intros s out; simpl; [done|].
  destruct (find d s) as [pos|]; simpl; [|by rewrite app_nil_r].
  rewrite IH. rewrite (IH _ [_]).
  destruct (split_loop fuel _ d []) as [[r ts]|]; simpl; [|done].
  by rewrite <-app_assoc.
Qed.

Lemma split_loop_fuel s d out f1 :
  d ≠ [] → length s < f1 →
  ∃ r, split_loop f1 s d out = Some r ∧ ∀ f2, length s < f2 → split_loop f2 s d out = Some r.
Proof.
  intros Hd. revert s out. induction f1 as [|f1 IH]; intros s out Hf; [lia|].
  simpl. destruct (find d s) as [pos|] eqn:E.
  - pose proof (find_bound _ _ _ Hd E) as Hb.
    pose proof (nonempty_length d Hd).
    destruct (IH (drop (pos + length d) s) (out ++ [substr s 0 pos])) as (r & Hr & Hall).
    { rewrite length_drop. lia. }
    exists r. split; [done|]. intros [|f2] Hf2; [lia|]. simpl. rewrite E.
    apply Hall. rewrite length_drop. lia.
  - eexists. split; [done|]. intros [|f2] Hf2; [lia|]. simpl. by rewrite E.
Qed.

Lemma split_total s d out fuel :
  d ≠ [] → length s < fuel → split_loop fuel s d out = Some (split s d out).
Proof.
  intros Hd Hf. unfold split.
  destruct (split_loop_fuel s d out (S (length s)) Hd) as (r & Hr & Hall); [lia|].
  rewrite (Hall _ Hf), Hr. done.
Qed.

(** The loop's equation. *)
Lemma split_unfold s d out :
  d ≠ [] →
  split s d out =
  match find d s with
  | None => (s, out)
  | Some pos => split (drop (pos + length d) s) d (out ++ [take pos s])
  end.
Proof.
  intros Hd. unfold split at 1. simpl.
  destruct (find d s) as [pos|] eqn:E; [|done].
  pose proof (find_bound _ _ _ Hd E).
  pose proof (nonempty_length d Hd).
  rewrite split_total; [done|done|]. rewrite length_drop. lia.
Qed.

Lemma split_acc s d out :
  d ≠ [] → split s d out = ((split s d []).1, out ++ (split s d []).2).
Proof.
  intros Hd. unfold split. rewrite split_loop_acc.
  destruct (split_loop_fuel s d [] (S (length s)) Hd) as (r & -> & _); [lia|]. done.
Qed.

(** Induction along the loop. *)
Lemma split_ind (d : bytes) (Hd : d ≠ []) (P : bytes → Prop) :
  (∀ s, find d s = None → P s) →
  (∀ s pos, find d s = Some pos → P (drop (pos + length d) s) → P s) →
  ∀ s, P s.
Proof.
  intros H1 H2 s. remember (length s) as n eqn:E.
  revert s E. induction (lt_wf n) as [n _ IH]. intros s ->.
  destruct (find d s) as [pos|] eqn:E; [|by apply H1].
  pose proof (find_bound _ _ _ Hd E).
  pose proof (nonempty_length d Hd).
  apply (H2 s pos E). eapply IH; [|done]. rewrite length_drop. lia.
Qed.

Lemma join_app d ts us : join d (ts ++ us) = join d ts ++ join d us.
Proof. unfold join. by rewrite map_app, concat_app. Qed.

Lemma join_cons d t ts : join d (t :: ts) = t ++ d ++ join d ts.
Proof. unfold join. simpl. by rewrite app_assoc. Qed.

(** Nothing is lost: tokens and delimiters, then the remainder. *)
Lemma split_join s d : d ≠ [] → join d (split s d []).2 ++ (split s d []).1 = s.
Proof.
  intros Hd. induction s as [s E|s pos E IH] using (split_ind d Hd);
    rewrite split_unfold, E by done; simpl; [done|].
  rewrite split_acc by done. simpl. rewrite join_cons, <-!app_assoc, IH.
  symmetry. by apply find_split.
Qed.

Lemma split_tokens_free s d : d ≠ [] → Forall (λ t, find d t = None) (split s d []).2.
Proof.
  intros Hd. induction s as [s E|s pos E IH] using (split_ind d Hd);
    rewrite split_unfold, E by done; simpl; [constructor|].
  rewrite split_acc by done. simpl. constructor; [|done]. by apply find_take_None.
Qed.

Lemma split_rest_free s d : d ≠ [] → find d (split s d []).1 = None.
Proof.
  intros Hd. induction s as [s E|s pos E IH] using (split_ind d Hd);
    rewrite split_unfold, E by done; simpl; [done|].
  by rewrite split_acc.
Qed.

(** Splitting is incremental. *)
Lemma split_stream x y d :
  d ≠ [] →
  split (x ++ y) d [] =
  ((split ((split x d []).1 ++ y) d []).1,
   (split x d []).2 ++ (split ((split x d []).1 ++ y) d []).2).
Proof.
  intros Hd. induction x as [x E|x pos E IH] using (split_ind d Hd).
  - rewrite (split_unfold x), E by done. simpl. by destruct (split (x ++ y) d []).
  - rewrite (split_unfold (x ++ y)), (find_app _ _ _ _ Hd E) by done.
    pose proof (find_bound _ _ _ Hd E).
    rewrite drop_app_le, take_app_le by lia.
    rewrite split_acc, IH by done.
    rewrite (split_unfold x), E by done.
    rewrite (split_acc _ d (_ ++ _)) by done. simpl. done.
Qed.

Lemma split_none s d out : d ≠ [] → find d s = None → split s d out = (s, out).
Proof. intros Hd E. by rewrite split_unfold, E. Qed.

(** A token that ends at the first delimiter is split off whole. *)
Lemma split_token t s d :
  d ≠ [] → find d (t ++ d) = Some (length t) →
  split (t ++ d ++ s) d [] = ((split s d []).1, t :: (split s d []).2).
Proof.
  intros Hd E. rewrite app_assoc. rewrite split_unfold by done.
  rewrite (find_app _ _ _ _ Hd E).
  rewrite <-length_app, drop_app_length.
  rewrite <-app_assoc, take_app_length. by rewrite split_acc.
Qed.

Lemma split_join_inv ts r d :
  d ≠ [] → Forall (λ t, find d (t ++ d) = Some (length t)) ts → find d r = None →
  split (join d ts ++ r) d [] = (r, ts).
Proof.
  intros Hd Hts Hr. induction Hts as [|t ts Ht _ IH]; simpl.
  - by apply split_none.
  - rewrite join_cons, <-!app_assoc, split_token, IH by done. done.
Qed.

(** ** Non-destructive split *)

Lemma split_view_loop_spec fuel s d out :
  d ≠ [] → length s < fuel →
  split_view_loop fuel s d out =
  Some (let '(r, ts) := split s d out in if decide (r = []) then ts else ts ++ [r]).
Proof.
  intros Hd. revert s out. induction fuel as [|fuel IH]; intros s out Hf; [lia|].
  simpl. rewrite split_unfold by done. destruct (find d s) as [pos|] eqn:E; [|done].
  pose proof (find_bound _ _ _ Hd E).
  pose proof (nonempty_length d Hd).
  rewrite IH; [done|]. rewrite length_drop. lia.
Qed.

(** The two overloads agree: the slices are the tokens, and the remainder when
    it is not empty. *)
Lemma split_view_spec s d :
  d ≠ [] →
  split_view s d [] =
  (split s d []).2 ++ (if decide ((split s d []).1 = []) then [] else [(split s d []).1]).
Proof.
  intros Hd. unfold split_view. rewrite split_view_loop_spec by (done || lia). simpl.
  destruct (split s d []) as [r ts]; simpl.
  case_decide; [by rewrite app_nil_r|done].
Qed.

Lemma intercalate_join d ts t : intercalate d (ts ++ [t]) = join d ts ++ t.
Proof.
  induction ts as [|u ts IH]; [done|]. rewrite join_cons, <-!app_assoc, <-IH.
  by destruct ts.
Qed.

(** Character-separated non-empty items are the slices of their text. *)
Lemma split_view_items c items :
  Forall (λ t, t ≠ [] ∧ c ∉ t) items →
  split_view (intercalate [c] items) [c] [] = items.
Proof.
  intros Hi. rewrite split_view_spec by done.
  destruct items as [|t ts _] using rev_ind; [done|].
  apply Forall_app in Hi as [Hts [[Ht Hc] _]%Forall_cons].
  rewrite intercalate_join, split_join_inv; [|done| |by apply find_char_None].
  - simpl. by rewrite decide_False.
  - eapply Forall_impl; [exact Hts|]. intros u [_ Hu]. by apply find_char_app.
Qed.

(** ** rsplit *)

Lemma rsplit_loop_total fuel s d sp fl out :
  d ≠ [] → sp < fuel → is_Some (rsplit_loop fuel s d sp fl out).
Proof.
  intros Hd. revert sp fl out. induction fuel as [|fuel IH]; intros sp fl out Hf; [lia|].
  simpl. destruct (rfind d s sp) as [k|] eqn:E; [|done].
  destruct (rfind_bound _ _ _ _ Hd E).
  pose proof (nonempty_length d Hd).
  case_decide; [done|]. apply IH. lia.
Qed.

(** One round of the loop cuts the segment behind the last delimiter: the
    text up to [sp + |d|] is rebuilt from the text before the delimiter. *)
Lemma rsplit_cut s d sp k :
  d ≠ [] → sp + length d <= length s → rfind d s sp = Some k →
  take (sp + length d) s = take k s ++ d ++ substr s (k + length d) (sp - k).
Proof.
  intros Hd Hl E. destruct (rfind_bound _ _ _ _ Hd E) as [Hk Hksp].
  apply rfind_Some in E as (Ho & _ & _); [|done].
  rewrite (occurs_split _ _ _ Ho) at 1.
  rewrite take_app_ge by (rewrite length_take; lia).
  rewrite length_take, Nat.min_l by lia. f_equal.
  rewrite take_app_ge by lia. f_equal. unfold substr. f_equal. lia.
Qed.

Lemma rsplit_loop_join fuel s d sp fl out r segs :
  d ≠ [] → sp + length d <= length s →
  rsplit_loop fuel s d sp fl out = Some (r, segs) →
  ∃ new, segs = out ++ new ∧
    (new = [] ∧ r = fl ∨
     new ≠ [] ∧ take (sp + length d) s = take r s ++ d ++ intercalate d (reverse new)).
Proof.
  intros Hd. revert sp fl out. induction fuel as [|fuel IH]; intros sp fl out Hl; simpl; [done|].
  destruct (rfind d s sp) as [k|] eqn:E.
  2:{ intros [= -> ->]. exists []. rewrite app_nil_r. split; [done|]. by left. }
  pose proof (rsplit_cut _ _ _ _ Hd Hl E) as Hcut.
  destruct (rfind_bound _ _ _ _ Hd E) as [Hk Hksp].
  case_decide as Hlt.
  - intros [= <- <-]. eexists. split; [done|]. right. split; [done|]. done.
  - intros H. apply IH in H as (new & -> & Hnew); [|lia].
    rewrite Nat.sub_add in Hnew by lia.
    set (seg := substr s (k + length d) (sp - k)) in *.
    exists (seg :: new). rewrite <-app_assoc. split; [done|]. right. split; [done|].
    rewrite Hcut, reverse_cons. destruct Hnew as [[-> ->]|[Hne ->]]; [done|].
    rewrite <-!app_assoc. do 2 f_equal.
    by rewrite intercalate_snoc by auto with cpp.
Qed.

(** With at least one delimiter in the searched range, [rsplit] is the reverse
    of the list whose interleaving with the delimiter is the searched text. *)
Lemma rsplit_join s sp d :
  d ≠ [] → sp <= length s → length d <= sp → is_Some (rfind d s (sp - length d)) →
  intercalate d (reverse (rsplit s sp d [])) = take sp s.
Proof.
  intros Hd Hl Hsp [k Hk]. unfold rsplit. rewrite decide_False by lia.
  destruct (rsplit_loop_total (S (sp - length d)) s d (sp - length d) 0 [] Hd)
    as [[r segs] E]; [lia|].
  rewrite E. pose proof E as E2.
  apply rsplit_loop_join in E as (new & Hsegs & Hnew); [|done|lia].
  simpl in Hsegs. subst segs. destruct Hnew as [[-> _]|[Hne Hj]].
  { simpl in E2. rewrite Hk in E2. case_decide; [done|].
    apply rsplit_loop_join in E2 as (new & Hnew & _); [|done|].
    - by destruct new.
    - destruct (rfind_bound _ _ _ _ Hd Hk). lia. }
  rewrite reverse_app. simpl. rewrite Nat.sub_add in Hj by lia. rewrite Hj.
  apply reverse_nonempty in Hne. unfold substr. rewrite drop_0.
  by destruct (reverse new).
Qed.

Lemma rsplit_no_delim s sp d :
  d ≠ [] → length d <= sp → rfind d s (sp - length d) = None →
  rsplit s sp d [] = [[]].
Proof.
  intros Hd Hsp E. unfold rsplit. rewrite decide_False by lia. simpl. by rewrite E.
Qed.

(** *** A one-character delimiter: [rsplit] inverts [intercalate] *)

Lemma rsplit_loop_words c rest ws w fuel sp fl out :
  Forall (λ t, c ∉ t) (w :: ws) →
  S sp = length (intercalate [c] (reverse (w :: ws))) →
  sp < fuel →
  (ws = [] → fl = S sp) →
  let s := intercalate [c] (reverse (w :: ws)) ++ rest in
  ∃ r segs, rsplit_loop fuel s [c] sp fl out = Some (r, segs) ∧
    segs ++ [substr s 0 r] = out ++ w :: ws.
Proof.
  revert w fuel sp fl out rest.
  induction ws as [|v ws IH]; intros w fuel sp fl out rest Hfree Hsp Hfuel Hfl s;
    (destruct fuel as [|fuel]; [lia|]); simpl; apply Forall_cons in Hfree as [Hw Hws].
  - subst s. change (intercalate [c] (reverse [w])) with w in *.
    rewrite Hfl by done. rewrite rfind_char_none by (done || lia).
    eexists _, _. split; [done|]. unfold substr. rewrite drop_0.
    by rewrite Hsp, take_app_length.
  - set (Y := intercalate [c] (reverse (v :: ws))).
    assert (intercalate [c] (reverse (w :: v :: ws)) = Y ++ c :: w) as HX.
    { unfold Y. rewrite (reverse_cons _ w), intercalate_snoc; [done|].
      auto with cpp. }
    unfold s. rewrite HX in Hsp |- *. rewrite length_app in Hsp. simpl in Hsp.
    replace sp with (length Y + length w) by lia. rewrite <-app_assoc. simpl.
    rewrite rfind_char_word by done.
    assert (substr (Y ++ c :: w ++ rest) (length Y + 1) (length Y + length w - length Y) = w) as ->.
    { unfold substr. replace (Y ++ c :: w ++ rest) with ((Y ++ [c]) ++ w ++ rest)
        by by rewrite <-app_assoc.
      rewrite drop_app_length' by (rewrite length_app; simpl; lia).
      by rewrite take_app_length' by lia. }
    case_decide as Hk.
    + assert (v :: ws = [[]]) as ->.
      { destruct Y eqn:HY; [|simpl in Hk; lia]. unfold Y in HY. clear -HY.
        destruct ws as [|u ws].
        - simpl in HY. by rewrite HY.
        - rewrite reverse_cons, intercalate_snoc in HY by auto with cpp.
          by apply app_nil in HY as [_ ?]. }
      eexists _, _. split; [done|]. rewrite <-app_assoc. simpl.
      by replace (length Y) with 0 by lia.
    + destruct (IH v fuel (length Y - 1) (length Y) (out ++ [w]) (c :: w ++ rest))
        as (r & segs & E & Hsegs); [done|fold Y; lia|lia|lia|].
      fold Y in E, Hsegs. eexists _, _. split; [exact E|].
      rewrite Hsegs, <-app_assoc. done.
Qed.

Lemma rsplit_words c ws rest :
  1 < length ws → Forall (λ t, c ∉ t) ws →
  rsplit (intercalate [c] ws ++ rest) (length (intercalate [c] ws)) [c] [] = reverse ws.
Proof.
  intros Hlen Hfree. rewrite <-(reverse_involutive ws) in Hlen, Hfree |- *.
  destruct (reverse ws) as [|w us]; [simpl in Hlen; lia|].
  rewrite length_reverse in Hlen. simpl in Hlen.
  rewrite Forall_reverse in Hfree. rewrite reverse_involutive.
  set (X := intercalate [c] (reverse (w :: us))).
  assert (0 < length X) as HX.
  { unfold X. rewrite reverse_cons, intercalate_snoc, !length_app; [simpl; lia|].
    apply reverse_nonempty. destruct us; simpl in Hlen; [lia|done]. }
  unfold rsplit. rewrite decide_False by (simpl; lia). change (length [c]) with 1.
  destruct (rsplit_loop_words c rest us w (S (length X - 1)) (length X - 1) 0 [])
    as (r & segs & E & Hsegs).
  { done. }
  { fold X. lia. }
  { lia. }
  { intros ->. simpl in Hlen. lia. }
  fold X in E, Hsegs. fold X. cbv zeta. rewrite E. done.
Qed.

End StringHelper.

Module JSON.
Import StringHelper.

(** ** Operations *)

Definition DQ : ascii := "034"%char.

(** The text of one pair: a space, the quoted key, a colon, the quoted value. *)
Definition pair_text (ParamPair : bytes * bytes) : bytes :=
  [" "%char; DQ] ++ ParamPair.1 ++ [DQ; ":"%char; " "%char; DQ] ++ ParamPair.2 ++ [DQ].

(** The range-based loop, [i] being the 16-bit counter; [n] is
    [URLParamsMap.size()]. *)
Fixpoint pairs_loop (n : Z) (i : Z) (pairs : list (bytes * bytes)) (JSONPayload : bytes) : bytes :=
  match pairs with
  | [] => JSONPayload
  | p :: pairs =>
      let JSONPayload := JSONPayload ++ pair_text p in
      let JSONPayload :=
        if decide (i ≠ u64 (n - 1)) then JSONPayload ++ [","%char] else JSONPayload in
      pairs_loop n (u16 (i + 1)) pairs JSONPayload
  end.

Definition payload_open : bytes := str "{ " ++ [DQ] ++ str "payload" ++ [DQ] ++ str ": {".
Definition payload_close : bytes := str " }}".

Definition URLParamsMap2JSON (iter : gmap bytes bytes → list (bytes * bytes))
    (URLParamsMap : gmap bytes bytes) : bytes :=
  pairs_loop (Z.of_nat (size URLParamsMap)) 0 (iter URLParamsMap) payload_open
    ++ payload_close.

(** ** Lemmas *)

Lemma iter_length iter `{!IterOrder iter} m : length (iter m) = size m.
Proof. rewrite (iter_perm m). by rewrite length_map_to_list. Qed.

Lemma pairs_loop_commas n i ps acc :
  (0 <= i)%Z → (i + Z.of_nat (length ps) = n)%Z → (n <= 65536)%Z →
  pairs_loop n i ps acc = acc ++ intercalate [","%char] (map pair_text ps).
Proof.
  revert i acc. induction ps as [|p ps IH]; intros i acc Hi Hn Hmax; cbn [pairs_loop map length intercalate] in *.
  { by rewrite app_nil_r. }
  assert (u64 (n - 1) = n - 1)%Z as -> by (apply wrap_id; lia).
  destruct ps as [|q ps].
  - rewrite decide_False by (simpl in Hn; lia). done.
  - cbn [length] in *. rewrite decide_True by lia.
    assert (u16 (i + 1) = i + 1)%Z as -> by (apply wrap_id; lia).
    rewrite IH by lia. by rewrite <-!app_assoc.
Qed.

Lemma pairs_loop_all_commas n i ps acc :
  (0 <= i < 65536)%Z → (65536 < n < 2 ^ 64)%Z →
  pairs_loop n i ps acc = acc ++ join [","%char] (map pair_text ps).
Proof.
  revert i acc. induction ps as [|p ps IH]; intros i acc Hi Hn; cbn [pairs_loop map].
  { by rewrite app_nil_r. }
  assert (u64 (n - 1) = n - 1)%Z as -> by (apply wrap_id; lia).
  rewrite decide_True by lia.
  pose proof (u16_range (i + 1)). rewrite IH by lia.
  by rewrite join_cons, <-!app_assoc.
Qed.

End JSON.
