(* ===== verification/HttpParser.v ===== *)
(** * [HTTPParser] of lib/http/httpparser.cpp

    The parser object is a record; each member function is a computation of
    the state monad over it. *)
From S2P Require Export StringHelper.
From stdpp Require Import options.

(** ** Constants (lib/http/httpconstants.hpp) *)

Definition HTTP_VERSION_UNKNOWN : Z := 0.
Definition HTTP_VERSION_1_1 : Z := 1.
Definition HTTP_METHOD_OTHER : Z := 0.
Definition HTTP_METHOD_GET : Z := 1.
Definition HTTP_METHOD_POST : Z := 2.
Definition HTTP_POST_MAX_CONTENT_LENGTH : Z := 2048.
Definition URL_PARAM_NOT_FOUND_ERROR : Z := 10.
Definition HTTP_ERROR_PARSE_BUFFER_EXCEEDED : Z := 10.
Definition HTTP_ERROR_BAD_REQUEST : Z := 400.
Definition HTTP_1_1_END_MARKER : bytes := CRLF ++ CRLF.
Definition HTTP_HEADER_CONTENT_LENGTH : bytes := str "Content-Length".

(** Like the two error numbers 10, not used by the parser. *)
Definition HTTPHeaderAllowed : list bytes :=
  [str "Host"; str "Transfer-Encoding"; str "If-None-Match"; str "Content-Type";
   HTTP_HEADER_CONTENT_LENGTH].

Module HTTPParser.
Import StringHelper.

(** ** Data *)

Record RequestProperties_t := mkRequest {
  HTTPVersion : Z;
  HTTPMethod : Z;
  RequestHeaders : gmap bytes bytes;
  URL : bytes;
  Payload : bytes;
  URLParams : gmap bytes bytes
}.

Record HTTPParser := mkParser {
  _SplittedRequests : list bytes;
  _RequestParseError : Z;
  _POSTWaitContentLength : bool;
  _POSTContentLength : Z;
  _HTTPRequestBuffer : bytes;
  _HTTPRequestBufferMax : Z;
  _RequestProperties : RequestProperties_t;
  _Requests : list RequestProperties_t
}.

Definition empty_request : RequestProperties_t :=
  mkRequest HTTP_VERSION_UNKNOWN HTTP_METHOD_OTHER ∅ [] [] ∅.

(** [HTTPParser(BufferSize)] *)
Definition init (BufferSize : Z) : HTTPParser :=
  mkParser [] 0 false 0 [] (u16 BufferSize) empty_request [].

(** *** Field updates *)

Definition set_splitted (v : list bytes) (p : HTTPParser) : HTTPParser :=
  mkParser v (_RequestParseError p) (_POSTWaitContentLength p) (_POSTContentLength p)
    (_HTTPRequestBuffer p) (_HTTPRequestBufferMax p) (_RequestProperties p) (_Requests p).
Definition set_error (v : Z) (p : HTTPParser) : HTTPParser :=
  mkParser (_SplittedRequests p) v (_POSTWaitContentLength p) (_POSTContentLength p)
    (_HTTPRequestBuffer p) (_HTTPRequestBufferMax p) (_RequestProperties p) (_Requests p).
Definition set_wait (v : bool) (p : HTTPParser) : HTTPParser :=
  mkParser (_SplittedRequests p) (_RequestParseError p) v (_POSTContentLength p)
    (_HTTPRequestBuffer p) (_HTTPRequestBufferMax p) (_RequestProperties p) (_Requests p).
Definition set_content_length (v : Z) (p : HTTPParser) : HTTPParser :=
  mkParser (_SplittedRequests p) (_RequestParseError p) (_POSTWaitContentLength p) v
    (_HTTPRequestBuffer p) (_HTTPRequestBufferMax p) (_RequestProperties p) (_Requests p).
Definition set_buffer (v : bytes) (p : HTTPParser) : HTTPParser :=
  mkParser (_SplittedRequests p) (_RequestParseError p) (_POSTWaitContentLength p)
    (_POSTContentLength p) v (_HTTPRequestBufferMax p) (_RequestProperties p) (_Requests p).
Definition set_properties (v : RequestProperties_t) (p : HTTPParser) : HTTPParser :=
  mkParser (_SplittedRequests p) (_RequestParseError p) (_POSTWaitContentLength p)
    (_POSTContentLength p) (_HTTPRequestBuffer p) (_HTTPRequestBufferMax p) v (_Requests p).
Definition push_request (r : RequestProperties_t) (p : HTTPParser) : HTTPParser :=
  mkParser (_SplittedRequests p) (_RequestParseError p) (_POSTWaitContentLength p)
    (_POSTContentLength p) (_HTTPRequestBuffer p) (_HTTPRequestBufferMax p)
    (_RequestProperties p) (_Requests p ++ [r]).

Definition with_line (version method : Z) (url : bytes) (r : RequestProperties_t) :=
  mkRequest version method (RequestHeaders r) url (Payload r) (URLParams r).
Definition with_headers (h : gmap bytes bytes) (r : RequestProperties_t) :=
  mkRequest (HTTPVersion r) (HTTPMethod r) h (URL r) (Payload r) (URLParams r).
Definition with_payload (v : bytes) (r : RequestProperties_t) :=
  mkRequest (HTTPVersion r) (HTTPMethod r) (RequestHeaders r) (URL r) v (URLParams r).
Definition with_params (m : gmap bytes bytes) (r : RequestProperties_t) :=
  mkRequest (HTTPVersion r) (HTTPMethod r) (RequestHeaders r) (URL r) (Payload r) m.

(** ** The three parsing functions *)

(** [_parseRequestProperties]: the request line, cut at spaces from the right;
    [false] unless it has exactly three words. *)
Definition _parseRequestProperties (Request : bytes) (props : RequestProperties_t) :
    bool * RequestProperties_t :=
  let StartPos := default (length Request) (find CRLF Request) in
  match rsplit Request StartPos (str " ") [] with
  | [w0; w1; w2] =>
      let version :=
        if decide (is_Some (find (str "HTTP/1.1") w0)) then HTTP_VERSION_1_1
        else HTTPVersion props in
      let method :=
        if decide (is_Some (find (str "GET") w2)) then HTTP_METHOD_GET
        else if decide (is_Some (find (str "POST") w2)) then HTTP_METHOD_POST
        else HTTPMethod props in
      (true, with_line version method w1 props)
  | _ => (false, props)
  end.

(** One line of the header section. *)
Definition header_line (line : bytes) : option (bytes * bytes) :=
  let line :=
    if decide (last line = Some CR) then take (length line - 1) line else line in
  match find (str ": ") line with
  | Some colonSpace =>
      if decide (0 < colonSpace) then
        let value := drop (colonSpace + 2) line in
        if decide (value = []) then None else Some (take colonSpace line, value)
      else None
  | None => None
  end.

Definition add_pair (m : gmap bytes bytes) (kv : option (bytes * bytes)) : gmap bytes bytes :=
  match kv with
  | Some (k, v) => emplace k v m
  | None => m
  end.

(** [_parseRequestHeaders] *)
Definition _parseRequestHeaders (Request : bytes) (ResultRef : gmap bytes bytes) :
    gmap bytes bytes :=
  foldl (λ m line, add_pair m (header_line line)) ResultRef (getlines Request).

(** One parameter-value pair of the query. *)
Definition param_pair (ParamValuePair : bytes) : option (bytes * bytes) :=
  match find (str "=") ParamValuePair with
  | Some pos =>
      if decide (pos ≠ 0 ∧ pos < length ParamValuePair)
      then Some (take pos ParamValuePair, drop (pos + 1) ParamValuePair)
      else None
  | None => None
  end.

(** [_parseGETParameter] *)
Definition _parseGETParameter (RequestURL : bytes) (ResultRef : gmap bytes bytes) :
    gmap bytes bytes :=
  match find (str "?") RequestURL with
  | Some pos =>
      if decide (pos < length RequestURL) then
        foldl (λ m pv, add_pair m (param_pair pv)) ResultRef
          (split_view (drop (pos + 1) RequestURL) (str "&") [])
      else ResultRef
  | None => ResultRef
  end.

(** ** Request processing

    The two builds of the library share the text of everything below and differ
    in how they read headers and query parameters; [Frontend] is what the rest
    of the parser needs from that pair of functions. *)

Class Frontend := {
  parse_headers : bytes → gmap bytes bytes → gmap bytes bytes;
  parse_params : bytes → gmap bytes bytes → gmap bytes bytes
}.

#[export] Instance cpp23 : Frontend := {|
  parse_headers := _parseRequestHeaders;
  parse_params := _parseGETParameter
|}.

Section processing.
Context `{Frontend}.

(** The tail of [_processRequestProperties] for a POST request. *)
Definition processPost (Index : nat) : St HTTPParser bool :=
  p ← get;
  match RequestHeaders (_RequestProperties p) !! HTTP_HEADER_CONTENT_LENGTH with
  | None => mret false
  | Some value =>
      if decide (is_digits value = false) then mret false
      else
        n ← lift (stoi value);
        _ ← modify (set_content_length (u16 n));
        p ← get;
        let len := Z.to_nat (_POSTContentLength p) in
        if decide (_POSTContentLength p > HTTP_POST_MAX_CONTENT_LENGTH)%Z then mret false
        else if decide (length (_SplittedRequests p) = 1) then
          if decide (len <= length (_HTTPRequestBuffer p)) then
            _ ← modify (set_properties
                  (with_payload (take len (_HTTPRequestBuffer p)) (_RequestProperties p)));
            _ ← modify (set_buffer (drop len (_HTTPRequestBuffer p)));
            _ ← modify (λ p, push_request (_RequestProperties p) p);
            mret true
          else
            _ ← modify (set_wait true);
            mret true
        else if decide (Index < length (_SplittedRequests p)) then
          match _SplittedRequests p !! (Index + 1) with
          | None => fail (Throw out_of_range)
          | Some NextRequest =>
              if decide (len <= length NextRequest) then
                _ ← modify (set_properties
                      (with_payload (take len NextRequest) (_RequestProperties p)));
                _ ← modify (set_splitted
                      (<[Index + 1 := drop len NextRequest]> (_SplittedRequests p)));
                _ ← modify (λ p, push_request (_RequestProperties p) p);
                mret true
              else mret false
          end
        else mret true
  end.

(** [_processRequestProperties(Index)] *)
Definition _processRequestProperties (Index : nat) : St HTTPParser bool :=
  p ← get;
  match _SplittedRequests p !! Index with
  | None => fail (Throw out_of_range)
  | Some Request =>
      if decide (Request = []) then mret false
      else
        let default_props :=
          mkRequest HTTP_VERSION_UNKNOWN HTTP_METHOD_OTHER ∅ (str "/") [] ∅ in
        let '(ok, props) := _parseRequestProperties Request default_props in
        _ ← modify (set_properties props);
        if decide (ok = false) then mret false
        else if decide (HTTPVersion props ≠ HTTP_VERSION_1_1) then mret false
        else if decide (HTTPMethod props = HTTP_METHOD_OTHER) then mret false
        else
          let props :=
            with_headers (parse_headers Request (RequestHeaders props)) props in
          _ ← modify (set_properties props);
          if decide (HTTPMethod props = HTTP_METHOD_GET) then
            _ ← modify (set_properties
                  (with_params (parse_params (URL props) (URLParams props)) props));
            _ ← modify (λ p, push_request (_RequestProperties p) p);
            mret true
          else if decide (HTTPMethod props = HTTP_METHOD_POST) then processPost Index
          else mret true
  end.

(** The [for] loop of [_processRequests], [n] rounds before [i] reaches the
    number of tokens; the number of tokens does not change in the loop. *)
Fixpoint process_loop (n : nat) (i : nat) : St HTTPParser () :=
  match n with
  | O => mret ()
  | S n =>
      ok ← _processRequestProperties i;
      if decide (ok = false) then modify (set_error HTTP_ERROR_BAD_REQUEST)
      else process_loop n (S i)
  end.

(** [_processRequests()] *)
Definition _processRequests : St HTTPParser () :=
  p ← get;
  let '(buf, toks) := split (_HTTPRequestBuffer p) HTTP_1_1_END_MARKER (_SplittedRequests p) in
  _ ← modify (set_buffer buf);
  _ ← modify (set_splitted toks);
  process_loop (length toks) 0.

(** [appendBuffer(BufferRef, RecvBytes)]; [RecvBytes] is a [uint16_t], so below
    65536, and at most the number of bytes at [BufferRef]. *)
Definition appendBuffer (BufferRef : bytes) (RecvBytes : nat) : St HTTPParser () :=
  p ← get;
  if decide (Z.of_nat (length (_HTTPRequestBuffer p) + RecvBytes) > _HTTPRequestBufferMax p)%Z
  then mret ()
  else
    _ ← modify (set_buffer (_HTTPRequestBuffer p ++ take RecvBytes BufferRef));
    p ← get;
    let len := Z.to_nat (_POSTContentLength p) in
    if decide (_POSTWaitContentLength p = true ∧ len <= length (_HTTPRequestBuffer p)) then
      _ ← modify (set_properties
            (with_payload (take len (_HTTPRequestBuffer p)) (_RequestProperties p)));
      _ ← modify (set_buffer (drop len (_HTTPRequestBuffer p)));
      _ ← modify (λ p, push_request (_RequestProperties p) p);
      modify (set_wait false)
    else
      _ ← modify (set_splitted []);
      p ← get;
      if decide (is_Some (find HTTP_1_1_END_MARKER (_HTTPRequestBuffer p)))
      then _processRequests
      else mret ().

(** A sequence of receives as the client handler makes them, each handing over
    a whole chunk of less than 65536 bytes; it stops at the first exception. *)
Fixpoint feed (chunks : list bytes) : St HTTPParser () :=
  match chunks with
  | [] => mret ()
  | c :: cs => _ ← appendBuffer c (length c); feed cs
  end.

End processing.

(** [getRequests()] *)
Definition getRequests (p : HTTPParser) : list RequestProperties_t := _Requests p.

(** [getRequestsPtr()] and what the caller does through the pointer: it may
    replace the requests, for instance drop those it has dealt with. *)
Definition getRequestsPtr (f : list RequestProperties_t → list RequestProperties_t) :
    St HTTPParser () :=
  modify (λ p, mkParser (_SplittedRequests p) (_RequestParseError p) (_POSTWaitContentLength p)
    (_POSTContentLength p) (_HTTPRequestBuffer p) (_HTTPRequestBufferMax p)
    (_RequestProperties p) (f (_Requests p))).

End HTTPParser.
