(* ===== verification/HttpConstantsCpp11.v ===== *)
(** * The constants of lib/http/httpconstants-cpp11.hpp

    The legacy build has a header of its own for the constants. The shared
    functions of the two parsers are modelled once (HttpParser.v), with the
    constants of the C++23 build; that the values are the same is the lemma
    below. *)
From S2P Require Import HttpParser.
From stdpp Require Import options.

Definition HTTP_VERSION_UNKNOWN : Z := 0.
Definition HTTP_VERSION_1_1 : Z := 1.
Definition HTTP_METHOD_OTHER : Z := 0.
Definition HTTP_METHOD_GET : Z := 1.
Definition HTTP_METHOD_POST : Z := 2.
Definition HTTP_POST_MAX_CONTENT_LENGTH : Z := 2048.
Definition URL_PARAM_NOT_FOUND_ERROR : Z := 10.
Definition HTTP_ERROR_PARSE_BUFFER_EXCEEDED : Z := 10.
Definition HTTP_ERROR_BAD_REQUEST : Z := 400.
Definition HTTP_1_1_END_MARKER : bytes := CRLF ++ CRLF.
Definition HTTP_HEADER_CONTENT_LENGTH : bytes := str "Content-Length".
Definition HTTPHeaderAllowed : list bytes :=
  [str "Host"; str "Transfer-Encoding"; str "If-None-Match"; str "Content-Type";
   HTTP_HEADER_CONTENT_LENGTH].

Lemma same_constants :
  (HTTP_VERSION_UNKNOWN, HTTP_VERSION_1_1, HTTP_METHOD_OTHER, HTTP_METHOD_GET,
   HTTP_METHOD_POST, HTTP_POST_MAX_CONTENT_LENGTH, URL_PARAM_NOT_FOUND_ERROR,
   HTTP_ERROR_PARSE_BUFFER_EXCEEDED, HTTP_ERROR_BAD_REQUEST, HTTP_1_1_END_MARKER,
   HTTP_HEADER_CONTENT_LENGTH, HTTPHeaderAllowed) =
  (HttpParser.HTTP_VERSION_UNKNOWN, HttpParser.HTTP_VERSION_1_1,
   HttpParser.HTTP_METHOD_OTHER, HttpParser.HTTP_METHOD_GET,
   HttpParser.HTTP_METHOD_POST, HttpParser.HTTP_POST_MAX_CONTENT_LENGTH,
   HttpParser.URL_PARAM_NOT_FOUND_ERROR, HttpParser.HTTP_ERROR_PARSE_BUFFER_EXCEEDED,
   HttpParser.HTTP_ERROR_BAD_REQUEST, HttpParser.HTTP_1_1_END_MARKER,
   HttpParser.HTTP_HEADER_CONTENT_LENGTH, HttpParser.HTTPHeaderAllowed).
Proof. done. Qed.
