(* ===== verification/HttpParserSpec.v ===== *)
(** * Correctness of [HTTPParser]

    What one token of the stream means ([request_head], [get_request]), the
    effect of the member functions in these terms, and the streaming theorems:
    the result of a connection does not depend on how its bytes were cut into
    receives. *)
From S2P Require Export HttpParser.
From stdpp Require Import options.

Module ParserSpec.
Import StringHelper HTTPParser.

Lemma marker_nonempty : HTTP_1_1_END_MARKER ≠ [].
Proof. done. Qed.

(** ** Meaning of a token *)

Section meaning.
Context `{Frontend}.

Definition default_props : RequestProperties_t :=
  mkRequest HTTP_VERSION_UNKNOWN HTTP_METHOD_OTHER ∅ (str "/") [] ∅.

(** The request line and headers of an acceptable token. *)
Definition request_head (tok : bytes) : option RequestProperties_t :=
  if decide (tok = []) then None
  else
    let '(ok, props) := _parseRequestProperties tok default_props in
    if decide (ok = true ∧ HTTPVersion props = HTTP_VERSION_1_1 ∧
               HTTPMethod props ≠ HTTP_METHOD_OTHER)
    then Some (with_headers (parse_headers tok (RequestHeaders props)) props)
    else None.

(** A token that is a complete GET request. *)
Definition get_request (tok : bytes) : option RequestProperties_t :=
  match request_head tok with
  | Some props =>
      if decide (HTTPMethod props = HTTP_METHOD_GET)
      then Some (with_params (parse_params (URL props) (URLParams props)) props)
      else None
  | None => None
  end.

Definition accept (r : RequestProperties_t) (p : HTTPParser) : HTTPParser :=
  push_request r (set_properties r p).

(** ** One token *)

Lemma set_properties_id p : set_properties (_RequestProperties p) p = p.
Proof. by destruct p. Qed.

Lemma parse_line_method tok props ok props' :
  _parseRequestProperties tok props = (ok, props') →
  HTTPMethod props' = HTTPMethod props ∨
  HTTPMethod props' = HTTP_METHOD_GET ∨ HTTPMethod props' = HTTP_METHOD_POST.
Proof. unfold _parseRequestProperties. intros. case_all; simplify_eq/=; case_all; tauto. Qed.

Lemma process_reject p i tok :
  _SplittedRequests p !! i = Some tok → request_head tok = None →
  ∃ props, _processRequestProperties i p = (set_properties props p, inr false).
Proof.
  unfold _processRequestProperties, request_head. run. intros ->. run.
  case_decide; [intros _; exists (_RequestProperties p); by rewrite set_properties_id|].
  fold default_props.
  destruct (_parseRequestProperties tok default_props) as [ok props]; run.
  intros Hno. exists props. destruct ok; [|done]. rewrite decide_False by done.
  destruct (decide (HTTPVersion props ≠ HTTP_VERSION_1_1)) as [|Hv%dec_stable]; [done|].
  destruct (decide (HTTPMethod props = HTTP_METHOD_OTHER)) as [|Hm]; [done|].
  by rewrite decide_True in Hno.
Qed.

(** A token without a three-word first line resets the properties. *)
Lemma process_no_line p i tok :
  _SplittedRequests p !! i = Some tok → tok ≠ [] →
  _parseRequestProperties tok default_props = (false, default_props) →
  _processRequestProperties i p = (set_properties default_props p, inr false).
Proof.
  unfold _processRequestProperties. run. intros -> Hne E. rewrite decide_False by done.
  fold default_props. rewrite E. run. done.
Qed.

Lemma process_head p i tok r :
  _SplittedRequests p !! i = Some tok → request_head tok = Some r →
  _processRequestProperties i p =
  if decide (HTTPMethod r = HTTP_METHOD_GET) then
    (accept (with_params (parse_params (URL r) (URLParams r)) r) p, inr true)
  else processPost i (set_properties r p).
Proof.
  unfold _processRequestProperties, request_head. run. intros ->. run.
  case_decide; [done|]. fold default_props.
  destruct (_parseRequestProperties tok default_props) as [ok props] eqn:E; run.
  intros Hr. case_decide as Hok; [|done]. destruct Hok as (-> & Hv & Hm). simplify_eq.
  rewrite decide_False by done. rewrite decide_False by naive_solver.
  rewrite decide_False by done. run.
  apply parse_line_method in E as [E|[E|E]]; [done| |]; unfold with_headers; simpl.
  - rewrite !decide_True by done. done.
  - rewrite E. done.
Qed.

Lemma process_get p i tok r :
  _SplittedRequests p !! i = Some tok → get_request tok = Some r →
  _processRequestProperties i p = (accept r p, inr true).
Proof.
  unfold get_request. intros Hi Hg. destruct (request_head tok) as [r'|] eqn:E; [|done].
  rewrite (process_head p i tok r') by done. by case_decide; simplify_eq.
Qed.

(** ** A batch of GET requests *)

Lemma accept_splitted r p : _SplittedRequests (accept r p) = _SplittedRequests p.
Proof. done. Qed.

Lemma process_loop_gets rs ts more i p :
  drop i (_SplittedRequests p) = ts ++ more →
  Forall2 (λ t r, get_request t = Some r) ts rs →
  process_loop (length ts + length more) i p =
  process_loop (length more) (i + length ts) (foldl (flip accept) p rs).
Proof.
  intros Hdrop Hrs. revert i p Hdrop.
  induction Hrs as [|t r ts rs Hr _ IH]; intros i p Hdrop; simpl.
  - by rewrite Nat.add_0_r.
  - assert (_SplittedRequests p !! i = Some t) as Hi.
    { apply (f_equal (λ l, l !! 0)) in Hdrop.
      by rewrite lookup_drop, Nat.add_0_r in Hdrop. }
    rewrite (run_bind _ _ _ _ _ (process_get p i t r Hi Hr)). simpl.
    rewrite IH; [by rewrite Nat.add_succ_r|].
    rewrite accept_splitted. by rewrite <-Nat.add_1_r, <-drop_drop, Hdrop.
Qed.

Lemma foldl_accept rs p :
  foldl (flip accept) p rs =
  mkParser (_SplittedRequests p) (_RequestParseError p) (_POSTWaitContentLength p)
    (_POSTContentLength p) (_HTTPRequestBuffer p) (_HTTPRequestBufferMax p)
    (default (_RequestProperties p) (last rs)) (_Requests p ++ rs).
Proof.
  revert p. induction rs as [|r rs IH]; intros p; simpl.
  - rewrite app_nil_r. by destruct p.
  - rewrite IH. simpl. f_equal.
    + rewrite last_cons. by destruct (last rs).
    + by rewrite <-app_assoc.
Qed.

(** ** One receive *)

Definition fits (p : HTTPParser) (c : bytes) : Prop :=
  (Z.of_nat (length (_HTTPRequestBuffer p) + length c) <= _HTTPRequestBufferMax p)%Z.

#[export] Instance fits_dec p c : Decision (fits p c).
Proof. unfold fits. apply _. Defined.

Lemma append_overflow p c n :
  (Z.of_nat (length (_HTTPRequestBuffer p) + n) > _HTTPRequestBufferMax p)%Z →
  appendBuffer c n p = (p, inr ()).
Proof. intros Hf. unfold appendBuffer. run. by rewrite decide_True. Qed.

Lemma append_fits p c :
  fits p c →
  appendBuffer c (length c) p =
  let b := _HTTPRequestBuffer p ++ c in
  let n := Z.to_nat (_POSTContentLength p) in
  if decide (_POSTWaitContentLength p = true ∧ n <= length b) then
    (set_wait false (accept (with_payload (take n b) (_RequestProperties p))
       (set_buffer (drop n b) p)), inr ())
  else
    let '(r, ts) := split b HTTP_1_1_END_MARKER [] in
    process_loop (length ts) 0 (set_splitted ts (set_buffer r p)).
Proof.
  unfold fits. intros Hf. unfold appendBuffer. run. rewrite decide_False by lia.
  rewrite firstn_all. run. simpl. case_decide; [done|]. run. simpl.
  case_decide as Hm; simpl.
  - unfold _processRequests. run. simpl. by destruct (split _ _ _).
  - rewrite split_none; [done|done|]. by apply eq_None_not_Some.
Qed.

(** A receive whose tokens start with GET requests is the loop on the rest. *)
Lemma append_gets p c rest ts more rs :
  _POSTWaitContentLength p = false → fits p c →
  split (_HTTPRequestBuffer p ++ c) HTTP_1_1_END_MARKER [] = (rest, ts ++ more) →
  Forall2 (λ t r, get_request t = Some r) ts rs →
  appendBuffer c (length c) p =
  process_loop (length more) (length ts)
    (foldl (flip accept) (set_splitted (ts ++ more) (set_buffer rest p)) rs).
Proof using Type.
  intros Hw Hf Hs Hrs. rewrite append_fits by done. cbv zeta.
  rewrite decide_False by (rewrite Hw; naive_solver). rewrite Hs, length_app.
  by rewrite (process_loop_gets rs ts more 0).
Qed.

Lemma foldl_accept_next rs ts t more rest p :
  _SplittedRequests
    (foldl (flip accept) (set_splitted (ts ++ t :: more) (set_buffer rest p)) rs)
    !! length ts = Some t.
Proof using Type. rewrite foldl_accept. simpl. by rewrite list_lookup_middle. Qed.

Lemma feed_cons c cs p :
  feed (c :: cs) p =
  match appendBuffer c (length c) p with
  | (p', inl e) => (p', inl e)
  | (p', inr _) => feed cs p'
  end.
Proof. simpl. unfold mbind, St_bind. by destruct (appendBuffer c (length c) p) as [p' [e|[]]]. Qed.

(** ** GET streams *)

(** The state after the bytes [x] of a stream of GET requests. *)
Record get_state (max : Z) (x : bytes) (p : HTTPParser) : Prop := {
  gs_wait : _POSTWaitContentLength p = false;
  gs_error : _RequestParseError p = 0%Z;
  gs_max : _HTTPRequestBufferMax p = u16 max;
  gs_buffer : _HTTPRequestBuffer p = (split x HTTP_1_1_END_MARKER []).1;
  gs_requests :
    Forall2 (λ t r, get_request t = Some r)
      (split x HTTP_1_1_END_MARKER []).2 (_Requests p)
}.

Lemma get_state_init max : get_state max [] (init max).
Proof. split; (done || constructor). Qed.

Lemma split_fst_length s d : d ≠ [] → length (split s d []).1 <= length s.
Proof.
  intros Hd. rewrite <-(split_join s d Hd) at 2. rewrite length_app. lia.
Qed.

Lemma get_state_step max x c p rs :
  get_state max x p →
  (Z.of_nat (length (x ++ c)) <= u16 max)%Z →
  Forall2 (λ t r, get_request t = Some r) (split (x ++ c) HTTP_1_1_END_MARKER []).2 rs →
  ∃ p', appendBuffer c (length c) p = (p', inr ()) ∧ get_state max (x ++ c) p'.
Proof.
  intros [Hw He Hm Hb Hr] Hl Hrs.
  assert (HTTP_1_1_END_MARKER ≠ []) as Hd by done.
  pose proof (split_fst_length x _ Hd) as Hx. rewrite length_app in Hl.
  rewrite append_fits by (unfold fits; rewrite Hb, Hm; lia). cbv zeta.
  rewrite decide_False by (rewrite Hw; naive_solver).
  rewrite split_stream in Hrs by done. rewrite Hb.
  pose proof (split_stream x c _ Hd) as Hs.
  destruct (split ((split x _ []).1 ++ c) _ []) as [r ts]. simpl in *.
  apply Forall2_app_inv_l in Hrs as (rs1 & rs2 & H1 & H2 & ->).
  pose proof (process_loop_gets rs2 ts [] 0 (set_splitted ts (set_buffer r p))) as Hloop.
  rewrite app_nil_r, Nat.add_0_r in Hloop. rewrite Hloop by done.
  eexists. split; [done|]. rewrite foldl_accept.
  split; simpl; rewrite ?Hs; try done. simpl. by apply Forall2_app.
Qed.

Lemma get_state_feed max chunks x p rs :
  get_state max x p →
  (Z.of_nat (length (x ++ concat chunks)) <= u16 max)%Z →
  Forall2 (λ t r, get_request t = Some r)
    (split (x ++ concat chunks) HTTP_1_1_END_MARKER []).2 rs →
  ∃ p', feed chunks p = (p', inr ()) ∧ get_state max (x ++ concat chunks) p'.
Proof.
  revert x p. induction chunks as [|c cs IH]; intros x p Hp Hl Hrs.
  - exists p. simpl in *. by rewrite app_nil_r in *.
  - simpl in Hl, Hrs |- *. rewrite app_assoc in Hl, Hrs |- *.
    assert (∃ rs', Forall2 (λ t r, get_request t = Some r)
      (split (x ++ c) HTTP_1_1_END_MARKER []).2 rs') as [rs' Hrs'].
    { rewrite split_stream in Hrs by done. simpl in Hrs.
      apply Forall2_app_inv_l in Hrs as (rs1 & _ & H1 & _). by exists rs1. }
    destruct (get_state_step max x c p rs') as (p1 & E & Hp1); [done| |done|].
    { rewrite length_app in Hl. lia. }
    rewrite (run_bind _ _ _ _ _ E). by apply IH.
Qed.

(** ** POST requests *)

(** A request head that announces a body of [n] bytes the parser accepts. *)
Record post_head (r : RequestProperties_t) (n : Z) : Prop := {
  ph_method : HTTPMethod r = HTTP_METHOD_POST;
  ph_length : ∃ v, RequestHeaders r !! HTTP_HEADER_CONTENT_LENGTH = Some v ∧
                   is_digits v = true ∧ stoi v = inr n;
  ph_max : (u16 n <= HTTP_POST_MAX_CONTENT_LENGTH)%Z
}.

Lemma process_post i p r n :
  post_head r n →
  processPost i (set_properties r p) =
  let len := Z.to_nat (u16 n) in
  let p1 := set_content_length (u16 n) (set_properties r p) in
  if decide (length (_SplittedRequests p) = 1) then
    if decide (len <= length (_HTTPRequestBuffer p)) then
      (accept (with_payload (take len (_HTTPRequestBuffer p)) r)
         (set_buffer (drop len (_HTTPRequestBuffer p)) p1), inr true)
    else (set_wait true p1, inr true)
  else if decide (i < length (_SplittedRequests p)) then
    match _SplittedRequests p !! (i + 1) with
    | None => (p1, inl (Throw out_of_range))
    | Some next =>
        if decide (len <= length next) then
          (accept (with_payload (take len next) r)
             (set_splitted (<[i + 1 := drop len next]> (_SplittedRequests p)) p1), inr true)
        else (p1, inr false)
    end
  else (p1, inr true).
Proof.
  intros [Hm (v & Hv & Hd & Hn) Hmax]. unfold processPost. run. simpl. rewrite Hv.
  rewrite Hd, Hn. rewrite decide_False by done. run. simpl.
  rewrite decide_False by lia.
  case_decide; [case_decide; by run|]. case_decide; [|by run].
  destruct (_SplittedRequests p !! (i + 1)) as [next|]; [|by run]. case_decide; by run.
Qed.

(** The three phases of a POST request [tok], marker, [body]: its head is
    still incomplete, the body is awaited, the request is delivered. *)
Inductive post_state (max n : Z) (tok body : bytes) (r : RequestProperties_t) :
    bytes → HTTPParser → Prop :=
| post_in_head x p :
    length x < length (tok ++ HTTP_1_1_END_MARKER) →
    _POSTWaitContentLength p = false →
    _RequestParseError p = 0%Z →
    _HTTPRequestBufferMax p = u16 max →
    _HTTPRequestBuffer p = x → _Requests p = [] →
    post_state max n tok body r x p
| post_in_body y p :
    length y < Z.to_nat n →
    _POSTWaitContentLength p = true → _POSTContentLength p = n →
    _RequestParseError p = 0%Z →
    _HTTPRequestBufferMax p = u16 max →
    _HTTPRequestBuffer p = y → _RequestProperties p = r → _Requests p = [] →
    post_state max n tok body r (tok ++ HTTP_1_1_END_MARKER ++ y) p
| post_done p :
    _POSTWaitContentLength p = false →
    _RequestParseError p = 0%Z →
    _HTTPRequestBufferMax p = u16 max →
    _HTTPRequestBuffer p = [] → _Requests p = [with_payload body r] →
    post_state max n tok body r (tok ++ HTTP_1_1_END_MARKER ++ body) p.

Section post_stream.
Context (max n : Z) (tok body : bytes) (r : RequestProperties_t).
Hypothesis Htok : find HTTP_1_1_END_MARKER (tok ++ HTTP_1_1_END_MARKER) = Some (length tok).
Hypothesis Hhead : request_head tok = Some r.
Hypothesis Hpost : post_head r n.
Hypothesis Hn : (0 <= n < 65536)%Z.
Hypothesis Hlen : length body = Z.to_nat n.
Hypothesis Hbody : find HTTP_1_1_END_MARKER body = None.

Lemma post_u16 : u16 n = n.
Proof using All. by apply wrap_id. Qed.

Lemma body_prefix y z : body = y ++ z → find HTTP_1_1_END_MARKER y = None.
Proof using All. intros E. rewrite E in Hbody. by eapply find_prefix_None. Qed.

Lemma head_prefix y z :
  length y < length (tok ++ HTTP_1_1_END_MARKER) →
  y ++ z = tok ++ HTTP_1_1_END_MARKER ++ body →
  find HTTP_1_1_END_MARKER y = None.
Proof using All.
  intros Hy E. destruct (find HTTP_1_1_END_MARKER y) as [i|] eqn:Ei; [|done].
  pose proof (find_bound _ _ _ marker_nonempty Ei) as Hb.
  apply (find_app _ _ z) in Ei; [|done]. rewrite E in Ei.
  rewrite app_assoc, (find_app _ _ _ _ marker_nonempty Htok) in Ei.
  rewrite length_app in Hy. simplify_eq. lia.
Qed.

Lemma process_token p y z :
  body = y ++ z →
  _POSTWaitContentLength p = false → _RequestParseError p = 0%Z →
  _HTTPRequestBufferMax p = u16 max → _Requests p = [] →
  ∃ p', process_loop 1 0 (set_splitted [tok] (set_buffer y p)) = (p', inr ()) ∧
    post_state max n tok body r (tok ++ HTTP_1_1_END_MARKER ++ y) p'.
Proof using All.
  intros Ey Hw He Hm Hr. simpl.
  assert (_processRequestProperties 0 (set_splitted [tok] (set_buffer y p)) =
    processPost 0 (set_properties r (set_splitted [tok] (set_buffer y p)))) as Hp.
  { rewrite (process_head _ 0 tok r) by done.
    rewrite decide_False by by rewrite (ph_method _ _ Hpost). done. }
  rewrite (process_post 0 _ r n Hpost) in Hp. simpl in Hp. rewrite post_u16 in Hp.
  apply (f_equal length) in Ey as El. rewrite length_app in El.
  case_decide as Hle.
  - rewrite (run_bind _ _ _ _ _ Hp). simpl. run.
    assert (z = []) as -> by (apply nil_length_inv; lia).
    rewrite app_nil_r in Ey. subst y. eexists. split; [done|].
    rewrite firstn_all2, skipn_all2 by lia.
    apply post_done; simpl; rewrite ?Hr; done.
  - rewrite (run_bind _ _ _ _ _ Hp). simpl. run. eexists. split; [done|].
    apply post_in_body; simpl; (done || lia).
Qed.

Lemma post_step x c rest p :
  post_state max n tok body r x p →
  (x ++ c) ++ rest = tok ++ HTTP_1_1_END_MARKER ++ body →
  (Z.of_nat (length (x ++ c)) <= u16 max)%Z →
  ∃ p', appendBuffer c (length c) p = (p', inr ()) ∧ post_state max n tok body r (x ++ c) p'.
Proof using All.
  intros Hp E Hl. rewrite length_app in Hl.
  destruct Hp as [x p Hx Hw He Hm Hb Hr|y p Hy Hw Hc He Hm Hb Hprops Hr|p Hw He Hm Hb Hr].
  - rewrite append_fits by (unfold fits; rewrite Hb, Hm; lia). cbv zeta.
    rewrite decide_False by (rewrite Hw; naive_solver). rewrite Hb.
    destruct (decide (length (x ++ c) < length (tok ++ HTTP_1_1_END_MARKER))) as [Hs|Hs].
    + rewrite split_none by (done || by eapply head_prefix). simpl. run.
      eexists. split; [done|]. by apply post_in_head.
    + assert (∃ y, x ++ c = tok ++ HTTP_1_1_END_MARKER ++ y ∧ body = y ++ rest) as (y & Exc & Ey).
      { rewrite (app_assoc tok) in E.
        destruct (app_eq_inv _ _ _ _ E) as [(k & H1 & H2)|(k & H1 & H2)].
        - exists k. by rewrite <-app_assoc in H1.
        - exists []. rewrite H1, !length_app in Hs.
          assert (k = []) as -> by (apply nil_length_inv; lia).
          rewrite app_nil_r in H1 |- *. simpl in H2. split; [|by rewrite <-H2].
          done. }
      rewrite Exc. rewrite split_token by done.
      rewrite (split_none y) by (done || by eapply body_prefix). cbn [fst snd length].
      by eapply process_token.
  - rewrite <-!app_assoc in E. apply app_inv_head in E. apply app_inv_head in E.
    rewrite !length_app in Hl.
    rewrite append_fits by (unfold fits; rewrite Hb, Hm; lia). cbv zeta. rewrite Hb, Hc.
    rewrite <-!app_assoc. apply (f_equal length) in E as El. rewrite !length_app in El.
    case_decide as Hd; [destruct Hd as [_ Hd]|]; rewrite length_app in Hd.
    + eexists. split; [done|]. assert (rest = []) as -> by (apply nil_length_inv; lia).
      rewrite app_nil_r in E. rewrite E.
      rewrite firstn_all2, skipn_all2, Hprops by lia.
      apply post_done; simpl; rewrite ?Hr; done.
    + rewrite split_none; [|done|].
      2:{ apply body_prefix with rest. by rewrite <-app_assoc. }
      simpl. run. eexists. split; [done|].
      apply post_in_body; simpl; rewrite ?length_app; (done || idtac).
      apply not_and_l in Hd as [Hd|Hd]; [done|lia].
  - apply (f_equal length) in E as El. rewrite !length_app in El.
    assert (c = []) as -> by (apply nil_length_inv; lia).
    rewrite append_fits by (unfold fits; rewrite Hb, Hm; simpl in *; lia). cbv zeta.
    rewrite decide_False by (rewrite Hw; naive_solver). rewrite Hb.
    rewrite split_none by done. simpl. run. eexists. split; [done|].
    rewrite app_nil_r. by apply post_done.
Qed.

Lemma post_feed chunks x p :
  post_state max n tok body r x p →
  x ++ concat chunks = tok ++ HTTP_1_1_END_MARKER ++ body →
  (Z.of_nat (length (x ++ concat chunks)) <= u16 max)%Z →
  ∃ p', feed chunks p = (p', inr ()) ∧ post_state max n tok body r (x ++ concat chunks) p'.
Proof using All.
  revert x p. induction chunks as [|c cs IH]; intros x p Hp E Hl; simpl in *.
  - exists p. by rewrite app_nil_r.
  - rewrite app_assoc in E, Hl |- *.
    destruct (post_step x c (concat cs) p) as (p1 & E1 & Hp1); [done|done| |].
    { rewrite length_app in Hl. lia. }
    rewrite (run_bind _ _ _ _ _ E1). by apply IH.
Qed.

End post_stream.

(** A POST head that arrives alone, with the bytes [y] of its body. *)
Lemma append_single_post p tok y r :
  _POSTWaitContentLength p = false → _HTTPRequestBuffer p = [] →
  find HTTP_1_1_END_MARKER (tok ++ HTTP_1_1_END_MARKER) = Some (length tok) →
  find HTTP_1_1_END_MARKER y = None →
  request_head tok = Some r → HTTPMethod r = HTTP_METHOD_POST →
  let c := tok ++ HTTP_1_1_END_MARKER ++ y in
  fits p c →
  appendBuffer c (length c) p =
  (processPost 0 ≫= λ ok,
     if decide (ok = false) then modify (set_error HTTP_ERROR_BAD_REQUEST) else mret ())
    (set_properties r (set_splitted [tok] (set_buffer y p))).
Proof using Type.
  intros Hw Hb Ht Hy Hr Hm c Hf. rewrite append_fits by done. cbv zeta.
  rewrite decide_False by (rewrite Hw; naive_solver). rewrite Hb. simpl app. unfold c.
  rewrite split_token, split_none by done. cbn [fst snd length process_loop].
  unfold mbind, St_bind. rewrite (process_head _ 0 tok r) by done.
  rewrite decide_False by by rewrite Hm. done.
Qed.

(** ** What every delivered request satisfies *)

Definition valid_request (r : RequestProperties_t) : Prop :=
  HTTPVersion r = HTTP_VERSION_1_1 ∧
  (HTTPMethod r = HTTP_METHOD_GET ∧ Payload r = [] ∨
   ∃ n, post_head r n ∧ Z.of_nat (length (Payload r)) = u16 n).

(** The object invariant: the buffer respects its limit and the 16-bit fields
    their range. *)
Record parser_ok (p : HTTPParser) : Prop := {
  ok_buffer : (Z.of_nat (length (_HTTPRequestBuffer p)) <= _HTTPRequestBufferMax p)%Z;
  ok_max : (0 <= _HTTPRequestBufferMax p < 65536)%Z;
  ok_length : (0 <= _POSTContentLength p < 65536)%Z
}.

(** The frame of request processing: the buffer only shrinks, the requests
    only grow, by valid ones. *)
Record processed (p p' : HTTPParser) : Prop := {
  pr_buffer : length (_HTTPRequestBuffer p') <= length (_HTTPRequestBuffer p);
  pr_max : _HTTPRequestBufferMax p' = _HTTPRequestBufferMax p;
  pr_splitted : length (_SplittedRequests p') = length (_SplittedRequests p);
  pr_length : (0 <= _POSTContentLength p < 65536 → 0 <= _POSTContentLength p' < 65536)%Z;
  pr_requests : ∃ rs, _Requests p' = _Requests p ++ rs ∧ Forall valid_request rs
}.

#[local] Instance processed_preorder : PreOrder processed.
Proof using Type.
  split.
  - intros p. split; try done. exists []. by rewrite app_nil_r.
  - intros p1 p2 p3 [H1 H2 H3 H4 (rs1 & H5 & H6)] [G1 G2 G3 G4 (rs2 & G5 & G6)].
    split; [lia|congruence|congruence|auto|]. exists (rs1 ++ rs2).
    rewrite G5, H5, app_assoc. split; [done|]. by apply Forall_app.
Qed.

(** Updates outside the framed fields. *)
Lemma processed_silent p p' :
  _HTTPRequestBuffer p' = _HTTPRequestBuffer p →
  _HTTPRequestBufferMax p' = _HTTPRequestBufferMax p →
  _SplittedRequests p' = _SplittedRequests p →
  _POSTContentLength p' = _POSTContentLength p ∨
    (∃ n, _POSTContentLength p' = u16 n) →
  _Requests p' = _Requests p → processed p p'.
Proof using Type.
  intros H1 H2 H3 H4 H5. split; rewrite ?H1, ?H2, ?H3, ?H5; try done.
  - destruct H4 as [->|[n ->]]; [done|]. intros _. auto with cpp.
  - exists []. by rewrite app_nil_r.
Qed.

Lemma request_head_props tok r :
  request_head tok = Some r →
  HTTPVersion r = HTTP_VERSION_1_1 ∧ Payload r = [] ∧
  (HTTPMethod r = HTTP_METHOD_GET ∨ HTTPMethod r = HTTP_METHOD_POST).
Proof using Type.
  unfold request_head. case_decide; [done|].
  destruct (_parseRequestProperties tok default_props) as [ok props] eqn:E.
  case_decide as Hok; [|done]. destruct Hok as (-> & Hv & Hm). intros [= <-]. simpl.
  split; [done|]. pose proof (parse_line_method _ _ _ _ E) as Hmeth.
  split; [|simpl in Hmeth; tauto].
  unfold _parseRequestProperties in E.
  destruct (rsplit _ _ _ _) as [|? [|? [|? [|? ?]]]]; by simplify_eq.
Qed.

(** Which of the outcomes of [processPost] applies. *)
Lemma processPost_cases i p r :
  HTTPMethod r = HTTP_METHOD_POST →
  (∃ n, post_head r n) ∨
  (∃ e, processPost i (set_properties r p) = (set_properties r p, inl e)) ∨
  (∃ p', processPost i (set_properties r p) = (p', inr false) ∧
     (p' = set_properties r p ∨ ∃ n, p' = set_content_length (u16 n) (set_properties r p))).
Proof using Type.
  intros Hm.
  destruct (RequestHeaders r !! HTTP_HEADER_CONTENT_LENGTH) as [v|] eqn:Hv.
  2:{ right; right. unfold processPost. run. simpl. rewrite Hv. eauto. }
  destruct (is_digits v) eqn:Hd.
  2:{ right; right. unfold processPost. run. simpl. rewrite Hv, decide_True by done. eauto. }
  destruct (stoi v) as [e|n] eqn:Hn.
  { right; left. exists e. unfold processPost. run. simpl.
    by rewrite Hv, Hd, Hn, decide_False. }
  destruct (decide (u16 n <= HTTP_POST_MAX_CONTENT_LENGTH)%Z) as [Hmax|Hmax].
  { left. exists n. split; eauto. }
  right; right. unfold processPost. run. simpl. rewrite Hv, Hd, Hn, decide_False by done.
  run. simpl. rewrite decide_True by lia. eauto.
Qed.

Lemma processed_deliver p p' r n :
  valid_request r →
  length (_HTTPRequestBuffer p') <= length (_HTTPRequestBuffer p) →
  length (_SplittedRequests p') = length (_SplittedRequests p) →
  _HTTPRequestBufferMax p' = _HTTPRequestBufferMax p →
  _POSTContentLength p' = u16 n →
  _Requests p' = _Requests p ++ [r] →
  processed p p'.
Proof using Type.
  intros Hr Hb Ht Hm Hn Hq. split; rewrite ?Hn; try done.
  - auto with cpp.
  - exists [r]. split; [done|]. by constructor.
Qed.

Lemma valid_post r n body :
  HTTPVersion r = HTTP_VERSION_1_1 → post_head r n → length body = Z.to_nat (u16 n) →
  valid_request (with_payload body r).
Proof using Type.
  intros Hv Hp Hb. split; [done|]. right. exists n. destruct Hp as [? ? ?].
  split; [by split|]. simpl. rewrite Hb, Z2Nat.id; [done|]. apply u16_range.
Qed.

Lemma processPost_processed i p r p' res :
  HTTPVersion r = HTTP_VERSION_1_1 → HTTPMethod r = HTTP_METHOD_POST →
  processPost i (set_properties r p) = (p', res) → processed p p'.
Proof using Type.
  intros Hv Hm E. destruct (processPost_cases i p r Hm) as [[n Hn]|[[e He]|(q & Hq & Hp)]].
  - rewrite (process_post i p r n Hn) in E. cbv zeta in E.
    case_decide.
    + case_decide; simplify_eq; [|apply processed_silent; simpl; eauto].
      eapply (processed_deliver p); simpl; [|rewrite length_drop; lia|done..].
      apply (valid_post _ n); [done..|]. rewrite length_take. lia.
    + case_decide; [|simplify_eq; apply processed_silent; simpl; eauto].
      destruct (_SplittedRequests p !! (i + 1)) as [next|];
        [|simplify_eq; apply processed_silent; simpl; eauto].
      case_decide; simplify_eq; [|apply processed_silent; simpl; eauto].
      eapply (processed_deliver p); simpl; [|done|by rewrite length_insert|done..].
      apply (valid_post _ n); [done..|]. rewrite length_take. lia.
  - simplify_eq. rewrite He in E. simplify_eq. apply processed_silent; simpl; eauto.
  - rewrite Hq in E. simplify_eq.
    destruct Hp as [->|[n ->]]; apply processed_silent; simpl; eauto.
Qed.

Lemma process_processed i p p' res :
  _processRequestProperties i p = (p', res) → processed p p'.
Proof using Type.
  intros E. destruct (_SplittedRequests p !! i) as [tok|] eqn:Hi.
  2:{ unfold _processRequestProperties in E. revert E. run. rewrite Hi. run.
      intros. by simplify_eq. }
  destruct (request_head tok) as [r|] eqn:Hr.
  2:{ destruct (process_reject p i tok Hi Hr) as [props Hp]. rewrite Hp in E. simplify_eq.
      apply processed_silent; simpl; eauto. }
  rewrite (process_head p i tok r Hi Hr) in E.
  destruct (request_head_props tok r Hr) as (Hv & Hpay & Hm).
  case_decide as Hget.
  - simplify_eq. split; simpl; try done. eexists [_]. split; [done|].
    constructor; [|done]. split; [done|]. by left.
  - eapply processPost_processed; [done| |done]. by destruct Hm.
Qed.

Lemma loop_processed n i p p' res : process_loop n i p = (p', res) → processed p p'.
Proof using Type.
  revert i p. induction n as [|n IH]; intros i p E; simpl in E; [rewrite run_ret in E; by simplify_eq|].
  destruct (_processRequestProperties i p) as [p1 r1] eqn:E1.
  rewrite (run_bind _ _ _ _ _ E1) in E. apply process_processed in E1.
  destruct r1 as [e|ok]; [by simplify_eq|]. etrans; [exact E1|].
  case_decide; [|by eapply IH].
  rewrite run_modify_end in E. simplify_eq. apply processed_silent; simpl; eauto.
Qed.

(** One receive, in any state. *)
Lemma append_cases p c p' res :
  appendBuffer c (length c) p = (p', res) →
  p' = p ∧ res = inr () ∨
  fits p c ∧
  ((_POSTWaitContentLength p = true ∧ res = inr () ∧
     let b := _HTTPRequestBuffer p ++ c in
     let n := Z.to_nat (_POSTContentLength p) in
     n <= length b ∧
     p' = set_wait false (accept (with_payload (take n b) (_RequestProperties p))
            (set_buffer (drop n b) p))) ∨
   let s := split (_HTTPRequestBuffer p ++ c) HTTP_1_1_END_MARKER [] in
   processed (set_splitted s.2 (set_buffer s.1 p)) p').
Proof using Type.
  intros E. destruct (decide (fits p c)) as [Hf|Hf].
  2:{ left. rewrite append_overflow in E by (unfold fits in Hf; lia). by simplify_eq. }
  right. split; [done|]. rewrite append_fits in E by done. cbv zeta in E |- *.
  case_decide as Hd; [left; destruct Hd; by simplify_eq|]. right.
  destruct (split _ _ _) as [r ts]. by apply loop_processed in E.
Qed.

Lemma append_ok p c p' res :
  parser_ok p → appendBuffer c (length c) p = (p', res) → parser_ok p'.
Proof using Type.
  intros [Hb Hm Hl] E.
  destruct (append_cases p c p' res E) as [[-> ->]|(Hf & [(Hw & _ & Hn & ->)|Hp])];
    [done| |]; unfold fits in Hf.
  - split; simpl; [|done..]. rewrite length_drop, length_app. lia.
  - destruct Hp as [H1 H2 _ H3 _]. simpl in *.
    pose proof (split_fst_length (_HTTPRequestBuffer p ++ c) _ marker_nonempty) as Hs.
    rewrite length_app in Hs. split; [|by rewrite H2|by auto]. rewrite H2. lia.
Qed.

End meaning.
End ParserSpec.
