(* ===== verification/HttpRoundTrip.v ===== *)
(** * Print / parse round trip for HTTP requests

    A printer for request heads and query strings, and that [HTTPParser] reads
    back what it prints. The printer is the specification's; the repository
    only parses. *)
From S2P Require Export HttpParserSpec.
From stdpp Require Import options.

Module RoundTrip.
Import StringHelper HTTPParser ParserSpec.

(** ** The printer *)

Definition render_line (method url : bytes) : bytes :=
  intercalate (str " ") [method; url; str "HTTP/1.1"].

Definition render_header (kv : bytes * bytes) : bytes :=
  let '(k, v) := kv in k ++ str ": " ++ v.

Definition render_head (method url : bytes) (headers : list (bytes * bytes)) : bytes :=
  intercalate CRLF (render_line method url :: map render_header headers).

Definition render_param (kv : bytes * bytes) : bytes :=
  let '(k, v) := kv in k ++ str "=" ++ v.

Definition render_query (path : bytes) (params : list (bytes * bytes)) : bytes :=
  path ++ str "?" ++ intercalate (str "&") (map render_param params).

(** ** What can be printed *)

Definition no_eol (s : bytes) : Prop := (CR ∉ s) ∧ (LF ∉ s).

Definition url_ok (method url : bytes) : Prop :=
  (" "%char ∉ url) ∧ no_eol url ∧ find (str ": ") (render_line method url) = None.

Definition header_ok (kv : bytes * bytes) : Prop :=
  let '(k, v) := kv in
  k ≠ [] ∧ v ≠ [] ∧ no_eol k ∧ no_eol v ∧ find (str ": ") (k ++ str ": ") = Some (length k).

Definition param_ok (kv : bytes * bytes) : Prop :=
  let '(k, v) := kv in
  k ≠ [] ∧ ("="%char ∉ k) ∧ ("&"%char ∉ k) ∧ ("&"%char ∉ v).

#[export] Instance url_ok_dec method url : Decision (url_ok method url).
Proof. unfold url_ok, no_eol. apply _. Defined.

#[export] Instance header_ok_dec kv : Decision (header_ok kv).
Proof. destruct kv. unfold header_ok, no_eol. apply _. Defined.

#[export] Instance param_ok_dec kv : Decision (param_ok kv).
Proof. destruct kv. unfold param_ok. apply _. Defined.

(** ** Lines *)

Lemma find_skip c p w x :
  c ∉ w → find (c :: p) (w ++ x) = Nat.add (length w) <$> find (c :: p) x.
Proof.
  induction w as [|d w IH]; intros Hc.
  - simpl. by destruct (find (c :: p) x).
  - cbn [app]. rewrite find_unfold. cbn [starts_with].
    rewrite decide_False by set_solver. rewrite IH by set_solver.
    by destruct (find (c :: p) x).
Qed.

Definition line_ok (l : bytes) : Prop := l ≠ [] ∧ no_eol l.

Lemma find_marker_step d s :
  d ≠ CR →
  find HTTP_1_1_END_MARKER (CR :: LF :: d :: s) =
  (λ n, S (S n)) <$> find HTTP_1_1_END_MARKER (d :: s).
Proof.
  intros Hd. rewrite (find_unfold _ (CR :: _)), (find_unfold _ (LF :: _)).
  unfold HTTP_1_1_END_MARKER, CRLF. cbn [starts_with app].
  rewrite (decide_False (P := CR = d)), (decide_False (P := CR = LF)) by done.
  rewrite !decide_True by done. by destruct (find _ _).
Qed.

Lemma find_marker_lines ls :
  ls ≠ [] → Forall line_ok ls →
  find HTTP_1_1_END_MARKER (intercalate CRLF ls ++ HTTP_1_1_END_MARKER) =
  Some (length (intercalate CRLF ls)).
Proof.
  intros Hne Hls. induction Hls as [|l ls [Hl [HCR HLF]] Hls IH]; [done|].
  destruct ls as [|l2 ls]; [cbn [intercalate]|rewrite intercalate_cons].
  - unfold HTTP_1_1_END_MARKER, CRLF. simpl app at 1. rewrite find_skip by done.
    simpl. by rewrite Nat.add_0_r.
  - specialize (IH ltac:(done)). rewrite <-app_assoc.
    unfold HTTP_1_1_END_MARKER at 1, CRLF at 1 2. simpl app at 1. rewrite find_skip by done.
    change [CR; LF; CR; LF] with HTTP_1_1_END_MARKER.
    apply Forall_cons in Hls as [[Hl2 [HCR2 _]] _].
    assert (∃ d l', intercalate CRLF (l2 :: ls) ++ HTTP_1_1_END_MARKER = d :: l' ∧ d ≠ CR)
      as (d & l' & E & Hd).
    { destruct l2 as [|d l2]; [done|].
      destruct ls; cbn; eexists _, _; (split; [done|set_solver]). }
    rewrite <-app_assoc, E. simpl app. rewrite find_marker_step, <-E, IH by done. simpl.
    rewrite !length_app. done.
Qed.

Lemma getlines_line l s : LF ∉ l → getlines (l ++ LF :: s) = l :: getlines s.
Proof.
  induction l as [|c l IH]; intros Hl; simpl.
  - done.
  - rewrite decide_False by set_solver. by rewrite IH by set_solver.
Qed.

Lemma getlines_last l : LF ∉ l → l ≠ [] → getlines l = [l].
Proof.
  induction l as [|c l IH]; intros Hl Hne; [done|]. simpl.
  rewrite decide_False by set_solver. destruct l as [|d l]; [done|].
  by rewrite IH by set_solver.
Qed.

(** The carriage return before each line feed does not matter. *)
Lemma header_line_cr l : CR ∉ l → header_line (l ++ [CR]) = header_line l.
Proof.
  intros Hl. unfold header_line. rewrite last_snoc, decide_True by done.
  rewrite length_app. simpl. rewrite Nat.add_sub, take_app_length.
  rewrite (decide_False (P := last l = Some CR)); [done|].
  intros H%last_Some_elem_of. done.
Qed.

Lemma headers_of_lines ls m :
  Forall line_ok ls →
  foldl (λ m line, add_pair m (header_line line)) m (getlines (intercalate CRLF ls)) =
  foldl (λ m line, add_pair m (header_line line)) m ls.
Proof.
  intros Hls. revert m. induction Hls as [|l ls [Hl [HCR HLF]] Hls IH]; intros m; [done|].
  destruct ls as [|l2 ls]; [cbn [intercalate]|rewrite intercalate_cons].
  - by rewrite getlines_last.
  - change (l ++ CRLF ++ intercalate CRLF (l2 :: ls))
      with (l ++ [CR] ++ LF :: intercalate CRLF (l2 :: ls)).
    rewrite app_assoc, getlines_line by set_solver.
    cbn [foldl]. rewrite header_line_cr by done. apply IH.
Qed.

(** Folding [emplace] is the left-biased union with the list's map. *)
Lemma add_pairs_union l m :
  foldl add_pair m (map Some l) = m ∪ list_to_map l.
Proof.
  revert m. induction l as [|[k v] l IH]; intros m; simpl.
  - by rewrite (right_id_L ∅ (∪)).
  - rewrite IH. apply emplace_union.
Qed.

Lemma not_cr_sep : CR ∉ str ": ".
Proof. cbn. set_solver. Qed.

Lemma header_line_render kv : header_ok kv → header_line (render_header kv) = Some kv.
Proof.
  destruct kv as [k v]. intros (Hk & Hv & [HkCR _] & [HvCR _] & Hf).
  pose proof not_cr_sep as Hsep.
  unfold header_line, render_header.
  rewrite (decide_False (P := last _ = _)).
  2:{ intros H%last_Some_elem_of. rewrite !elem_of_app in H. tauto. }
  rewrite app_assoc, (find_app (str ": ") _ v _ ltac:(done) Hf).
  rewrite decide_True by auto with cpp.
  rewrite drop_app_length' by (rewrite length_app; done).
  rewrite decide_False by done. by rewrite <-app_assoc, take_app_length.
Qed.

(** Printed header lines add their headers. *)
Lemma foldl_render_headers kvs m :
  Forall header_ok kvs →
  foldl (λ m line, add_pair m (header_line line)) m (map render_header kvs) =
  m ∪ list_to_map kvs.
Proof.
  intros Hh. rewrite <-add_pairs_union. revert m.
  induction Hh as [|kv kvs Hkv _ IH]; intros m; cbn [foldl map]; [done|].
  by rewrite header_line_render, IH.
Qed.

(** ** Request heads *)

Definition method_code (method : bytes) : option Z :=
  if decide (method = str "GET") then Some HTTP_METHOD_GET
  else if decide (method = str "POST") then Some HTTP_METHOD_POST
  else None.

Lemma method_cases method m :
  method_code method = Some m →
  method = str "GET" ∧ m = HTTP_METHOD_GET ∨ method = str "POST" ∧ m = HTTP_METHOD_POST.
Proof. unfold method_code. repeat case_decide; naive_solver. Qed.

Lemma render_line_ok method m url :
  method_code method = Some m → url_ok method url → line_ok (render_line method url).
Proof.
  intros Hm (_ & [HCR HLF] & _).
  destruct (method_cases _ _ Hm) as [[-> _]|[-> _]];
    (split; [done|]; split; cbn; set_solver).
Qed.

Lemma line_end line rest :
  CR ∉ line → rest = [] ∨ (∃ r, rest = CRLF ++ r) →
  default (length (line ++ rest)) (find CRLF (line ++ rest)) = length line.
Proof.
  intros Hc [->|[r ->]]; unfold CRLF; rewrite find_skip by done; simpl.
  - by rewrite app_nil_r.
  - lia.
Qed.

Lemma parse_render_line method m url rest props :
  method_code method = Some m → url_ok method url →
  rest = [] ∨ (∃ r, rest = CRLF ++ r) →
  _parseRequestProperties (render_line method url ++ rest) props =
  (true, with_line HTTP_VERSION_1_1 m url props).
Proof.
  intros Hm Hurl Hrest. unfold _parseRequestProperties.
  destruct (render_line_ok _ _ _ Hm Hurl) as [_ [HCR _]].
  rewrite line_end by done. unfold render_line. change (str " ") with [" "%char].
  rewrite rsplit_words; [|simpl; lia|].
  - destruct (method_cases _ _ Hm) as [[-> ->]|[-> ->]]; done.
  - destruct Hurl as (Hsp & _). destruct (method_cases _ _ Hm) as [[-> _]|[-> _]];
      (repeat constructor; [cbn; set_solver|done|cbn; set_solver]).
Qed.

Lemma render_head_rest method url headers :
  ∃ rest, render_head method url headers = render_line method url ++ rest ∧
    (rest = [] ∨ ∃ r, rest = CRLF ++ r).
Proof.
  unfold render_head. destruct headers as [|kv kvs]; cbn [map].
  - exists []. rewrite app_nil_r. auto.
  - rewrite intercalate_cons. eauto.
Qed.

Lemma header_line_ok kv : header_ok kv → line_ok (render_header kv).
Proof.
  destruct kv as [k v]. intros (Hk & Hv & [? ?] & [? ?] & _). simpl.
  split; [by destruct k|]. split; cbn; set_solver.
Qed.

Lemma render_head_lines method m url headers :
  method_code method = Some m → url_ok method url → Forall header_ok headers →
  Forall line_ok (render_line method url :: map render_header headers).
Proof.
  intros Hm Hu Hh. constructor; [by eapply render_line_ok|].
  apply Forall_map. eapply Forall_impl; [exact Hh|]. apply header_line_ok.
Qed.

(** The request line is looked at as a header line too, and is none. *)
Lemma header_line_request method m url :
  method_code method = Some m → url_ok method url →
  header_line (render_line method url) = None.
Proof.
  intros Hm Hu. destruct (render_line_ok _ _ _ Hm Hu) as [_ [HCR _]].
  unfold header_line. rewrite decide_False.
  2:{ intros H%last_Some_elem_of. done. }
  destruct Hu as (_ & _ & ->). done.
Qed.

Lemma parse_render_headers method m url headers :
  method_code method = Some m → url_ok method url → Forall header_ok headers →
  _parseRequestHeaders (render_head method url headers) ∅ = list_to_map headers.
Proof.
  intros Hm Hu Hh. unfold _parseRequestHeaders, render_head.
  rewrite headers_of_lines by by eapply render_head_lines.
  cbn [foldl]. rewrite (header_line_request _ m) by done. cbn [add_pair].
  rewrite foldl_render_headers by done. apply (left_id_L ∅ (∪)).
Qed.

Lemma request_head_render method m url headers :
  method_code method = Some m → url_ok method url → Forall header_ok headers →
  request_head (render_head method url headers) =
  Some (mkRequest HTTP_VERSION_1_1 m (list_to_map headers) url [] ∅).
Proof.
  intros Hm Hu Hh. unfold request_head.
  destruct (render_head_rest method url headers) as (rest & E & Hrest).
  rewrite decide_False.
  2:{ rewrite E. destruct (method_cases _ _ Hm) as [[-> _]|[-> _]]; done. }
  rewrite E at 1. rewrite (parse_render_line _ m) by done.
  rewrite decide_True.
  2:{ destruct (method_cases _ _ Hm) as [[-> ->]|[-> ->]]; done. }
  simpl. by rewrite (parse_render_headers _ m).
Qed.

Lemma render_head_token method m url headers :
  method_code method = Some m → url_ok method url → Forall header_ok headers →
  find HTTP_1_1_END_MARKER (render_head method url headers ++ HTTP_1_1_END_MARKER) =
  Some (length (render_head method url headers)).
Proof.
  intros Hm Hu Hh. apply find_marker_lines; [done|]. by eapply render_head_lines.
Qed.

(** ** Query strings *)

Lemma param_pair_render kv : param_ok kv → param_pair (render_param kv) = Some kv.
Proof.
  destruct kv as [k v]. intros (Hk & He & _). unfold param_pair, render_param.
  change (str "=" ++ v) with ("="%char :: v). change (str "=") with ["="%char].
  rewrite find_char_app by done.
  rewrite decide_True by (rewrite length_app; destruct k; simpl; [done|lia]).
  rewrite take_app_length. rewrite <-drop_drop, drop_app_length. done.
Qed.

Lemma render_param_item kv :
  param_ok kv → render_param kv ≠ [] ∧ "&"%char ∉ render_param kv.
Proof.
  destruct kv as [k v]. intros (Hk & _ & H1 & H2). simpl.
  split; [by destruct k|]. cbn. set_solver.
Qed.

Lemma parse_render_query path params :
  ("?"%char ∉ path) → Forall param_ok params →
  _parseGETParameter (render_query path params) ∅ = list_to_map params.
Proof.
  intros Hp Hps. unfold _parseGETParameter, render_query.
  change (str "?" ++ intercalate (str "&") (map render_param params))
    with ("?"%char :: intercalate ["&"%char] (map render_param params)).
  change (str "?") with ["?"%char]. rewrite find_char_app by done.
  rewrite decide_True by (rewrite length_app; simpl; lia).
  rewrite <-drop_drop, drop_app_length, skipn_cons, drop_0. change (str "&") with ["&"%char].
  rewrite split_view_items.
  2:{ apply Forall_map. eapply Forall_impl; [exact Hps|]. apply render_param_item. }
  rewrite <-(left_id_L ∅ (∪) (list_to_map params)), <-add_pairs_union.
  generalize (∅ : gmap bytes bytes).
  induction Hps as [|kv kvs Hkv _ IH]; intros mm; simpl; [done|].
  by rewrite param_pair_render.
Qed.

End RoundTrip.
