(* ===== verification/HttpTheorems.v ===== *)
(** * Properties of the HTTP parser and its string helpers *)
From S2P Require Export HttpRoundTrip.
From stdpp Require Import options.

Import StringHelper JSON HTTPParser ParserSpec RoundTrip.

(** ** Streaming *)

(** What the parser must deliver for a printed GET request. *)
Definition expected_get (req : bytes * list (bytes * bytes)) : RequestProperties_t :=
  let '(url, headers) := req in
  mkRequest HTTP_VERSION_1_1 HTTP_METHOD_GET (list_to_map headers) url []
    (_parseGETParameter url ∅).

Definition printed_get (req : bytes * list (bytes * bytes)) : bytes :=
  let '(url, headers) := req in render_head (str "GET") url headers.

Definition get_ok (req : bytes * list (bytes * bytes)) : Prop :=
  let '(url, headers) := req in url_ok (str "GET") url ∧ Forall header_ok headers.

#[export] Instance get_ok_dec req : Decision (get_ok req).
Proof. destruct req. unfold get_ok. apply _. Defined.

(** ** Sample inputs of the witnesses *)

Definition sample_header : bytes * bytes := (str "Host", str "test.dns").
Definition sample_get : bytes * list (bytes * bytes) := (str "/a?x=1", [sample_header]).
Definition sample_post_headers : list (bytes * bytes) :=
  [sample_header; (HTTP_HEADER_CONTENT_LENGTH, str "2")].
Definition sample_post : bytes := render_head (str "POST") (str "/b") sample_post_headers.

Lemma printed_get_request req :
  get_ok req → get_request (printed_get req) = Some (expected_get req).
Proof.
  destruct req as [url headers]. intros [Hu Hh]. unfold get_request, printed_get.
  by rewrite (request_head_render _ HTTP_METHOD_GET).
Qed.

Lemma printed_gets_split reqs :
  Forall get_ok reqs →
  split (join HTTP_1_1_END_MARKER (map printed_get reqs)) HTTP_1_1_END_MARKER [] =
  ([], map printed_get reqs).
Proof.
  intros Hr. rewrite <-(app_nil_r (join _ _)). apply split_join_inv; [done| |done].
  apply Forall_map. eapply Forall_impl; [exact Hr|].
  intros [url headers] [Hu Hh]. by apply (render_head_token _ HTTP_METHOD_GET).
Qed.

Lemma printed_gets_requests reqs :
  Forall get_ok reqs →
  Forall2 (λ t r, get_request t = Some r) (map printed_get reqs) (map expected_get reqs).
Proof.
  induction 1 as [|req reqs Hr _ IH]; constructor; [by apply printed_get_request|done].
Qed.

(** A pipeline of printed requests, in any chunks. *)
Lemma printed_gets_fed max reqs chunks :
  Forall get_ok reqs →
  concat chunks = join HTTP_1_1_END_MARKER (map printed_get reqs) →
  (Z.of_nat (length (concat chunks)) <= u16 max)%Z →
  ∃ p, feed chunks (init max) = (p, inr ()) ∧
    getRequests p = map expected_get reqs ∧
    _HTTPRequestBuffer p = [] ∧ _RequestParseError p = 0%Z.
Proof.
  intros Hr Hc Hl. pose proof (printed_gets_split reqs Hr) as Hs. rewrite <-Hc in Hs.
  destruct (get_state_feed max chunks [] (init max) (map expected_get reqs))
    as (p & E & [_ He _ Hb Hq]); [apply get_state_init|done| |].
  { simpl. rewrite Hs. by apply printed_gets_requests. }
  simpl in Hb, Hq. rewrite Hs in Hb, Hq. exists p. split; [done|]. split; [|done].
  eapply Forall2_functional; [exact Hq|by apply printed_gets_requests].
Qed.

(** C1: GET requests are delivered complete, in order and once, however the
    bytes of the pipeline are cut into receives: feeding any chunks whose
    concatenation is a sequence of printed requests to a fresh parser whose
    buffer can hold them ends without error, with exactly these requests and an
    empty buffer. *)
Theorem pipelined_gets_delivered max reqs chunks :
  Forall get_ok reqs →
  concat chunks = join HTTP_1_1_END_MARKER (map printed_get reqs) →
  (Z.of_nat (length (concat chunks)) <= u16 max)%Z →
  ∃ p, feed chunks (init max) = (p, inr ()) ∧
    getRequests p = map expected_get reqs ∧
    _HTTPRequestBuffer p = [] ∧ _RequestParseError p = 0%Z.
Proof. exact (printed_gets_fed max reqs chunks). Qed.

Lemma pipelined_gets_delivered_witness :
  ∃ p, feed (map (λ c, [c]) (join HTTP_1_1_END_MARKER (map printed_get [sample_get; sample_get])))
         (init 4096) = (p, inr ()) ∧
    getRequests p = map expected_get [sample_get; sample_get] ∧
    _HTTPRequestBuffer p = [] ∧ _RequestParseError p = 0%Z.
Proof.
  apply pipelined_gets_delivered.
  - by_decide.
  - vm_compute. reflexivity.
  - vm_compute. discriminate.
Defined.

(** C4: the same for an arbitrary byte stream: if every complete token of the
    stream is a GET request, the delivered requests and the bytes left in the
    buffer are those of the whole stream, for every way to cut it into
    receives, and for either build of the library. *)
Theorem get_stream_chunking `{Frontend} max chunks rs :
  Forall2 (λ t r, get_request t = Some r)
    (split (concat chunks) HTTP_1_1_END_MARKER []).2 rs →
  (Z.of_nat (length (concat chunks)) <= u16 max)%Z →
  ∃ p, feed chunks (init max) = (p, inr ()) ∧ getRequests p = rs ∧
    _HTTPRequestBuffer p = (split (concat chunks) HTTP_1_1_END_MARKER []).1 ∧
    _POSTWaitContentLength p = false.
Proof.
  intros Hrs Hl.
  destruct (get_state_feed max chunks [] (init max) rs) as (p & E & [Hw _ _ Hb Hq]);
    [apply get_state_init|done|done|].
  exists p. split; [done|]. split; [|done]. by eapply Forall2_functional.
Qed.

Lemma get_stream_chunking_witness :
  let s := printed_get sample_get ++ HTTP_1_1_END_MARKER ++ str "GET /par" in
  ∃ p, feed [take 7 s; drop 7 s] (init 100) = (p, inr ()) ∧
    getRequests p = [expected_get sample_get] ∧
    _HTTPRequestBuffer p =
      (split (concat [take 7 s; drop 7 s]) HTTP_1_1_END_MARKER []).1 ∧
    _POSTWaitContentLength p = false.
Proof.
  intros s. apply get_stream_chunking.
  - apply mapM_Some. vm_compute. reflexivity.
  - vm_compute. discriminate.
Defined.

(** C5: a POST request that fits the buffer, whose head is printed and whose
    [Content-Length] is the length of a body of at most 2048 bytes in which the
    end marker (an empty line) does not occur is delivered exactly once, with
    exactly that body, however head and body are cut into receives. A body with
    the end marker in it is excluded: the parser may take what is before the
    marker for a request of its own, which the theorem on awaited bodies below
    shows. *)
Theorem post_delivered max url headers n body chunks :
  url_ok (str "POST") url → Forall header_ok headers →
  (list_to_map headers : gmap bytes bytes) !! HTTP_HEADER_CONTENT_LENGTH = Some (to_string n) →
  (0 <= n <= HTTP_POST_MAX_CONTENT_LENGTH)%Z → Z.of_nat (length body) = n →
  find HTTP_1_1_END_MARKER body = None →
  concat chunks = render_head (str "POST") url headers ++ HTTP_1_1_END_MARKER ++ body →
  (Z.of_nat (length (concat chunks)) <= u16 max)%Z →
  ∃ p, feed chunks (init max) = (p, inr ()) ∧
    getRequests p =
      [mkRequest HTTP_VERSION_1_1 HTTP_METHOD_POST (list_to_map headers) url body ∅] ∧
    _HTTPRequestBuffer p = [] ∧ _POSTWaitContentLength p = false.
Proof.
  intros Hu Hh Hcl Hn Hb Hm Hc Hl. unfold HTTP_POST_MAX_CONTENT_LENGTH in Hn.
  set (tok := render_head (str "POST") url headers) in *.
  set (r := mkRequest HTTP_VERSION_1_1 HTTP_METHOD_POST (list_to_map headers) url [] ∅).
  destruct (to_string_digits n) as (_ & Hd & _); [lia|].
  assert (post_head r n) as Hp.
  { split; [done| |].
    2:{ unfold u16. rewrite wrap_id by lia. unfold HTTP_POST_MAX_CONTENT_LENGTH. lia. }
    exists (to_string n). split; [done|]. split; [done|]. apply stoi_to_string. lia. }
  destruct (post_feed max n tok body r) with chunks (@nil ascii) (init max)
    as (p & E & Hst); rewrite ?app_nil_l; try (done || lia).
  - by apply (render_head_token _ HTTP_METHOD_POST).
  - by apply (request_head_render _ HTTP_METHOD_POST).
  - apply post_in_head; [rewrite length_app; simpl; lia|done..].
  - exists p. split; [done|]. simpl in Hst. rewrite Hc in Hst.
    inversion Hst as [x q Hx|y q Hy _ _ _ _ _ _ _ Ey|q Hw _ _ Hbuf Hq]; subst; [| |done].
    + rewrite !length_app in Hx. lia.
    + apply app_inv_head in Ey. simplify_eq/=. lia.
Qed.

Lemma post_delivered_witness :
  let s := sample_post ++ HTTP_1_1_END_MARKER ++ str "{}" in
  ∃ p, feed [take 40 s; take 30 (drop 40 s); drop 30 (drop 40 s)] (init 4096) = (p, inr ()) ∧
    getRequests p =
      [mkRequest HTTP_VERSION_1_1 HTTP_METHOD_POST (list_to_map sample_post_headers)
         (str "/b") (str "{}") ∅] ∧
    _HTTPRequestBuffer p = [] ∧ _POSTWaitContentLength p = false.
Proof.
  intros s.
  apply (post_delivered 4096 (str "/b") sample_post_headers 2 (str "{}"));
    [by_decide|by_decide|reflexivity|by_decide|reflexivity|reflexivity|reflexivity|by_decide].
Defined.

(** C8: query parameters survive the round trip: printing a path without a
    question mark and a list of parameters as a URL and parsing it gives the
    map of the parameters (the first of several values of a name). *)
Theorem query_roundtrip path params :
  ("?"%char ∉ path) → Forall param_ok params →
  _parseGETParameter (render_query path params) ∅ = list_to_map params.
Proof. apply parse_render_query. Qed.

Lemma query_roundtrip_witness :
  _parseGETParameter (render_query (str "/a") [(str "x", str "1"); (str "y", str "=2")]) ∅ =
  list_to_map [(str "x", str "1"); (str "y", str "=2")].
Proof. apply query_roundtrip; by_decide. Defined.

(** C6: a receive never breaks the object invariant, whatever the bytes and
    even when it ends in an exception: the buffer stays within its limit and
    the 16-bit content length stays in range. *)
Theorem append_preserves_parser_ok `{Frontend} p c p' res :
  parser_ok p → appendBuffer c (length c) p = (p', res) → parser_ok p'.
Proof. apply append_ok. Qed.

Lemma append_preserves_parser_ok_witness :
  parser_ok (init 4096) ∧
  parser_ok (appendBuffer sample_post (length sample_post) (init 4096)).1.
Proof.
  assert (parser_ok (init 4096)) as H0 by (split; by_decide). split; [exact H0|].
  apply (append_preserves_parser_ok _ sample_post _
    (appendBuffer sample_post (length sample_post) (init 4096)).2 H0).
  apply surjective_pairing.
Defined.

(** C7: every request a receive delivers, when no body is awaited, is an
    HTTP/1.1 GET without payload, or an HTTP/1.1 POST with a [Content-Length] of
    digits. The length of its payload is the announced number modulo 65536,
    which is at most 2048: the number itself exactly when that is at most 2048;
    from 65536 on the announcement can be accepted and the payload is shorter. *)
Theorem delivered_requests_valid `{Frontend} p c p' res :
  _POSTWaitContentLength p = false →
  appendBuffer c (length c) p = (p', res) →
  ∃ new, getRequests p' = getRequests p ++ new ∧
    Forall (λ r, HTTPVersion r = HTTP_VERSION_1_1 ∧
      (HTTPMethod r = HTTP_METHOD_GET ∧ Payload r = [] ∨
       HTTPMethod r = HTTP_METHOD_POST ∧
       ∃ value n, RequestHeaders r !! HTTP_HEADER_CONTENT_LENGTH = Some value ∧
         is_digits value = true ∧ stoi value = inr n ∧
         let length := Z.of_nat (length (Payload r)) in
         length = (n `mod` 65536)%Z ∧ (length <= 2048)%Z ∧
         (length = n ↔ (0 <= n <= 2048)%Z))) new.
Proof.
  intros Hw E. destruct (append_cases p c p' res E) as [[-> ->]|(_ & [(Hw' & _)|Hp])].
  - exists []. by rewrite app_nil_r.
  - congruence.
  - apply pr_requests in Hp as (new & Hq & Hnew). exists new. split; [exact Hq|].
    apply (Forall_impl _ _ _ Hnew). intros r (Hv & Hr). split; [done|].
    destruct Hr as [?|(n & [Hm (value & Hval & Hd & Hs) Hmax] & Hlen)]; [by left|right].
    split; [done|]. exists value, n. do 3 (split; [done|]). cbv zeta.
    unfold HTTP_POST_MAX_CONTENT_LENGTH in Hmax. rewrite Hlen.
    change (u16 n) with (n `mod` 65536)%Z in *.
    split; [done|]. split; [done|]. pose proof (Z.mod_pos_bound n 65536).
    split; [lia|]. intros ?. apply Z.mod_small. lia.
Qed.

Definition sample_wrap_headers : list (bytes * bytes) :=
  [(HTTP_HEADER_CONTENT_LENGTH, str "65538")].

(** An announced length of 2, and one of 65538. *)
Lemma delivered_requests_valid_witness :
  Forall (λ headers,
    let c := render_head (str "POST") (str "/b") headers ++ HTTP_1_1_END_MARKER ++ str "{}" in
    ∃ r, getRequests (appendBuffer c (length c) (init 4096)).1 = getRequests (init 4096) ++ [r] ∧
      ∃ value n, RequestHeaders r !! HTTP_HEADER_CONTENT_LENGTH = Some value ∧
        is_digits value = true ∧ stoi value = inr n ∧
        let length := Z.of_nat (length (Payload r)) in
        length = (n `mod` 65536)%Z ∧ (length <= 2048)%Z ∧ (length = n ↔ (0 <= n <= 2048)%Z))
    [sample_post_headers; sample_wrap_headers].
Proof.
  repeat constructor; intros c;
    destruct (delivered_requests_valid (init 4096) c _
      (appendBuffer c (length c) (init 4096)).2 eq_refl (surjective_pairing _)) as (new & Hq & Hnew);
    assert (length (getRequests (appendBuffer c (length c) (init 4096)).1) = 1 ∧
      map HTTPMethod (getRequests (appendBuffer c (length c) (init 4096)).1) = [HTTP_METHOD_POST])
      as [Hl Hm] by (vm_compute; done);
    rewrite Hq in Hl, Hm; destruct new as [|r [|]]; try discriminate;
    exists r; (split; [exact Hq|]); apply Forall_cons in Hnew as [(_ & [[Hg _]|[_ Hr]]) _];
    try exact Hr; exfalso; cbn in Hm; rewrite Hg in Hm; discriminate.
Defined.

(** ** Errors *)

(** C9: in a batch of tokens, those before the first unacceptable one are
    delivered; the unacceptable one sets the error code 400 and it and
    everything behind it in the batch is dropped. *)
Theorem batch_stops_at_first_reject `{Frontend} p c rest ts bad more rs :
  _POSTWaitContentLength p = false → fits p c →
  split (_HTTPRequestBuffer p ++ c) HTTP_1_1_END_MARKER [] = (rest, ts ++ bad :: more) →
  Forall2 (λ t r, get_request t = Some r) ts rs → request_head bad = None →
  ∃ p', appendBuffer c (length c) p = (p', inr ()) ∧
    getRequests p' = getRequests p ++ rs ∧
    _RequestParseError p' = HTTP_ERROR_BAD_REQUEST ∧ _HTTPRequestBuffer p' = rest.
Proof.
  intros Hw Hf Hs Hrs Hbad.
  rewrite (append_gets p c rest ts (bad :: more) rs) by done. cbn [length process_loop].
  destruct (process_reject _ (length ts) bad (foldl_accept_next rs ts bad more rest p) Hbad)
    as [props E].
  rewrite (run_bind _ _ _ _ _ E). cbn. eexists. split; [done|].
  rewrite foldl_accept. done.
Qed.

Lemma batch_stops_at_first_reject_witness :
  let bad := str "DELETE / HTTP/1.1" in
  let c := join HTTP_1_1_END_MARKER [printed_get sample_get; bad; printed_get sample_get] in
  ∃ p', appendBuffer c (length c) (init 4096) = (p', inr ()) ∧
    getRequests p' = getRequests (init 4096) ++ [expected_get sample_get] ∧
    _RequestParseError p' = HTTP_ERROR_BAD_REQUEST ∧ _HTTPRequestBuffer p' = [].
Proof.
  intros bad c.
  apply (batch_stops_at_first_reject (init 4096) c [] [printed_get sample_get] bad
    [printed_get sample_get]).
  - reflexivity.
  - by_decide.
  - vm_compute. reflexivity.
  - apply mapM_Some. vm_compute. reflexivity.
  - vm_compute. reflexivity.
Defined.

(** C10: a POST request behind at least one GET request, as the last token of a
    batch, is not delivered: the parser looks for its body in the token behind
    it, and the vector access throws [std::out_of_range], with its body left
    in the buffer. *)
Theorem post_last_of_batch_throws `{Frontend} p c rest ts t r n rs :
  _POSTWaitContentLength p = false → fits p c → ts ≠ [] →
  split (_HTTPRequestBuffer p ++ c) HTTP_1_1_END_MARKER [] = (rest, ts ++ [t]) →
  Forall2 (λ t r, get_request t = Some r) ts rs →
  request_head t = Some r → post_head r n →
  ∃ p', appendBuffer c (length c) p = (p', inl (Throw out_of_range)) ∧
    getRequests p' = getRequests p ++ rs ∧ _HTTPRequestBuffer p' = rest.
Proof.
  intros Hw Hf Hne Hs Hrs Hr Hp.
  rewrite (append_gets p c rest ts [t] rs) by done. cbn [length process_loop].
  pose proof (process_head _ (length ts) t r (foldl_accept_next rs ts t [] rest p) Hr) as E.
  rewrite decide_False, (process_post _ _ r n Hp) in E by by rewrite (ph_method _ _ Hp).
  apply nonempty_length in Hne. rewrite foldl_accept in E |- *. simpl in E.
  rewrite length_app in E. simpl in E.
  rewrite decide_False, decide_True in E by lia.
  rewrite lookup_ge_None_2 in E by (rewrite length_app; simpl; lia).
  rewrite (run_bind _ _ _ _ _ E). eexists. split; [done|]. done.
Qed.

Lemma post_last_of_batch_throws_witness :
  let c := join HTTP_1_1_END_MARKER [printed_get sample_get; sample_post] ++ str "{}" in
  ∃ p', appendBuffer c (length c) (init 4096) = (p', inl (Throw out_of_range)) ∧
    getRequests p' = getRequests (init 4096) ++ [expected_get sample_get] ∧
    _HTTPRequestBuffer p' = str "{}".
Proof.
  intros c.
  apply (post_last_of_batch_throws (init 4096) c (str "{}") [printed_get sample_get] sample_post
    (mkRequest HTTP_VERSION_1_1 HTTP_METHOD_POST (list_to_map sample_post_headers)
       (str "/b") [] ∅) 2).
  - reflexivity.
  - by_decide.
  - discriminate.
  - vm_compute. reflexivity.
  - apply mapM_Some. vm_compute. reflexivity.
  - vm_compute. reflexivity.
  - split; [reflexivity|exists (str "2"); split; [reflexivity|split; reflexivity]|by_decide].
Defined.

(** [Content-Length] is cut to 16 bits before it is compared with the
    maximum: a POST that announces [n] bytes, at least 65536 of them, with
    [n mod 65536] at most 2048, is delivered with a payload of [n mod 65536]
    bytes. *)
Theorem content_length_truncated `{Frontend} p tok r n body :
  _POSTWaitContentLength p = false → _HTTPRequestBuffer p = [] →
  find HTTP_1_1_END_MARKER (tok ++ HTTP_1_1_END_MARKER) = Some (length tok) →
  request_head tok = Some r → HTTPMethod r = HTTP_METHOD_POST →
  RequestHeaders r !! HTTP_HEADER_CONTENT_LENGTH = Some (to_string n) →
  (65536 <= n < 2 ^ 31)%Z → (n `mod` 65536 <= HTTP_POST_MAX_CONTENT_LENGTH)%Z →
  Z.of_nat (length body) = (n `mod` 65536)%Z →
  find HTTP_1_1_END_MARKER body = None →
  let c := tok ++ HTTP_1_1_END_MARKER ++ body in
  fits p c →
  ∃ p', appendBuffer c (length c) p = (p', inr ()) ∧
    getRequests p' = getRequests p ++ [with_payload body r] ∧
    (Z.of_nat (length (Payload (with_payload body r))) < n)%Z.
Proof.
  intros Hw Hb Ht Hr Hm Hcl Hn Hmax Hlen Hy c Hf.
  destruct (to_string_digits n) as (_ & Hd & _); [lia|].
  assert (post_head r n) as Hp.
  { split; [done| |done]. exists (to_string n). split; [done|]. split; [done|].
    apply stoi_to_string. lia. }
  unfold c. rewrite (append_single_post p tok body r) by done.
  unfold mbind, St_bind. rewrite (process_post 0 _ r n Hp). simpl.
  change (u16 n) with (n `mod` 65536)%Z.
  assert (Z.to_nat (n `mod` 65536) = length body) as -> by lia.
  rewrite decide_True by lia. cbn. eexists. split; [done|].
  rewrite firstn_all. split; [done|]. simpl. pose proof (Z.mod_pos_bound n 65536). lia.
Qed.

Lemma content_length_truncated_witness :
  let tok := render_head (str "POST") (str "/b") sample_wrap_headers in
  let r := mkRequest HTTP_VERSION_1_1 HTTP_METHOD_POST (list_to_map sample_wrap_headers)
             (str "/b") [] ∅ in
  let c := tok ++ HTTP_1_1_END_MARKER ++ str "{}" in
  ∃ p', appendBuffer c (length c) (init 4096) = (p', inr ()) ∧
    getRequests p' = getRequests (init 4096) ++ [with_payload (str "{}") r] ∧
    (Z.of_nat (length (Payload (with_payload (str "{}") r))) < 65538)%Z.
Proof.
  intros tok r c. apply (content_length_truncated (init 4096) tok r 65538 (str "{}"));
    try reflexivity; by_decide.
Defined.

(** A [Content-Length] of digits whose value does not fit an [int] makes
    [stoi] throw out of [appendBuffer]; nothing catches it in the parser. *)
Theorem content_length_overflow_throws `{Frontend} p tok r v y :
  _POSTWaitContentLength p = false → _HTTPRequestBuffer p = [] →
  find HTTP_1_1_END_MARKER (tok ++ HTTP_1_1_END_MARKER) = Some (length tok) →
  find HTTP_1_1_END_MARKER y = None →
  request_head tok = Some r → HTTPMethod r = HTTP_METHOD_POST →
  RequestHeaders r !! HTTP_HEADER_CONTENT_LENGTH = Some v →
  v ≠ [] → is_digits v = true → (2 ^ 31 <= digits_val v)%Z →
  let c := tok ++ HTTP_1_1_END_MARKER ++ y in
  fits p c →
  ∃ p', appendBuffer c (length c) p = (p', inl (Throw out_of_range)) ∧
    getRequests p' = getRequests p.
Proof.
  intros Hw Hb Ht Hy Hr Hm Hcl Hne Hd Hv c Hf.
  unfold c. rewrite (append_single_post p tok y r) by done.
  unfold mbind at 1, St_bind at 1. unfold processPost. run. simpl.
  rewrite Hcl, Hd, decide_False by done. rewrite stoi_digits by done.
  rewrite decide_False by lia. run. eexists. split; [done|]. done.
Qed.

Lemma content_length_overflow_throws_witness :
  let h := [(HTTP_HEADER_CONTENT_LENGTH, str "99999999999")] in
  let tok := render_head (str "POST") (str "/b") h in
  let c := tok ++ HTTP_1_1_END_MARKER ++ [] in
  ∃ p', appendBuffer c (length c) (init 4096) = (p', inl (Throw out_of_range)) ∧
    getRequests p' = getRequests (init 4096).
Proof.
  intros h tok c.
  apply (content_length_overflow_throws (init 4096) tok
    (mkRequest HTTP_VERSION_1_1 HTTP_METHOD_POST (list_to_map h) (str "/b") [] ∅)
    (str "99999999999") []); try reflexivity; try discriminate; by_decide.
Defined.

(** A full buffer is final: once the buffered bytes fill the limit, every
    further non-empty receive (of less than 65536 bytes, the range of its
    length) is ignored, so the connection never delivers
    another request. *)
Theorem full_buffer_ignores_input `{Frontend} p chunks :
  Z.of_nat (length (_HTTPRequestBuffer p)) = _HTTPRequestBufferMax p →
  Forall (λ c, 0 < Z.of_nat (length c) < 65536)%Z chunks →
  feed chunks p = (p, inr ()).
Proof.
  intros Hb Hc. induction Hc as [|c cs [Hne _] _ IH]; [done|].
  rewrite feed_cons, append_overflow; [done|lia].
Qed.

Lemma full_buffer_ignores_input_witness :
  let p := (feed [replicate 8 "x"%char] (init 8)).1 in
  feed [sample_post; str "y"] p = (p, inr ()).
Proof.
  intros p. apply full_buffer_ignores_input; [reflexivity|by_decide].
Defined.

(** C11: while a body is awaited, an end marker among the body bytes received
    so far makes the parser take the bytes before it for a request: when they
    are no request line, the awaited request is replaced by one of unknown
    version and method, which is delivered with the bytes that follow as its
    payload. *)
Theorem awaited_body_with_marker_replaces_request `{Frontend} p c rest bad more c2 :
  _POSTWaitContentLength p = true →
  length (_HTTPRequestBuffer p ++ c) < Z.to_nat (_POSTContentLength p) →
  fits p c →
  split (_HTTPRequestBuffer p ++ c) HTTP_1_1_END_MARKER [] = (rest, bad :: more) →
  bad ≠ [] → _parseRequestProperties bad default_props = (false, default_props) →
  (Z.of_nat (length rest + length c2) <= _HTTPRequestBufferMax p)%Z →
  Z.to_nat (_POSTContentLength p) <= length (rest ++ c2) →
  ∃ p', feed [c; c2] p = (p', inr ()) ∧
    getRequests p' = getRequests p ++
      [mkRequest HTTP_VERSION_UNKNOWN HTTP_METHOD_OTHER ∅ (str "/")
         (take (Z.to_nat (_POSTContentLength p)) (rest ++ c2)) ∅].
Proof.
  intros Hw Hlt Hf Hs Hne Hbad Hf2 Hle.
  rewrite feed_cons, append_fits by done. cbv zeta. rewrite decide_False by lia.
  rewrite Hs. cbn [length process_loop].
  pose proof (process_no_line (set_splitted (bad :: more) (set_buffer rest p)) 0 bad
    eq_refl Hne Hbad) as E.
  rewrite (run_bind _ _ _ _ _ E), decide_True, run_modify_end by done.
  rewrite feed_cons, append_fits by done. cbv zeta. simpl. rewrite decide_True by done.
  eexists. split; [done|]. done.
Qed.

Lemma awaited_body_with_marker_replaces_request_witness :
  let head := render_head (str "POST") (str "/b") [(HTTP_HEADER_CONTENT_LENGTH, str "20")]
                ++ HTTP_1_1_END_MARKER in
  let p := (feed [head] (init 4096)).1 in
  let c := str "ab" ++ HTTP_1_1_END_MARKER in
  let c2 := replicate 20 "x"%char in
  ∃ p', feed [c; c2] p = (p', inr ()) ∧
    getRequests p' = getRequests p ++
      [mkRequest HTTP_VERSION_UNKNOWN HTTP_METHOD_OTHER ∅ (str "/")
         (take (Z.to_nat (_POSTContentLength p)) ([] ++ c2)) ∅].
Proof.
  intros head p c c2.
  apply (awaited_body_with_marker_replaces_request p c [] (str "ab") [] c2);
    try (vm_compute; reflexivity); try discriminate; by_decide.
Defined.

(** ** Requests taken through the pointer *)

(** The parser [p] with further requests in front of its own. *)
Definition with_earlier (rs : list RequestProperties_t) (p : HTTPParser) : HTTPParser :=
  mkParser (_SplittedRequests p) (_RequestParseError p) (_POSTWaitContentLength p)
    (_POSTContentLength p) (_HTTPRequestBuffer p) (_HTTPRequestBufferMax p)
    (_RequestProperties p) (rs ++ _Requests p).

(** A computation that only appends to the requests does the same whatever is
    in front of them. *)
Definition appends {A} (m : St HTTPParser A) : Prop :=
  ∀ rs p, m (with_earlier rs p) = (with_earlier rs (m p).1, (m p).2).

Section appends.
Context `{Frontend}.

#[local] Ltac same := unfold push_request, with_earlier; cbn; by rewrite ?app_assoc.

Lemma appends_process_post Index : appends (processPost Index).
Proof.
  intros rs p. unfold processPost. run. cbn [_RequestProperties with_earlier].
  destruct (RequestHeaders _ !! _) as [value|]; [|done]. case_decide; [done|].
  destruct (stoi value) as [e|n]; run; [done|]. cbn.
  repeat case_decide; run; try same.
  destruct (_SplittedRequests p !! (Index + 1)); run; [|same].
  case_decide; run; same.
Qed.

Lemma appends_process Index : appends (_processRequestProperties Index).
Proof.
  intros rs p. unfold _processRequestProperties. run. cbn [_SplittedRequests with_earlier].
  destruct (_SplittedRequests p !! Index) as [Request|]; [|done]. case_decide; [done|].
  destruct (_parseRequestProperties _ _) as [ok props]. run.
  repeat case_decide; run; try same. exact (appends_process_post Index rs
    (set_properties (with_headers (parse_headers Request (RequestHeaders props)) props)
      (set_properties props p))).
Qed.

Lemma appends_loop n i : appends (process_loop n i).
Proof.
  revert i. induction n as [|n IH]; intros i rs p; [done|]. cbn [process_loop].
  unfold mbind, St_bind. rewrite appends_process.
  destruct (_processRequestProperties i p) as [p' [e|ok]]; [done|]. cbn.
  case_decide; [done|]. apply IH.
Qed.

Lemma appends_append B n : appends (appendBuffer B n).
Proof.
  intros rs p. unfold appendBuffer. run. cbn. case_decide; [done|].
  run. cbn -[find]. case_decide; [run; same|].
  run. cbn -[find]. case_decide; [|done].
  unfold _processRequests. run. cbn -[StringHelper.split].
  destruct (StringHelper.split _ _ _) as [buf toks]. run.
  exact (appends_loop _ _ rs (set_splitted toks (set_buffer buf (set_splitted []
    (set_buffer (_HTTPRequestBuffer p ++ take n B) p))))).
Qed.

(** What the caller does to the requests has no influence on those to come:
    whatever [f] makes of them between two receives, further receives append
    the same requests and leave the rest of the parser the same. *)
Theorem requests_taken_freely f chunks p :
  let old := _Requests p in
  let '(p', res) := feed chunks (getRequestsPtr (λ _, []) p).1 in
  feed chunks p = (with_earlier old p', res) ∧
  feed chunks (getRequestsPtr f p).1 = (with_earlier (f old) p', res).
Proof.
  intros old. assert (∀ cs q, feed cs (with_earlier q.1 q.2) =
    (with_earlier q.1 (feed cs q.2).1, (feed cs q.2).2)) as Hf.
  { induction cs as [|c cs IH]; intros [rs q]; [done|]. cbn [fst snd].
    rewrite !ParserSpec.feed_cons, appends_append.
    destruct (appendBuffer c (length c) q) as [q' [e|[]]]; [done|]. apply (IH (rs, q')). }
  set (p0 := (getRequestsPtr (λ _, []) p).1).
  destruct (feed chunks p0) as [p' res] eqn:E.
  pose proof (Hf chunks (old, p0)) as H1. pose proof (Hf chunks (f old, p0)) as H2.
  cbn [fst snd] in H1, H2. rewrite E in H1, H2. cbn [fst snd] in H1, H2.
  rewrite <-H1, <-H2. unfold with_earlier, p0. cbn. rewrite !app_nil_r. by destruct p.
Qed.
End appends.

(** ** String helpers *)

(** C12: the destructive [split] ends within one round more than the string has
    bytes; the tokens and the remainder are free of the delimiter, and written
    back with a delimiter behind every token they are the input. *)
Theorem split_correct s d fuel :
  d ≠ [] → length s < fuel →
  split_loop fuel s d [] = Some (split s d []) ∧
  Forall (λ t, find d t = None) (split s d []).2 ∧
  find d (split s d []).1 = None ∧
  join d (split s d []).2 ++ (split s d []).1 = s.
Proof.
  intros Hd Hf. split; [by apply split_total|].
  split; [by apply split_tokens_free|]. split; [by apply split_rest_free|].
  by apply split_join.
Qed.

Lemma split_correct_witness :
  let s := str "a, b, c" in
  split_loop 8 s (str ", ") [] = Some (split s (str ", ") []) ∧
  Forall (λ t, find (str ", ") t = None) (split s (str ", ") []).2 ∧
  find (str ", ") (split s (str ", ") []).1 = None ∧
  join (str ", ") (split s (str ", ") []).2 ++ (split s (str ", ") []).1 = s.
Proof. apply split_correct; [discriminate|by_decide]. Defined.

(** Splitting is incremental: splitting a string and then what is left of
    it followed by more bytes gives the tokens and the remainder of the whole. *)
Theorem split_incremental x y d :
  d ≠ [] →
  split (x ++ y) d [] =
  ((split ((split x d []).1 ++ y) d []).1,
   (split x d []).2 ++ (split ((split x d []).1 ++ y) d []).2).
Proof. apply split_stream. Qed.

Lemma split_incremental_witness :
  let x := str "a, b," in let y := str " c" in
  split (x ++ y) (str ", ") [] =
  ((split ((split x (str ", ") []).1 ++ y) (str ", ") []).1,
   (split x (str ", ") []).2 ++ (split ((split x (str ", ") []).1 ++ y) (str ", ") []).2).
Proof. apply split_incremental. discriminate. Defined.

(** With a delimiter in the searched prefix, [rsplit] delivers, last first,
    the list whose interleaving with the delimiter is that prefix; for a
    one-character delimiter it inverts the interleaving of any two or more
    words free of it. *)
Theorem rsplit_correct :
  (∀ s sp d, d ≠ [] → sp <= length s → length d <= sp →
     is_Some (rfind d s (sp - length d)) →
     intercalate d (reverse (rsplit s sp d [])) = take sp s) ∧
  (∀ c ws rest, 1 < length ws → Forall (λ t, c ∉ t) ws →
     rsplit (intercalate [c] ws ++ rest) (length (intercalate [c] ws)) [c] [] = reverse ws).
Proof. split; [apply rsplit_join|apply rsplit_words]. Qed.

(** [stoi] reads back what [to_string] prints, for every [int] that is not
    negative; on a non-empty run of digits it is the decimal value or throws. *)
Theorem stoi_roundtrip :
  (∀ n, (0 <= n < 2 ^ 31)%Z → is_digits (to_string n) = true ∧ stoi (to_string n) = inr n) ∧
  (∀ s, s ≠ [] → is_digits s = true →
     stoi s = if decide (digits_val s < 2 ^ 31)%Z then inr (digits_val s)
              else inl (Throw out_of_range)).
Proof.
  split; [|apply stoi_digits]. intros n Hn. split; [|by apply stoi_to_string].
  destruct (to_string_digits n) as (_ & Hd & _); [lia|]. done.
Qed.

(** The JSON text of at most 65536 parameters is the opening, the pairs in
    iteration order separated by commas, and the closing, for any iteration
    order of the table; beyond 65536 the 16-bit position counter wraps and a
    comma follows the last pair too. *)
Theorem json_text iter `{!IterOrder iter} m :
  let n := Z.of_nat (size m) in
  let items := map pair_text (iter m) in
  ((n <= 65536)%Z →
   URLParamsMap2JSON iter m =
   payload_open ++ intercalate (str ",") items ++ payload_close) ∧
  ((65536 < n < 2 ^ 64)%Z →
   URLParamsMap2JSON iter m = payload_open ++ join (str ",") items ++ payload_close).
Proof.
  cbv zeta. unfold URLParamsMap2JSON. split; intros Hn.
  - rewrite (pairs_loop_commas _ 0), <-app_assoc; [done|lia| |lia].
    rewrite (iter_length iter). lia.
  - by rewrite (pairs_loop_all_commas _ 0), <-app_assoc by lia.
Qed.

Definition sample_params : gmap bytes bytes :=
  list_to_map [(str "a", str "1"); (str "b", str "2")].

Lemma json_text_witness :
  URLParamsMap2JSON map_to_list sample_params =
  payload_open ++ intercalate (str ",") (map pair_text (map_to_list sample_params))
    ++ payload_close.
Proof.
  destruct (json_text map_to_list sample_params) as [H _].
  cbv zeta in H. apply H. vm_compute. discriminate.
Defined.
