(* ===== verification/HttpParserCpp11.v ===== *)
(** * The C++11 build of the parser (lib/http/httpparser-cpp11.hpp and .cpp)

    The legacy build repeats the text of the parser and differs in two
    functions: headers are split at CRLF and then, from the right, at ": ", and
    query parameters are split destructively. The two functions are the
    instance [cpp11] of [Frontend], so that everything proved against the
    interface holds of this build too. The first lemmas characterise what the
    right-to-left split does to a header line; the theorems that compare the
    builds are in HttpBuilds.v. *)
From S2P Require Export HttpRoundTrip.
From stdpp Require Import options.

Module Cpp11.
Import StringHelper HTTPParser RoundTrip.

(** ** Data *)

(** The members of a request and of the parser are those of the C++23 build. *)
Definition RequestProperties_t : Type := HTTPParser.RequestProperties_t.
Definition HTTPParser_t : Type := HTTPParser.HTTPParser.

(** ** The two functions *)

(** The body of the header loop for one [Line]. *)
Definition header_line (Line : bytes) : option (bytes * bytes) :=
  match rsplit Line (length Line) (str ": ") [] with
  | [HeaderPair0; HeaderPair1] =>
      if decide (HeaderPair0 ≠ [] ∧ HeaderPair1 ≠ []) then Some (HeaderPair1, HeaderPair0)
      else None
  | _ => None
  end.

(** [_parseRequestHeaders] *)
Definition _parseRequestHeaders (RequestIn : bytes) (ResultRef : gmap bytes bytes) :
    gmap bytes bytes :=
  let '(Request, Lines) := split RequestIn CRLF [] in
  foldl (λ m Line, add_pair m (header_line Line)) ResultRef (Lines ++ [Request]).

(** [_parseGETParameter] *)
Definition _parseGETParameter (RequestURL : bytes) (ResultRef : gmap bytes bytes) :
    gmap bytes bytes :=
  match find (str "?") RequestURL with
  | Some URLParamsStartPos =>
      if decide (URLParamsStartPos < length RequestURL) then
        let '(URLParamsPart, ParamValuePairs) :=
          split (drop (URLParamsStartPos + 1) RequestURL) (str "&") [] in
        let ParamValuePairs :=
          if decide (URLParamsPart ≠ []) then ParamValuePairs ++ [URLParamsPart]
          else ParamValuePairs in
        foldl (λ m pv, add_pair m (param_pair pv)) ResultRef ParamValuePairs
      else ResultRef
  | None => ResultRef
  end.

#[export] Instance cpp11 : Frontend := {|
  parse_headers := _parseRequestHeaders;
  parse_params := _parseGETParameter
|}.

(** ** How many pieces [rsplit] delivers *)

Lemma rfind_at p s pos k :
  p ≠ [] → occurs p s k → k <= pos → (∀ j, k < j → ¬ occurs p s j) →
  rfind p s pos = Some k.
Proof.
  intros Hp Ho Hk Hmax. apply rfind_Some; [done|]. split; [done|]. split; [done|].
  intros j Hj. apply Hmax. lia.
Qed.

(** One occurrence: the text behind it and the text before it. *)
Lemma rsplit_one s d k :
  d ≠ [] → occurs d s k → (∀ j, occurs d s j → j = k) →
  rsplit s (length s) d [] = [drop (k + length d) s; take k s].
Proof.
  intros Hd Ho Hone. pose proof (occurs_lt _ _ _ Hd Ho) as Hk.
  apply nonempty_length in Hd as Hd'. unfold rsplit. rewrite decide_False by lia.
  cbn [rsplit_loop].
  rewrite (rfind_at _ _ _ k) by (done || lia || (intros j Hj Hoj%Hone; lia)).
  assert (substr s (k + length d) (length s - length d - k) = drop (k + length d) s) as ->.
  { unfold substr. apply take_ge. rewrite length_drop. lia. }
  case_decide as Hlt; [done|].
  destruct (length s - length d) as [|f] eqn:E; [lia|]. cbn [rsplit_loop].
  assert (rfind d s (k - length d) = None) as ->; [|done].
  apply rfind_None; [done|]. intros j Hj Hoj. apply Hone in Hoj. lia.
Qed.

(** Two separate occurrences: more than two pieces. *)
Lemma rsplit_many s d j k :
  d ≠ [] → occurs d s j → occurs d s k → j + length d <= k →
  (∀ i, k < i → ¬ occurs d s i) →
  2 < length (rsplit s (length s) d []).
Proof.
  intros Hd Hj Hk Hjk Hmax. pose proof (occurs_lt _ _ _ Hd Hk) as Hb.
  apply nonempty_length in Hd as Hd'. unfold rsplit. rewrite decide_False by lia.
  cbn [rsplit_loop]. rewrite (rfind_at _ _ _ k) by (done || lia).
  rewrite decide_False by lia.
  destruct (length s - length d) as [|f] eqn:E; [lia|]. cbn [rsplit_loop].
  destruct (rfind d s (k - length d)) as [i|] eqn:Ei.
  2:{ exfalso. rewrite rfind_None in Ei by done. apply (Ei j); [lia|done]. }
  destruct (rfind_bound _ _ _ _ Hd Ei) as [Hib Hik].
  set (a := substr s (k + _) _). set (b := substr s (i + _) _).
  case_decide; [rewrite !length_app; simpl; lia|].
  destruct (rsplit_loop_total f s d (i - length d) i (([] ++ [a]) ++ [b]) Hd) as [[r segs] Er];
    [lia|].
  rewrite Er. apply rsplit_loop_join in Er as (new & -> & _); [|done|lia].
  rewrite !length_app. simpl. lia.
Qed.

(** A header separator does not overlap itself. *)
Lemma sep_apart s j k :
  occurs (str ": ") s j → occurs (str ": ") s k → j < k → j + length (str ": ") <= k.
Proof.
  intros [r Hr] [r' Hr'] Hjk. simpl. destruct (decide (k = S j)) as [->|]; [|lia].
  exfalso. apply (f_equal (λ l, l !! 1)) in Hr. apply (f_equal (λ l, l !! 0)) in Hr'.
  rewrite lookup_drop in Hr, Hr'. replace (S j + 0) with (j + 1) in Hr' by lia.
  rewrite Hr in Hr'. done.
Qed.

(** ** The header line *)

(** What is left of a header line behind its first separator. *)
Definition single_separator (Line : bytes) : Prop :=
  match find (str ": ") Line with
  | Some k => find (str ": ") (drop (k + 2) Line) = None
  | None => True
  end.

#[global] Instance single_separator_dec l : Decision (single_separator l).
Proof. unfold single_separator. destruct (find _ l); apply _. Defined.

Lemma occurs_drop p s n i : occurs p (drop n s) i ↔ occurs p s (n + i).
Proof. unfold occurs. by rewrite drop_drop. Qed.

Lemma header_line_none Line : find (str ": ") Line = None → header_line Line = None.
Proof.
  intros Hf. unfold header_line. destruct (decide (length Line < 2)) as [Hl|Hl].
  - unfold rsplit. by rewrite decide_True.
  - rewrite rsplit_no_delim; [done|done|simpl; lia|].
    apply rfind_None; [done|]. intros j _ Ho.
    apply (proj1 (find_None _ _) Hf j); [|done].
    apply occurs_lt in Ho; [lia|done].
Qed.

Lemma header_line_one Line k :
  find (str ": ") Line = Some k → find (str ": ") (drop (k + 2) Line) = None →
  header_line Line =
  if decide (drop (k + 2) Line ≠ [] ∧ take k Line ≠ [])
  then Some (take k Line, drop (k + 2) Line) else None.
Proof.
  intros Hk Hn. apply find_Some in Hk as (Ho & _ & Hmin).
  unfold header_line. rewrite (rsplit_one _ _ k); [done|done|done|].
  intros j Hj. destruct (decide (k < j)) as [Hlt|Hge].
  - exfalso. pose proof (sep_apart _ _ _ Ho Hj Hlt) as Ha. simpl in Ha.
    apply (proj1 (find_None _ _) Hn (j - (k + 2))).
    + rewrite length_drop. apply occurs_lt in Hj; [simpl in Hj; lia|done].
    + apply occurs_drop. by replace (k + 2 + (j - (k + 2))) with j by lia.
  - destruct (decide (j = k)) as [->|]; [done|]. exfalso. apply (Hmin j); [lia|done].
Qed.

Lemma header_line_many Line k i :
  find (str ": ") Line = Some k → find (str ": ") (drop (k + 2) Line) = Some i →
  header_line Line = None.
Proof.
  intros Hk Hi. apply find_Some in Hk as (Ho & _ & _).
  apply find_Some in Hi as (Ho2%occurs_drop & _ & _).
  destruct (rfind (str ": ") Line (length Line)) as [m|] eqn:Em.
  2:{ exfalso. rewrite rfind_None in Em by done. apply (Em k); [|done].
      apply occurs_lt in Ho; [lia|done]. }
  apply rfind_Some in Em as (Hm & _ & Hmax); [|done].
  assert (k + 2 + i <= m) as Hle.
  { destruct (decide (k + 2 + i <= m)); [done|]. exfalso.
    apply (Hmax (k + 2 + i)); [|done]. apply occurs_lt in Ho2; [lia|done]. }
  assert (2 < length (rsplit Line (length Line) (str ": ") [])) as Hlen.
  { apply (rsplit_many _ _ k m); [done..|simpl; lia|]. intros j Hj Hoj.
    apply (Hmax j); [|done]. apply occurs_lt in Hoj; [lia|done]. }
  unfold header_line. destruct (rsplit _ _ _ _) as [|a [|b [|c l]]]; simpl in Hlen; by try lia.
Qed.

(** Without a carriage return at its end, a line means the same to both builds
    unless it holds two separators. *)
Lemma header_line_builds Line :
  last Line ≠ Some CR →
  header_line Line =
  if decide (single_separator Line) then HTTPParser.header_line Line else None.
Proof.
  intros Hcr. unfold HTTPParser.header_line.
  rewrite (decide_False (P := last Line = _)) by done.
  case_decide as Hs; unfold single_separator in Hs;
    (destruct (find (str ": ") Line) as [k|] eqn:Hk; [|by rewrite header_line_none]).
  2:{ destruct (find (str ": ") (drop (k + 2) Line)) as [i|] eqn:Hi; [|done].
      by apply (header_line_many _ k i). }
  pose proof (find_bound (str ": ") Line k ltac:(done) Hk) as Hb. simpl in Hb.
  rewrite (header_line_one _ k) by done.
  destruct (decide (0 < k)) as [H0|H0].
  - assert (take k Line ≠ []) by (apply nonempty_length_inv; rewrite length_take; lia).
    repeat case_decide; tauto || done.
  - replace k with 0 by lia. rewrite decide_False; [done|]. simpl. tauto.
Qed.

(** ** Whole requests *)

Lemma split_lines ls :
  Forall (λ l, CR ∉ l) ls →
  (split (intercalate CRLF ls) CRLF []).2 ++ [(split (intercalate CRLF ls) CRLF []).1] =
  if decide (ls = []) then [[]] else ls.
Proof.
  intros Hls. destruct ls as [|l ls _] using rev_ind; [done|].
  rewrite decide_False by (by destruct ls).
  apply Forall_app in Hls as [Hls [Hl _]%Forall_cons].
  rewrite intercalate_join, split_join_inv; [done|done| |].
  - eapply Forall_impl; [exact Hls|]. intros t Ht. unfold CRLF.
    rewrite find_skip by done. simpl. by rewrite Nat.add_0_r.
  - rewrite <-(app_nil_r l). unfold CRLF. by rewrite find_skip.
Qed.

Lemma headers_builds ls m :
  Forall line_ok ls → Forall single_separator ls →
  _parseRequestHeaders (intercalate CRLF ls) m =
  HTTPParser._parseRequestHeaders (intercalate CRLF ls) m.
Proof.
  intros Hls Hs. unfold _parseRequestHeaders, HTTPParser._parseRequestHeaders.
  rewrite headers_of_lines by done.
  assert (Forall (λ l, CR ∉ l) ls) as Hcr.
  { eapply Forall_impl; [exact Hls|]. by intros l (_ & H & _). }
  pose proof (split_lines ls Hcr) as E.
  destruct (split (intercalate CRLF ls) CRLF []) as [r ts]. simpl in E. rewrite E.
  case_decide as Hne; [by subst|]. clear E Hne Hls. revert m.
  induction Hs as [|l ls Hl Hs IH]; intros m; [done|]. cbn [foldl].
  apply Forall_cons in Hcr as [Hcl Hcr].
  rewrite header_line_builds, decide_True by
    (done || (intros H%last_Some_elem_of; done)).
  by apply IH.
Qed.

(** The two ways to split a query agree on every URL. *)
Lemma params_builds URL m :
  _parseGETParameter URL m = HTTPParser._parseGETParameter URL m.
Proof.
  unfold _parseGETParameter, HTTPParser._parseGETParameter.
  destruct (find (str "?") URL) as [k|]; [|done]. case_decide; [|done].
  rewrite split_view_spec by done.
  destruct (split (drop (k + 1) URL) (str "&") []) as [r ts]. simpl.
  case_decide as H1; case_decide as H2; try tauto. by rewrite app_nil_r.
Qed.

(** ** The functions whose text the builds share *)

Definition _parseRequestProperties := HTTPParser._parseRequestProperties.
Definition _processRequestProperties := @HTTPParser._processRequestProperties cpp11.
Definition _processRequests := @HTTPParser._processRequests cpp11.
Definition appendBuffer := @HTTPParser.appendBuffer cpp11.
Definition getRequests := HTTPParser.getRequests.
Definition getRequestsPtr := HTTPParser.getRequestsPtr.
Definition init := HTTPParser.init.
Definition split := StringHelper.split.
Definition rsplit := StringHelper.rsplit.
Definition is_digits := StringHelper.is_digits.
Definition URLParamsMap2JSON := JSON.URLParamsMap2JSON.

End Cpp11.
