(* ===== verification/HttpBuilds.v ===== *)
(** * The two builds of the parser compared *)
From S2P Require Export HttpParserCpp11 HttpTheorems.
From stdpp Require Import options.

Import StringHelper HTTPParser ParserSpec RoundTrip.

(** A header line as both builds read it. *)
Definition header_portable (kv : bytes * bytes) : Prop :=
  Cpp11.single_separator (render_header kv).

Definition get_portable (req : bytes * list (bytes * bytes)) : Prop :=
  let '(url, headers) := req in
  Cpp11.single_separator (render_line (str "GET") url) ∧ Forall header_portable headers.

#[export] Instance get_portable_dec req : Decision (get_portable req).
Proof. destruct req. unfold get_portable, header_portable. apply _. Defined.

Lemma request_head_cpp11 tok :
  Cpp11._parseRequestHeaders tok ∅ = _parseRequestHeaders tok ∅ →
  @request_head Cpp11.cpp11 tok = @request_head cpp23 tok.
Proof.
  intros E. unfold request_head. case_decide; [done|]. cbn [parse_headers Cpp11.cpp11 cpp23].
  destruct (_parseRequestProperties tok default_props) as [ok props] eqn:Ep.
  assert (RequestHeaders props = ∅) as ->; [|by rewrite E].
  unfold _parseRequestProperties in Ep. case_all; by simplify_eq/=.
Qed.

Lemma get_request_cpp11 req :
  get_ok req → get_portable req →
  @get_request Cpp11.cpp11 (printed_get req) = Some (expected_get req).
Proof.
  destruct req as [url headers]. intros [Hu Hh] [Hl Hp]. unfold get_request.
  rewrite request_head_cpp11; cbn [printed_get].
  - rewrite (request_head_render _ HTTP_METHOD_GET) by done. cbn.
    by rewrite Cpp11.params_builds.
  - apply Cpp11.headers_builds; [by apply (render_head_lines _ HTTP_METHOD_GET)|].
    constructor; [done|]. by apply Forall_map.
Qed.

(** A header line that does not end in a carriage return means the same to
    both builds unless it holds the separator twice: then the C++11 build
    ignores a header which the C++23 build keeps (its value reaching to the end
    of the line). *)
Theorem header_line_of_builds line :
  last line ≠ Some CR →
  Cpp11.header_line line =
  if decide (Cpp11.single_separator line) then HTTPParser.header_line line else None.
Proof. apply Cpp11.header_line_builds. Qed.

Lemma header_line_of_builds_witness :
  let line := str "Referer: a: b" in
  Cpp11.header_line line =
    (if decide (Cpp11.single_separator line) then HTTPParser.header_line line else None) ∧
  Cpp11.header_line line = None ∧
  HTTPParser.header_line line = Some (str "Referer", str "a: b").
Proof. split; [apply header_line_of_builds; by_decide|split; reflexivity]. Defined.

(** C13: on pipelines of printed GET requests whose header values hold no second
    separator the C++11 build is the replacement its header promises: it
    delivers exactly what the C++23 build delivers (C1), for every way to cut
    the bytes into receives. *)
Theorem cpp11_delivers_the_same max reqs chunks :
  Forall get_ok reqs → Forall get_portable reqs →
  concat chunks = join HTTP_1_1_END_MARKER (map printed_get reqs) →
  (Z.of_nat (length (concat chunks)) <= u16 max)%Z →
  ∃ p11 p23, @feed Cpp11.cpp11 chunks (init max) = (p11, inr ()) ∧
    @feed cpp23 chunks (init max) = (p23, inr ()) ∧
    getRequests p11 = map expected_get reqs ∧ getRequests p23 = getRequests p11 ∧
    _HTTPRequestBuffer p11 = [] ∧ _HTTPRequestBuffer p23 = [].
Proof.
  intros Hr Hp Hc Hl. pose proof (printed_gets_split reqs Hr) as Hs. rewrite <-Hc in Hs.
  assert (Forall2 (λ t r, @get_request Cpp11.cpp11 t = Some r)
    (split (concat chunks) HTTP_1_1_END_MARKER []).2 (map expected_get reqs)) as H11.
  { rewrite Hs. simpl. clear -Hr Hp. induction Hr; [constructor|].
    apply Forall_cons in Hp as [??]. constructor; [by apply get_request_cpp11|by auto]. }
  assert (Forall2 (λ t r, @get_request cpp23 t = Some r)
    (split (concat chunks) HTTP_1_1_END_MARKER []).2 (map expected_get reqs)) as H23.
  { rewrite Hs. by apply printed_gets_requests. }
  destruct (get_state_feed max chunks [] (init max) _ (get_state_init max) Hl H11)
    as (p11 & E11 & [_ _ _ Hb11 Hq11]).
  destruct (get_state_feed max chunks [] (init max) _ (get_state_init max) Hl H23)
    as (p23 & E23 & [_ _ _ Hb23 Hq23]).
  simpl in Hb11, Hb23, Hq11, Hq23. rewrite Hs in Hb11, Hb23.
  pose proof (Forall2_functional _ _ _ _ Hq11 H11) as G11.
  pose proof (Forall2_functional _ _ _ _ Hq23 H23) as G23.
  exists p11, p23. unfold getRequests. rewrite G11, G23. done.
Qed.

Lemma cpp11_delivers_the_same_witness :
  let s := join HTTP_1_1_END_MARKER (map printed_get [sample_get; sample_get]) in
  ∃ p11 p23, @feed Cpp11.cpp11 [take 9 s; drop 9 s] (init 4096) = (p11, inr ()) ∧
    @feed cpp23 [take 9 s; drop 9 s] (init 4096) = (p23, inr ()) ∧
    getRequests p11 = map expected_get [sample_get; sample_get] ∧
    getRequests p23 = getRequests p11 ∧
    _HTTPRequestBuffer p11 = [] ∧ _HTTPRequestBuffer p23 = [].
Proof.
  intros s. apply cpp11_delivers_the_same;
    [by_decide|by_decide|vm_compute; reflexivity|vm_compute; discriminate].
Defined.
