(* ===== verification/HttpGenerator.v ===== *)
(** * [HTTPGenerator] of lib/http/httpgenerator.cpp

    The response generator: the message head is printed into a fixed buffer of
    254 bytes, and head and body are handed out for sending piece by piece. A
    member the constructor does not initialise is an [option], [None] while it
    is indeterminate; reading it then is undefined behaviour. Pointers are
    offsets into the object they point to; an access through them is checked
    where it happens ([load]). *)
From S2P Require Export HttpRoundTrip.
From stdpp Require Import options.

Module HTTPGenerator.
Import StringHelper RoundTrip.

(** ** Data *)

Definition SEND_STATE_IDLE : Z := 0.
Definition SEND_STATE_SENDING : Z := 1.
Definition SEND_TYPE_HEADER : Z := 1.
Definition SEND_TYPE_BODY : Z := 2.

(** [unsigned char*]: null, into [_HeaderBuffer], or into the caller's body. *)
Inductive pointer :=
| nullptr
| InHeader (off : Z)
| InBody (mem : bytes) (off : Z).

Definition advance (p : pointer) (n : Z) : pointer :=
  match p with
  | nullptr => nullptr
  | InHeader off => InHeader (off + n)
  | InBody mem off => InBody mem (off + n)
  end.

Record SendMetadata_t := mkMeta { BufferRef : pointer; BufferSize : Z }.

Record HTTPGenerator := mkGen {
  _SendStatus : Z;
  _SendType : option Z;
  _StatusCode : Z;
  _StatusText : bytes;
  _HeaderLength : option Z;
  _BodyLength : option Z;
  _HeaderRemainingBytes : option Z;
  _BodyRemainingBytes : option Z;
  _HeaderPointer : option pointer;
  _BodyPointer : option pointer;
  _HeaderBuffer : bytes;
  Headers : gmap bytes bytes
}.

(** [sizeof(_HeaderBuffer)] *)
Definition HeaderBufferSize : nat := 254.

(** [HTTPGenerator()]; [garbage] is what the buffer happens to hold. *)
Definition init (garbage : bytes) : HTTPGenerator :=
  mkGen SEND_STATE_IDLE None 200 (str "OK") None None None None None None garbage ∅.

(** ** Operations *)

Definition MsgReset (g : HTTPGenerator) : HTTPGenerator :=
  mkGen SEND_STATE_IDLE (Some SEND_TYPE_HEADER) 200 (str "OK") (Some 0%Z) (Some 0%Z)
    (_HeaderRemainingBytes g) (_BodyRemainingBytes g) (Some (InHeader 0)) (Some nullptr)
    (_HeaderBuffer g) ∅.

Definition MsgSetStatus (StatusCode : Z) (StatusText : bytes) (g : HTTPGenerator) :=
  mkGen (_SendStatus g) (_SendType g) StatusCode StatusText (_HeaderLength g) (_BodyLength g)
    (_HeaderRemainingBytes g) (_BodyRemainingBytes g) (_HeaderPointer g) (_BodyPointer g)
    (_HeaderBuffer g) (Headers g).

Definition MsgSetSendStatus (SendStatus : Z) (g : HTTPGenerator) :=
  mkGen SendStatus (_SendType g) (_StatusCode g) (_StatusText g) (_HeaderLength g)
    (_BodyLength g) (_HeaderRemainingBytes g) (_BodyRemainingBytes g) (_HeaderPointer g)
    (_BodyPointer g) (_HeaderBuffer g) (Headers g).

Definition MsgGetSendStatus (g : HTTPGenerator) : Z := _SendStatus g.

Definition MsgAddHeader (HeaderID HeaderValue : bytes) (g : HTTPGenerator) :=
  mkGen (_SendStatus g) (_SendType g) (_StatusCode g) (_StatusText g) (_HeaderLength g)
    (_BodyLength g) (_HeaderRemainingBytes g) (_BodyRemainingBytes g) (_HeaderPointer g)
    (_BodyPointer g) (_HeaderBuffer g) (emplace HeaderID HeaderValue (Headers g)).

(** [MsgAddDateHeader()]; [current_date] is the clock's formatted time. *)
Definition MsgAddDateHeader (current_date : bytes) (g : HTTPGenerator) :=
  MsgAddHeader (str "Date") current_date g.

Definition MsgSetBodyRef (BodyAddress : pointer) (BodyLength : Z) (g : HTTPGenerator) :=
  mkGen (_SendStatus g) (_SendType g) (_StatusCode g) (_StatusText g) (_HeaderLength g)
    (Some BodyLength) (_HeaderRemainingBytes g) (Some BodyLength) (_HeaderPointer g)
    (Some BodyAddress) (_HeaderBuffer g) (Headers g).

(** The text [MsgGenerate] builds. *)
Definition header_text (kv : bytes * bytes) : bytes := kv.1 ++ str ": " ++ kv.2 ++ CRLF.

Definition Message (iter : gmap bytes bytes → list (bytes * bytes))
    (code : Z) (text : bytes) (headers : gmap bytes bytes) (BodyLength : Z) : bytes :=
  let Message := str "HTTP/1.1 " ++ to_string code ++ str " " ++ text ++ CRLF in
  let Message := foldl (λ m kv, m ++ header_text kv) Message (iter headers) in
  let Message := Message ++ str "Content-Length: " ++ to_string BodyLength ++ CRLF in
  Message ++ CRLF.

(** [MsgGenerate()]: the copy into the fixed buffer is not bounded by it. *)
Definition MsgGenerate (iter : gmap bytes bytes → list (bytes * bytes)) :
    St HTTPGenerator () :=
  g ← get;
  match _BodyLength g with
  | None => fail Undefined
  | Some BodyLength =>
      let m := Message iter (_StatusCode g) (_StatusText g) (Headers g) BodyLength in
      let HeaderLength := u32 (Z.of_nat (length m)) in
      if decide (Z.to_nat HeaderLength <= HeaderBufferSize) then
        modify (λ g, mkGen (_SendStatus g) (_SendType g) (_StatusCode g) (_StatusText g)
          (Some HeaderLength) (_BodyLength g) (Some HeaderLength) (_BodyRemainingBytes g)
          (_HeaderPointer g) (_BodyPointer g)
          (take (Z.to_nat HeaderLength) m ++ drop (Z.to_nat HeaderLength) (_HeaderBuffer g))
          (Headers g))
      else fail Undefined
  end.

(** The value of a member, or undefined behaviour. *)
Definition defined {S A} (v : option A) : St S A :=
  match v with Some a => mret a | None => fail Undefined end.

(** [MsgGetSendMetadata()] *)
Definition MsgGetSendMetadata : St HTTPGenerator SendMetadata_t :=
  g ← get;
  t ← defined (_SendType g);
  if decide (t = SEND_TYPE_HEADER) then
    p ← defined (_HeaderPointer g);
    n ← defined (_HeaderRemainingBytes g);
    mret (mkMeta p n)
  else if decide (t = SEND_TYPE_BODY) then
    p ← defined (_BodyPointer g);
    n ← defined (_BodyRemainingBytes g);
    mret (mkMeta p n)
  else mret (mkMeta nullptr 0).

Definition set_header_progress (t : Z) (p : pointer) (n : Z) (g : HTTPGenerator) :=
  mkGen (_SendStatus g) (Some t) (_StatusCode g) (_StatusText g) (_HeaderLength g)
    (_BodyLength g) (Some n) (_BodyRemainingBytes g) (Some p) (_BodyPointer g)
    (_HeaderBuffer g) (Headers g).

Definition set_body_progress (p : pointer) (n : Z) (g : HTTPGenerator) :=
  mkGen (_SendStatus g) (_SendType g) (_StatusCode g) (_StatusText g) (_HeaderLength g)
    (_BodyLength g) (_HeaderRemainingBytes g) (Some n) (_HeaderPointer g) (Some p)
    (_HeaderBuffer g) (Headers g).

(** The two assignments of a branch of [MsgUpdateSendMetadata] and the test
    behind them: the new count and whether it equals [SentBytes]. *)
Definition remaining (RemainingBytes SentBytes : Z) : Z * bool :=
  let RemainingBytes := u32 (RemainingBytes - SentBytes) in
  (RemainingBytes, bool_decide (RemainingBytes = SentBytes)).

(** [MsgUpdateSendMetadata(SentBytes)] *)
Definition MsgUpdateSendMetadata (SentBytes : Z) : St HTTPGenerator bool :=
  g ← get;
  t ← defined (_SendType g);
  if decide (t = SEND_TYPE_HEADER) then
    n ← defined (_HeaderRemainingBytes g);
    if decide (n >= SentBytes)%Z then
      p ← defined (_HeaderPointer g);
      let '(n', switch) := remaining n SentBytes in
      _ ← modify (if switch then set_header_progress SEND_TYPE_BODY (advance p SentBytes) 0
                  else set_header_progress SEND_TYPE_HEADER (advance p SentBytes) n');
      mret false
    else mret false
  else if decide (t = SEND_TYPE_BODY) then
    n ← defined (_BodyRemainingBytes g);
    if decide (n >= SentBytes)%Z then
      p ← defined (_BodyPointer g);
      let '(n', complete) := remaining n SentBytes in
      _ ← modify (set_body_progress (advance p SentBytes) (if complete then 0%Z else n'));
      mret complete
    else mret false
  else mret false.

(** ** A sender

    What the workflow of doc/HTTPMessageGenerator-Workflows.rst does around the
    generator: it asks for the pending bytes, hands the first [k] of them to
    the socket, and reports [k]. *)

(** [n] bytes at a pointer; outside the object it is undefined. *)
Definition load (p : pointer) (n : Z) (g : HTTPGenerator) : fault + bytes :=
  match p with
  | nullptr => if decide (n = 0%Z) then inr [] else inl Undefined
  | InHeader off =>
      if decide (0 <= off ∧ 0 <= n ∧ off + n <= Z.of_nat HeaderBufferSize)%Z
      then inr (take (Z.to_nat n) (drop (Z.to_nat off) (_HeaderBuffer g))) else inl Undefined
  | InBody mem off =>
      if decide (0 <= off ∧ 0 <= n ∧ off + n <= Z.of_nat (length mem))%Z
      then inr (take (Z.to_nat n) (drop (Z.to_nat off) mem)) else inl Undefined
  end.

Definition send (k : Z) : St HTTPGenerator (bytes * bool) :=
  md ← MsgGetSendMetadata;
  g ← get;
  out ← lift (load (BufferRef md) k g);
  complete ← MsgUpdateSendMetadata k;
  mret (out, complete).

(** The bytes on the wire and the results reported on the way. *)
Fixpoint send_all (ks : list Z) : St HTTPGenerator (bytes * list bool) :=
  match ks with
  | [] => mret ([], [])
  | k :: ks =>
      '(out, complete) ← send k;
      '(outs, completes) ← send_all ks;
      mret (out ++ outs, complete :: completes)
  end.

(** ** The generated text *)

Definition status_line (code : Z) (text : bytes) : bytes :=
  str "HTTP/1.1 " ++ to_string code ++ str " " ++ text.

Definition content_length (n : Z) : bytes * bytes := (str "Content-Length", to_string n).

Lemma foldl_header_text kvs acc :
  foldl (λ m kv, m ++ header_text kv) acc kvs = acc ++ join CRLF (map render_header kvs).
Proof.
  revert acc. induction kvs as [|[k v] kvs IH]; intros acc; cbn [foldl map].
  - by rewrite app_nil_r.
  - rewrite IH, join_cons. unfold header_text. cbn [fst snd render_header].
    by rewrite <-!app_assoc.
Qed.

(** The message is its lines, and the end marker. *)
Lemma message_lines iter code text headers n :
  Message iter code text headers n =
  intercalate CRLF (status_line code text ::
    map render_header (iter headers ++ [content_length n])) ++ HTTP_1_1_END_MARKER.
Proof.
  unfold Message. cbv zeta. rewrite foldl_header_text, map_app.
  change (status_line code text :: map render_header (iter headers) ++ map render_header
    [content_length n]) with ((status_line code text :: map render_header (iter headers)) ++
    [render_header (content_length n)]).
  rewrite intercalate_join, join_cons. unfold status_line, HTTP_1_1_END_MARKER.
  unfold render_header, content_length. by rewrite <-!app_assoc.
Qed.

Lemma to_string_no_eol n : (0 <= n < 10 ^ 20)%Z → no_eol (to_string n) ∧ to_string n ≠ [].
Proof.
  intros Hn. destruct (to_string_digits n Hn) as (Hne & Hd & _). split; [|done].
  split; intros Hin; (eapply forallb_forall in Hd; [|by apply list_elem_of_In]); done.
Qed.

(** What the caller must provide for a well-formed response. *)
Definition response_ok (code : Z) (text : bytes) (headers : gmap bytes bytes) (n : Z) : Prop :=
  (0 <= code < 65536)%Z ∧ no_eol text ∧ find (str ": ") (status_line code text) = None ∧
  map_Forall (λ k v, header_ok (k, v)) headers ∧ (0 <= n < 4294967296)%Z.

#[export] Instance response_ok_dec code text headers n :
  Decision (response_ok code text headers n).
Proof. unfold response_ok. apply _. Defined.

Lemma content_length_ok n : (0 <= n < 4294967296)%Z → header_ok (content_length n).
Proof.
  intros Hn. destruct (to_string_no_eol n) as [Hd Hne]; [lia|]. unfold header_ok, content_length.
  split; [done|]. split; [done|]. split; [split; by_decide|]. split; [done|].
  reflexivity.
Qed.

Lemma iter_headers_ok iter `{!IterOrder iter} headers :
  map_Forall (λ k v, header_ok (k, v)) headers → Forall header_ok (iter headers).
Proof.
  intros Hh. rewrite (iter_perm (iter := iter)). apply map_Forall_to_list in Hh.
  eapply Forall_impl; [exact Hh|]. by intros [k v].
Qed.

Lemma message_line_ok iter `{!IterOrder iter} code text headers n :
  response_ok code text headers n →
  Forall header_ok (iter headers ++ [content_length n]) ∧
  Forall line_ok (status_line code text :: map render_header (iter headers ++ [content_length n])).
Proof.
  intros (Hc & [Ht1 Ht2] & _ & Hh & Hn).
  assert (Forall header_ok (iter headers ++ [content_length n])) as Hall.
  { apply Forall_app. split; [by apply iter_headers_ok|].
    constructor; [by apply content_length_ok|done]. }
  split; [done|]. constructor.
  - destruct (to_string_no_eol code) as [[Hd1 Hd2] _]; [lia|].
    assert (no_eol (str "HTTP/1.1 ") ∧ no_eol (str " ")) as [[] []] by by_decide.
    split; [done|]. unfold status_line. split; rewrite !elem_of_app; tauto.
  - apply Forall_map. eapply Forall_impl; [exact Hall|]. apply header_line_ok.
Qed.

(** The end marker occurs first at the very end of the message. *)
Lemma message_framed iter `{!IterOrder iter} code text headers n :
  response_ok code text headers n →
  let m := Message iter code text headers n in
  find HTTP_1_1_END_MARKER m = Some (length m - length HTTP_1_1_END_MARKER).
Proof.
  intros Hok m. destruct (message_line_ok iter _ _ _ _ Hok) as [_ Hl].
  unfold m. rewrite message_lines, find_marker_lines by done.
  rewrite length_app. f_equal. lia.
Qed.

Lemma list_to_map_iter iter `{!IterOrder iter} (m : gmap bytes bytes) :
  list_to_map (iter m) = m.
Proof.
  rewrite (list_to_map_proper (iter m) (map_to_list m)); [apply list_to_map_to_list| |].
  - rewrite (iter_perm (iter := iter)). apply NoDup_fst_map_to_list.
  - apply iter_perm.
Qed.

(** Reading the head of the message as header lines gives the headers back, and
    the length of the body unless a header of that name was added. *)
Lemma message_headers iter `{!IterOrder iter} code text headers n :
  response_ok code text headers n →
  let m := Message iter code text headers n in
  HTTPParser._parseRequestHeaders (take (length m - length HTTP_1_1_END_MARKER) m) ∅ =
  headers ∪ {[str "Content-Length" := to_string n]}.
Proof.
  intros Hok m. destruct (message_line_ok iter _ _ _ _ Hok) as [Hh Hl].
  destruct Hok as (_ & _ & Hsep & _).
  unfold m. rewrite message_lines. rewrite length_app, Nat.add_sub, take_app_length.
  unfold HTTPParser._parseRequestHeaders. rewrite headers_of_lines by done. cbn [foldl].
  assert (HTTPParser.header_line (status_line code text) = None) as ->.
  { apply Forall_cons in Hl as [(_ & HCR & _) _]. unfold HTTPParser.header_line.
    rewrite decide_False by (intros H%last_Some_elem_of; done). by rewrite Hsep. }
  cbn [HTTPParser.add_pair].
  rewrite foldl_render_headers by done.
  rewrite (left_id_L ∅ (∪)), list_to_map_app, list_to_map_iter by done. done.
Qed.

(** ** Preparing a message *)

(** The state the sending functions start from. *)
Record prepared (m body : bytes) (g : HTTPGenerator) : Prop := {
  pr_type : _SendType g = Some SEND_TYPE_HEADER;
  pr_header : _HeaderPointer g = Some (InHeader 0);
  pr_header_n : _HeaderRemainingBytes g = Some (Z.of_nat (length m));
  pr_body : _BodyPointer g = Some (InBody body 0);
  pr_body_n : _BodyRemainingBytes g = Some (Z.of_nat (length body));
  pr_fits : length m <= HeaderBufferSize;
  pr_buffer : take (length m) (_HeaderBuffer g) = m;
  pr_small : (Z.of_nat (length body) < 4294967296)%Z
}.

(** The documented order of calls. *)
Definition build (code : Z) (text : bytes) (kvs : list (bytes * bytes)) (body : bytes)
    (g : HTTPGenerator) : HTTPGenerator :=
  MsgSetBodyRef (InBody body 0) (Z.of_nat (length body))
    (foldl (λ g kv, MsgAddHeader kv.1 kv.2 g) (MsgSetStatus code text (MsgReset g)) kvs).

Lemma add_headers kvs g :
  foldl (λ g kv, MsgAddHeader kv.1 kv.2 g) g kvs =
  mkGen (_SendStatus g) (_SendType g) (_StatusCode g) (_StatusText g) (_HeaderLength g)
    (_BodyLength g) (_HeaderRemainingBytes g) (_BodyRemainingBytes g) (_HeaderPointer g)
    (_BodyPointer g) (_HeaderBuffer g) (Headers g ∪ list_to_map kvs).
Proof.
  rewrite <-add_pairs_union. revert g. induction kvs as [|[k v] kvs IH]; intros g; [by destruct g|].
  cbn [foldl map]. by rewrite IH.
Qed.

Lemma generate_prepares iter code text kvs body g :
  let m := Message iter code text (list_to_map kvs) (Z.of_nat (length body)) in
  (Z.of_nat (length m) < 4294967296)%Z → (Z.of_nat (length body) < 4294967296)%Z →
  if decide (length m <= HeaderBufferSize)
  then ∃ g', MsgGenerate iter (build code text kvs body g) = (g', inr ()) ∧ prepared m body g'
  else MsgGenerate iter (build code text kvs body g) =
         (build code text kvs body g, inl Undefined).
Proof.
  intros m Hm Hb. unfold build. rewrite add_headers. unfold MsgGenerate. run. simpl.
  rewrite (left_id_L ∅ (∪)). fold m. unfold u32. rewrite wrap_id, Nat2Z.id by lia.
  case_decide as Hd; [|done]. run. eexists. split; [done|]. split; simpl; try done.
  rewrite firstn_all. apply take_app_length.
Qed.

(** ** Sending *)

(** The sends that are never exactly half of what remains, and use it up. *)
Fixpoint no_half (n : Z) (ks : list Z) : Prop :=
  match ks with
  | [] => n = 0%Z
  | k :: ks => (0 < k <= n)%Z ∧ n ≠ (2 * k)%Z ∧ no_half (n - k) ks
  end.

#[export] Instance no_half_dec n ks : Decision (no_half n ks).
Proof. revert n. induction ks; intros n; cbn [no_half]; apply _. Defined.

Record header_phase (off n : Z) (g : HTTPGenerator) : Prop := {
  hp_type : _SendType g = Some SEND_TYPE_HEADER;
  hp_pointer : _HeaderPointer g = Some (InHeader off);
  hp_n : _HeaderRemainingBytes g = Some n;
  hp_range : (0 <= off ∧ 0 <= n ∧ off + n <= Z.of_nat HeaderBufferSize)%Z
}.

Record body_phase (mem : bytes) (off n : Z) (g : HTTPGenerator) : Prop := {
  bp_type : _SendType g = Some SEND_TYPE_BODY;
  bp_pointer : _BodyPointer g = Some (InBody mem off);
  bp_n : _BodyRemainingBytes g = Some n;
  bp_range : (0 <= off ∧ 0 <= n < 4294967296 ∧ off + n = Z.of_nat (length mem))%Z
}.

Lemma remaining_spec n k :
  (0 <= k <= n)%Z → (n < 4294967296)%Z →
  remaining n k = ((n - k)%Z, bool_decide (n = 2 * k)%Z).
Proof.
  intros Hk Hn. unfold remaining, u32. rewrite wrap_id by lia.
  f_equal. apply bool_decide_ext. lia.
Qed.

Lemma run_defined {S A B} (a : A) (f : A → St S B) s : (defined (Some a) ≫= f) s = f a s.
Proof. done. Qed.
#[local] Hint Rewrite @run_defined : run.

Lemma metadata_header off n g :
  header_phase off n g → MsgGetSendMetadata g = (g, inr (mkMeta (InHeader off) n)).
Proof.
  intros [Ht Hp Hn _]. unfold MsgGetSendMetadata. run. rewrite Ht. run.
  rewrite decide_True, Hp by done. run. by rewrite Hn.
Qed.

Lemma metadata_body mem off n g :
  body_phase mem off n g → MsgGetSendMetadata g = (g, inr (mkMeta (InBody mem off) n)).
Proof.
  intros [Ht Hp Hn _]. unfold MsgGetSendMetadata. run. rewrite Ht. run.
  rewrite decide_False, decide_True, Hp by done. run. by rewrite Hn.
Qed.

Lemma update_header off n k g :
  _SendType g = Some SEND_TYPE_HEADER → _HeaderPointer g = Some (InHeader off) →
  _HeaderRemainingBytes g = Some n → (k <= n)%Z →
  MsgUpdateSendMetadata k g =
  (if (remaining n k).2 then set_header_progress SEND_TYPE_BODY (InHeader (off + k)) 0 g
   else set_header_progress SEND_TYPE_HEADER (InHeader (off + k)) (remaining n k).1 g,
   inr false).
Proof.
  intros Ht Hp Hn Hk. unfold MsgUpdateSendMetadata. run. rewrite Ht. run.
  rewrite decide_True, Hn by done. run. rewrite decide_True, Hp by lia. run.
  destruct (remaining n k) as [n' []]; by run.
Qed.

Lemma update_body mem off n k g :
  _SendType g = Some SEND_TYPE_BODY → _BodyPointer g = Some (InBody mem off) →
  _BodyRemainingBytes g = Some n → (k <= n)%Z →
  MsgUpdateSendMetadata k g =
  (set_body_progress (InBody mem (off + k))
     (if (remaining n k).2 then 0%Z else (remaining n k).1) g, inr (remaining n k).2).
Proof.
  intros Ht Hp Hn Hk. unfold MsgUpdateSendMetadata. run. rewrite Ht. run.
  rewrite decide_False, decide_True, Hn by done. run. rewrite decide_True, Hp by lia. run.
  destruct (remaining n k) as [n' []]; by run.
Qed.

Lemma send_header off n k g :
  header_phase off n g → (0 <= k <= n)%Z →
  send k g =
  (if bool_decide (n = 2 * k)%Z
   then set_header_progress SEND_TYPE_BODY (InHeader (off + k)) 0 g
   else set_header_progress SEND_TYPE_HEADER (InHeader (off + k)) (n - k) g,
   inr (take (Z.to_nat k) (drop (Z.to_nat off) (_HeaderBuffer g)), false)).
Proof.
  intros Hg Hk. unfold send. rewrite (run_bind _ _ _ _ _ (metadata_header _ _ _ Hg)). run.
  destruct Hg as [Ht Hp Hn Hr]. cbn [BufferRef load]. unfold HeaderBufferSize in *.
  rewrite decide_True by lia. run.
  rewrite (run_bind _ _ _ _ _ (update_header off n k g Ht Hp Hn ltac:(lia))).
  by rewrite remaining_spec by lia.
Qed.

Lemma send_body mem off n k g :
  body_phase mem off n g → (0 <= k <= n)%Z →
  send k g =
  (set_body_progress (InBody mem (off + k)) (if bool_decide (n = 2 * k) then 0 else n - k)%Z g,
   inr (take (Z.to_nat k) (drop (Z.to_nat off) mem), bool_decide (n = 2 * k)%Z)).
Proof.
  intros Hg Hk. unfold send. rewrite (run_bind _ _ _ _ _ (metadata_body _ _ _ _ Hg)). run.
  destruct Hg as [Ht Hp Hn Hr]. cbn [BufferRef load].
  rewrite decide_True by lia. run.
  rewrite (run_bind _ _ _ _ _ (update_body mem off n k g Ht Hp Hn ltac:(lia))).
  by rewrite remaining_spec by lia.
Qed.

Lemma send_all_cons k ks g g' out c :
  send k g = (g', inr (out, c)) →
  send_all (k :: ks) g =
  let '(g'', r) := send_all ks g' in
  (g'', match r with inl e => inl e | inr (outs, cs) => inr (out ++ outs, c :: cs) end).
Proof.
  intros E. cbn [send_all]. rewrite (run_bind _ _ _ _ _ E).
  unfold mbind, St_bind. destruct (send_all ks g') as [g'' [e|[outs cs]]]; done.
Qed.

(** Header and body are handed out completely and in order; the phase ends with
    a send of nothing. *)
Lemma send_header_all ks off n g rest :
  header_phase off n g → no_half n ks →
  ∃ g', send_all (ks ++ 0%Z :: rest) g =
    (let '(g'', r) := send_all rest g' in
     (g'', match r with
           | inl e => inl e
           | inr (outs, cs) =>
               inr (take (Z.to_nat n) (drop (Z.to_nat off) (_HeaderBuffer g)) ++ outs,
                    replicate (S (length ks)) false ++ cs)
           end)) ∧
    _SendType g' = Some SEND_TYPE_BODY ∧ _BodyPointer g' = _BodyPointer g ∧
    _BodyRemainingBytes g' = _BodyRemainingBytes g.
Proof.
  revert off n g. induction ks as [|k ks IH]; intros off n g Hg Hks.
  - simpl in Hks. subst n. eexists. split; [|split; [|split]].
    + cbn [app]. erewrite send_all_cons by (apply (send_header _ _ _ _ Hg); lia).
      rewrite bool_decide_true by done. cbn [Z.to_nat take]. reflexivity.
    + done.
    + done.
    + done.
  - destruct Hks as (Hk & Hh & Hks). pose proof (hp_range _ _ _ Hg) as Hr.
    pose proof (send_header off n k g Hg ltac:(lia)) as E.
    rewrite bool_decide_false in E by done.
    destruct (IH (off + k)%Z (n - k)%Z
      (set_header_progress SEND_TYPE_HEADER (InHeader (off + k)) (n - k) g))
      as (g' & E' & Hg'); [split; [done..|lia]|done|].
    exists g'. split; [|exact Hg'].
    cbn [app]. erewrite send_all_cons, E' by exact E.
    destruct (send_all rest g') as [g'' [e|[outs cs]]]; [done|].
    cbn [_HeaderBuffer set_header_progress length replicate app].
    do 3 f_equal. rewrite app_assoc. f_equal.
    apply take_drop_pieces; lia.
Qed.

Lemma send_body_all ks mem off n g :
  body_phase mem off n g → no_half n ks →
  ∃ g', send_all (ks ++ [0%Z]) g =
    (g', inr (drop (Z.to_nat off) mem, replicate (length ks) false ++ [true])).
Proof.
  revert off n g. induction ks as [|k ks IH]; intros off n g Hg Hks;
    pose proof (bp_range _ _ _ _ Hg) as Hr.
  - simpl in Hks. subst n. eexists. cbn [app].
    erewrite send_all_cons by (apply (send_body _ _ _ _ _ Hg); lia).
    rewrite bool_decide_true by done. cbn. do 3 f_equal.
    symmetry. apply drop_ge. lia.
  - destruct Hks as (Hk & Hh & Hks).
    pose proof (send_body mem off n k g Hg ltac:(lia)) as E.
    rewrite bool_decide_false in E by done.
    destruct (IH (off + k)%Z (n - k)%Z (set_body_progress (InBody mem (off + k)) (n - k) g))
      as (g' & E'); [destruct Hg; split; [done..|lia]|done|].
    exists g'. cbn [app]. erewrite send_all_cons, E' by exact E.
    cbn [length replicate app]. do 3 f_equal.
    rewrite Z2Nat.inj_add, <-drop_drop by lia. apply take_drop.
Qed.

Lemma transmission m body g hs bs :
  prepared m body g → no_half (Z.of_nat (length m)) hs → no_half (Z.of_nat (length body)) bs →
  ∃ g', send_all (hs ++ 0%Z :: bs ++ [0%Z]) g =
    (g', inr (m ++ body, replicate (S (length hs) + length bs) false ++ [true])).
Proof.
  intros [Ht Hp Hn Hbp Hbn Hf Hbuf Hs] Hh Hb.
  destruct (send_header_all hs 0 (Z.of_nat (length m)) g (bs ++ [0%Z]))
    as (g1 & E1 & Ht1 & Hbp1 & Hbn1); [split; [done..|lia]|done|].
  destruct (send_body_all bs body 0 (Z.of_nat (length body)) g1) as (g2 & E2);
    [split; [done|by rewrite Hbp1|by rewrite Hbn1|lia]|done|].
  exists g2. rewrite E1, E2. rewrite replicate_add, <-app_assoc.
  by rewrite !drop_0, Nat2Z.id, Hbuf.
Qed.

(** Sending exactly half of what remains of the header ends the header. *)
Lemma half_of_header m body g k :
  prepared m body g → Z.of_nat (length m) = (2 * k)%Z →
  ∃ g', send k g = (g', inr (take (Z.to_nat k) m, false)) ∧
    body_phase body 0 (Z.of_nat (length body)) g'.
Proof.
  intros [Ht Hp Hn Hbp Hbn Hf Hbuf Hs] Hk. pose proof (send_header 0 (2 * k) k g) as E.
  rewrite bool_decide_true in E by done. eexists. split.
  - rewrite E; [|split; [done|done|by rewrite Hn, Hk|lia]|lia].
    rewrite drop_0. do 3 f_equal. rewrite <-Hbuf. rewrite take_take.
    f_equal. lia.
  - split; simpl; [done|done|done|lia].
Qed.

Lemma other_than_half m body g k :
  prepared m body g → (0 < k <= Z.of_nat (length m))%Z → Z.of_nat (length m) ≠ (2 * k)%Z →
  ∃ g', send k g = (g', inr (take (Z.to_nat k) m, false)) ∧
    MsgGetSendMetadata g' = (g', inr (mkMeta (InHeader k) (Z.of_nat (length m) - k))).
Proof.
  intros [Ht Hp Hn Hbp Hbn Hf Hbuf Hs] Hk Hh.
  pose proof (send_header 0 (Z.of_nat (length m)) k g) as E.
  rewrite bool_decide_false in E by done. eexists. split.
  - rewrite E; [|split; [done..|lia]|lia].
    rewrite drop_0. do 3 f_equal. rewrite <-Hbuf. rewrite take_take.
    f_equal. lia.
  - apply metadata_header. split; [done..|lia].
Qed.

End HTTPGenerator.
