(* ===== verification/HttpGeneratorTheorems.v ===== *)
(** * Properties of the response generator *)
From S2P Require Export HttpGenerator.
From stdpp Require Import options.

Import StringHelper RoundTrip HTTPGenerator.

Definition sample_response_headers : gmap bytes bytes :=
  {[str "Server" := str "FalconAS"]}.

Definition sample_body : bytes := str "hello".

(** A generator as left by an unknown past, its buffer filled with [x]. *)
Definition fresh : HTTPGenerator := init (replicate HeaderBufferSize "x"%char).

(** C14: a response whose status text and headers hold no line breaks is framed
    as one message: the end marker occurs first at its very end, and reading its
    head as header lines gives back the added headers and the length of the
    body, in whatever order the hash table is iterated. *)
Theorem response_framed iter `{!IterOrder iter} code text headers n :
  response_ok code text headers n →
  let m := Message iter code text headers n in
  find HTTP_1_1_END_MARKER m = Some (length m - length HTTP_1_1_END_MARKER) ∧
  HTTPParser._parseRequestHeaders (take (length m - length HTTP_1_1_END_MARKER) m) ∅ =
  headers ∪ {[str "Content-Length" := to_string n]}.
Proof. intros Hok m. split; [by apply message_framed|by apply message_headers]. Qed.

Lemma response_framed_witness :
  let m := Message map_to_list 200 (str "OK") sample_response_headers 5 in
  find HTTP_1_1_END_MARKER m = Some (length m - length HTTP_1_1_END_MARKER) ∧
  HTTPParser._parseRequestHeaders (take (length m - length HTTP_1_1_END_MARKER) m) ∅ =
  sample_response_headers ∪ {[str "Content-Length" := to_string 5]}.
Proof. apply (response_framed map_to_list). by_decide. Defined.

(** C15: the documented order of calls prepares a message exactly when its head
    fits the fixed buffer of 254 bytes; a longer head is written beyond the end
    of the buffer. *)
Theorem generate_within_buffer iter code text kvs body g :
  let m := Message iter code text (list_to_map kvs) (Z.of_nat (length body)) in
  (Z.of_nat (length m) < 4294967296)%Z → (Z.of_nat (length body) < 4294967296)%Z →
  if decide (length m <= HeaderBufferSize)
  then ∃ g', MsgGenerate iter (build code text kvs body g) = (g', inr ()) ∧ prepared m body g'
  else MsgGenerate iter (build code text kvs body g) =
         (build code text kvs body g, inl Undefined).
Proof. apply generate_prepares. Qed.

Lemma generate_within_buffer_witness :
  let long := [(str "X-Long", replicate 300 "a"%char)] in
  (∃ g', MsgGenerate map_to_list (build 200 (str "OK") [] sample_body fresh) = (g', inr ()) ∧
     prepared (Message map_to_list 200 (str "OK") ∅ 5) sample_body g') ∧
  MsgGenerate map_to_list (build 200 (str "OK") long sample_body fresh) =
    (build 200 (str "OK") long sample_body fresh, inl Undefined).
Proof.
  split.
  - pose proof (generate_within_buffer map_to_list 200 (str "OK") [] sample_body fresh
      eq_refl eq_refl) as H.
    cbv zeta in H. rewrite decide_True in H by by_decide. exact H.
  - pose proof (generate_within_buffer map_to_list 200 (str "OK")
      [(str "X-Long", replicate 300 "a"%char)] sample_body fresh eq_refl eq_refl) as H.
    cbv zeta in H. rewrite decide_False in H by by_decide. exact H.
Defined.

(** C16: a prepared message goes out completely and in order, header first,
    and completion is reported exactly once, with the last call: for every way
    to cut header and body into sends, provided that no send takes exactly half
    of what is left and that each of the two parts is closed by a send of
    nothing. *)
Theorem transmission_complete m body g hs bs :
  prepared m body g → no_half (Z.of_nat (length m)) hs → no_half (Z.of_nat (length body)) bs →
  ∃ g', send_all (hs ++ 0%Z :: bs ++ [0%Z]) g =
    (g', inr (m ++ body, replicate (S (length hs) + length bs) false ++ [true])).
Proof. apply transmission. Qed.

Lemma sample_prepared :
  prepared (Message map_to_list 200 (str "OK") ∅ 5) sample_body
    (MsgGenerate map_to_list (build 200 (str "OK") [] sample_body fresh)).1.
Proof. split; try (vm_compute; reflexivity); by_decide. Defined.

Lemma transmission_complete_witness :
  ∃ g', send_all ([30; 8] ++ 0 :: [3; 2] ++ [0])%Z
      (MsgGenerate map_to_list (build 200 (str "OK") [] sample_body fresh)).1 =
    (g', inr (Message map_to_list 200 (str "OK") ∅ 5 ++ sample_body,
              replicate (3 + 2) false ++ [true])).
Proof.
  apply (transmission_complete (Message map_to_list 200 (str "OK") ∅ 5) sample_body _
    [30; 8]%Z [3; 2]%Z sample_prepared); by_decide.
Defined.

(** After one send of [k] of the [n] header bytes the generator is at the
    body exactly when [n = 2 k], so that a send of half of the header loses the
    other half, and a send of the whole header is not noticed: the header is
    still current, with nothing left of it. *)
Theorem header_ends_at_half m body g k :
  prepared m body g → (0 < k <= Z.of_nat (length m))%Z →
  ∃ g', send k g = (g', inr (take (Z.to_nat k) m, false)) ∧
    MsgGetSendMetadata g' =
      (g', inr (if decide (Z.of_nat (length m) = 2 * k)%Z
                then mkMeta (InBody body 0) (Z.of_nat (length body))
                else mkMeta (InHeader k) (Z.of_nat (length m) - k))).
Proof.
  intros Hg Hk. destruct (decide (Z.of_nat (length m) = 2 * k)%Z) as [Hh|Hh].
  - destruct (half_of_header _ _ _ _ Hg Hh) as (g' & E & Hb).
    exists g'. split; [done|]. by apply (metadata_body body 0).
  - by apply (other_than_half m body).
Qed.

Lemma header_ends_at_half_witness :
  let m := Message map_to_list 200 (str "OK") ∅ 5 in
  let g := (MsgGenerate map_to_list (build 200 (str "OK") [] sample_body fresh)).1 in
  ∃ g', send 19 g = (g', inr (take (Z.to_nat 19) m, false)) ∧
    MsgGetSendMetadata g' =
      (g', inr (if decide (Z.of_nat (length m) = 2 * 19)%Z
                then mkMeta (InBody sample_body 0) (Z.of_nat (length sample_body))
                else mkMeta (InHeader 19) (Z.of_nat (length m) - 19))).
Proof. intros m g. apply (header_ends_at_half m sample_body g 19 sample_prepared). by_decide. Defined.

(** The result of a failed [send], -1, is taken for progress: the header
    pointer moves to the byte before the buffer and the count grows by one, and
    reading what is then announced is undefined. *)
Theorem failed_send_moves_back m body g n :
  prepared m body g → (0 < n)%Z →
  ∃ g', MsgUpdateSendMetadata (-1) g = (g', inr false) ∧
    MsgGetSendMetadata g' = (g', inr (mkMeta (InHeader (-1)) (Z.of_nat (length m) + 1))) ∧
    load (InHeader (-1)) n g' = inl Undefined.
Proof.
  intros [Ht Hp Hn _ _ Hf _ _] H0. unfold HeaderBufferSize in Hf.
  rewrite (update_header 0 _ _ g Ht Hp Hn) by lia.
  assert (remaining (Z.of_nat (length m)) (-1) = (Z.of_nat (length m) + 1, false)%Z) as ->.
  { unfold remaining, u32. rewrite wrap_id by lia. rewrite bool_decide_false by lia.
    reflexivity. }
  eexists. split; [done|]. split; [done|]. cbn [load]. rewrite decide_False by lia. done.
Qed.

Lemma failed_send_moves_back_witness :
  let m := Message map_to_list 200 (str "OK") ∅ 5 in
  let g := (MsgGenerate map_to_list (build 200 (str "OK") [] sample_body fresh)).1 in
  ∃ g', MsgUpdateSendMetadata (-1) g = (g', inr false) ∧
    MsgGetSendMetadata g' = (g', inr (mkMeta (InHeader (-1)) (Z.of_nat (length m) + 1))) ∧
    load (InHeader (-1)) 1 g' = inl Undefined.
Proof. intros m g. apply (failed_send_moves_back m sample_body g 1 sample_prepared). by_decide. Defined.

(** ** Any sequence of calls *)

(** The public member functions with the arguments of a call, converted to the
    parameters' types. *)
Inductive call :=
| CallReset
| CallSetStatus (StatusCode : Z) (StatusText : bytes)
| CallSetSendStatus (SendStatus : Z)
| CallSetBodyRef (BodyAddress : pointer) (BodyLength : Z)
| CallAddHeader (HeaderID HeaderValue : bytes)
| CallAddDateHeader (current_date : bytes)
| CallGenerate
| CallGetSendMetadata
| CallUpdateSendMetadata (SentBytes : Z).

Definition perform (iter : gmap bytes bytes → list (bytes * bytes)) (c : call) :
    St HTTPGenerator () :=
  match c with
  | CallReset => modify MsgReset
  | CallSetStatus code text => modify (MsgSetStatus (u16 code) text)
  | CallSetSendStatus s => modify (MsgSetSendStatus (u8 s))
  | CallSetBodyRef p n => modify (MsgSetBodyRef p (u32 n))
  | CallAddHeader k v => modify (MsgAddHeader k v)
  | CallAddDateHeader d => modify (MsgAddDateHeader d)
  | CallGenerate => MsgGenerate iter
  | CallGetSendMetadata => _ ← MsgGetSendMetadata; mret ()
  | CallUpdateSendMetadata k => _ ← MsgUpdateSendMetadata k; mret ()
  end.

Fixpoint perform_all (iter : gmap bytes bytes → list (bytes * bytes)) (cs : list call) :
    St HTTPGenerator () :=
  match cs with
  | [] => mret ()
  | c :: cs => _ ← perform iter c; perform_all iter cs
  end.

(** Every member has a value of its type, if it has one. *)
Definition in_width (w : Z) (v : option Z) : Prop :=
  match v with Some z => (0 <= z < 2 ^ w)%Z | None => True end.

Record generator_typed (g : HTTPGenerator) : Prop := {
  gt_status : in_width 8 (Some (_SendStatus g));
  gt_type : in_width 8 (_SendType g);
  gt_code : in_width 16 (Some (_StatusCode g));
  gt_header : in_width 32 (_HeaderLength g);
  gt_body : in_width 32 (_BodyLength g);
  gt_header_remaining : in_width 32 (_HeaderRemainingBytes g);
  gt_body_remaining : in_width 32 (_BodyRemainingBytes g);
  gt_buffer : length (_HeaderBuffer g) = HeaderBufferSize
}.

(** No member is indeterminate. *)
Record generator_initialised (g : HTTPGenerator) : Prop := {
  gi_type : is_Some (_SendType g);
  gi_header : is_Some (_HeaderLength g);
  gi_body : is_Some (_BodyLength g);
  gi_header_remaining : is_Some (_HeaderRemainingBytes g);
  gi_body_remaining : is_Some (_BodyRemainingBytes g);
  gi_header_pointer : is_Some (_HeaderPointer g);
  gi_body_pointer : is_Some (_BodyPointer g)
}.

(** The head that would be generated fits the buffer. *)
Definition head_fits (iter : gmap bytes bytes → list (bytes * bytes)) (g : HTTPGenerator) : Prop :=
  match _BodyLength g with
  | Some n => (u32 (Z.of_nat (length (Message iter (_StatusCode g) (_StatusText g) (Headers g) n)))
                 <= Z.of_nat HeaderBufferSize)%Z
  | None => False
  end.

Lemma in_width_wrap w z : (0 <= w)%Z → in_width w (Some (wrap w z)).
Proof. apply wrap_range. Qed.

Lemma remaining_width n k : in_width 32 (Some (remaining n k).1).
Proof. by apply in_width_wrap. Qed.

Lemma bind_defined {S A B} (v : option A) (f : A → St S B) s :
  (defined v ≫= f) s = match v with Some a => f a s | None => (s, inl Undefined) end.
Proof. by destruct v. Qed.

Lemma update_typed k g g' r :
  generator_typed g → MsgUpdateSendMetadata k g = (g', r) → generator_typed g'.
Proof.
  intros Hg. pose proof Hg as [Hs Ht Hc Hh Hb Hhr Hbr Hbuf]. unfold MsgUpdateSendMetadata.
  rewrite run_get, bind_defined. destruct (_SendType g) as [t|] eqn:Et; [|by intros [= <- _]].
  case_decide; [|case_decide; [|by intros [= <- _]]]; rewrite bind_defined.
  - destruct (_HeaderRemainingBytes g) as [n|]; [|by intros [= <- _]].
    case_decide; [|by intros [= <- _]]. rewrite bind_defined.
    destruct (_HeaderPointer g) as [p|]; [|by intros [= <- _]].
    pose proof (remaining_width n k). destruct (remaining n k) as [n' []];
      rewrite run_modify; intros [= <- _]; split; cbn -[in_width] in *; rewrite ?Et; done || (cbn; lia).
  - destruct (_BodyRemainingBytes g) as [n|]; [|by intros [= <- _]].
    case_decide; [|by intros [= <- _]]. rewrite bind_defined.
    destruct (_BodyPointer g) as [p|]; [|by intros [= <- _]].
    pose proof (remaining_width n k). destruct (remaining n k) as [n' []];
      rewrite run_modify; intros [= <- _]; split; cbn -[in_width] in *; rewrite ?Et; done || (cbn; lia).
Qed.

Lemma generate_typed iter g g' r :
  generator_typed g → MsgGenerate iter g = (g', r) → generator_typed g'.
Proof.
  intros Hg. pose proof Hg as [Hs Ht Hc Hh Hb Hhr Hbr Hbuf]. unfold MsgGenerate. rewrite run_get.
  destruct (_BodyLength g) as [n|] eqn:En; [|by intros [= <- _]]. cbv zeta.
  set (m := Message _ _ _ _ _). case_decide as Hfit; [|by intros [= <- _]].
  rewrite run_modify_end. intros [= <- _].
  split; cbn -[in_width] in *; rewrite ?En; try done; try by apply in_width_wrap.
  rewrite length_app, length_take, length_drop, Hbuf.
  pose proof (u32_range (Z.of_nat (length m))).
  assert (u32 (Z.of_nat (length m)) <= Z.of_nat (length m))%Z by (apply Z.mod_le; lia). lia.
Qed.

Lemma metadata_same g g' r : MsgGetSendMetadata g = (g', r) → g' = g.
Proof.
  unfold MsgGetSendMetadata. rewrite run_get, bind_defined.
  destruct (_SendType g) as [t|]; [|by intros [= <- _]].
  case_decide; [|case_decide; [|by intros [= <- _]]]; rewrite bind_defined;
    case_match; try (by intros [= <- _]); rewrite bind_defined; case_match; by intros [= <- _].
Qed.

Lemma perform_typed iter c g g' r :
  generator_typed g → perform iter c g = (g', r) → generator_typed g'.
Proof.
  intros Hg. pose proof Hg as [Hs Ht Hc Hh Hb Hhr Hbr Hbuf].
  destruct c; cbn [perform]; try (intros [= <- _]; split; cbn -[in_width] in *; try done;
    try (by apply in_width_wrap); cbn; lia).
  - by apply generate_typed.
  - destruct (MsgGetSendMetadata g) as [g1 x] eqn:E. rewrite (run_bind _ _ _ _ _ E).
    apply metadata_same in E as ->. by destruct x; intros [= <- _].
  - destruct (MsgUpdateSendMetadata SentBytes g) as [g1 x] eqn:E.
    rewrite (run_bind _ _ _ _ _ E). apply update_typed in E; [|done].
    by destruct x; intros [= <- _].
Qed.

Lemma perform_initialised iter c g :
  generator_initialised g →
  ∃ g', generator_initialised g' ∧
    (perform iter c g = (g', inr ()) ∨
     c = CallGenerate ∧ ¬ head_fits iter g ∧ perform iter c g = (g', inl Undefined)).
Proof.
  intros Hg. pose proof Hg as [[t Ht] [hl Hh] [bl Hb] [hr Hhr] [br Hbr] [hp Hhp] [bp Hbp]].
  destruct c; cbn [perform];
    try (eexists; split; [|left; reflexivity]; split; cbn; by eauto).
  - unfold head_fits, MsgGenerate. rewrite run_get, Hb. cbv zeta. set (m := Message _ _ _ _ _).
    pose proof (u32_range (Z.of_nat (length m))). case_decide as Hfit.
    + eexists. split; [|left; reflexivity]. split; cbn; eauto.
    + exists g. split; [done|]. right. split; [done|]. split; [|done]. lia.
  - exists g. split; [done|]. left. unfold MsgGetSendMetadata. unfold mbind, St_bind, get. cbn.
    rewrite Ht. cbn. case_decide; [by rewrite Hhp, Hhr|]. case_decide; [by rewrite Hbp, Hbr|done].
  - unfold MsgUpdateSendMetadata. unfold mbind, St_bind, get, modify, defined. cbn.
    rewrite Ht. cbn. case_decide.
    + rewrite Hhr. cbn. case_decide; [|by eauto]. rewrite Hhp. cbn.
      eexists. split; [|by left]. case_bool_decide; split; cbn; eauto.
    + case_decide; [|by eauto]. rewrite Hbr. cbn. case_decide; [|by eauto]. rewrite Hbp. cbn.
      eexists. split; [|by left]. split; cbn; eauto.
Qed.

Lemma perform_all_typed iter cs : ∀ g, generator_typed g → generator_typed (perform_all iter cs g).1.
Proof.
  induction cs as [|c cs IH]; intros g Hg; [done|]. cbn [perform_all].
  destruct (perform iter c g) as [g' r] eqn:E. rewrite (run_bind _ _ _ _ _ E).
  apply perform_typed in E; [|done]. destruct r as [e|[]]; [done|by apply IH].
Qed.

Lemma perform_all_initialised iter cs : ∀ g,
  generator_initialised g → generator_initialised (perform_all iter cs g).1.
Proof.
  induction cs as [|c cs IH]; intros g Hg; [done|]. cbn [perform_all].
  destruct (perform_initialised iter c g Hg) as (g' & Hg' & [E|(_ & _ & E)]);
    rewrite (run_bind _ _ _ _ _ E); [by apply IH|done].
Qed.

(** Generating gives the rest of the members their values. *)
Lemma generate_initialises iter g :
  head_fits iter g → is_Some (_SendType g) → is_Some (_BodyRemainingBytes g) →
  is_Some (_HeaderPointer g) → is_Some (_BodyPointer g) →
  ∃ g', MsgGenerate iter g = (g', inr ()) ∧ generator_initialised g'.
Proof.
  intros Hfit Ht Hb Hp Hbp. unfold head_fits in Hfit. unfold MsgGenerate. rewrite run_get.
  destruct (_BodyLength g) as [n|] eqn:En; [|done]. cbv zeta. set (m := Message _ _ _ _ _) in *.
  pose proof (u32_range (Z.of_nat (length m))). rewrite decide_True by lia.
  eexists. split; [done|]. split; cbn; rewrite ?En; by eauto.
Qed.

(** C17: the generator is type safe: from its construction on, whatever is called
    with whatever arguments, every member keeps a value of its type and the
    buffer its 254 bytes, also when a call fails; and once a message has been
    prepared, no call reads an indeterminate member: the only call that can fail
    is the generation of a head that does not fit the buffer. *)
Theorem generator_type_safe iter garbage before :
  length garbage = HeaderBufferSize →
  let g := (perform_all iter before (init garbage)).1 in
  generator_typed g ∧
  ∀ p n, let ready := MsgSetBodyRef p (u32 n) (MsgReset g) in
    head_fits iter ready →
    ∃ g', perform iter CallGenerate ready = (g', inr ()) ∧
      ∀ after, generator_typed (perform_all iter after g').1 ∧
        ∀ c, ∃ g'' r, perform iter c (perform_all iter after g').1 = (g'', r) ∧
          (r = inr () ∨ c = CallGenerate ∧ ¬ head_fits iter (perform_all iter after g').1).
Proof.
  intros Hg g. assert (generator_typed (init garbage)) as Hinit by by split.
  assert (generator_typed g) as Hty by by apply perform_all_typed.
  split; [done|]. intros p n ready Hfit.
  assert (generator_typed ready) as Hready.
  { destruct Hty. split; cbn -[in_width]; done || by apply in_width_wrap || (cbn; lia). }
  destruct (generate_initialises iter ready) as (g' & E & Hi); [done|by repeat split; eexists..|].
  exists g'. split; [done|]. intros after. pose proof (generate_typed _ _ _ _ Hready E) as Hty'.
  split; [by apply perform_all_typed|]. intros c.
  destruct (perform_initialised iter c (perform_all iter after g').1) as (g'' & _ & [E'|(-> & Hno & E')]).
  - by apply perform_all_initialised.
  - exists g'', (inr ()). auto.
  - exists g'', (inl Undefined). auto.
Qed.

Lemma generator_type_safe_witness :
  let before := [CallSetStatus 70000 (str "odd"); CallAddHeader (str "Server") (str "x"); CallGenerate] in
  let after := [CallUpdateSendMetadata (-1); CallGetSendMetadata; CallReset; CallSetSendStatus 300] in
  let g := (perform_all map_to_list before fresh).1 in
  let ready := MsgSetBodyRef (InBody sample_body 0) (u32 5) (MsgReset g) in
  generator_typed g ∧ _StatusCode g = 4464%Z ∧
  ∃ g', perform map_to_list CallGenerate ready = (g', inr ()) ∧
    generator_typed (perform_all map_to_list after g').1.
Proof.
  intros before after g ready.
  destruct (generator_type_safe map_to_list (replicate HeaderBufferSize "x"%char) before eq_refl)
    as [Hty H].
  split; [exact Hty|]. split; [reflexivity|].
  destruct (H (InBody sample_body 0) 5%Z) as (g' & E & Hafter); [vm_compute; discriminate|].
  exists g'. split; [exact E|]. exact (proj1 (Hafter after)).
Defined.
