(* ===== verification/ShmVector.v ===== *)
(** * [SHMVector] of src/SHMVector.hpp

    A vector of trivially copyable elements in a shared memory segment, guarded
    by a spin lock. A member function is a program of single memory accesses
    ([prog]), so that the same definitions are run alone (here) and interleaved
    with those of other processes (ShmConcurrent.v). *)
From S2P Require Export Prelude.
From stdpp Require Import options.

(** ** Elements

    What the vector asks of its element type: a fixed number of bytes from which
    a copy of the value can be made. Destructors of such types do nothing. *)

Class Pod (T : Type) := {
  sizeof : nat;
  to_bytes : T → bytes;
  of_bytes : bytes → T;
  sizeof_pos : 0 < sizeof;
  to_bytes_length x : length (to_bytes x) = sizeof;
  of_to_bytes x : of_bytes (to_bytes x) = x
}.

#[export] Program Instance pod_char : Pod ascii := {|
  sizeof := 1;
  to_bytes c := [c];
  of_bytes bs := default "000"%char (head bs)
|}.
Solve Obligations with (simpl; done || lia).

Module SHMVector.
Section vector.
Context {T : Type} `{!Pod T}.

(** ** Data *)

(** The members in shared memory, and the memory they describe; the flag
    [lock_] is kept apart, see [run]. *)
Record SHMVector := mkVec {
  segment_size_bytes_ : Z;
  capacity_ : Z;
  size_ : Z;
  memory_base_ : bytes;
  memory_total_bytes_ : Z
}.

Definition set_capacity (c : Z) (v : SHMVector) : SHMVector :=
  mkVec (segment_size_bytes_ v) c (size_ v) (memory_base_ v) (memory_total_bytes_ v).
Definition set_size (n : Z) (v : SHMVector) : SHMVector :=
  mkVec (segment_size_bytes_ v) (capacity_ v) n (memory_base_ v) (memory_total_bytes_ v).
Definition set_memory (m : bytes) (v : SHMVector) : SHMVector :=
  mkVec (segment_size_bytes_ v) (capacity_ v) (size_ v) m (memory_total_bytes_ v).

(** [SHMVector(segment_size_bytes, shared_memory_ptr, shared_memory_size)]; a
    null pointer is [None]. *)
Definition construct (segment_size_bytes : Z) (shared_memory_ptr : option bytes)
    (shared_memory_size : Z) : fault + SHMVector :=
  if decide (segment_size_bytes = 0%Z) then inl (Throw invalid_argument)
  else match shared_memory_ptr with
       | None => inl (Throw invalid_argument)
       | Some memory =>
           if decide (shared_memory_size = 0%Z) then inl (Throw invalid_argument)
           else inr (mkVec segment_size_bytes 0 0 memory shared_memory_size)
       end.

(** What an operation returns: nothing, a number, a reference (by the offset
    of the element), or a copy of an element. *)
Inductive result :=
| RUnit
| RSize (n : Z)
| RRef (off : Z)
| RVal (x : T).

(** ** Programs

    [Done r] returns (or throws) without touching the lock, [Unlock r] clears
    the flag first; [Acquire] spins on [test_and_set]. *)

Inductive prog :=
| Done (r : fault + result)
| Unlock (r : fault + result)
| Acquire (k : prog)
| Read (k : SHMVector → prog)
| Write (g : SHMVector → SHMVector) (k : prog).

(** *** Memory *)

(** [get_element_ptr(index)], as an offset from [memory_base_]. *)
Definition get_element_ptr (index : Z) (v : SHMVector) : Z :=
  u64 (index * segment_size_bytes_ v).

Definition in_memory (off : Z) (v : SHMVector) : Prop :=
  (off + Z.of_nat sizeof <= Z.of_nat (length (memory_base_ v)))%Z.

#[local] Instance in_memory_dec off v : Decision (in_memory off v).
Proof. unfold in_memory. apply _. Defined.

Definition load (off : Z) (m : bytes) : T :=
  of_bytes (take sizeof (drop (Z.to_nat off) m)).

Definition store (off : Z) (x : T) (m : bytes) : bytes :=
  take (Z.to_nat off) m ++ to_bytes x ++ drop (Z.to_nat off + sizeof) m.

(** Copying an element out of memory, and constructing one in place. *)
Definition read_element (index : Z) (k : T → prog) : prog :=
  Read (λ v,
    let p := get_element_ptr index v in
    if decide (in_memory p v) then k (load p (memory_base_ v)) else Done (inl Undefined)).

Definition write_element (index : Z) (x : T) (k : prog) : prog :=
  Read (λ v,
    let p := get_element_ptr index v in
    if decide (in_memory p v)
    then Write (λ v, set_memory (store p x (memory_base_ v)) v) k
    else Done (inl Undefined)).

(** *** Member functions *)

Definition reserve (element_count : Z) : prog :=
  Read (λ v,
    if decide (element_count <= capacity_ v)%Z then Done (inr RUnit)
    else Acquire (Read (λ v,
      if decide (element_count <= capacity_ v)%Z then Unlock (inr RUnit)
      else
        let total_bytes := u64 (element_count * segment_size_bytes_ v) in
        if decide (total_bytes > memory_total_bytes_ v)%Z then Unlock (inl (Throw bad_alloc))
        else Write (set_capacity element_count) (Unlock (inr RUnit))))).

Definition push_back (element : T) : prog :=
  let construct_at_end :=
    Read (λ v, write_element (size_ v) element
      (Read (λ v, Write (set_size (u64 (size_ v + 1))) (Unlock (inr RUnit))))) in
  Acquire (Read (λ v,
    if decide (size_ v >= capacity_ v)%Z then
      let new_capacity := if decide (capacity_ v = 0%Z) then 1%Z else u64 (capacity_ v * 2) in
      let total_bytes := u64 (new_capacity * segment_size_bytes_ v) in
      if decide (total_bytes > memory_total_bytes_ v)%Z then Unlock (inl (Throw bad_alloc))
      else Write (set_capacity new_capacity) construct_at_end
    else construct_at_end)).

Definition at_ (index : Z) : prog :=
  Acquire (Read (λ v,
    if decide (index >= size_ v)%Z then Unlock (inl (Throw out_of_range))
    else Unlock (inr (RRef (get_element_ptr index v))))).

Definition size : prog := Acquire (Read (λ v, Unlock (inr (RSize (size_ v))))).

Definition capacity : prog := Read (λ v, Done (inr (RSize (capacity_ v)))).

Definition segment_size : prog := Read (λ v, Done (inr (RSize (segment_size_bytes_ v)))).

(** The shifting loop of [eraseAt_unlocked] from [i] on, with a step budget. *)
Fixpoint shift (fuel : nat) (i : Z) (k : prog) : prog :=
  match fuel with
  | O => Done (inl Undefined)
  | S fuel =>
      Read (λ v,
        if decide (i < u64 (size_ v - 1))%Z then
          read_element (i + 1) (λ next, write_element i next (shift fuel (i + 1) k))
        else k)
  end.

(** [eraseAt_unlocked(index)]: at most [size_] rounds. *)
Definition eraseAt_unlocked (index : Z) (k : prog) : prog :=
  Read (λ v,
    if decide (index >= size_ v)%Z then Done (inl (Throw out_of_range))
    else shift (S (Z.to_nat (size_ v))) index
           (Read (λ v, Write (set_size (u64 (size_ v - 1))) k))).

Definition eraseAt (index : Z) : prog := Acquire (eraseAt_unlocked index (Unlock (inr RUnit))).

Definition getNextElement : prog :=
  Acquire (Read (λ v,
    if decide (size_ v = 0%Z) then Unlock (inl (Throw out_of_range))
    else read_element 0 (λ result, eraseAt_unlocked 0 (Unlock (inr (RVal result)))))).

(** The operations by name. *)
Inductive op :=
| Reserve (element_count : Z)
| PushBack (element : T)
| At (index : Z)
| Size
| Capacity
| EraseAt (index : Z)
| GetNextElement.

Definition body (o : op) : prog :=
  match o with
  | Reserve n => reserve n
  | PushBack x => push_back x
  | At i => at_ i
  | Size => size
  | Capacity => capacity
  | EraseAt i => eraseAt i
  | GetNextElement => getNextElement
  end.

(** ** Running a program alone

    [None]: the spin lock is held and nobody is left to release it. *)
Fixpoint run (p : prog) (lock : bool) (v : SHMVector) :
    option (SHMVector * bool * (fault + result)) :=
  match p with
  | Done r => Some (v, lock, r)
  | Unlock r => Some (v, false, r)
  | Acquire k => if lock then None else run k true v
  | Read k => run (k v) lock v
  | Write g k => run k lock (g v)
  end.

(** ** Loads and stores *)

Lemma store_length off x m :
  (0 <= off)%Z → (off + Z.of_nat sizeof <= Z.of_nat (length m))%Z →
  length (store off x m) = length m.
Proof.
  intros H0 H. unfold store. rewrite !length_app, length_take, length_drop, to_bytes_length. lia.
Qed.

Lemma load_store off x m :
  (0 <= off)%Z → (off + Z.of_nat sizeof <= Z.of_nat (length m))%Z →
  load off (store off x m) = x.
Proof.
  intros H0 H. unfold load, store.
  rewrite drop_app_length' by (rewrite length_take; lia).
  rewrite take_app_length' by by rewrite to_bytes_length. apply of_to_bytes.
Qed.

Lemma load_store_ne off off' x m :
  (0 <= off)%Z → (0 <= off')%Z → (off + Z.of_nat sizeof <= Z.of_nat (length m))%Z →
  (off' + Z.of_nat sizeof <= off ∨ off + Z.of_nat sizeof <= off')%Z →
  load off' (store off x m) = load off' m.
Proof.
  intros H0 H0' H Hd. unfold load, store. f_equal. destruct Hd as [Hd|Hd].
  - rewrite drop_app_le by (rewrite length_take; lia).
    rewrite take_app_le by (rewrite length_drop, length_take; lia).
    rewrite skipn_firstn_comm, take_take. f_equal. lia.
  - rewrite app_assoc, drop_app_ge
      by (rewrite length_app, length_take, to_bytes_length; lia).
    rewrite length_app, length_take, to_bytes_length, drop_drop. do 2 f_equal. lia.
Qed.

(** ** Representation of a list *)

(** Segments hold an element, the capacity is backed by memory, and the memory
    is small enough for its offsets, and twice its size, to be computed
    without wrapping. *)
Record geometry (v : SHMVector) : Prop := {
  geo_seg : (Z.of_nat sizeof <= segment_size_bytes_ v < 2 ^ 64)%Z;
  geo_mem : Z.of_nat (length (memory_base_ v)) = memory_total_bytes_ v;
  geo_total : (memory_total_bytes_ v < 2 ^ 63)%Z;
  geo_cap : (0 <= capacity_ v ∧ capacity_ v * segment_size_bytes_ v <= memory_total_bytes_ v)%Z
}.

Definition elements (seg : Z) (m : bytes) (l : list T) : Prop :=
  ∀ i x, l !! i = Some x → load (Z.of_nat i * seg) m = x.

Record rep (v : SHMVector) (l : list T) : Prop := {
  rep_geometry : geometry v;
  rep_size : size_ v = Z.of_nat (length l);
  rep_cap : (Z.of_nat (length l) <= capacity_ v)%Z;
  rep_elements : elements (segment_size_bytes_ v) (memory_base_ v) l
}.

Lemma seg_pos v : geometry v → (0 < segment_size_bytes_ v)%Z.
Proof. intros [Hs _ _ _]. pose proof sizeof_pos. lia. Qed.

(** The address of a slot below the capacity does not wrap and lies in memory. *)
Lemma slot_address v i :
  geometry v → (0 <= i < capacity_ v)%Z →
  get_element_ptr i v = (i * segment_size_bytes_ v)%Z ∧
  (0 <= i * segment_size_bytes_ v)%Z ∧
  (i * segment_size_bytes_ v + Z.of_nat sizeof <= Z.of_nat (length (memory_base_ v)))%Z.
Proof.
  intros Hg Hi. pose proof (seg_pos v Hg). destruct Hg as [Hs Hm Ht [_ Hc]].
  assert ((i + 1) * segment_size_bytes_ v <= memory_total_bytes_ v)%Z by nia.
  split; [|split; nia]. unfold get_element_ptr, u64. apply wrap_id. nia.
Qed.

Lemma run_read_element v i k lock :
  geometry v → (0 <= i < capacity_ v)%Z →
  run (read_element i k) lock v =
  run (k (load (i * segment_size_bytes_ v) (memory_base_ v))) lock v.
Proof.
  intros Hg Hi. destruct (slot_address v i Hg Hi) as (E & H0 & H). cbn.
  rewrite E. by rewrite decide_True.
Qed.

Lemma run_write_element v i x k lock :
  geometry v → (0 <= i < capacity_ v)%Z →
  run (write_element i x k) lock v =
  run k lock (set_memory (store (i * segment_size_bytes_ v) x (memory_base_ v)) v).
Proof.
  intros Hg Hi. destruct (slot_address v i Hg Hi) as (E & H0 & H). cbn.
  rewrite E. by rewrite decide_True.
Qed.

Lemma geometry_store v i x :
  geometry v → (0 <= i < capacity_ v)%Z →
  geometry (set_memory (store (i * segment_size_bytes_ v) x (memory_base_ v)) v).
Proof.
  intros Hg Hi. destruct (slot_address v i Hg Hi) as (_ & H0 & H).
  destruct Hg. split; try done. cbn. by rewrite store_length.
Qed.

(** Slots are disjoint, so constructing an element leaves the others alone. *)
Lemma load_other_slot v i j x :
  geometry v → (0 <= i < capacity_ v)%Z → (0 <= j)%Z → i ≠ j →
  load (j * segment_size_bytes_ v)
    (store (i * segment_size_bytes_ v) x (memory_base_ v)) =
  load (j * segment_size_bytes_ v) (memory_base_ v).
Proof.
  intros Hg Hi Hj Hne. destruct (slot_address v i Hg Hi) as (_ & H0 & H).
  pose proof (geo_seg v Hg). pose proof (seg_pos v Hg).
  apply load_store_ne; [done|nia|done|].
  destruct (Z_lt_ge_dec j i); [left|right]; nia.
Qed.

Lemma rep_overwrite v l i x :
  rep v l → i < length l →
  rep (set_memory (store (Z.of_nat i * segment_size_bytes_ v) x (memory_base_ v)) v)
    (<[i := x]> l).
Proof.
  intros [Hg Hs Hc He] Hi.
  split; cbn; [apply geometry_store; [done|lia]|by rewrite length_insert..|].
  intros j y Hj. destruct (decide (i = j)) as [<-|Hne].
  - rewrite list_lookup_insert_eq in Hj by done. simplify_eq.
    destruct (slot_address v (Z.of_nat i) Hg) as (_ & H0 & H); [lia|].
    by apply load_store.
  - rewrite list_lookup_insert_ne in Hj by done.
    rewrite load_other_slot by (done || lia). by apply He.
Qed.

Lemma rep_append v l x :
  rep v l → (Z.of_nat (length l) < capacity_ v)%Z →
  rep (set_size (u64 (size_ v + 1))
        (set_memory (store (size_ v * segment_size_bytes_ v) x (memory_base_ v)) v))
    (l ++ [x]).
Proof.
  intros [Hg Hs Hc He] Hlt. rewrite Hs.
  pose proof (seg_pos v Hg). destruct (geo_cap v Hg) as [_ Hcap]. pose proof (geo_total v Hg).
  split; cbn.
  - destruct (geometry_store v (Z.of_nat (length l)) x Hg); [lia|]. by split.
  - rewrite length_app. unfold u64. rewrite wrap_id by nia. simpl. lia.
  - rewrite length_app. simpl. lia.
  - intros j y [Hj|[? Hj]]%lookup_app_Some.
    + pose proof (lookup_lt_Some _ _ _ Hj).
      rewrite load_other_slot by (done || lia). by apply He.
    + apply list_lookup_singleton_Some in Hj as [Hj <-].
      replace j with (length l) by lia.
      destruct (slot_address v (Z.of_nat (length l)) Hg) as (_ & Ha & Hb); [lia|].
      by apply load_store.
Qed.

Lemma rep_truncate v l z : rep v (l ++ [z]) → rep (set_size (u64 (size_ v - 1)) v) l.
Proof.
  intros [Hg Hs Hc He]. rewrite length_app in Hs, Hc. simpl in Hs, Hc.
  pose proof (seg_pos v Hg). destruct (geo_cap v Hg) as [_ Hcap]. pose proof (geo_total v Hg).
  split; cbn.
  - by destruct Hg.
  - unfold u64. rewrite wrap_id by nia. lia.
  - lia.
  - intros i x Hi. apply He. by apply lookup_app_l_Some.
Qed.

(** ** Specification: operations on a list

    [seg] and [tot] are the segment size and the size of the memory. What the
    capacity does is left open up to this: an append fails only when the memory
    cannot hold twice the elements (one, for an empty vector), and a
    reservation only when the memory cannot hold the number asked for. *)
Section spec.
Variables seg tot : Z.

Inductive spec_step : list T → op → fault + result → list T → Prop :=
| spec_reserve l n : spec_step l (Reserve n) (inr RUnit) l
| spec_reserve_full l n :
    (tot < n * seg)%Z → spec_step l (Reserve n) (inl (Throw bad_alloc)) l
| spec_push l x : spec_step l (PushBack x) (inr RUnit) (l ++ [x])
| spec_push_full l x :
    (tot < Z.max 1 (2 * Z.of_nat (length l)) * seg)%Z →
    spec_step l (PushBack x) (inl (Throw bad_alloc)) l
| spec_at l i x :
    l !! i = Some x →
    spec_step l (At (Z.of_nat i)) (inr (RRef (Z.of_nat i * seg))) l
| spec_at_out l i :
    (Z.of_nat (length l) <= i)%Z → spec_step l (At i) (inl (Throw out_of_range)) l
| spec_size l : spec_step l Size (inr (RSize (Z.of_nat (length l)))) l
| spec_capacity l c : spec_step l Capacity (inr (RSize c)) l
| spec_erase A x B :
    spec_step (A ++ x :: B) (EraseAt (Z.of_nat (length A))) (inr RUnit) (A ++ B)
| spec_erase_out l i :
    (Z.of_nat (length l) <= i)%Z → spec_step l (EraseAt i) (inl (Throw out_of_range)) l
| spec_next x l : spec_step (x :: l) GetNextElement (inr (RVal x)) l
| spec_next_empty : spec_step [] GetNextElement (inl (Throw out_of_range)) [].

(** [eraseAt] beyond the end throws with the lock held. *)
Definition leaves_locked (l : list T) (o : op) : bool :=
  match o with
  | EraseAt i => bool_decide (Z.of_nat (length l) <= i)%Z
  | _ => false
  end.

(** Arguments of type [size_t], and for [reserve] a number of elements whose
    bytes can be counted in one. *)
Definition op_ok (o : op) : Prop :=
  match o with
  | Reserve n => (0 <= n ∧ n * seg < 2 ^ 64)%Z
  | At i | EraseAt i => (0 <= i)%Z
  | _ => True
  end.

Definition repr (v : SHMVector) (l : list T) : Prop :=
  rep v l ∧ segment_size_bytes_ v = seg ∧ memory_total_bytes_ v = tot.

(** Run alone inside the lock, [k] does what the specification says of [o]. *)
Definition implements (o : op) (k : prog) : Prop :=
  ∀ v l, repr v l → ∃ v' r l',
    run k true v = Some (v', leaves_locked l o, r) ∧ spec_step l o r l' ∧ repr v' l'.

Lemma repr_capacity v l c :
  repr v l → (Z.of_nat (length l) <= c)%Z → (c * seg <= tot)%Z → repr (set_capacity c v) l.
Proof.
  intros [[[Hs Hm Ht [H0 Hc]] Hsz Hcap He] [E1 E2]] Hlc Hct.
  split; [|done]. split; cbn; [|done..]. split; cbn; [done..|]. rewrite E1, E2. lia.
Qed.

#[local] Ltac outcome :=
  cbn [run leaves_locked]; do 3 eexists; split; [reflexivity|split; [constructor|]].

Lemma reserve_implements n :
  op_ok (Reserve n) →
  implements (Reserve n) (Read (λ v,
    if decide (n <= capacity_ v)%Z then Unlock (inr RUnit)
    else
      let total_bytes := u64 (n * segment_size_bytes_ v) in
      if decide (total_bytes > memory_total_bytes_ v)%Z then Unlock (inl (Throw bad_alloc))
      else Write (set_capacity n) (Unlock (inr RUnit)))).
Proof.
  intros [H0 Hn] v l Hv. pose proof Hv as [[Hg Hs Hc He] [E1 E2]]. cbn [run]. cbv zeta.
  rewrite E1, E2. case_decide as Hcap; [by outcome|].
  unfold u64. pose proof (seg_pos v Hg). rewrite wrap_id by nia. case_decide as Hfit.
  - outcome; [lia|done].
  - outcome. apply repr_capacity; [done|lia|lia].
Qed.

Lemma push_at_end v l x :
  repr v l → (Z.of_nat (length l) < capacity_ v)%Z →
  ∃ v', run (Read (λ v, write_element (size_ v) x
          (Read (λ v, Write (set_size (u64 (size_ v + 1))) (Unlock (inr RUnit)))))) true v =
        Some (v', false, inr RUnit) ∧ repr v' (l ++ [x]).
Proof.
  intros [Hr [E1 E2]] Hlt. pose proof Hr as [Hg Hs Hc He]. cbn [run].
  rewrite run_write_element by (done || lia). cbn. eexists. split; [done|].
  split; [|done]. by apply rep_append.
Qed.

Definition critical (p : prog) : prog := match p with Acquire k => k | p => p end.

Lemma push_implements x : implements (PushBack x) (critical (push_back x)).
Proof.
  intros v l Hv. pose proof Hv as [[Hg Hs Hc He] [E1 E2]]. cbn [run critical push_back].
  cbv zeta. pose proof (seg_pos v Hg). destruct (geo_cap v Hg) as [H0 Hcap].
  pose proof (geo_total v Hg). case_decide as Hfull.
  - assert (Z.of_nat (length l) = capacity_ v) as El by lia.
    set (nc := if decide (capacity_ v = 0%Z) then 1%Z else u64 (capacity_ v * 2)).
    assert (nc = Z.max 1 (2 * capacity_ v)) as Enc.
    { unfold nc. case_decide; [lia|]. unfold u64. rewrite wrap_id; nia. }
    pose proof (geo_seg v Hg). rewrite E1, E2 in *.
    assert (nc * seg < 2 ^ 64)%Z.
    { rewrite Enc. destruct (decide (capacity_ v = 0%Z)) as [->|]; [lia|nia]. }
    assert (u64 (nc * seg) = nc * seg)%Z as -> by (apply wrap_id; nia).
    case_decide as Hfit.
    + outcome; [|done]. rewrite El, <-Enc. lia.
    + cbn [run]. destruct (push_at_end (set_capacity nc v) l x) as (v' & E & Hv').
      { apply repr_capacity; [done|lia|lia]. }
      { cbn. lia. }
      cbn [run] in E |- *. rewrite E. by outcome.
  - destruct (push_at_end v l x Hv) as (v' & E & Hv'); [lia|].
    cbn [run] in E |- *. rewrite E. by outcome.
Qed.

Lemma at_implements i : op_ok (At i) → implements (At i) (critical (at_ i)).
Proof.
  intros Hi v l Hv. simpl in Hi. pose proof Hv as [[Hg Hs Hc He] [E1 E2]].
  cbn [run critical at_]. case_decide as Hout; [outcome; [lia|done]|].
  destruct (lookup_lt_is_Some_2 l (Z.to_nat i)) as [x Hx]; [lia|].
  destruct (slot_address v i Hg) as (-> & _ & _); [lia|]. rewrite E1.
  cbn [run]. do 3 eexists. split; [reflexivity|]. split; [|exact Hv].
  rewrite <-(Z2Nat.id i) by lia. by apply (spec_at _ _ x).
Qed.

Lemma size_implements : implements Size (critical size).
Proof.
  intros v l Hv. pose proof Hv as [[Hg Hs Hc He] _]. cbn [run critical size].
  rewrite Hs. by outcome.
Qed.

Lemma shift_list A x B v fuel k lock :
  repr v (A ++ x :: B) → length B < fuel →
  ∃ v' z, run (shift fuel (Z.of_nat (length A)) k) lock v = run k lock v' ∧
    repr v' ((A ++ B) ++ [z]).
Proof.
  revert A x v fuel. induction B as [|y B IH]; intros A x v fuel Hv Hf;
    (destruct fuel as [|fuel]; [simpl in Hf; lia|]);
    pose proof Hv as [[Hg Hs Hc He] [E1 E2]]; rewrite length_app in Hs, Hc; simpl in Hs, Hc;
    cbn [shift run];
    pose proof (seg_pos v Hg); destruct (geo_cap v Hg) as [H0 Hcap]; pose proof (geo_total v Hg);
    assert (u64 (size_ v - 1) = size_ v - 1)%Z as -> by (apply wrap_id; nia).
  - rewrite decide_False by lia. exists v, x. by rewrite app_nil_r.
  - simpl in Hf. rewrite decide_True by lia. rewrite run_read_element by (done || lia).
    replace (Z.of_nat (length A) + 1)%Z with (Z.of_nat (length (A ++ [y])))
      by (rewrite length_app; simpl; lia).
    replace (load _ _) with y.
    2:{ rewrite length_app. simpl. symmetry. apply He. rewrite lookup_app_r by lia.
        by replace (length A + 1 - length A) with 1 by lia. }
    rewrite run_write_element by (done || lia).
    destruct (IH (A ++ [y]) y
      (set_memory (store (Z.of_nat (length A) * segment_size_bytes_ v) y (memory_base_ v)) v)
      fuel) as (v' & z & E & Hv').
    + split; [|done]. rewrite <-app_assoc.
      replace (A ++ [y] ++ y :: B) with (<[length A := y]> (A ++ x :: y :: B)).
      * apply rep_overwrite; [by destruct Hv|]. rewrite length_app. simpl. lia.
      * by rewrite insert_app_r_alt, Nat.sub_diag by lia.
    + lia.
    + exists v', z. rewrite E. split; [done|]. by rewrite <-(app_assoc A [y] B) in Hv'.
Qed.

Lemma erase_list A x B v r :
  repr v (A ++ x :: B) →
  ∃ v', run (eraseAt_unlocked (Z.of_nat (length A)) (Unlock r)) true v = Some (v', false, r) ∧
    repr v' (A ++ B).
Proof.
  intros Hv. pose proof Hv as [[Hg Hs Hc He] [E1 E2]]. rewrite length_app in Hs. simpl in Hs.
  unfold eraseAt_unlocked. cbn [run]. rewrite decide_False by lia.
  destruct (shift_list A x B v (S (Z.to_nat (size_ v)))
    (Read (λ v, Write (set_size (u64 (size_ v - 1))) (Unlock r))) true Hv)
    as (v' & z & -> & [Hr [E1' E2']]); [lia|].
  cbn [run]. eexists. split; [done|]. split; [|done]. by apply (rep_truncate _ _ z).
Qed.

Lemma erase_implements i : op_ok (EraseAt i) → implements (EraseAt i) (critical (eraseAt i)).
Proof.
  intros Hi v l Hv. simpl in Hi. cbn [critical eraseAt leaves_locked].
  destruct (decide (Z.of_nat (length l) <= i)%Z) as [Hout|Hin].
  - rewrite bool_decide_true by done. pose proof Hv as [[Hg Hs Hc He] _].
    unfold eraseAt_unlocked. cbn [run]. rewrite decide_True by lia. by outcome.
  - rewrite bool_decide_false by done.
    destruct (lookup_lt_is_Some_2 l (Z.to_nat i)) as [x Hx]; [lia|].
    pose proof (take_drop_middle l _ _ Hx) as El. rewrite <-El in Hv |- *.
    assert (i = Z.of_nat (length (take (Z.to_nat i) l))) as Ei by (rewrite length_take; lia).
    revert Hv Ei. generalize (take (Z.to_nat i) l) (drop (S (Z.to_nat i)) l).
    intros A B Hv ->. destruct (erase_list A x _ v (inr RUnit) Hv) as (v' & E & Hv').
    rewrite E. eauto 6 using spec_step.
Qed.

Lemma next_implements : implements GetNextElement (critical getNextElement).
Proof.
  intros v l Hv. pose proof Hv as [[Hg Hs Hc He] [E1 E2]].
  cbn [run critical getNextElement leaves_locked]. destruct l as [|x l].
  - rewrite decide_True by done. by outcome.
  - simpl in Hs, Hc. rewrite decide_False by lia.
    rewrite run_read_element by (done || lia).
    replace (load (0 * _) _) with x by (symmetry; by apply (He 0 x)).
    destruct (erase_list [] x l v (inr (RVal x)) Hv) as (v' & E & Hv').
    cbn [length] in E. change (Z.of_nat 0) with 0%Z in E. rewrite E. eauto 6 using spec_step.
Qed.

(** Every operation, run alone with the lock free, refines the specification. *)
Lemma run_refines o v l :
  op_ok o → repr v l →
  ∃ v' r l', run (body o) false v = Some (v', leaves_locked l o, r) ∧
    spec_step l o r l' ∧ repr v' l'.
Proof.
  intros Ho Hv. destruct o as [n|x|i| | |i|].
  - cbn [body reserve run]. case_decide as Hcap; [by outcome|].
    destruct (reserve_implements n Ho v l Hv) as (v' & r & l' & E & H).
    exists v', r, l'. split; [|done]. exact E.
  - exact (push_implements x v l Hv).
  - exact (at_implements i Ho v l Hv).
  - exact (size_implements v l Hv).
  - by outcome.
  - exact (erase_implements i Ho v l Hv).
  - exact (next_implements v l Hv).
Qed.

End spec.
End vector.
End SHMVector.
