(* ===== verification/ShmObjects.v ===== *)
(** * The objects of [SHMVector] (src/SHMVector.hpp)

    ShmVector.v takes the elements for bytes, which suits trivially copyable
    types. The template accepts every type: its members construct the elements
    in place with their copy constructor and end them by explicit destructor
    calls. This file models these calls, for any element type, on a store of
    the objects that are alive: a call of a destructor where no object lives, a
    copy from such a place and a construction at an address that is misaligned
    or out of the memory are undefined; a construction over objects that are
    alive leaks them; a copy constructor may throw. The results are compared
    with the specification of ShmVector.v. *)
From S2P Require Export ShmVector.
From stdpp Require Import options.

Module ShmObjects.
Import SHMVector.

Section objects.
Context {T : Type}.

(** [sizeof(T)], [alignof(T)], and whether the n-th copy that is made throws. *)
Variables (sizeofT alignofT : Z) (throws : nat → bool).

(** ** Data

    The members of the vector, the objects alive by their offset from
    [memory_base_], the number of objects whose storage was reused without a
    destructor call, and the number of copies made. *)
Record objects := mkObjects {
  segment_size : Z;
  capacity : Z;
  size : Z;
  memory_base : Z;
  memory_total : Z;
  lock : bool;
  live : gmap Z T;
  leaked : nat;
  copied : nat
}.

Definition set_capacity (c : Z) (s : objects) : objects :=
  mkObjects (segment_size s) c (size s) (memory_base s) (memory_total s) (lock s)
    (live s) (leaked s) (copied s).
Definition set_size (n : Z) (s : objects) : objects :=
  mkObjects (segment_size s) (capacity s) n (memory_base s) (memory_total s) (lock s)
    (live s) (leaked s) (copied s).
Definition set_lock (b : bool) (s : objects) : objects :=
  mkObjects (segment_size s) (capacity s) (size s) (memory_base s) (memory_total s) b
    (live s) (leaked s) (copied s).
Definition set_live (m : gmap Z T) (k : nat) (s : objects) : objects :=
  mkObjects (segment_size s) (capacity s) (size s) (memory_base s) (memory_total s) (lock s)
    m k (copied s).
Definition count_copy (s : objects) : objects :=
  mkObjects (segment_size s) (capacity s) (size s) (memory_base s) (memory_total s) (lock s)
    (live s) (leaked s) (S (copied s)).

(** [SHMVector(segment_size_bytes, shared_memory_ptr, shared_memory_size)]; a
    null pointer is [0]. *)
Definition construct (segment_size_bytes shared_memory_ptr shared_memory_size : Z) :
    fault + objects :=
  if decide (segment_size_bytes = 0%Z) then inl (Throw invalid_argument)
  else if decide (shared_memory_ptr = 0%Z) then inl (Throw invalid_argument)
  else if decide (shared_memory_size = 0%Z) then inl (Throw invalid_argument)
  else inr (mkObjects segment_size_bytes 0 0 shared_memory_ptr shared_memory_size false ∅ 0 0).

(** ** Computations

    [None]: the spin lock is held and nobody is left to release it. *)
Definition M (A : Type) : Type := objects → option (objects * (fault + A)).

#[local] Instance M_ret : MRet M := λ A a s, Some (s, inr a).
#[local] Instance M_bind : MBind M := λ A B f m s,
  match m s with
  | None => None
  | Some (s', inl e) => Some (s', inl e)
  | Some (s', inr a) => f a s'
  end.

Definition throw {A} (e : fault) : M A := λ s, Some (s, inl e).
Definition asks {A} (f : objects → A) : M A := λ s, Some (s, inr (f s)).
Definition update (f : objects → objects) : M () := λ s, Some (f s, inr ()).

Definition acquire : M () := λ s, if lock s then None else Some (set_lock true s, inr ()).
Definition release : M () := update (set_lock false).

(** *** Objects *)

(** [get_element_ptr(index)], as an offset. *)
Definition get_element_ptr (index : Z) : M Z := asks (λ s, u64 (index * segment_size s)).

(** The object at an offset. *)
Definition found (o : option T) : fault + T :=
  match o with Some x => inr x | None => inl Undefined end.

Definition object_at (off : Z) : M T := λ s, Some (s, found (live s !! off)).

(** [~T()] *)
Definition destroy_at (off : Z) : M () :=
  object_at off;;
  update (λ s, set_live (delete off (live s)) (leaked s) s).

(** Where an object of type [T] may be. *)
Definition suitable (off : Z) (s : objects) : Prop :=
  ((memory_base s + off) `mod` alignofT = 0 ∧ off + sizeofT <= memory_total s)%Z.

#[local] Instance suitable_dec off s : Decision (suitable off s).
Proof. unfold suitable. apply _. Defined.

(** The objects that do not share storage with one at [off]. *)
Definition apart (off : Z) (m : gmap Z T) : gmap Z T :=
  filter (λ p, (p.1 + sizeofT <= off)%Z ∨ (off + sizeofT <= p.1)%Z) m.

(** The copy constructor. *)
Definition copy (x : T) : M T := λ s,
  if throws (copied s) then Some (count_copy s, inl (Throw bad_alloc))
  else Some (count_copy s, inr x).

(** [new (position) T(x)] *)
Definition construct_at (off : Z) (x : T) : M () :=
  ok ← asks (λ s, bool_decide (suitable off s));
  if (ok : bool) then
    update (λ s, set_live (apart off (live s))
                   (leaked s + (base.size (live s) - base.size (apart off (live s)))) s);;
    y ← copy x;
    update (λ s, set_live (<[off := y]> (live s)) (leaked s) s)
  else throw Undefined.

(** ** Member functions *)

Definition reserve (element_count : Z) : M (@result T) :=
  c ← asks capacity;
  if decide (element_count <= c)%Z then mret RUnit
  else
    acquire;;
    c ← asks capacity;
    if decide (element_count <= c)%Z then release;; mret RUnit
    else
      total_bytes ← asks (λ s, u64 (element_count * segment_size s));
      tot ← asks memory_total;
      if decide (total_bytes > tot)%Z then release;; throw (Throw bad_alloc)
      else update (set_capacity element_count);; release;; mret RUnit.

(** The part of [push_back] that expands the capacity. *)
Definition expand : M () :=
  n ← asks size;
  c ← asks capacity;
  if decide (n >= c)%Z then
    let new_capacity := if decide (c = 0%Z) then 1%Z else u64 (c * 2) in
    total_bytes ← asks (λ s, u64 (new_capacity * segment_size s));
    tot ← asks memory_total;
    if decide (total_bytes > tot)%Z then release;; throw (Throw bad_alloc)
    else update (set_capacity new_capacity)
  else mret ().

(** The rest of it. *)
Definition construct_at_end (element : T) : M (@result T) :=
  n ← asks size;
  position ← get_element_ptr n;
  construct_at position element;;
  update (λ s, set_size (u64 (size s + 1)) s);;
  release;;
  mret RUnit.

Definition push_back (element : T) : M (@result T) :=
  acquire;;
  expand;;
  construct_at_end element.

Definition at_ (index : Z) : M (@result T) :=
  acquire;;
  n ← asks size;
  if decide (index >= n)%Z then release;; throw (Throw out_of_range)
  else
    r ← get_element_ptr index;
    release;;
    mret (RRef r).

(** The shifting loop of [eraseAt_unlocked] from [i] on, with a step budget. *)
Fixpoint shift (fuel : nat) (i : Z) : M () :=
  match fuel with
  | O => throw Undefined
  | S fuel =>
      n ← asks size;
      if decide (i < u64 (n - 1))%Z then
        current ← get_element_ptr i;
        next ← get_element_ptr (i + 1);
        x ← object_at next;
        construct_at current x;;
        destroy_at next;;
        shift fuel (i + 1)%Z
      else mret ()
  end.

Definition eraseAt_unlocked (index : Z) : M () :=
  n ← asks size;
  if decide (index >= n)%Z then throw (Throw out_of_range)
  else
    p ← get_element_ptr index;
    destroy_at p;;
    shift (S (Z.to_nat n)) index;;
    update (λ s, set_size (u64 (size s - 1)) s).

Definition eraseAt (index : Z) : M (@result T) :=
  acquire;;
  eraseAt_unlocked index;;
  release;;
  mret RUnit.

Definition getNextElement : M (@result T) :=
  acquire;;
  n ← asks size;
  if decide (n = 0%Z) then release;; throw (Throw out_of_range)
  else
    p ← get_element_ptr 0;
    x ← object_at p;
    result ← copy x;
    eraseAt_unlocked 0;;
    release;;
    mret (RVal result).

Definition body (o : @op T) : M (@result T) :=
  match o with
  | Reserve n => reserve n
  | PushBack x => push_back x
  | At i => at_ i
  | Size => acquire;; n ← asks size; release;; mret (RSize n)
  | Capacity => c ← asks capacity; mret (RSize c)
  | EraseAt i => eraseAt i
  | GetNextElement => getNextElement
  end.

(** [~SHMVector()], from [i] on. *)
Fixpoint destroy_loop (fuel : nat) (i : Z) : M () :=
  match fuel with
  | O => throw Undefined
  | S fuel =>
      n ← asks size;
      if decide (i < n)%Z then
        p ← get_element_ptr i;
        destroy_at p;;
        destroy_loop fuel (i + 1)%Z
      else mret ()
  end.

Definition destructor : M () :=
  n ← asks size;
  destroy_loop (S (Z.to_nat n)) 0.

(** Calls one after the other: the results up to the end, or up to the call
    that spins. *)
Fixpoint exec (ops : list (@op T)) (s : objects) : objects * list (fault + @result T) * bool :=
  match ops with
  | [] => (s, [], false)
  | o :: ops =>
      match body o s with
      | None => (s, [], true)
      | Some (s, r) => let '(s, rs, stuck) := exec ops s in (s, r :: rs, stuck)
      end
  end.

(** ** Running computations *)

#[local] Ltac mrun :=
  cbv [mbind M_bind mret M_ret asks update throw acquire release]; cbn.

(** ** Cells

    A list of cells, alive or not, describes the objects alive when the cell
    [i] is the storage at [i * seg]. *)
Definition alive (seg : Z) (m : gmap Z T) (cs : list (option T)) : Prop :=
  ∀ off x, m !! off = Some x ↔ ∃ i, off = (Z.of_nat i * seg)%Z ∧ cs !! i = Some (Some x).

Lemma alive_lookup seg m cs i :
  (0 < seg)%Z → alive seg m cs → m !! (Z.of_nat i * seg)%Z = mjoin (cs !! i).
Proof.
  intros Hs Hm. apply option_eq. intros x. rewrite (Hm _ x). split.
  - intros (j & Ej & Hj). assert (i = j) as -> by nia. by rewrite Hj.
  - intros Hx. exists i. split; [done|]. destruct (cs !! i) as [o|]; [|done].
    simpl in Hx. by rewrite Hx.
Qed.

Lemma alive_destroy seg m cs i x :
  (0 < seg)%Z → alive seg m cs → cs !! i = Some (Some x) →
  alive seg (delete (Z.of_nat i * seg)%Z m) (<[i := None]> cs).
Proof.
  intros Hs Hm Hi off y. rewrite lookup_delete_Some, (Hm off y). split.
  - intros [Hne (j & -> & Hj)]. exists j. split; [done|].
    rewrite list_lookup_insert_ne; [done|]. by intros ->.
  - intros (j & -> & Hj). destruct (decide (i = j)) as [->|Hne].
    + rewrite list_lookup_insert_eq in Hj; [done|]. by eapply lookup_lt_Some.
    + rewrite list_lookup_insert_ne in Hj by done. split; [nia|eauto].
Qed.

Lemma alive_construct seg m cs i x :
  (0 < seg)%Z → alive seg m cs → cs !! i = Some None →
  alive seg (<[(Z.of_nat i * seg)%Z := x]> m) (<[i := Some x]> cs).
Proof.
  intros Hs Hm Hi off y. pose proof (lookup_lt_Some _ _ _ Hi).
  rewrite lookup_insert_Some, (Hm off y). split.
  - intros [[<- <-]|[Hne (j & -> & Hj)]].
    + exists i. by rewrite list_lookup_insert_eq.
    + exists j. split; [done|]. rewrite list_lookup_insert_ne; [done|]. by intros ->.
  - intros (j & -> & Hj). destruct (decide (i = j)) as [->|Hne].
    + rewrite list_lookup_insert_eq in Hj by done. simplify_eq. by left.
    + rewrite list_lookup_insert_ne in Hj by done. right. split; [nia|eauto].
Qed.

Lemma alive_snoc_None seg m cs : alive seg m (cs ++ [None]) ↔ alive seg m cs.
Proof.
  enough (∀ i x, (cs ++ [None]) !! i = Some (Some x) ↔ cs !! i = Some (Some x)) as H.
  { unfold alive. by setoid_rewrite H. }
  intros i x. rewrite lookup_app_Some. split; [|by left].
  intros [?|[_ Hi]]; [done|]. by apply list_lookup_singleton_Some in Hi as [_ ?].
Qed.

Lemma alive_none seg m k : alive seg m (replicate k None) → m = ∅.
Proof.
  intros Hm. apply map_empty. intros off. apply eq_None_not_Some. intros [x Hx].
  apply (Hm off x) in Hx as (i & _ & Hi). by apply lookup_replicate in Hi as [? _].
Qed.

(** Construction in a cell that is not alive reuses nobody's storage. *)
Lemma apart_all seg m cs i :
  (0 < sizeofT <= seg)%Z → alive seg m cs → cs !! i = Some None →
  apart (Z.of_nat i * seg) m = m.
Proof.
  intros Hs Hm Hi. apply map_filter_id. intros off x Hx.
  apply (Hm off x) in Hx as (j & -> & Hj). cbn [fst].
  destruct (Nat.lt_trichotomy i j) as [?|[->|?]]; [right; nia|congruence|left; nia].
Qed.

(** ** Single calls in a well laid out vector *)

(** Slots hold an object, are aligned, and those below the capacity are inside
    the memory, which is small enough for twice its size to be computed without
    wrapping. *)
Record layout (s : objects) : Prop := {
  lay_slot : (0 < sizeofT <= segment_size s)%Z ∧ (segment_size s < 2 ^ 64)%Z;
  lay_align : (alignofT | memory_base s)%Z ∧ (alignofT | segment_size s)%Z;
  lay_total : (memory_total s < 2 ^ 63)%Z;
  lay_capacity : (0 <= capacity s ∧ capacity s * segment_size s <= memory_total s)%Z
}.

(** The state with other objects and another number of copies. *)
Definition after (m : gmap Z T) (k : nat) (s : objects) : objects :=
  mkObjects (segment_size s) (capacity s) (size s) (memory_base s) (memory_total s) (lock s)
    m (leaked s) k.

Lemma layout_after m k s : layout s → layout (after m k s).
Proof. by intros []. Qed.

Lemma layout_slot s i :
  layout s → (0 <= i < capacity s)%Z →
  u64 (i * segment_size s) = (i * segment_size s)%Z ∧ suitable (i * segment_size s) s.
Proof.
  intros [[Hs _] [Ha Hb] Ht [H0 Hc]] Hi.
  assert ((i + 1) * segment_size s <= memory_total s)%Z by nia.
  split; [apply wrap_id; nia|]. split; [|nia].
  destruct (decide (alignofT = 0%Z)) as [E|Hne].
  - rewrite E in *. apply Z.divide_0_l in Ha, Hb. lia.
  - apply Z.mod_divide; [done|]. apply Z.divide_add_r; [done|]. by apply Z.divide_mul_r.
Qed.

Lemma destroy_at_spec s cs i x :
  layout s → alive (segment_size s) (live s) cs → cs !! i = Some (Some x) →
  destroy_at (Z.of_nat i * segment_size s) s =
  Some (after (delete (Z.of_nat i * segment_size s)%Z (live s)) (copied s) s, inr ()).
Proof.
  intros [[Hs _] _ _ _] Hm Hi. assert (0 < segment_size s)%Z as Hp by lia.
  unfold destroy_at, object_at, M_bind, mbind. by rewrite (alive_lookup _ _ _ _ Hp Hm), Hi.
Qed.

Lemma construct_at_spec s cs i x :
  layout s → alive (segment_size s) (live s) cs → cs !! i = Some None →
  (Z.of_nat i < capacity s)%Z → throws (copied s) = false →
  construct_at (Z.of_nat i * segment_size s) x s =
  Some (after (<[(Z.of_nat i * segment_size s)%Z := x]> (live s)) (S (copied s)) s, inr ()).
Proof.
  intros Hl Hm Hi Hc Ht. destruct (layout_slot s (Z.of_nat i) Hl) as [_ Hok]; [lia|].
  destruct Hl as [[Hs _] _ _ _].
  unfold construct_at, asks, update, M_bind, mbind. rewrite bool_decide_true by done.
  cbn. rewrite (apart_all _ _ _ _ Hs Hm Hi). unfold copy. cbn. rewrite Ht. cbn.
  unfold after, set_live. cbn. by rewrite Nat.sub_diag, Nat.add_0_r.
Qed.

(** A copy that throws in a construction leaves the objects as they are. *)
Lemma construct_at_throws s cs i x :
  layout s → alive (segment_size s) (live s) cs → cs !! i = Some None →
  (Z.of_nat i < capacity s)%Z → throws (copied s) = true →
  construct_at (Z.of_nat i * segment_size s) x s =
  Some (after (live s) (S (copied s)) s, inl (Throw bad_alloc)).
Proof.
  intros Hl Hm Hi Hc Ht. destruct (layout_slot s (Z.of_nat i) Hl) as [_ Hok]; [lia|].
  destruct Hl as [[Hs _] _ _ _].
  unfold construct_at, asks, update, M_bind, mbind. rewrite bool_decide_true by done.
  cbn. rewrite (apart_all _ _ _ _ Hs Hm Hi). unfold copy. cbn. rewrite Ht. cbn.
  unfold after, set_live, count_copy. cbn. by rewrite Nat.sub_diag, Nat.add_0_r.
Qed.

(** One round of the shifting loop, over the hole at [i]: the object behind it
    is copied into the hole and destroyed. *)
Lemma shift_round s cs i x fuel :
  layout s → alive (segment_size s) (live s) cs →
  cs !! i = Some None → cs !! S i = Some (Some x) →
  (Z.of_nat (S i) < size s <= capacity s)%Z →
  ∃ m, alive (segment_size s) m (<[S i := None]> (<[i := Some x]> cs)) ∧
  shift (S fuel) (Z.of_nat i) s =
  if throws (copied s) then Some (after (live s) (S (copied s)) s, inl (Throw bad_alloc))
  else shift fuel (Z.of_nat (S i)) (after m (S (copied s)) s).
Proof.
  intros Hl Hm Hi Hx Hn. pose proof Hl as [[Hs _] _ Ht [H0 Hc]].
  assert (0 < segment_size s)%Z as Hp by lia.
  pose proof (alive_construct _ _ _ i x Hp Hm Hi) as Hm'.
  assert (<[i := Some x]> cs !! S i = Some (Some x)) as Hx'
    by (by rewrite list_lookup_insert_ne by lia).
  eexists. split; [apply (alive_destroy _ _ _ _ x Hp Hm' Hx')|].
  cbn [shift]. unfold M_bind, mbind at 1, asks at 1.
  assert (u64 (size s - 1) = size s - 1)%Z as -> by (apply wrap_id; nia).
  rewrite decide_True by lia. unfold get_element_ptr, asks, M_bind, mbind.
  destruct (layout_slot s (Z.of_nat i) Hl) as [-> _]; [lia|].
  replace (Z.of_nat i + 1)%Z with (Z.of_nat (S i)) by lia.
  destruct (layout_slot s (Z.of_nat (S i)) Hl) as [-> _]; [lia|].
  unfold object_at at 1. rewrite (alive_lookup _ _ _ _ Hp Hm), Hx. cbn [mjoin option_join found].
  destruct (throws (copied s)) eqn:E.
  - by rewrite (construct_at_throws s cs) by (done || lia).
  - rewrite (construct_at_spec s cs) by (done || lia).
    set (s1 := after _ _ s).
    pose proof (destroy_at_spec s1 _ (S i) x (layout_after _ _ s Hl) Hm' Hx') as Hd.
    cbn in Hd |- *. by rewrite Hd.
Qed.

(** ** The vector and a list

    The objects alive are exactly the elements. *)
Record holds (s : objects) (l : list T) : Prop := {
  hold_layout : layout s;
  hold_size : size s = Z.of_nat (length l);
  hold_capacity : (Z.of_nat (length l) <= capacity s)%Z;
  hold_live : alive (segment_size s) (live s) (Some <$> l)
}.

(** A dead cell behind [A] that the size still counts. *)
Record hole (s : objects) (A B : list T) : Prop := {
  hole_layout : layout s;
  hole_size : size s = Z.of_nat (length A + S (length B));
  hole_capacity : (size s <= capacity s)%Z;
  hole_live : alive (segment_size s) (live s) ((Some <$> A) ++ None :: (Some <$> B))
}.

(** The next [n] copies do not throw. *)
Definition no_throw (k n : nat) : Prop := ∀ j, j < n → throws (k + j) = false.

Lemma no_throw_cons k n : throws k = false → no_throw (S k) n → no_throw k (S n).
Proof.
  intros Hk Hn [|j] Hj; [by rewrite Nat.add_0_r|].
  rewrite <-plus_n_Sm. apply (Hn j). lia.
Qed.

Lemma hole_move A y B :
  <[S (length A) := None]> (<[length A := Some y]> ((@Some T <$> A) ++ None :: (Some <$> y :: B))) =
  (Some <$> A ++ [y]) ++ None :: (Some <$> B).
Proof.
  rewrite insert_app_r_alt by (rewrite length_fmap; lia).
  rewrite length_fmap, Nat.sub_diag. cbn.
  rewrite insert_app_r_alt by (rewrite length_fmap; lia).
  rewrite length_fmap. replace (S (length A) - length A) with 1 by lia. cbn.
  by rewrite fmap_app, <-app_assoc.
Qed.

(** The loop closes the hole, or stops at the first copy that throws, with the
    hole as far as it has come. *)
Lemma shift_spec B : ∀ A s fuel,
  hole s A B → length B < fuel →
  (∃ m k, shift fuel (Z.of_nat (length A)) s = Some (after m k s, inr ()) ∧
     alive (segment_size s) m (Some <$> A ++ B) ∧ no_throw (copied s) (length B)) ∨
  (∃ m k j, shift fuel (Z.of_nat (length A)) s = Some (after m k s, inl (Throw bad_alloc)) ∧
     j < length B ∧ throws (copied s + j) = true ∧ no_throw (copied s) j ∧
     hole (after m k s) (A ++ take j B) (drop j B)).
Proof.
  induction B as [|y B IH]; intros A s fuel Hh Hf; (destruct fuel as [|fuel]; [simpl in Hf; lia|]);
    pose proof Hh as [Hl Hs Hc Hm].
  - left. exists (live s), (copied s). split; [|split; [|intros j Hj; simpl in Hj; lia]].
    + cbn [shift]. unfold M_bind, mbind, asks. pose proof Hl as [[Hsz _] _ Ht [H0 Hcap]].
      cbn [length] in Hs. assert (u64 (size s - 1) = size s - 1)%Z as -> by (apply wrap_id; nia).
      rewrite decide_False by lia. by destruct s.
    + rewrite app_nil_r. by apply alive_snoc_None.
  - cbn [length] in Hs, Hf.
    destruct (shift_round s ((Some <$> A) ++ None :: (Some <$> y :: B)) (length A) y fuel)
      as (m & Hm' & E); [done|done| | |lia|].
    { rewrite lookup_app_r by (rewrite length_fmap; lia). by rewrite length_fmap, Nat.sub_diag. }
    { rewrite lookup_app_r by (rewrite length_fmap; lia). rewrite length_fmap.
      by replace (S (length A) - length A) with 1 by lia. }
    rewrite hole_move in Hm'. rewrite E. destruct (throws (copied s)) eqn:Et.
    + right. exists (live s), (S (copied s)), 0. rewrite Nat.add_0_r, app_nil_r.
      split; [done|]. split; [cbn; lia|]. split; [done|]. split; [intros j Hj; lia|].
      split; [by apply layout_after|cbn; lia|done..].
    + replace (S (length A)) with (length (A ++ [y])) by (rewrite length_app; simpl; lia).
      assert (∀ r, A ++ y :: r = (A ++ [y]) ++ r) as Er by (intros r; by rewrite <-app_assoc).
      destruct (IH (A ++ [y]) (after m (S (copied s)) s) fuel)
        as [(m' & k & E' & Ha & Hn)|(m' & k & j & E' & Hj & Hj' & Hn & Hh')]; [|lia| |].
      * split; [by apply layout_after|rewrite length_app; cbn; lia|done..].
      * left. exists m', k. rewrite (Er B). split; [done|]. split; [done|].
        apply (no_throw_cons _ _ Et Hn).
      * right. exists m', k, (S j). cbn [take drop length]. rewrite (Er (take j B)).
        split; [done|]. split; [lia|]. split; [by rewrite <-plus_n_Sm|].
        split; [|done]. apply (no_throw_cons _ _ Et Hn).
Qed.

(** [eraseAt_unlocked] within the vector. *)
Lemma erase_spec A x B s :
  holds s (A ++ x :: B) →
  (∃ m k s', eraseAt_unlocked (Z.of_nat (length A)) s = Some (s', inr ()) ∧
     s' = set_size (size s - 1) (after m k s) ∧ holds s' (A ++ B) ∧
     no_throw (copied s) (length B)) ∨
  (∃ m k j, eraseAt_unlocked (Z.of_nat (length A)) s =
       Some (after m k s, inl (Throw bad_alloc)) ∧
     j < length B ∧ throws (copied s + j) = true ∧ no_throw (copied s) j ∧
     hole (after m k s) (A ++ take j B) (drop j B)).
Proof.
  intros [Hl Hs Hc Hm]. rewrite length_app in Hs, Hc. cbn [length] in Hs, Hc.
  pose proof Hl as [[Hsz _] _ Ht [H0 Hcap]]. assert (0 < segment_size s)%Z as Hp by lia.
  assert ((Some <$> A ++ x :: B) !! length A = Some (Some x)) as Hx.
  { by rewrite list_lookup_fmap, lookup_app_r, Nat.sub_diag by lia. }
  unfold eraseAt_unlocked, get_element_ptr, asks, M_bind, mbind, update.
  rewrite decide_False by lia. destruct (layout_slot s (Z.of_nat (length A)) Hl) as [-> _]; [lia|].
  rewrite (destroy_at_spec s _ _ x Hl Hm Hx).
  pose proof (alive_destroy _ _ _ _ x Hp Hm Hx) as Hm'.
  set (s1 := after _ _ s).
  assert (hole s1 A B) as Hh.
  { split; [by apply layout_after|done|cbn; lia|]. cbn.
    replace ((Some <$> A) ++ None :: (Some <$> B)) with (<[length A := None]> (Some <$> A ++ x :: B));
      [done|].
    rewrite fmap_app, insert_app_r_alt by (rewrite length_fmap; lia).
    by rewrite length_fmap, Nat.sub_diag. }
  destruct (shift_spec B A s1 (S (Z.to_nat (size s))) Hh) as [(m & k & -> & Hm1 & Hn)|Ht1]; [lia| |].
  - left. exists m, k. eexists. split; [done|].
    assert (u64 (size s - 1) = size s - 1)%Z as E by (apply wrap_id; nia).
    split; [by cbn; rewrite E|]. split; [|done]. split; cbn.
    + by destruct Hl.
    + rewrite E, length_app. lia.
    + rewrite length_app. lia.
    + done.
  - right. destruct Ht1 as (m & k & j & -> & Hj & Hj' & Hn & Hh'). by exists m, k, j.
Qed.

(** ** The destructor *)

Lemma destroy_loop_spec l : ∀ rest i s fuel,
  layout s →
  alive (segment_size s) (live s) (replicate i None ++ (Some <$> l) ++ rest) →
  (Z.of_nat (i + length l) <= size s <= capacity s)%Z → length l <= fuel →
  ∃ m, alive (segment_size s) m (replicate (i + length l) None ++ rest) ∧
    destroy_loop fuel (Z.of_nat i) s =
    destroy_loop (fuel - length l) (Z.of_nat (i + length l)) (after m (copied s) s).
Proof.
  induction l as [|x l IH]; intros rest i s fuel Hl Hm Hs Hf; cbn [length] in Hs, Hf |- *.
  - exists (live s). rewrite Nat.add_0_r, Nat.sub_0_r. split; [done|]. by destruct s.
  - destruct fuel as [|fuel]; [lia|]. cbn [destroy_loop]. mrun.
    rewrite decide_True by lia. destruct (layout_slot s (Z.of_nat i) Hl) as [E _]; [lia|].
    unfold get_element_ptr. mrun. rewrite E.
    pose proof Hl as [[Hsz _] _ _ _]. assert (0 < segment_size s)%Z as Hp by lia.
    assert ((replicate i None ++ (Some <$> x :: l) ++ rest) !! i = Some (Some x)) as Hi.
    { by rewrite lookup_app_r, length_replicate, Nat.sub_diag by (rewrite length_replicate; lia). }
    rewrite (destroy_at_spec s _ i x Hl Hm Hi).
    pose proof (alive_destroy _ _ _ i x Hp Hm Hi) as Hm'.
    rewrite insert_app_r_alt, length_replicate, Nat.sub_diag in Hm'
      by (rewrite length_replicate; lia).
    replace (Z.of_nat i + 1)%Z with (Z.of_nat (S i)) by lia.
    replace (i + S (length l)) with (S i + length l) by lia.
    replace (S fuel - S (length l)) with (fuel - length l) by lia.
    apply (IH rest (S i) (after (delete (Z.of_nat i * segment_size s)%Z (live s)) (copied s) s));
      [by apply layout_after| |cbn; lia|lia].
    cbn in Hm' |- *. change (None :: replicate i None ++ ?r) with (replicate (S i) None ++ r).
    by rewrite replicate_S_end, <-app_assoc.
Qed.

(** It ends every object that is alive, once. *)
Lemma destructor_spec s l :
  holds s l → destructor s = Some (after ∅ (copied s) s, inr ()).
Proof.
  intros [Hl Hs Hc Hm]. unfold destructor, asks at 1, M_bind, mbind at 1.
  destruct (destroy_loop_spec l [] 0 s (S (Z.to_nat (size s))) Hl) as (m & Hm' & E);
    [by rewrite app_nil_r|lia|lia|].
  change 0%Z with (Z.of_nat 0). rewrite E. rewrite app_nil_r in Hm'. replace (S _ - length l) with 1 by lia.
  cbn [destroy_loop]. mrun. rewrite decide_False by lia.
  by rewrite (alive_none _ _ _ Hm').
Qed.

(** With a hole among the elements it reaches storage without an object. *)
Lemma destructor_hole s A B :
  hole s A B → ∃ m, destructor s = Some (after m (copied s) s, inl Undefined).
Proof.
  intros [Hl Hs Hc Hm]. unfold destructor, asks at 1, M_bind, mbind at 1.
  destruct (destroy_loop_spec A (None :: (Some <$> B)) 0 s (S (Z.to_nat (size s))) Hl)
    as (m & Hm' & E); [done|lia|lia|].
  change 0%Z with (Z.of_nat 0). rewrite E. exists m. replace (S _ - length A) with (S (Z.to_nat (size s) - length A)) by lia.
  cbn [destroy_loop]. mrun. rewrite decide_True by lia.
  destruct (layout_slot s (Z.of_nat (length A)) Hl) as [Ea _]; [lia|].
  pose proof Hl as [[Hsz _] _ _ _]. assert (0 < segment_size s)%Z as Hp by lia.
  unfold get_element_ptr, destroy_at, object_at. mrun. rewrite Ea.
  rewrite (alive_lookup _ _ _ _ Hp Hm').
  by rewrite lookup_app_r, length_replicate, Nat.sub_diag by (rewrite length_replicate; lia).
Qed.

(** ** Every member function against the specification *)

Section refinement.
Variables seg tot : Z.

Definition kept (s s' : objects) : Prop :=
  segment_size s' = segment_size s ∧ memory_total s' = memory_total s ∧ leaked s' = leaked s.

Definition sized (s : objects) : Prop := segment_size s = seg ∧ memory_total s = tot.

(** What a call leads to: a step of the specification, or the exception of a
    copy, with the lock held. *)
Inductive outcome (o : @op T) (s : objects) (l : list T) : Prop :=
| stepped s' r l' :
    body o s = Some (s', r) → kept s s' → lock s' = leaves_locked l o →
    spec_step seg tot l o r l' → holds s' l' → outcome o s l
| copy_threw s' n :
    body o s = Some (s', inl (Throw bad_alloc)) → kept s s' → lock s' = true →
    throws n = true → (holds s' l ∨ ∃ A B, hole s' A B) → outcome o s l.

Lemma holds_lock b s l : holds s l → holds (set_lock b s) l.
Proof. by intros [[] ?? ?]. Qed.

Lemma holds_reserve c s l :
  holds s l → (Z.of_nat (length l) <= c)%Z → (c * segment_size s <= memory_total s)%Z →
  holds (set_capacity c s) l.
Proof. intros [[] ?? ?] Hc Ht. split; [split; cbn; try done; lia|done..]. Qed.

Lemma size_outcome s l : lock s = false → holds s l → outcome Size s l.
Proof.
  intros Hk Hh. pose proof Hh as [_ Hs _ _].
  eapply stepped; [cbv [body]; mrun; rewrite Hk; mrun; rewrite Hs; reflexivity|done..| |].
  - constructor.
  - by apply holds_lock, holds_lock.
Qed.

Lemma at_outcome i s l :
  lock s = false → sized s → holds s l → (0 <= i)%Z → outcome (At i) s l.
Proof.
  intros Hk [Es _] Hh Hi. pose proof Hh as [Hl Hs Hc _].
  destruct (decide (i >= size s)%Z) as [Hout|Hin].
  - eapply (stepped _ _ _ (set_lock false (set_lock true s)));
      [|done|done|apply spec_at_out; lia|apply holds_lock, holds_lock, Hh].
    cbv [body at_]. mrun. rewrite Hk. mrun. by rewrite decide_True.
  - destruct (Z_of_nat_complete i Hi) as [k ->].
    destruct (lookup_lt_is_Some_2 l k) as [x Hx]; [lia|].
    destruct (layout_slot s (Z.of_nat k) Hl) as [E _]; [lia|].
    eapply (stepped _ _ _ (set_lock false (set_lock true s)));
      [|done|done|apply (spec_at _ _ _ _ x Hx)|apply holds_lock, holds_lock, Hh].
    cbv [body at_ get_element_ptr]. mrun. rewrite Hk. mrun. rewrite decide_False by done.
    mrun. by rewrite E, Es.
Qed.

Lemma reserve_outcome n s l :
  lock s = false → sized s → holds s l → op_ok seg (@Reserve T n) → outcome (Reserve n) s l.
Proof.
  intros Hk [Es Et] Hh [H0 Hn]. pose proof Hh as [Hl Hs Hc _]. pose proof Hl as [[Hsz _] _ _ _].
  destruct (decide (n <= capacity s)%Z) as [Hle|Hgt].
  - eapply (stepped _ _ _ s); [|done|exact Hk|constructor|exact Hh].
    cbv [body reserve]. mrun. by rewrite decide_True.
  - assert (u64 (n * segment_size s) = n * segment_size s)%Z as E.
    { apply wrap_id. rewrite Es. split; [nia|lia]. }
    destruct (decide (n * segment_size s > memory_total s)%Z) as [Hbig|Hfit].
    + eapply (stepped _ _ _ (set_lock false (set_lock true s)));
        [|done|done|apply spec_reserve_full; rewrite <-Es, <-Et; lia|apply holds_lock, holds_lock, Hh].
      cbv [body reserve]. mrun. rewrite decide_False by done. mrun. rewrite Hk. mrun.
      rewrite decide_False by done. mrun. rewrite E. by rewrite decide_True.
    + eapply (stepped _ _ _ (set_lock false (set_capacity n (set_lock true s))));
        [|done|done|constructor|].
      2:{ apply holds_lock, holds_reserve; [by apply holds_lock|lia|cbn; lia]. }
      cbv [body reserve]. mrun. rewrite decide_False by done. mrun. rewrite Hk. mrun.
      rewrite decide_False by done. mrun. rewrite E. by rewrite decide_False.
Qed.

Lemma alive_append m (l : list T) x s :
  (0 < segment_size s)%Z → alive (segment_size s) m (Some <$> l) →
  alive (segment_size s) (<[(Z.of_nat (length l) * segment_size s)%Z := x]> m) (Some <$> l ++ [x]).
Proof.
  intros Hp Hm. apply alive_snoc_None in Hm.
  assert (((Some <$> l) ++ [None]) !! length l = Some None) as Hx.
  { by rewrite lookup_app_r, length_fmap, Nat.sub_diag by (rewrite length_fmap; lia). }
  pose proof (alive_construct _ _ _ _ x Hp Hm Hx) as Hm'.
  rewrite insert_app_r_alt, length_fmap, Nat.sub_diag in Hm' by (rewrite length_fmap; lia).
  by rewrite fmap_app.
Qed.

(** The end of [push_back], with room for one more element. *)
Lemma append_spec s l x :
  holds s l → (Z.of_nat (length l) < capacity s)%Z →
  (∃ s', construct_at_end x s = Some (s', inr RUnit) ∧ kept s s' ∧ lock s' = false ∧
     holds s' (l ++ [x]) ∧ throws (copied s) = false) ∨
  (construct_at_end x s = Some (after (live s) (S (copied s)) s, inl (Throw bad_alloc)) ∧
   throws (copied s) = true).
Proof.
  intros [Hl Hs Hc Hm] Hlt. pose proof Hl as [[Hsz _] _ Ht [H0 Hcap]].
  assert (0 < segment_size s)%Z as Hp by lia.
  destruct (layout_slot s (size s) Hl) as [E _]; [lia|].
  assert (((Some <$> l) ++ [None]) !! length l = Some None) as Hx.
  { by rewrite lookup_app_r, length_fmap, Nat.sub_diag by (rewrite length_fmap; lia). }
  pose proof (proj2 (alive_snoc_None _ _ _) Hm) as Hm0.
  unfold construct_at_end, get_element_ptr. mrun. rewrite E, Hs.
  destruct (throws (copied s)) eqn:Et.
  - right. split; [|done]. by rewrite (construct_at_throws s _ _ _ Hl Hm0 Hx).
  - left. rewrite (construct_at_spec s _ _ _ Hl Hm0 Hx) by done. mrun.
    eexists. split; [reflexivity|]. split; [done|]. split; [done|]. split; [|done].
    assert (u64 (size s + 1) = size s + 1)%Z as Eu by (apply wrap_id; nia).
    split; cbn.
    + by destruct Hl.
    + rewrite Eu, length_app. cbn. lia.
    + rewrite length_app. cbn. lia.
    + by apply alive_append.
Qed.

Lemma expand_spec s l :
  sized s → holds s l →
  (∃ c, expand s = Some (set_capacity c s, inr ()) ∧ holds (set_capacity c s) l ∧
     (Z.of_nat (length l) < c)%Z) ∨
  (expand s = Some (set_lock false s, inl (Throw bad_alloc)) ∧
   (tot < Z.max 1 (2 * Z.of_nat (length l)) * seg)%Z).
Proof.
  intros [Es Et] Hh. pose proof Hh as [Hl Hs Hc _]. pose proof Hl as [Hsz _ Ht [H0 Hcap]].
  unfold expand. mrun. case_decide as Hfull.
  2:{ left. exists (capacity s). destruct s. split; [done|]. split; [done|cbn in *; lia]. }
  set (nc := if decide (capacity s = 0%Z) then 1%Z else u64 (capacity s * 2)).
  assert (nc = Z.max 1 (2 * capacity s)) as En.
  { unfold nc. case_decide; [lia|]. unfold u64. rewrite wrap_id; nia. }
  assert (nc * segment_size s < 2 ^ 64)%Z.
  { rewrite En. destruct (decide (capacity s = 0%Z)) as [->|]; [lia|nia]. }
  mrun. assert (u64 (nc * segment_size s) = nc * segment_size s)%Z as -> by (apply wrap_id; nia).
  case_decide as Hfit.
  - right. split; [done|]. rewrite <-Es, <-Et. replace (Z.of_nat (length l)) with (capacity s) by lia.
    rewrite <-En. lia.
  - left. exists nc. split; [done|]. split; [|lia]. apply holds_reserve; [done|lia|lia].
Qed.

Lemma push_outcome x s l :
  lock s = false → sized s → holds s l → outcome (PushBack x) s l.
Proof.
  intros Hk Hz Hh.
  destruct (expand_spec (set_lock true s) l Hz (holds_lock _ _ _ Hh))
    as [(c & E & Hc & Hlt)|[E Hfull]].
  - destruct (append_spec _ l x Hc Hlt) as [(s' & E' & Hs' & Hk' & Hh' & _)|[E' Ht]].
    + apply (stepped _ _ _ s' (inr RUnit) (l ++ [x])); try done; [|constructor].
      cbv [body push_back acquire mbind M_bind]. by rewrite Hk, E.
    + apply (copy_threw _ _ _ (after (live s) (S (copied s)) (set_capacity c (set_lock true s)))
               (copied s)); try done.
      * cbv [body push_back acquire mbind M_bind]. by rewrite Hk, E, E'.
      * left. by destruct Hc as [[] ? ? ?].
  - apply (stepped _ _ _ (set_lock false (set_lock true s)) (inl (Throw bad_alloc)) l); try done.
    + cbv [body push_back acquire mbind M_bind]. by rewrite Hk, E.
    + by constructor.
    + by apply holds_lock, holds_lock.
Qed.

Lemma kept_erase m k s : kept s (set_lock false (set_size (size s - 1) (after m k s))).
Proof. done. Qed.

Lemma erase_outcome i s l :
  lock s = false → holds s l → (0 <= i)%Z → outcome (EraseAt i) s l.
Proof.
  intros Hk Hh Hi. pose proof (hold_size s l Hh) as Hs.
  destruct (decide (Z.of_nat (length l) <= i)%Z) as [Hout|Hin].
  - apply (stepped _ _ _ (set_lock true s) (inl (Throw out_of_range)) l); try done.
    + cbv [body eraseAt eraseAt_unlocked]. mrun. rewrite Hk. mrun. by rewrite decide_True by lia.
    + cbn. by rewrite bool_decide_true.
    + by constructor.
    + by apply holds_lock.
  - destruct (lookup_lt_is_Some_2 l (Z.to_nat i)) as [x Hx]; [lia|].
    assert (∃ A B, l = A ++ x :: B ∧ i = Z.of_nat (length A)) as (A & B & -> & ->).
    { exists (take (Z.to_nat i) l), (drop (S (Z.to_nat i)) l).
      rewrite take_drop_middle, length_take by done. split; [done|lia]. }
    pose proof (erase_spec A x B (set_lock true s) (holds_lock _ _ _ Hh))
      as [(m & k & s' & E & -> & Hh' & _)|(m & k & j & E & _ & Ht & _ & Hh')].
    + eapply (stepped _ _ _ (set_lock false (set_size _ (after m k (set_lock true s))))
                (inr RUnit) (A ++ B));
        [|done| |apply spec_erase|apply holds_lock, Hh'].
      * cbv [body eraseAt acquire mbind M_bind]. by rewrite Hk, E.
      * cbn. rewrite length_app. cbn. by rewrite bool_decide_false by lia.
    + apply (copy_threw _ _ _ (after m k (set_lock true s)) (copied s + j)); try done; [|by eauto].
      cbv [body eraseAt acquire mbind M_bind]. by rewrite Hk, E.
Qed.

Lemma next_outcome s l : lock s = false → holds s l → outcome GetNextElement s l.
Proof.
  intros Hk Hh. pose proof Hh as [Hl Hs Hc Hm]. destruct l as [|x l].
  - apply (stepped _ _ _ (set_lock false (set_lock true s)) (inl (Throw out_of_range)) []); try done.
    + cbv [body getNextElement]. mrun. rewrite Hk. mrun. by rewrite decide_True.
    + constructor.
    + by apply holds_lock, holds_lock.
  - pose proof Hl as [[Hsz _] _ _ _]. assert (0 < segment_size s)%Z as Hp by lia.
    assert (live s !! 0%Z = Some x) as Hx.
    { exact (alive_lookup _ _ _ 0 Hp Hm). }
    set (s1 := count_copy (set_lock true s)).
    assert (getNextElement s = if throws (copied s) then Some (s1, inl (Throw bad_alloc))
      else (eraseAt_unlocked 0 ;; release ;; mret (RVal x)) s1) as E.
    { cbv [getNextElement]. mrun. rewrite Hk. mrun. cbn [length] in Hs.
      rewrite decide_False by lia. unfold get_element_ptr, object_at, copy. mrun.
      change (u64 (0 * segment_size s)) with 0%Z. rewrite Hx. mrun. by destruct (throws (copied s)). }
    assert (holds s1 (x :: l)) as Hh1 by (split; [by destruct Hl|done..]).
    destruct (throws (copied s)) eqn:Et.
    { apply (copy_threw _ _ _ s1 (copied s)); try done. by left. }
    destruct (erase_spec [] x l s1 Hh1)
      as [(m & k & s' & E' & -> & Hh' & _)|(m & k & j & E' & _ & Ht & _ & Hh')].
    + eapply (stepped _ _ _ (set_lock false (set_size _ (after m k s1))) (inr (RVal x)) l);
        [|done|done|constructor|apply holds_lock, Hh'].
      cbv [body]. rewrite E. cbv [mbind M_bind]. change (Z.of_nat (length [])) with 0%Z in E'. by rewrite E'.
    + apply (copy_threw _ _ _ (after m k s1) (S (copied s) + j)); try done; [|by eauto].
      cbv [body]. rewrite E. cbv [mbind M_bind]. change (Z.of_nat (length [])) with 0%Z in E'. by rewrite E'.
Qed.

Lemma body_outcome o s l :
  lock s = false → sized s → holds s l → op_ok seg o → outcome o s l.
Proof.
  intros Hk Hz Hh Ho. destruct o as [n|x|i| | |i|].
  - by apply reserve_outcome.
  - by apply push_outcome.
  - by apply at_outcome.
  - by apply size_outcome.
  - apply (stepped _ _ _ s (inr (RSize (capacity s))) l); try done. constructor.
  - by apply erase_outcome.
  - by apply next_outcome.
Qed.

(** A vector whose lock is held: the calls that do not take it change nothing,
    the others spin. *)
Lemma locked_call o s l :
  lock s = true → holds s l →
  body o s = None ∨ ∃ r, body o s = Some (s, r) ∧ spec_step seg tot l o r l.
Proof.
  intros Hk Hh. destruct o as [n|x|i| | |i|];
    cbv [body reserve push_back at_ eraseAt getNextElement]; mrun; rewrite ?Hk; try (by left).
  - case_decide; mrun; rewrite ?Hk; [right|by left]. eexists. split; [done|]. constructor.
  - right. eexists. split; [done|]. constructor.
Qed.

End refinement.

(** ** Sequences of calls *)

Inductive spec_run (seg tot : Z) : list T → list (@op T) → list (fault + @result T) → list T → Prop :=
| spec_nil l : spec_run seg tot l [] [] l
| spec_cons l o r l' ops rs l'' :
    spec_step seg tot l o r l' → spec_run seg tot l' ops rs l'' →
    spec_run seg tot l (o :: ops) (r :: rs) l''.

(** Some call of the sequence erased beyond the end. *)
Definition erased_beyond (ops : list (@op T)) (rs : list (fault + @result T)) : Prop :=
  ∃ k i, ops !! k = Some (EraseAt i) ∧ rs !! k = Some (inl (Throw out_of_range)).

Lemma erased_beyond_cons o ops r rs : erased_beyond ops rs → erased_beyond (o :: ops) (r :: rs).
Proof. intros (k & i & H1 & H2). by exists (S k), i. Qed.

Lemma leaves_locked_beyond seg tot l o r l' :
  spec_step seg tot l o r l' → leaves_locked l o = true → erased_beyond [o] [r].
Proof.
  intros H Hk. destruct o; try done. apply bool_decide_eq_true in Hk.
  inversion H; subst; [|by eexists 0, _].
  rewrite length_app in Hk. cbn in Hk. lia.
Qed.

Lemma exec_spec seg tot ops : ∀ s l s' rs stuck,
  (∀ n, throws n = false) → sized seg tot s → holds s l → Forall (op_ok seg) ops →
  exec ops s = (s', rs, stuck) →
  ∃ l', spec_run seg tot l (take (length rs) ops) rs l' ∧ holds s' l' ∧ kept s s' ∧
    (stuck = false → length rs = length ops) ∧
    (stuck = true → lock s = true ∨ erased_beyond ops rs).
Proof.
  induction ops as [|o ops IH]; intros s l s' rs stuck Ht Hz Hh Ho E; cbn [exec] in E.
  { simplify_eq. exists l. repeat (split; [done || constructor|]). by left. }
  apply Forall_cons in Ho as [Ho Hops].
  assert ((body o s = None ∧ lock s = true) ∨ ∃ s1 r l1, body o s = Some (s1, r) ∧
    kept s s1 ∧ spec_step seg tot l o r l1 ∧ holds s1 l1 ∧
    (lock s1 = true → lock s = true ∨ erased_beyond [o] [r])) as H.
  { destruct (lock s) eqn:Hk.
    - destruct (locked_call seg tot o s l Hk Hh) as [?|(r & ? & ?)]; [by left|right].
      exists s, r, l. repeat (split; [done|]). by left.
    - right. destruct (body_outcome seg tot o s l Hk Hz Hh Ho) as [s1 r l1 Eb Hs1 Hk1 Hst Hh1|].
      + exists s1, r, l1. repeat (split; [done|]). intros Hl. right.
        eapply leaves_locked_beyond; [done|congruence].
      + congruence. }
  destruct H as [[Eb Hk]|(s1 & r & l1 & Eb & Hs1 & Hst & Hh1 & Hk1)]; rewrite Eb in E.
  { simplify_eq. exists l. repeat (split; [done || constructor|]). by left. }
  destruct (exec ops s1) as [[s2 rs2] st2] eqn:E2. simplify_eq.
  assert (sized seg tot s1) as Hz1.
  { destruct Hz, Hs1 as (?&?&?). split; congruence. }
  destruct (IH _ _ _ _ _ Ht Hz1 Hh1 Hops E2) as (l' & Hr & Hh2 & Hs2 & Hn & Hstuck).
  exists l'. split; [by econstructor|]. split; [done|]. split.
  { destruct Hs1 as (?&?&?), Hs2 as (?&?&?). repeat split; congruence. }
  split; [intros ?; cbn; auto|].
  intros Hst'. destruct (Hstuck Hst') as [Hl|Hb]; [|right; by apply erased_beyond_cons].
  destruct (Hk1 Hl) as [?|(k & i & H1 & H2)]; [by left|right].
  exists k, i. destruct k; [done|by destruct k].
Qed.

(** The results of the specification are never faults of the machine. *)
Lemma spec_run_defined seg tot l ops rs l' :
  spec_run seg tot l ops rs l' → inl Undefined ∉ rs.
Proof.
  induction 1 as [|l o r l' ops rs l'' Hs _ IH]; [set_solver|].
  apply not_elem_of_cons. split; [|done]. by destruct Hs.
Qed.

(** A new vector in suitable memory. *)
Lemma construct_holds seg ptr tot :
  (0 < sizeofT <= seg)%Z → (seg < 2 ^ 64)%Z → (0 < ptr)%Z → (0 < tot < 2 ^ 63)%Z →
  (alignofT | ptr)%Z → (alignofT | seg)%Z →
  ∃ s, construct seg ptr tot = inr s ∧ holds s [] ∧ sized seg tot s ∧ lock s = false ∧
    leaked s = 0 ∧ live s = ∅.
Proof.
  intros Hs Hb Hp Ht Ha1 Ha2. unfold construct.
  rewrite decide_False by lia. rewrite decide_False by lia. rewrite decide_False by lia.
  eexists. split; [done|]. repeat split; cbn; try done; try lia.
  by intros (i & _ & ?).
Qed.

End objects.
End ShmObjects.
