(* ===== verification/ShmObjectTheorems.v ===== *)
(** * Properties of the objects in the shared-memory vector

    For elements of any type, with constructors and destructors that matter. *)
From S2P Require Export ShmObjects.
From stdpp Require Import options.

Import SHMVector ShmObjects.

(** What a user has to see to: slots that hold an object, aligned, in memory
    small enough for its addresses to be computed without wrapping. *)
Definition suitable_memory (sizeofT alignofT seg ptr tot : Z) : Prop :=
  (0 < sizeofT <= seg)%Z ∧ (seg < 2 ^ 64)%Z ∧ (0 < ptr)%Z ∧ (0 < tot < 2 ^ 63)%Z ∧
  (alignofT | ptr)%Z ∧ (alignofT | seg)%Z.

(** C24: lifetimes. For elements of any type whose copy constructor does not
    throw, in memory that suits them (segments of at least [sizeof(T)], memory
    and segments aligned, less than 2^63 bytes), whatever is called on a new
    vector: the calls have the results, and leave the elements, the specification
    on lists allows, nothing undefined happens, no object is overwritten without
    its destructor, and the vector's destructor then ends every object that is
    alive, each once. A call spins for ever only after an erase beyond the end.
    What happens when a copy throws, and in segments that are too small, is shown
    below. *)
Theorem vector_object_lifetimes {T} sizeofT alignofT throws seg ptr tot (ops : list (@op T)) :
  suitable_memory sizeofT alignofT seg ptr tot → (∀ n, throws n = false) →
  Forall (op_ok seg) ops →
  ∃ s0 s rs stuck l,
    construct seg ptr tot = inr s0 ∧
    exec sizeofT alignofT throws ops s0 = (s, rs, stuck) ∧
    spec_run seg tot [] (take (length rs) ops) rs l ∧
    (inl Undefined ∉ rs) ∧
    (∀ off x, live s !! off = Some x ↔ ∃ i, off = (Z.of_nat i * seg)%Z ∧ l !! i = Some x) ∧
    leaked s = 0 ∧
    (if stuck then erased_beyond ops rs else length rs = length ops) ∧
    ∃ s', destructor s = Some (s', inr ()) ∧ live s' = ∅ ∧ leaked s' = 0.
Proof.
  intros (Hs & Hb & Hp & Htot & Ha1 & Ha2) Ht Ho.
  destruct (construct_holds (T:=T) sizeofT alignofT seg ptr tot)
    as (s0 & E0 & Hh & Hz & Hk & Hleak & _); [done..|].
  destruct (exec sizeofT alignofT throws ops s0) as [[s rs] stuck] eqn:E.
  destruct (exec_spec _ _ _ _ _ _ _ _ _ _ _ Ht Hz Hh Ho E)
    as (l & Hr & Hh' & (Eseg & _ & El) & Hn & Hst).
  exists s0, s, rs, stuck, l. split; [done|]. split; [done|]. split; [done|].
  split; [by eapply spec_run_defined|]. rewrite El, Hleak. split; [|split; [done|split]].
  - intros off x. pose proof (hold_live _ _ _ _ Hh' off x) as H.
    destruct Hz as [Eseg0 _]. rewrite Eseg, Eseg0 in H. rewrite H.
    split; intros (i & -> & Hi); exists i; (split; [done|]).
    + rewrite list_lookup_fmap in Hi. by apply fmap_Some in Hi as (? & ? & [= ->]).
    + by rewrite list_lookup_fmap, Hi.
  - destruct stuck; [|by auto]. destruct Hst as [?|?]; [done|congruence|done].
  - rewrite (destructor_spec _ _ _ _ Hh'). eexists. split; [done|]. cbn. by rewrite El.
Qed.

Definition three_calls : list (@op nat) :=
  [PushBack 1; PushBack 2; PushBack 3; EraseAt 1; At 1; GetNextElement; EraseAt 7; Size].

Lemma sample_memory : suitable_memory 4 4 4 4096 64.
Proof. repeat split; try lia; [by exists 1024%Z|by exists 1%Z]. Qed.

Lemma vector_object_lifetimes_witness :
  ∃ s0 s rs stuck l,
    construct 4 4096 64 = inr s0 ∧
    exec 4 4 (λ _, false) three_calls s0 = (s, rs, stuck) ∧
    spec_run 4 64 [] (take (length rs) three_calls) rs l ∧
    (inl Undefined ∉ rs) ∧
    (∀ off x, live s !! off = Some x ↔ ∃ i, off = (Z.of_nat i * 4)%Z ∧ l !! i = Some x) ∧
    leaked s = 0 ∧
    (if stuck then erased_beyond three_calls rs else length rs = length three_calls) ∧
    ∃ s', destructor s = Some (s', inr ()) ∧ live s' = ∅ ∧ leaked s' = 0.
Proof.
  apply (vector_object_lifetimes 4 4 (λ _, false) 4 4096 64 three_calls).
  - exact sample_memory.
  - done.
  - repeat constructor; done.
Defined.

(** The calls above, computed: the erase beyond the end is the last call that
    returns. *)
Example three_calls_run s0 :
  construct 4 4096 64 = inr s0 →
  let '(s, rs, stuck) := exec 4 4 (λ _, false) three_calls s0 in
  (rs, stuck, map_to_list (live s)) =
  ([inr RUnit; inr RUnit; inr RUnit; inr RUnit; inr (RRef 4); inr (RVal 1);
    inl (Throw out_of_range)], true, [(0%Z, 3)]).
Proof. intros [= <-]. vm_compute. reflexivity. Qed.

(** C25: references. What [at] returns is the address of the element; after any
    further calls it denotes the element that has this index by then, whichever
    it is, and storage without an object when there is none. *)
Theorem reference_follows_index {T} sizeofT alignofT throws seg tot
    (s : @objects T) l i x (ops : list (@op T)) :
  (∀ n, throws n = false) → holds sizeofT alignofT s l → sized seg tot s → lock s = false →
  l !! i = Some x → Forall (op_ok seg) ops →
  ∃ s1 r, body sizeofT alignofT throws (At (Z.of_nat i)) s = Some (s1, inr (RRef r)) ∧
    object_at r s1 = Some (s1, inr x) ∧
    ∃ s2 rs stuck l', exec sizeofT alignofT throws ops s1 = (s2, rs, stuck) ∧
      spec_run seg tot l (take (length rs) ops) rs l' ∧
      object_at r s2 = Some (s2, found (l' !! i)).
Proof.
  intros Ht Hh Hz Hk Hi Ho.
  assert (∀ (s' : @objects T) l', holds sizeofT alignofT s' l' → segment_size s' = seg →
    object_at (Z.of_nat i * seg) s' =
    Some (s', found (l' !! i))) as Hobj.
  { intros s' l' Hh' <-. destruct Hh' as [[[Hs _] _ _ _] _ _ Hm].
    assert (0 < segment_size s')%Z as Hp by lia. unfold object_at.
    rewrite (alive_lookup _ _ _ _ Hp Hm), list_lookup_fmap. by destruct (l' !! i). }
  destruct (body_outcome sizeofT alignofT throws seg tot (At (Z.of_nat i)) s l Hk Hz Hh)
    as [s1 r l1 Eb Hs1 _ Hst Hh1|]; [cbn; lia| |congruence].
  inversion Hst as [| | | |? j y Hj| |  | | | | |]; simplify_eq.
  2:{ apply lookup_lt_Some in Hi. lia. }
  destruct Hs1 as (Eseg & Etot & _). destruct Hz as [Ez1 Ez2].
  destruct (exec sizeofT alignofT throws ops s1) as [[s2 rs] stuck] eqn:E.
  destruct (exec_spec sizeofT alignofT throws seg tot ops s1 l1 s2 rs stuck)
    as (l' & Hr & Hh2 & (Eseg2 & _) & _); [done|split; congruence|done..|].
  exists s1, (Z.of_nat i * seg)%Z. split; [exact Eb|]. split.
  { rewrite (Hobj s1 l1) by (done || congruence). by rewrite Hi. }
  exists s2, rs, stuck, l'. split; [done|]. split; [done|].
  apply Hobj; [done|congruence].
Qed.

(** Two numbers in memory of 64 bytes, and the second of them removed again. *)
Definition sample_objects : objects :=
  mkObjects 4 2 2 4096 64 false {[ 0%Z := 10; 4%Z := 20 ]} 0 2.

Lemma sample_holds : holds 4 4 sample_objects [10; 20].
Proof.
  split; [split; repeat split; try (cbn; lia); [by exists 1024%Z|by exists 1%Z]|done..|].
  intros off x. cbn. rewrite lookup_insert_Some, lookup_singleton_Some. split.
  - intros [[<- <-]|[_ [<- <-]]]; [by exists 0|by exists 1].
  - intros ([|[|i]] & -> & Hi); simplify_eq/=; [by left|by right].
Qed.

Lemma reference_follows_index_witness :
  ∃ s1 r, body 4 4 (λ _, false) (At 0) sample_objects = Some (s1, inr (RRef r)) ∧
    object_at r s1 = Some (s1, inr 10) ∧
    ∃ s2 rs stuck l', exec 4 4 (λ _, false) [GetNextElement; GetNextElement] s1 = (s2, rs, stuck) ∧
      spec_run 4 64 [10; 20] (take (length rs) [GetNextElement; GetNextElement]) rs l' ∧
      object_at r s2 = Some (s2, found (l' !! 0)).
Proof.
  apply (reference_follows_index 4 4 (λ _, false) 4 64 sample_objects [10; 20] 0 10
           [GetNextElement; GetNextElement]).
  - done.
  - exact sample_holds.
  - done.
  - done.
  - done.
  - repeat constructor.
Defined.

(** The calls that take the lock. *)
Definition takes_lock {T} (o : @op T) (s : @objects T) : bool :=
  match o with
  | Capacity => false
  | Reserve n => bool_decide (capacity s < n)%Z
  | _ => true
  end.

Lemma locked_spins {T} sizeofT alignofT throws (o : @op T) s :
  lock s = true → takes_lock o s = true → body sizeofT alignofT throws o s = None.
Proof.
  intros Hk Ho. destruct o as [n|x|i| | |i|]; try done;
    cbv [body reserve push_back at_ eraseAt getNextElement acquire asks mbind M_bind];
    rewrite ?Hk; try done.
  apply bool_decide_eq_true in Ho. rewrite decide_False by lia. by rewrite Hk.
Qed.

(** C26: a copy constructor that throws leaves the lock held, so that every
    further call that takes it spins. An append leaves the elements as they
    were. An erase whose copy [j] throws has moved [j] elements and leaves
    storage without an object where the next one should be, although the size
    counts it: the vector's destructor then destroys an object that is not
    there. *)
Theorem throwing_copy_breaks_vector {T} sizeofT alignofT throws seg tot (s : @objects T) l :
  holds sizeofT alignofT s l → sized seg tot s → lock s = false →
  (∀ x, (Z.of_nat (length l) < capacity s)%Z → throws (copied s) = true →
    ∃ s', body sizeofT alignofT throws (PushBack x) s = Some (s', inl (Throw bad_alloc)) ∧
      holds sizeofT alignofT s' l ∧
      ∀ o, takes_lock o s' = true → body sizeofT alignofT throws o s' = None) ∧
  (∀ i j, i + S j < length l → throws (copied s + j) = true → no_throw throws (copied s) j →
    ∃ s', body sizeofT alignofT throws (EraseAt (Z.of_nat i)) s =
        Some (s', inl (Throw bad_alloc)) ∧
      size s' = size s ∧ object_at (Z.of_nat (i + j) * seg) s' = Some (s', inl Undefined) ∧
      (∃ s'', destructor s' = Some (s'', inl Undefined)) ∧
      ∀ o, takes_lock o s' = true → body sizeofT alignofT throws o s' = None).
Proof.
  intros Hh Hz Hk. split.
  - intros x Hc Ht.
    pose proof (holds_lock sizeofT alignofT true _ _ Hh) as Hh1.
    set (s1 := set_lock true s) in *.
    destruct (append_spec sizeofT alignofT throws s1 l x Hh1 Hc) as [(s' & _ & _ & _ & _ & Hn)|[E _]].
    { cbn in Hn. congruence. }
    exists (after (live s1) (S (copied s1)) s1). split; [|split].
    + cbv [body push_back acquire mbind M_bind]. rewrite Hk.
      unfold expand. cbv [asks mbind M_bind mret M_ret]. pose proof (hold_size _ _ _ _ Hh).
      rewrite decide_False by (cbn; lia). exact E.
    + by destruct Hh1 as [[] ? ? ?].
    + intros o. by apply locked_spins.
  - intros i j Hij Ht Hn. pose proof (holds_lock sizeofT alignofT true _ _ Hh) as Hh1.
    destruct (lookup_lt_is_Some_2 l i) as [x Hx]; [lia|].
    rewrite <-(take_drop_middle l _ _ Hx) in Hh1.
    assert (length (take i l) = i) as El by (rewrite length_take; lia).
    pose proof (length_drop l (S i)) as Ed.
    destruct (erase_spec sizeofT alignofT throws _ x _ _ Hh1)
      as [(m & k & s' & E & -> & _ & Hnt)|(m & k & j' & E & Hj & Ht' & Hn' & Hh')].
    { specialize (Hnt j). cbn in Hnt. rewrite Hnt in Ht; [done|lia]. }
    cbn in Ht', Hn'.
    assert (j' = j) as ->.
    { destruct (Nat.lt_trichotomy j j') as [H|[H|H]]; [|done|].
      - specialize (Hn' _ H). cbn in Hn'. congruence.
      - specialize (Hn _ H). cbn in Hn. congruence. }
    rewrite El in E. eexists. split; [|split; [|split; [|split]]].
    + cbv [body eraseAt acquire mbind M_bind]. rewrite Hk, E. done.
    + done.
    + destruct Hh' as [[[Hs _] _ _ _] _ _ Hm]. destruct Hz as [<- _].
      assert (0 < segment_size s)%Z as Hp by (cbn in Hs; lia). unfold object_at.
      rewrite (alive_lookup _ _ _ (i + j) Hp Hm), lookup_app_r;
        rewrite length_fmap, length_app, El, length_take; [|lia].
      by replace (i + j - _) with 0 by lia.
    + destruct (destructor_hole _ _ _ _ _ Hh') as [m' E']. eauto.
    + intros o. by apply locked_spins.
Qed.

Lemma throwing_copy_breaks_vector_witness :
  let throws n := bool_decide (n = 2) in
  ∃ s', body 4 4 throws (EraseAt 0) sample_objects = Some (s', inl (Throw bad_alloc)) ∧
    size s' = size sample_objects ∧
    object_at 0 s' = Some (s', inl Undefined) ∧
    (∃ s'', destructor s' = Some (s'', inl Undefined)) ∧
    ∀ o, takes_lock o s' = true → body 4 4 throws o s' = None.
Proof.
  intros throws. destruct (throwing_copy_breaks_vector 4 4 throws 4 64 sample_objects [10; 20])
    as [_ H].
  - exact sample_holds.
  - done.
  - done.
  - apply (H 0 0); [cbn; lia|done|intros j Hj; lia].
Defined.

(** An append into a full vector whose capacity can be doubled, whatever else
    lives where the element goes. *)
Lemma push_into_full {T} sizeofT alignofT throws (x : T) (s : @objects T) c :
  lock s = false → size s = capacity s → throws (copied s) = false →
  c = (if decide (capacity s = 0%Z) then 1%Z else u64 (capacity s * 2)) →
  (0 <= c * segment_size s <= memory_total s)%Z → (memory_total s < 2 ^ 63)%Z →
  (0 <= capacity s * segment_size s <= memory_total s)%Z → (0 <= capacity s < 2 ^ 63)%Z →
  suitable sizeofT alignofT (capacity s * segment_size s) s →
  let m := apart sizeofT (capacity s * segment_size s) (live s) in
  body sizeofT alignofT throws (PushBack x) s =
  Some (mkObjects (segment_size s) c (capacity s + 1) (memory_base s) (memory_total s) false
          (<[(capacity s * segment_size s)%Z := x]> m)
          (leaked s + (base.size (live s) - base.size m)) (S (copied s)), inr RUnit).
Proof.
  intros Hk Hs Ht Hc Hfit Htot Hcap Hb Hok m.
  assert (∀ z, 0 <= z < 2 ^ 64 → u64 z = z)%Z as Hu by (intros z; apply wrap_id).
  cbv [body push_back construct_at_end expand get_element_ptr construct_at copy acquire release
       asks update throw mbind M_bind mret M_ret].
  rewrite Hk. cbn. rewrite decide_True by lia. rewrite <-Hc.
  cbn [segment_size memory_total set_lock]. rewrite (Hu (c * segment_size s)%Z) by lia. rewrite decide_False by lia. cbn.
  rewrite Hs, (Hu (capacity s * segment_size s)%Z) by lia. rewrite bool_decide_true by done. cbn. rewrite Ht. cbn.
  by rewrite Hs, (Hu (capacity s + 1)%Z) by lia.
Qed.

(** The constructor does not compare the segment size with that of an element:
    with smaller segments the second element is constructed in the storage of
    the first, which is never destroyed, and the vector's destructor misses it. *)
Theorem small_segments_overlap {T} sizeofT alignofT throws seg ptr tot (x y : T) :
  (∀ n, throws n = false) → (0 < seg < sizeofT)%Z → (seg + sizeofT <= tot)%Z →
  (0 < ptr)%Z → (tot < 2 ^ 63)%Z → (0 < alignofT)%Z → (alignofT | ptr)%Z → (alignofT | seg)%Z →
  ∃ s0 s, construct seg ptr tot = inr s0 ∧
    exec sizeofT alignofT throws [PushBack x; PushBack y] s0 =
      (s, [inr RUnit; inr RUnit], false) ∧
    leaked s = 1 ∧ ∃ s', destructor s = Some (s', inl Undefined).
Proof.
  intros Ht Hs Hf Hp Htot Ha Hd1 Hd2. unfold construct.
  rewrite decide_False by lia. rewrite decide_False by lia. rewrite decide_False by lia.
  set (s0 := mkObjects _ _ _ _ _ _ _ _ _). exists s0. eexists. split; [done|].
  assert (∀ z, (alignofT | z)%Z → (0 <= z <= seg)%Z → suitable sizeofT alignofT z s0) as Hok.
  { intros z Hz Hr. split; cbn; [|lia]. apply Z.mod_divide; [lia|]. by apply Z.divide_add_r. }
  cbn [exec]. rewrite (push_into_full _ _ _ x s0 1); try (done || (cbn; lia));
    [|apply Hok; [by apply Z.divide_0_r|cbn; lia]].
  set (s1 := mkObjects _ _ _ _ _ _ _ _ _).
  rewrite (push_into_full _ _ _ y s1 2); try (done || (cbn; lia));
    [|apply (Hok (1 * seg)%Z); rewrite ?Z.mul_1_l; [done|lia]].
  assert (live s1 = {[ 0%Z := x ]} ∧ leaked s1 = 0) as [E1 El].
  { cbn. unfold apart. rewrite map_filter_empty. by split. }
  assert (apart sizeofT (1 * seg) (live s1) = ∅) as Em.
  { rewrite E1. apply map_empty. intros off. apply map_lookup_filter_None. right. intros z Hz.
    apply lookup_singleton_Some in Hz as [<- _]. cbn. lia. }
  change (capacity s1 * segment_size s1)%Z with (1 * seg)%Z.
  rewrite Em, E1, El, map_size_singleton. split; [done|]. split; [done|].
  eexists. cbv [destructor asks mbind M_bind]. cbn [size]. change (Z.to_nat _) with 2.
  cbn [destroy_loop]. cbv [asks get_element_ptr destroy_at object_at mbind M_bind].
  rewrite decide_True by (cbn; lia). change (u64 (0 * _)) with 0%Z. cbn [live].
  rewrite lookup_insert_ne by lia. by rewrite lookup_empty.
Qed.

Lemma small_segments_overlap_witness :
  ∃ s0 s, construct 2 8 64 = inr s0 ∧
    exec 4 2 (λ _, false) [PushBack 1%Z; PushBack 2%Z] s0 = (s, [inr RUnit; inr RUnit], false) ∧
    leaked s = 1 ∧ ∃ s', destructor s = Some (s', inl Undefined).
Proof.
  apply (small_segments_overlap 4 2 (λ _, false) 2 8 64 1%Z 2%Z);
    [done|lia..|by exists 4%Z|by exists 1%Z].
Defined.
