(* ===== verification/ShmTests.v ===== *)
(** * The test cases of the shared-memory vector

    test/integration/custom-vector/test-SHMVector.cpp, the cases of one thread,
    evaluated on the model of the objects. Each ends, as in the source, with the
    vector's destructor, which has to leave no object alive. Cases that differ
    in the element type only are modelled for one type. *)
From S2P Require Export ShmObjects.
From stdpp Require Import options.

Module ShmTests.
Import SHMVector ShmObjects.

#[global] Instance result_eq_dec {T} `{!EqDecision T} : EqDecision (@result T).
Proof. solve_decision. Defined.

(** A line of a test: a call and what it is expected to give, or an element
    reached through the reference [at] returns. *)
Inductive line {T : Type} :=
| Gives (o : @op T) (r : fault + @result T)
| Element (i : Z) (x : T).

Section run.
Context {T : Type} `{!EqDecision T}.

(** Slots of four bytes, aligned to four. *)
Definition call : @op T → @objects T → option (@objects T * (fault + @result T)) :=
  body 4 4 (λ _, false).

Fixpoint passes (ls : list (@line T)) (s : @objects T) : bool :=
  match ls with
  | [] =>
      match destructor s with
      | Some (s', inr ()) => bool_decide (map_to_list (live s') = []) && bool_decide (leaked s' = 0)
      | _ => false
      end
  | Gives o r :: ls =>
      match call o s with
      | Some (s', r') => bool_decide (r' = r) && passes ls s'
      | None => false
      end
  | Element i x :: ls =>
      match call (At i) s with
      | Some (s', inr (RRef off)) =>
          match object_at off s' with
          | Some (_, inr y) => bool_decide (y = x) && passes ls s'
          | _ => false
          end
      | _ => false
      end
  end.

(** A test of a vector over mapped memory. *)
Definition test (segment_size memory_size : Z) (ls : list line) : bool :=
  match construct segment_size 4096 memory_size with
  | inr s => passes ls s
  | inl _ => false
  end.

Definition pushes (xs : list T) : list (@line T) := map (λ x, Gives (PushBack x) (inr RUnit)) xs.
Definition elements_are (xs : list T) : list (@line T) :=
  imap (λ i x, Element (Z.of_nat i) x) xs.
Definition size_is (n : Z) : @line T := Gives Size (inr (RSize n)).

End run.

Definition test_custom_vector_basic : bool := test (T:=Z) 4 4096 [size_is 0].

Definition test_custom_vector_reserve : bool :=
  test (T:=Z) 4 4096 [Gives (Reserve 10) (inr RUnit); size_is 0; Gives Capacity (inr (RSize 10))].

Definition test_custom_vector_push_back : bool :=
  test 4 4096 (pushes [10; 20; 30]%Z ++ [size_is 3] ++ elements_are [10; 20; 30]%Z).

Definition test_custom_vector_get_element : bool :=
  test 4 4096 (pushes [0; 10; 20; 30; 40]%Z ++ elements_are [0; 10; 20; 30; 40]%Z).

Definition test_custom_vector_size : bool :=
  test 4 4096 ([size_is 0] ++ pushes [1%Z] ++ [size_is 1] ++ pushes [2%Z] ++ [size_is 2] ++
               pushes [3%Z] ++ [size_is 3]).

Definition test_custom_vector_different_types : bool :=
  test 32 4096 (pushes [str "Hello"; str "World"] ++ elements_are [str "Hello"; str "World"]).

Definition test_custom_vector_memory_layout : bool :=
  test 16 4096 ([Gives (Reserve 5) (inr RUnit)] ++ pushes [100; 200; 300]%Z ++
                elements_are [100; 200; 300]%Z).

Definition test_custom_vector_out_of_bounds : bool :=
  test 4 4096 (pushes [42%Z] ++ [Gives (At 1) (inl (Throw out_of_range));
                                 Gives (At 100) (inl (Throw out_of_range))]).

Definition test_custom_vector_shared_memory : bool :=
  test 4 640000 (pushes (map (λ i, Z.of_nat i * 100)%Z (seq 0 100)) ++
                 [size_is 100; Element 0 0%Z; Element 50 5000%Z; Element 99 9900%Z]).

(** The last line of the source's case leaves the lock held; the destructor does
    not take it. *)
Definition test_custom_vector_eraseAt : bool :=
  test 4 4096 (pushes [10; 20; 30; 40; 50]%Z ++ [size_is 5] ++
    [Gives (EraseAt 2) (inr RUnit); size_is 4] ++ elements_are [10; 20; 40; 50]%Z ++
    [Gives (EraseAt 0) (inr RUnit); size_is 3] ++ elements_are [20; 40; 50]%Z ++
    [Gives (EraseAt 2) (inr RUnit); size_is 2] ++ elements_are [20; 40]%Z ++
    [Gives (EraseAt 5) (inl (Throw out_of_range))]).

Definition test_custom_vector_getNextElement : bool :=
  test 4 4096 (pushes [100; 200; 300]%Z ++ [size_is 3] ++
    [Gives GetNextElement (inr (RVal 100%Z)); size_is 2] ++ elements_are [200; 300]%Z ++
    [Gives GetNextElement (inr (RVal 200%Z)); size_is 1] ++ elements_are [300%Z] ++
    [Gives GetNextElement (inr (RVal 300%Z)); size_is 0] ++
    [Gives GetNextElement (inl (Throw out_of_range))]).

Definition vector_tests : list bool := [
  test_custom_vector_basic;
  test_custom_vector_reserve;
  test_custom_vector_push_back;
  test_custom_vector_get_element;
  test_custom_vector_size;
  test_custom_vector_different_types;
  test_custom_vector_memory_layout;
  test_custom_vector_out_of_bounds;
  test_custom_vector_shared_memory;
  test_custom_vector_eraseAt;
  test_custom_vector_getNextElement].

Lemma vector_tests_pass : vector_tests = replicate 11 true.
Proof. vm_compute. reflexivity. Qed.

(** Had the case of [eraseAt] gone on after the exception, it would not have
    ended: the next call spins. *)
Example erase_test_would_hang :
  test 4 4096 (pushes [10; 20]%Z ++ [Gives (EraseAt 5) (inl (Throw out_of_range)); size_is 2]) =
  false.
Proof. vm_compute. reflexivity. Qed.

(** ** One thread takes all the elements

    test_custom_vector_thread_safety, for elements of any type and number. *)

Definition thread_safety {T} (xs : list T) : list (@op T) :=
  map PushBack xs ++ [Size] ++ replicate (length xs) GetNextElement ++ [Size].

Section order.
Context {T : Type}.
Variables seg tot : Z.

Lemma spec_run_pushes (xs l : list T) ops rs l' :
  spec_run seg tot l (map PushBack xs ++ ops) rs l' →
  (2 * Z.of_nat (length (l ++ xs)) * seg <= tot)%Z → (0 <= seg <= tot)%Z →
  ∃ rs', rs = replicate (length xs) (inr RUnit) ++ rs' ∧ spec_run seg tot (l ++ xs) ops rs' l'.
Proof.
  revert l rs. induction xs as [|x xs IH]; intros l rs H Hfit Hseg.
  - exists rs. by rewrite app_nil_r.
  - cbn in H. inversion H as [|? ? r l1 ? rs1 ? Hs Hr]; subst.
    rewrite length_app in Hfit. cbn in Hfit.
    assert (r = inr RUnit ∧ l1 = l ++ [x]) as [-> ->].
    { inversion Hs; subst; [done|]. exfalso.
      destruct (Z.max_spec 1 (2 * Z.of_nat (length l1))) as [[? E]|[? E]]; rewrite E in *; nia. }
    destruct (IH _ _ Hr) as (rs' & -> & Hr'); [rewrite !length_app; cbn; lia|done|].
    exists rs'. split; [done|]. by rewrite <-app_assoc in Hr'.
Qed.

Lemma spec_run_takes (xs : list T) ops rs l' :
  spec_run seg tot xs (replicate (length xs) GetNextElement ++ ops) rs l' →
  ∃ rs', rs = map (λ x, inr (RVal x)) xs ++ rs' ∧ spec_run seg tot [] ops rs' l'.
Proof.
  revert rs. induction xs as [|x xs IH]; intros rs H; [by exists rs|].
  cbn in H. inversion H as [|? ? r l1 ? rs1 ? Hs Hr]; subst. inversion Hs; subst.
  destruct (IH _ Hr) as (rs' & -> & Hr'). by exists rs'.
Qed.

Lemma spec_run_size (l : list T) ops rs l' :
  spec_run seg tot l (Size :: ops) rs l' →
  ∃ rs', rs = inr (RSize (Z.of_nat (length l))) :: rs' ∧ spec_run seg tot l ops rs' l'.
Proof. inversion 1 as [|? ? r l1 ? rs1 ? Hs Hr]; subst. inversion Hs; subst. by eexists. Qed.

End order.

Theorem test_custom_vector_thread_safety {T} sizeofT alignofT throws seg ptr tot (xs : list T) :
  (0 < sizeofT <= seg)%Z → (seg < 2 ^ 64)%Z → (0 < ptr)%Z → (0 < tot < 2 ^ 63)%Z →
  (alignofT | ptr)%Z → (alignofT | seg)%Z → (∀ n, throws n = false) →
  (2 * Z.of_nat (length xs) * seg <= tot)%Z → (seg <= tot)%Z →
  ∃ s0 s, construct seg ptr tot = inr s0 ∧
    exec sizeofT alignofT throws (thread_safety xs) s0 =
      (s, replicate (length xs) (inr RUnit) ++ [inr (RSize (Z.of_nat (length xs)))] ++
          map (λ x, inr (RVal x)) xs ++ [inr (RSize 0)], false).
Proof.
  intros Hs Hb Hp Htot Ha1 Ha2 Ht Hfit Hseg.
  destruct (construct_holds (T:=T) sizeofT alignofT seg ptr tot)
    as (s0 & E0 & Hh & Hz & Hk & _); [done..|].
  destruct (exec sizeofT alignofT throws (thread_safety xs) s0) as [[s rs] stuck] eqn:E.
  exists s0, s. split; [done|].
  assert (Forall (λ o, op_ok seg o ∧ ∀ i, o ≠ EraseAt i) (thread_safety xs)) as Hops.
  { unfold thread_safety. rewrite !Forall_app. split; [|split; [by repeat constructor|split]].
    - apply Forall_map. by apply Forall_true.
    - by apply Forall_replicate.
    - by repeat constructor. }
  destruct (exec_spec _ _ _ _ _ _ _ _ _ _ _ Ht Hz Hh
    (Forall_impl _ _ _ Hops (λ o H, proj1 H)) E) as (l & Hr & _ & _ & Hn & Hst).
  destruct stuck.
  { destruct Hst as [?|(k & i & Hi & _)]; [done|congruence|].
    rewrite Forall_lookup in Hops. by destruct (proj2 (Hops k _ Hi) i). }
  rewrite take_ge in Hr by (rewrite (Hn eq_refl); lia).
  apply spec_run_pushes in Hr as (rs1 & -> & Hr); [|done|lia].
  apply spec_run_size in Hr as (rs2 & -> & Hr). apply spec_run_takes in Hr as (rs3 & -> & Hr).
  apply spec_run_size in Hr as (rs4 & -> & Hr). by inversion Hr; subst.
Qed.

(** The hundred elements of the case. *)
Lemma test_custom_vector_thread_safety_witness :
  let values := map Z.of_nat (seq 0 100) in
  ∃ s0 s, construct 4 4096 8192 = inr s0 ∧
    exec 4 4 (λ _, false) (thread_safety values) s0 =
      (s, replicate 100 (inr RUnit) ++ [inr (RSize 100)] ++
          map (λ x, inr (RVal x)) values ++ [inr (RSize 0)], false).
Proof.
  apply (test_custom_vector_thread_safety 4 4 (λ _, false) 4 4096 8192 (map Z.of_nat (seq 0 100)));
    [lia..|by exists 1024%Z|by exists 1%Z|done|by_decide|lia].
Defined.

End ShmTests.
