(* ===== verification/ShmConcurrent.v ===== *)
(** * Interleaved executions of [SHMVector]

    Several processes map the same segment. Each runs a list of operations; a
    scheduler interleaves their single memory accesses, and [test_and_set] lets
    one process pass while the flag is clear. [steps] collects the results of
    the operations in the order in which they release the lock (or return
    without it). *)
From S2P Require Export ShmVector.
From stdpp Require Import options.

Module ShmConcurrent.
Import SHMVector.

Section concurrent.
Context {T : Type} `{!Pod T}.

(** ** Configurations and steps *)

Record thread := mkThread { todo : list (@op T); current : option (@op T * @prog T) }.

Record config := mkConfig {
  memory : SHMVector;
  lock_ : bool;
  threads : list thread
}.

Definition event : Type := nat * @op T * (fault + @result T).

(** What one access of a thread does: the memory, the flag, how the thread goes
    on, and the result it returns, if it does. [None]: it spins, or is idle. *)
Definition thread_step (v : SHMVector) (lock : bool) (t : thread) :
    option (SHMVector * bool * thread * option (@op T * (fault + @result T))) :=
  match current t with
  | None =>
      match todo t with
      | [] => None
      | o :: rest => Some (v, lock, mkThread rest (Some (o, body o)), None)
      end
  | Some (o, Done r) => Some (v, lock, mkThread (todo t) None, Some (o, r))
  | Some (o, Unlock r) => Some (v, false, mkThread (todo t) None, Some (o, r))
  | Some (o, Acquire k) =>
      if lock then None else Some (v, true, mkThread (todo t) (Some (o, k)), None)
  | Some (o, Read k) => Some (v, lock, mkThread (todo t) (Some (o, k v)), None)
  | Some (o, Write g k) => Some (g v, lock, mkThread (todo t) (Some (o, k)), None)
  end.

Definition step (i : nat) (c : config) : option (config * list event) :=
  t ← threads c !! i;
  '(v, lock, t', res) ← thread_step (memory c) (lock_ c) t;
  Some (mkConfig v lock (<[i := t']> (threads c)),
        match res with Some (o, r) => [(i, o, r)] | None => [] end).

Inductive steps (c : config) : list event → config → Prop :=
| steps_refl : steps c [] c
| steps_snoc evs c1 i evs' c2 :
    steps c evs c1 → step i c1 = Some (c2, evs') → steps c (evs ++ evs') c2.

(** A schedule names the process that moves; one that cannot move is passed
    over. *)
Fixpoint run_schedule (sched : list nat) (c : config) : list event * config :=
  match sched with
  | [] => ([], c)
  | i :: sched =>
      match step i c with
      | None => run_schedule sched c
      | Some (c1, evs) =>
          let '(evs', c2) := run_schedule sched c1 in (evs ++ evs', c2)
      end
  end.

Lemma steps_cons c i c1 evs evs' c2 :
  step i c = Some (c1, evs) → steps c1 evs' c2 → steps c (evs ++ evs') c2.
Proof.
  intros E H. induction H as [|evs' c1' j evs'' c2 H IH Ej].
  - rewrite app_nil_r. apply (steps_snoc c [] c i); [constructor|done].
  - rewrite app_assoc. by econstructor.
Qed.

Lemma run_schedule_steps sched c evs c' :
  run_schedule sched c = (evs, c') → steps c evs c'.
Proof.
  revert c evs. induction sched as [|i sched IH]; intros c evs; simpl.
  - intros [= <- <-]. constructor.
  - destruct (step i c) as [[c1 evs1]|] eqn:E; [|by apply IH].
    destruct (run_schedule sched c1) as [evs2 c2] eqn:E2. intros [= <- <-].
    eapply steps_cons; [done|]. by apply IH.
Qed.

(** ** The serial order *)

Section linear.
Variables seg tot : Z.

Inductive spec_run : list T → list event → list T → Prop :=
| spec_run_nil l : spec_run l [] l
| spec_run_snoc l evs l1 i o r l2 :
    spec_run l evs l1 → spec_step seg tot l1 o r l2 → spec_run l (evs ++ [(i, o, r)]) l2.

(** A program that does not hold the lock: it may look at the memory, and
    return a result that is right at any time, or acquire the lock for a
    critical section that implements its operation. *)
Inductive outside (o : @op T) : @prog T → Prop :=
| outside_done r : (∀ l, spec_step seg tot l o r l) → outside o (Done r)
| outside_read k : (∀ v, outside o (k v)) → outside o (Read k)
| outside_acquire k : implements seg tot o k → outside o (Acquire k).

Lemma body_outside o : op_ok seg o → outside o (body o).
Proof.
  intros Ho. destruct o as [n|x|i| | |i|]; cbn [body].
  - constructor. intros v. case_decide; constructor; [intros l; constructor|].
    by apply reserve_implements.
  - apply outside_acquire, push_implements.
  - by apply outside_acquire, at_implements.
  - apply outside_acquire, size_implements.
  - constructor. intros v. constructor. constructor.
  - by apply outside_acquire, erase_implements.
  - apply outside_acquire, next_implements.
Qed.

Definition thread_outside (t : thread) : Prop :=
  Forall (op_ok seg) (todo t) ∧
  match current t with Some (o, p) => outside o p | None => True end.

(** [q] is the rest of a critical section of [o] entered with the list [l]. *)
Definition finishing (l : list T) (o : @op T) (q : @prog T) (v : SHMVector) : Prop :=
  ∃ v' r l', run q true v = Some (v', leaves_locked l o, r) ∧
    spec_step seg tot l o r l' ∧ repr seg tot v' l'.

(** The lock is free, or held by one thread in its critical section; or it is
    held by nobody, [lost]. *)
Inductive inv (l : list T) (c : config) (lost : bool) : Prop :=
| inv_unheld :
    lock_ c = lost → repr seg tot (memory c) l → Forall thread_outside (threads c) →
    inv l c lost
| inv_held i t o q :
    lost = false → lock_ c = true → threads c !! i = Some t → current t = Some (o, q) →
    Forall (op_ok seg) (todo t) → finishing l o q (memory c) →
    (∀ j t', j ≠ i → threads c !! j = Some t' → thread_outside t') → inv l c lost.

(** What loses the lock. *)
Definition erased_beyond (evs : list event) : Prop :=
  ∃ i n, (i, EraseAt n, inl (Throw out_of_range)) ∈ evs.

Lemma leaves_locked_erases (l : list T) o (r : fault + @result T) l' :
  leaves_locked l o = true → spec_step seg tot l o r l' →
  ∃ n, o = EraseAt n ∧ r = inl (Throw out_of_range).
Proof.
  intros Hl Hs. destruct o; try done. apply bool_decide_eq_true in Hl.
  inversion Hs as [| | | | | | | |A x B|? ? ? |? ?|]; subst; [|by eauto].
  rewrite length_app in Hl. simpl in Hl. lia.
Qed.

Lemma outside_insert ts i t :
  thread_outside t → (∀ j t', j ≠ i → ts !! j = Some t' → thread_outside t') →
  Forall thread_outside (<[i := t]> ts).
Proof.
  intros Ht Hts. apply Forall_lookup. intros j t' Hj.
  destruct (decide (j = i)) as [->|Hne].
  - apply list_lookup_insert_Some in Hj as [(_ & <- & _)|[? _]]; done.
  - rewrite list_lookup_insert_ne in Hj by done. eauto.
Qed.

(** The moves of a thread that does not hold the lock. *)
Lemma outside_moves v lk t v' lk' t' res :
  thread_outside t → thread_step v lk t = Some (v', lk', t', res) →
  v' = v ∧
  ((lk' = lk ∧ thread_outside t' ∧
    match res with Some (o, r) => ∀ l, spec_step seg tot l o r l | None => True end) ∨
   (∃ o k, lk = false ∧ lk' = true ∧ res = None ∧
      t' = mkThread (todo t) (Some (o, k)) ∧ implements seg tot o k)).
Proof.
  destruct t as [td cur]. intros [Hok Ho] E. unfold thread_step in E. cbn in *.
  destruct cur as [[o p]|].
  - destruct Ho as [r Hr|k Hk|k Hk].
    + simplify_eq. split; [done|]. left. split; [done|]. split; [by split|done].
    + simplify_eq. split; [done|]. left. split; [done|]. split; [split; [done|apply Hk]|done].
    + destruct lk; simplify_eq. split; [done|]. right. exists o, k. do 4 (split; [done|]). done.
  - destruct td as [|o td]; simplify_eq. split; [done|]. left.
    apply Forall_cons in Hok as [??]. split; [done|]. split; [|done].
    split; [done|]. by apply body_outside.
Qed.

(** The moves of the thread that holds it. *)
Lemma holder_moves v t o q l v' lk' t' res :
  current t = Some (o, q) → finishing l o q v → thread_step v true t = Some (v', lk', t', res) →
  todo t' = todo t ∧
  ((lk' = true ∧ res = None ∧ ∃ q', current t' = Some (o, q') ∧ finishing l o q' v') ∨
   (current t' = None ∧ lk' = leaves_locked l o ∧
      ∃ r l', res = Some (o, r) ∧ spec_step seg tot l o r l' ∧ repr seg tot v' l')).
Proof.
  intros Ec (v1 & r & l' & E & Hs & Hr) Et. unfold thread_step in Et. rewrite Ec in Et.
  destruct q as [r'|r'|k|k|g k]; simplify_eq/=; (split; [done|]).
  - right. eauto 7.
  - right. eauto 7.
  - left. repeat split; [done..|]. eexists. split; [done|]. by exists v1, r, l'.
  - left. repeat split; [done..|]. eexists. split; [done|]. by exists v1, r, l'.
Qed.

Lemma inv_step l c lost i c' evs :
  inv l c lost → step i c = Some (c', evs) →
  ∃ l' lost', spec_run l evs l' ∧ inv l' c' lost' ∧
    (lost' = true → lost = true ∨ erased_beyond evs).
Proof.
  intros Hinv E. unfold step in E.
  destruct (threads c !! i) as [t|] eqn:Et; [|done]. simpl in E.
  destruct (thread_step (memory c) (lock_ c) t) as [[[[v' lk'] t'] res]|] eqn:Es; [|done].
  simpl in E. injection E as <- <-.
  assert (∀ l', spec_run l [] l → match res with Some (o, r) => spec_step seg tot l o r l'
    | None => l = l' end →
    spec_run l (match res with Some (o, r) => [(i, o, r)] | None => [] end) l') as Hevs.
  { intros l' Hn. destruct res as [[o r]|]; [|by intros ->].
    intros Hs. by apply (spec_run_snoc l [] l). }
  pose proof (spec_run_nil l) as Hnil.
  destruct Hinv as [Hlost Hr Hts|j tj o q -> Hlk Hj Hc Htd Hfin Hts].
  - assert (thread_outside t) as Ht by by eapply Forall_lookup_1.
    assert (∀ j t', j ≠ i → threads c !! j = Some t' → thread_outside t') as Hother.
    { intros j tj _ Hj. by eapply Forall_lookup_1. }
    destruct (outside_moves _ _ _ _ _ _ _ Ht Es) as [-> [(-> & Ht' & Hres)|
      (o & k & Elk & -> & -> & -> & Hk)]].
    + exists l, lost. split; [apply Hevs; [done|by destruct res as [[]|]]|].
      split; [|by left]. apply inv_unheld; [done|done|]. by apply outside_insert.
    + exists l, false. split; [by apply Hevs|]. split; [|done].
      apply (inv_held _ _ _ i (mkThread (todo t) (Some (o, k))) o k); simpl; [done|done| |done| | |].
      * rewrite list_lookup_insert_eq; [done|]. by eapply lookup_lt_Some.
      * by destruct Ht.
      * by apply Hk.
      * intros j tj Hne. rewrite list_lookup_insert_ne by done. eauto.
  - rewrite Hlk in Es. destruct (decide (i = j)) as [->|Hne].
    + simplify_eq. destruct (holder_moves _ _ _ _ _ _ _ _ _ Hc Hfin Es)
        as [Etd [(-> & -> & q' & Hc' & Hfin')|(Hc' & -> & r & l' & -> & Hs & Hr)]].
      * exists l, false. split; [by apply Hevs|]. split; [|done].
        apply (inv_held _ _ _ j t' o q'); simpl; [done|done| |done|by rewrite Etd|done|].
        -- rewrite list_lookup_insert_eq; [done|]. by eapply lookup_lt_Some.
        -- intros k tk Hk. rewrite list_lookup_insert_ne by done. eauto.
      * exists l', (leaves_locked l o). split; [by apply Hevs|]. split.
        -- apply inv_unheld; [done|done|].
           apply outside_insert; [|done]. split; [by rewrite Etd|by rewrite Hc'].
        -- intros Hlo. right. destruct (leaves_locked_erases _ _ _ _ Hlo Hs) as (n & -> & ->).
           exists j, n. by left.
    + assert (thread_outside t) as Ht by by eapply Hts.
      destruct (outside_moves _ _ _ _ _ _ _ Ht Es) as [-> [(-> & Ht' & Hres)|
        (o' & k & ? & _)]]; [|done].
      exists l, false. split; [apply Hevs; [done|by destruct res as [[]|]]|]. split; [|done].
      apply (inv_held _ _ _ j tj o q); simpl;
        [done|done|by rewrite list_lookup_insert_ne|done|done|done|].
      intros k tk Hk Hlook. destruct (decide (k = i)) as [->|Hki].
      * apply list_lookup_insert_Some in Hlook as [(_ & <- & _)|[? _]]; done.
      * rewrite list_lookup_insert_ne in Hlook by done. eauto.
Qed.

Lemma spec_run_app l evs l1 evs' l2 :
  spec_run l evs l1 → spec_run l1 evs' l2 → spec_run l (evs ++ evs') l2.
Proof.
  intros H H'. induction H' as [|? evs' ? i o r l2 H' IH Hs]; [by rewrite app_nil_r|].
  rewrite app_assoc. by eapply spec_run_snoc; [apply IH|].
Qed.

(** The initial configurations: nobody has started. *)
Definition ready (v : SHMVector) (ops : list (list (@op T))) : config :=
  mkConfig v false (map (λ os, mkThread os None) ops).

Lemma inv_ready v l ops :
  repr seg tot v l → Forall (Forall (op_ok seg)) ops → inv l (ready v ops) false.
Proof.
  intros Hr Hops. apply inv_unheld; [done|done|]. apply Forall_map.
  eapply Forall_impl; [exact Hops|]. by intros os Hos.
Qed.

Lemma inv_steps v l ops evs c :
  repr seg tot v l → Forall (Forall (op_ok seg)) ops → steps (ready v ops) evs c →
  ∃ l' lost, spec_run l evs l' ∧ inv l' c lost ∧ (lost = true → erased_beyond evs).
Proof.
  intros Hr Hops H. induction H as [|evs c1 i evs' c2 H (l1 & lost & Hl1 & Hinv & Hlost) E].
  - exists l, false. split; [constructor|]. split; [by apply inv_ready|done].
  - destruct (inv_step _ _ _ _ _ _ Hinv E) as (l2 & lost' & Hl2 & Hinv' & Hlost').
    exists l2, lost'. split; [by eapply spec_run_app|]. split; [done|].
    intros [H'|(j & n & Hin)]%Hlost'; [destruct (Hlost H') as (j & n & Hin)|];
      exists j, n; apply elem_of_app; by auto.
Qed.

(** The results are those of the serial order, and whenever the lock is free the
    memory represents the list. *)
Lemma linearizable v l ops evs c :
  repr seg tot v l → Forall (Forall (op_ok seg)) ops → steps (ready v ops) evs c →
  ∃ l', spec_run l evs l' ∧ (lock_ c = false → repr seg tot (memory c) l').
Proof.
  intros Hr Hops Hs. destruct (inv_steps _ _ _ _ _ Hr Hops Hs) as (l' & lost & Hl & Hinv & _).
  exists l'. split; [done|]. intros Hlk. destruct Hinv; [done|congruence].
Qed.

(** ** Mutual exclusion *)

(** The thread's next access changes the memory or clears the flag. *)
Definition about_to_change (t : thread) : bool :=
  match current t with
  | Some (_, Write _ _) | Some (_, Unlock _) => true
  | _ => false
  end.

Lemma outside_unchanging t : thread_outside t → about_to_change t ≠ true.
Proof.
  intros [_ Ho] H. unfold about_to_change in H. destruct (current t) as [[o p]|]; [|done].
  by destruct Ho.
Qed.

Lemma inv_exclusive l c lost i j t1 t2 :
  inv l c lost → threads c !! i = Some t1 → threads c !! j = Some t2 →
  about_to_change t1 = true → about_to_change t2 = true → i = j ∧ lock_ c = true.
Proof.
  intros [_ Hr Hts|k t o q _ Hlk Hk _ _ _ Hts] H1 H2 A1 A2.
  - exfalso. eapply outside_unchanging; [|exact A1]. by eapply Forall_lookup_1.
  - split; [|done]. destruct (decide (i = k)) as [->|Hi].
    + destruct (decide (j = k)) as [->|Hj]; [done|].
      exfalso. eapply outside_unchanging; [|exact A2]. by eapply Hts.
    + exfalso. eapply outside_unchanging; [|exact A1]. by eapply Hts.
Qed.

End linear.
End concurrent.
End ShmConcurrent.
