(* ===== verification/ShmLiveness.v ===== *)
(** * Progress of the shared-memory vector

    A spinning process makes no move, so the moves of ShmConcurrent.v are the
    accesses that count. They are well founded whatever the memory holds
    ([config_wf]), and as long as the lock is not lost some process can move
    ([some_move]); so every operation of every process returns, however the
    scheduler chooses among the processes that can move ([eventually]). *)
From S2P Require Export ShmConcurrent.
From stdpp Require Import options.

Module ShmLiveness.
Import SHMVector ShmConcurrent.

Section liveness.
Context {T : Type} `{!Pod T}.

(** ** Moves are well founded *)

(** A move of a thread, for some memory and flag. *)
Definition thread_move (t' t : @thread T) : Prop :=
  ∃ v lk v' lk' res, thread_step v lk t = Some (v', lk', t', res).

Definition move (c' c : @config T) : Prop := ∃ i evs, step i c = Some (c', evs).

Lemma program_wf td o p :
  Acc thread_move (mkThread td None) → Acc thread_move (mkThread td (Some (o, p))).
Proof.
  intros Hidle. induction p as [r|r|k IH|k IH|g k IH]; constructor; intros t' Ht;
    destruct Ht as (v & lk & v' & lk' & res & E); cbn in E; [..|destruct lk|idtac|idtac];
    injection E as <- <- <- <- || discriminate; auto.
Qed.

Lemma thread_wf t : Acc thread_move t.
Proof.
  destruct t as [td cur].
  assert (Acc thread_move (mkThread td None)) as Hidle.
  { induction td as [|o td IH]; constructor; intros t' (v & lk & v' & lk' & res & E); [done|].
    cbn in E. injection E as <- <- <- <-. by apply program_wf. }
  destruct cur as [[o p]|]; [by apply program_wf|done].
Qed.

(** One thread of a list moves. *)
Definition list_move (ts' ts : list (@thread T)) : Prop :=
  ∃ i t t', ts !! i = Some t ∧ thread_move t' t ∧ ts' = <[i:=t']> ts.

Lemma threads_wf ts : Acc list_move ts.
Proof.
  induction ts as [|t ts Hts]; [constructor; by intros ts' (i & t & t' & H & _)|].
  revert ts Hts. induction (thread_wf t) as [t _ IHt]. intros ts Hts.
  induction Hts as [ts Hts IHts]. constructor.
  intros ts' ([|i] & t0 & t' & Hi & Hm & ->); cbn in *.
  - injection Hi as ->. apply IHt; [done|]. by constructor.
  - apply IHts. by exists i, t0, t'.
Qed.

Lemma config_wf : well_founded move.
Proof.
  apply (wf_projected list_move threads); [|exact threads_wf].
  intros c' c (i & evs & E). unfold step in E.
  destruct (threads c !! i) as [t|] eqn:Ht; [|done]. cbn in E.
  destruct (thread_step (memory c) (lock_ c) t) as [[[[v lk] t'] res]|] eqn:Es; [|done].
  cbn in E. injection E as <- _. exists i, t, t'. split; [done|]. split; [|done].
  by exists (memory c), (lock_ c), v, lk, res.
Qed.

(** ** Some process can move *)

Definition idle (t : @thread T) : bool :=
  match todo t, current t with [], None => true | _, _ => false end.

Definition all_idle (c : @config T) : bool := forallb idle (threads c).

Variables seg tot : Z.

Lemma some_move l c :
  inv seg tot l c false → all_idle c = false → ∃ i, is_Some (step i c).
Proof.
  intros Hinv Hidle. assert (∃ i t v', threads c !! i = Some t ∧
    thread_step (memory c) (lock_ c) t = Some v') as (i & t & [[[v lk] t'] res] & Ht & E).
  { destruct Hinv as [Hlk _ _|i t o q _ Hlk Ht Hc _ Hfin _].
    - rewrite Hlk. assert (∃ i t, threads c !! i = Some t ∧ idle t = false) as (i & t & Ht & Hi).
      { unfold all_idle in Hidle. induction (threads c) as [|t ts IH]; [done|]. cbn in Hidle.
        destruct (idle t) eqn:Et; [|by exists 0, t].
        destruct IH as (i & t' & Ht' & Hi'); [done|]. by exists (S i), t'. }
      exists i, t. destruct t as [[|o td] [[o' p]|]]; try done; cbn; [..|by eexists];
        destruct p; by eexists.
    - rewrite Hlk. exists i, t. destruct Hfin as (v' & r & l' & E & _).
      unfold thread_step. rewrite Hc. destruct q; try done; by eexists. }
  exists i. unfold step. rewrite Ht. cbn. rewrite E. by eexists.
Qed.

(** ** Every run ends with every operation returned *)

(** Whatever a scheduler chooses among the processes that can move, it comes to
    a configuration and a list of results of which [P] holds. *)
Inductive eventually (P : list (@event T) → @config T → Prop) (evs : list (@event T)) (c : @config T) : Prop :=
| eventually_now : P evs c → eventually P evs c
| eventually_later :
    (∃ i, is_Some (step i c)) →
    (∀ i c' evs', step i c = Some (c', evs') → eventually P (evs ++ evs') c') →
    eventually P evs c.

Definition completed (evs : list (@event T)) (c : @config T) : Prop :=
  all_idle c = true ∨ erased_beyond evs.

Lemma eventually_completed l c lost evs :
  inv seg tot l c lost → (lost = true → erased_beyond evs) → eventually completed evs c.
Proof.
  revert l lost evs. induction (config_wf c) as [c _ IH]. intros l lost evs Hinv Hlost.
  destruct lost; [by apply eventually_now; right; auto|].
  destruct (all_idle c) eqn:Hidle; [by apply eventually_now; left|].
  apply eventually_later; [by eapply some_move|]. intros i c' evs' E.
  destruct (inv_step _ _ _ _ _ _ _ _ Hinv E) as (l' & lost' & _ & Hinv' & Hlost').
  apply (IH c') with l' lost'; [by exists i, evs'|done|].
  intros [?|(j & n & Hin)]%Hlost'; [done|]. exists j, n. apply elem_of_app. by right.
Qed.

Lemma operations_return v l ops :
  repr seg tot v l → Forall (Forall (op_ok seg)) ops → eventually completed [] (ready v ops).
Proof.
  intros Hr Hops. by apply (eventually_completed l _ false); [apply inv_ready|].
Qed.

(** ** The death of a process *)

(** Process [i] is killed: it makes no access any more. *)
Definition kill (i : nat) (c : @config T) : config :=
  mkConfig (memory c) (lock_ c) (<[i := mkThread [] None]> (threads c)).

(** The operations that can return without the lock. *)
Definition lock_free (o : @op T) : Prop :=
  match o with Reserve _ | Capacity => True | _ => False end.

(** A result that is right whatever the vector holds is one of these. *)
Lemma stateless_result o r :
  (seg <= tot)%Z → (∀ l, spec_step seg tot l o r l) → lock_free o.
Proof using Type*.
  intros Hfit H. pose (x := of_bytes [] : T).
  assert (∀ A B : list T, A ++ B = A ++ x :: B → False) as Hne.
  { intros A B E%(f_equal length). rewrite !length_app in E. cbn in E. lia. }
  destruct o as [n|y|i| | |i|]; [done| | | |done| |].
  - pose proof (H []) as H0. inversion H0; subst. cbn in *. lia.
  - pose proof (H []) as H0. pose proof (H (replicate (S (Z.to_nat i)) x)) as H1.
    inversion H0; subst; inversion H1; subst; try done.
    rewrite length_replicate in *. lia.
  - pose proof (H []) as H0. pose proof (H [x]) as H1. inversion H0; subst. by inversion H1.
  - pose proof (H []) as H0. pose proof (H (replicate (S (Z.to_nat i)) x)) as H1.
    inversion H0 as [| | | | | | | |A y B E1 E2| |? ?|]; subst; [by destruct A|].
    inversion H1; subst. rewrite length_replicate in *. lia.
  - pose proof (H [x]) as H1. inversion H1.
Qed.

Lemma waiting_step v t v' lk' t' res :
  (seg <= tot)%Z → thread_outside seg tot t → thread_step v true t = Some (v', lk', t', res) →
  v' = v ∧ lk' = true ∧ thread_outside seg tot t' ∧
  match res with Some (o, _) => lock_free o | None => True end.
Proof.
  intros Hfit Ho E. destruct (outside_moves seg tot _ _ _ _ _ _ _ Ho E)
    as [-> [(-> & Ho' & Hres)|(? & ? & ? & _)]]; [|done].
  do 3 (split; [done|]). destruct res as [[o r]|]; [|done]. by eapply stateless_result.
Qed.

Lemma waiting_steps c evs c' :
  (seg <= tot)%Z → lock_ c = true → Forall (thread_outside seg tot) (threads c) → steps c evs c' →
  lock_ c' = true ∧ memory c' = memory c ∧ Forall (thread_outside seg tot) (threads c') ∧
  Forall (λ e, lock_free e.1.2) evs.
Proof.
  intros Hfit Hlk Hw H. induction H as [|evs c1 i evs' c2 _ (Hl1 & Hm1 & Hw1 & Hevs) E]; [done|].
  unfold step in E. destruct (threads c1 !! i) as [t|] eqn:Ht; [|done]. cbn in E.
  destruct (thread_step (memory c1) (lock_ c1) t) as [[[[v lk] t'] res]|] eqn:Es; [|done].
  cbn in E. injection E as <- <-. rewrite Hl1 in Es. pose proof Hw1 as Hwi.
  rewrite Forall_lookup in Hwi.
  destruct (waiting_step _ _ _ _ _ _ Hfit (Hwi i t Ht) Es) as (-> & -> & Hw' & Hres). cbn.
  do 2 (split; [done|]). split; [by apply Forall_insert|].
  apply Forall_app. split; [done|]. destruct res as [[o r]|]; by repeat constructor.
Qed.

(** The other processes when one is about to change the memory. *)
Lemma holder_killed l c lost i t :
  inv seg tot l c lost → threads c !! i = Some t → about_to_change t = true →
  lock_ c = true ∧ Forall (thread_outside seg tot) (threads (kill i c)).
Proof.
  intros Hinv Ht Ha. assert (∀ t', thread_outside seg tot t' → t' = t → False) as Hno.
  { intros t' Ht' ->. by eapply outside_unchanging. }
  destruct Hinv as [_ _ Hts|j tj o q _ Hlk Hj _ _ _ Hts].
  - exfalso. eapply Hno; [|done]. by eapply Forall_lookup_1.
  - split; [done|]. destruct (decide (i = j)) as [->|Hne].
    + by apply outside_insert; [split|].
    + exfalso. eapply Hno; [|done]. by eapply Hts.
Qed.

End liveness.
End ShmLiveness.
