(* ===== verification/ShmTheorems.v ===== *)
(** * Properties of the shared-memory vector *)
From S2P Require Export ShmLiveness.
From stdpp Require Import options.

Import SHMVector ShmConcurrent ShmLiveness.

(** A vector of characters over eight bytes of memory, as constructed and after
    two appends. *)
Definition empty_memory : bytes := replicate 8 "000"%char.
Definition sample_empty : SHMVector := mkVec 2 0 0 empty_memory 8.
Definition sample_vec : SHMVector :=
  mkVec 2 2 2 (["a"; "000"; "b"; "000"]%char ++ replicate 4 "000"%char) 8.

Lemma sample_empty_repr : repr 2 8 sample_empty [].
Proof. split; [split; [split; by_decide|done|by_decide|done]|done]. Defined.

Lemma sample_vec_repr : repr 2 8 sample_vec ["a"; "b"]%char.
Proof.
  split; [split; [split; by_decide|done|by_decide|]|done].
  intros [|[|i]] x Hx; simplify_eq/=; reflexivity.
Defined.

(** C18: run with the lock free, every member function does to the list the
    vector represents what its documentation says, with the result or the
    exception it names, and leaves a vector that represents the new list; the
    lock is free again, except after [eraseAt] beyond the end. *)
Theorem vector_refines_list {T} `{!Pod T} seg tot (o : @op T) v l :
  op_ok seg o → repr seg tot v l →
  ∃ v' r l', run (body o) false v = Some (v', leaves_locked l o, r) ∧
    spec_step seg tot l o r l' ∧ repr seg tot v' l'.
Proof. apply run_refines. Qed.

Lemma vector_refines_list_witness :
  (∃ v' r l', run (body (EraseAt 0)) false sample_vec =
      Some (v', leaves_locked ["a"; "b"]%char (EraseAt 0), r) ∧
    spec_step 2 8 ["a"; "b"]%char (EraseAt 0) r l' ∧ repr 2 8 v' l') ∧
  (∃ v' r l', run (body (PushBack "c"%char)) false sample_vec =
      Some (v', leaves_locked ["a"; "b"]%char (PushBack "c"%char), r) ∧
    spec_step 2 8 ["a"; "b"]%char (PushBack "c"%char) r l' ∧ repr 2 8 v' l').
Proof.
  split; (apply vector_refines_list; [|exact sample_vec_repr]); [simpl; lia|exact I].
Defined.

(** The vector is linearizable: however the single memory accesses of the
    processes interleave, the results they get, in the order in which the
    operations release the lock, are those of the same operations performed one
    after the other on a list; and whenever the lock is free the memory
    represents that list. *)
Theorem vector_linearizable {T} `{!Pod T} seg tot v l (ops : list (list (@op T))) evs c :
  repr seg tot v l → Forall (Forall (op_ok seg)) ops → steps (ready v ops) evs c →
  ∃ l', spec_run seg tot l evs l' ∧ (lock_ c = false → repr seg tot (memory c) l').
Proof. apply linearizable. Qed.

(** Two processes: one appends twice, the other takes the first element, its
    accesses in the middle of those of the first. *)
Definition sample_ops : list (list (@op ascii)) :=
  [[PushBack "a"%char; PushBack "b"%char]; [GetNextElement]].
Definition sample_schedule : list nat :=
  [0; 1; 0; 1; 0; 1; 0; 1; 0; 0; 0; 0; 0; 1; 0; 1; 0; 1; 0; 1; 0] ++ replicate 12 1 ++ replicate 12 0.

Lemma vector_linearizable_witness :
  let '(evs, c) := run_schedule sample_schedule (ready sample_empty sample_ops) in
  evs = [(0, PushBack "a"%char, inr RUnit); (1, GetNextElement, inr (RVal "a"%char));
         (0, PushBack "b"%char, inr RUnit)] ∧
  ∃ l', spec_run 2 8 [] evs l' ∧ (lock_ c = false → repr 2 8 (memory c) l').
Proof.
  destruct (run_schedule sample_schedule (ready sample_empty sample_ops)) as [evs c] eqn:E.
  split.
  - vm_compute in E. injection E as <- _. reflexivity.
  - apply (vector_linearizable 2 8 sample_empty [] sample_ops).
    + exact sample_empty_repr.
    + repeat constructor.
    + by apply (run_schedule_steps sample_schedule).
Defined.

(** C20: mutual exclusion: in every reachable configuration at most one process
    is about to change the memory or to release the lock, and then the lock is
    taken. *)
Theorem vector_mutual_exclusion {T} `{!Pod T} seg tot v l (ops : list (list (@op T))) evs c
    i j t1 t2 :
  repr seg tot v l → Forall (Forall (op_ok seg)) ops → steps (ready v ops) evs c →
  threads c !! i = Some t1 → threads c !! j = Some t2 →
  about_to_change t1 = true → about_to_change t2 = true → i = j ∧ lock_ c = true.
Proof.
  intros Hr Hops Hs. destruct (inv_steps _ _ _ _ _ _ _ Hr Hops Hs) as (l' & lost & _ & Hinv & _).
  by apply (inv_exclusive seg tot l' _ lost).
Qed.

Lemma vector_mutual_exclusion_witness :
  let '(evs, c) := run_schedule [0; 0; 0; 1] (ready sample_empty sample_ops) in
  about_to_change <$> threads c !! 0 = Some true ∧ 0 = 0 ∧ lock_ c = true.
Proof.
  assert (about_to_change <$>
    threads (run_schedule [0; 0; 0; 1] (ready sample_empty sample_ops)).2 !! 0 =
    Some true) as H by (vm_compute; reflexivity).
  destruct (run_schedule [0; 0; 0; 1] (ready sample_empty sample_ops)) as [evs c] eqn:E.
  cbn [snd] in H. split; [exact H|]. apply fmap_Some in H as (t & Et & Ht).
  apply (vector_mutual_exclusion 2 8 sample_empty [] sample_ops evs c 0 0 t t);
    [exact sample_empty_repr|repeat constructor|exact (run_schedule_steps _ _ _ _ E)
    |exact Et|exact Et|exact (eq_sym Ht)|exact (eq_sym Ht)].
Defined.

(** C21: every operation returns: however the scheduler chooses among the
    processes that can move, after finitely many moves all operations of all
    processes have returned, unless an [eraseAt] beyond the end has lost the
    lock. In particular no two processes ever wait for each other. *)
Theorem vector_operations_return {T} `{!Pod T} seg tot v l (ops : list (list (@op T))) :
  repr seg tot v l → Forall (Forall (op_ok seg)) ops →
  eventually completed [] (ready v ops).
Proof. apply operations_return. Qed.

Lemma vector_operations_return_witness :
  eventually completed [] (ready sample_empty sample_ops) ∧
  all_idle (run_schedule sample_schedule (ready sample_empty sample_ops)).2 = true.
Proof.
  split; [|vm_compute; reflexivity].
  apply (vector_operations_return 2 8 sample_empty []); [exact sample_empty_repr|].
  repeat constructor.
Defined.

(** There is no endless execution: from any configuration,
    reachable or not, the moves of the processes
    (their accesses other than unsuccessful rounds of the spin lock) come to an
    end. *)
Theorem vector_terminates {T} `{!Pod T} :
  well_founded (move (T := T)) ∧
  ∀ run : nat → @config T, ¬ ∀ n, move (run (S n)) (run n).
Proof.
  split; [exact config_wf|]. intros run Hrun.
  assert (∀ c, Acc move c → ∀ n, run n ≠ c) as Hno.
  { induction 1 as [c _ IH]. intros n <-. by apply (IH (run (S n)) (Hrun n) (S n)). }
  by apply (Hno (run 0) (config_wf _) 0).
Qed.

(** [eraseAt] beyond the end throws with the lock held: afterwards every
    operation but [capacity] and a [reserve] of no more than the capacity spins
    for ever. *)
Theorem erase_beyond_end_leaks_lock {T} `{!Pod T} seg tot v (l : list T) i :
  repr seg tot v l → (Z.of_nat (length l) <= i)%Z →
  run (eraseAt i) false v = Some (v, true, inl (Throw out_of_range)) ∧
  ∀ o, run (body o) true v =
    match o with
    | Capacity => Some (v, true, inr (RSize (capacity_ v)))
    | Reserve n =>
        if decide (n <= capacity_ v)%Z then Some (v, true, inr RUnit) else None
    | _ => None
    end.
Proof.
  intros [[_ Hs _ _] _] Hi. split.
  - cbn. rewrite decide_True by lia. done.
  - intros []; try done. cbn. by case_decide.
Qed.

Lemma erase_beyond_end_leaks_lock_witness :
  run (eraseAt 2) false sample_vec = Some (sample_vec, true, inl (Throw out_of_range)) ∧
  run (body Size) true sample_vec = None.
Proof.
  destruct (erase_beyond_end_leaks_lock 2 8 sample_vec ["a"; "b"]%char 2 sample_vec_repr)
    as [H1 H2]; [by_decide|]. split; [exact H1|exact (H2 Size)].
Defined.

(** A process that is killed while it is about to change the memory, or to release
    the lock, takes the lock with it: from then on no operation of any process
    returns but [capacity] and [reserve], and the memory stays as it is, an erase
    half done included. *)
Theorem killed_holder_blocks {T} `{!Pod T} seg tot v l (ops : list (list (@op T))) evs c i t evs' c' :
  (seg <= tot)%Z → repr seg tot v l → Forall (Forall (op_ok seg)) ops →
  steps (ready v ops) evs c → threads c !! i = Some t → about_to_change t = true →
  steps (kill i c) evs' c' →
  lock_ c' = true ∧ memory c' = memory c ∧ Forall (λ e, lock_free e.1.2) evs'.
Proof.
  intros Hfit Hr Hops Hs Ht Ha Hs'.
  destruct (inv_steps _ _ _ _ _ _ _ Hr Hops Hs) as (l' & lost & _ & Hinv & _).
  destruct (holder_killed _ _ _ _ _ _ _ Hinv Ht Ha) as [Hlk Hout].
  by destruct (waiting_steps seg tot (kill i c) evs' c') as (? & ? & _ & ?).
Qed.

(** The first append is interrupted between the element and the size. *)
Lemma killed_holder_blocks_witness :
  let '(_, c) := run_schedule (replicate 8 0) (ready sample_empty sample_ops) in
  let '(evs', c') := run_schedule (concat (replicate 20 [0; 1])) (kill 0 c) in
  lock_ c' = true ∧ memory c' = memory c ∧ Forall (λ e, lock_free e.1.2) evs'.
Proof.
  destruct (run_schedule (replicate 8 0) (ready sample_empty sample_ops)) as [evs c] eqn:E.
  destruct (run_schedule (concat (replicate 20 [0; 1])) (kill 0 c)) as [evs' c'] eqn:E'.
  assert (about_to_change <$> threads c !! 0 = Some true) as Ha
    by (vm_compute in E; injection E as _ <-; reflexivity).
  apply fmap_Some in Ha as (t & Et & Ht).
  apply (killed_holder_blocks 2 8 sample_empty [] sample_ops evs c 0 t evs' c');
    [by_decide|exact sample_empty_repr|repeat constructor|exact (run_schedule_steps _ _ _ _ E)
    |exact Et|exact (eq_sym Ht)|exact (run_schedule_steps _ _ _ _ E')].
Defined.

(** The byte count of [reserve] wraps at 64 bits: a number of elements
    whose bytes exceed the address space is granted when their count modulo
    2^64 fits, and an append to the full memory then writes beyond it instead
    of throwing. *)
Theorem reserve_count_wraps {T} `{!Pod T} v n :
  (capacity_ v < n)%Z → (u64 (n * segment_size_bytes_ v) <= memory_total_bytes_ v)%Z →
  (memory_total_bytes_ v < n * segment_size_bytes_ v)%Z →
  Z.of_nat (length (memory_base_ v)) = memory_total_bytes_ v →
  (size_ v < n)%Z → (0 <= size_ v * segment_size_bytes_ v < 2 ^ 64)%Z →
  (memory_total_bytes_ v < size_ v * segment_size_bytes_ v + Z.of_nat sizeof)%Z →
  run (T := T) (reserve n) false v = Some (set_capacity n v, false, inr RUnit) ∧
  ∀ x : T, ∃ v', run (push_back x) false (set_capacity n v) = Some (v', true, inl Undefined).
Proof.
  intros Hc Hw Ht Hm Hs Ho Hfull. split.
  - cbn [run reserve]. rewrite decide_False by lia. cbn [run]. rewrite decide_False by lia.
    cbv zeta. by rewrite decide_False by lia.
  - intros x. cbn. rewrite decide_False by lia. cbn. unfold get_element_ptr, u64. cbn.
    rewrite wrap_id by done. rewrite decide_False; [by eexists|].
    unfold in_memory. cbn. lia.
Qed.

Lemma reserve_count_wraps_witness :
  let v := mkVec 2 4 4 empty_memory 8 in
  run (T := ascii) (reserve (2 ^ 63)) false v = Some (set_capacity (2 ^ 63) v, false, inr RUnit) ∧
  ∀ x : ascii, ∃ v', run (push_back x) false (set_capacity (2 ^ 63) v) =
    Some (v', true, inl Undefined).
Proof. intros v. apply reserve_count_wraps; by_decide. Defined.
