(* ===== verification/ShmQueue.v ===== *)
(** * The shared-memory vector as a queue

    Processes that append with [push_back] and take with [getNextElement] use the
    vector of src/SHMVector.hpp as a queue. This file shows, for any number of
    processes under any scheduler, that it is one: nothing is lost, taken twice or
    reordered. The programs of the processes are lists of operations; those of a
    process whose operations depend on results are the operations it performed. *)
From S2P Require Export ShmTheorems.
From stdpp Require Import options.

Module ShmQueue.
Import SHMVector ShmConcurrent ShmLiveness.

Section queue.
Context {T : Type} `{!Pod T}.

(** ** What the events say *)

(** No operation removes an element other than the first. *)
Definition no_erase (o : @op T) : Prop :=
  match o with EraseAt _ => False | _ => True end.

(** The element an operation appends; one that an event has appended, or taken. *)
Definition pushed (o : @op T) : list T :=
  match o with PushBack x => [x] | _ => [] end.

Definition put (e : @event T) : list T :=
  match e with (_, PushBack x, inr _) => [x] | _ => [] end.

Definition take_first (e : @event T) : list T :=
  match e with (_, GetNextElement, inr (RVal x)) => [x] | _ => [] end.

(** The operation is about an element that may not be there. *)
Definition names_element (o : @op T) : Prop :=
  match o with At _ | EraseAt _ | GetNextElement => True | _ => False end.

Definition event_op (e : @event T) : @op T := e.1.2.

Definition puts (evs : list (@event T)) : list T := evs ≫= put.
Definition taken (evs : list (@event T)) : list T := evs ≫= take_first.

(** The operations of process [i] that have taken effect, in order. *)
Definition performed (i : nat) (evs : list (@event T)) : list (@op T) :=
  map event_op (filter (λ e, e.1.1 = i) evs).

(** ** Program order *)

(** What a process has still to do, the operation it is in included. *)
Definition pending (t : @thread T) : list (@op T) :=
  match current t with Some (o, _) => o :: todo t | None => todo t end.

Lemma thread_step_pending v lk t v' lk' t' res :
  thread_step v lk t = Some (v', lk', t', res) →
  pending t = match res with Some (o, _) => o :: pending t' | None => pending t' end.
Proof.
  destruct t as [td [[o p]|]]; unfold pending, thread_step; cbn.
  - destruct p; [..|destruct lk|idtac|idtac]; intros E; by simplify_eq/=.
  - destruct td; intros E; by simplify_eq/=.
Qed.

(** [step] at the level of one process. *)
Lemma step_inv i c c' evs :
  step i c = Some (c', evs) →
  ∃ t t', threads c !! i = Some t ∧ threads c' = <[i := t']> (threads c) ∧
    pending t = map event_op evs ++ pending t' ∧ Forall (λ e, e.1.1 = i) evs.
Proof.
  unfold step. destruct (threads c !! i) as [t|] eqn:Ht; [|done]. cbn.
  destruct (thread_step (memory c) (lock_ c) t) as [[[[v lk] t'] res]|] eqn:E; [|done]. cbn.
  intros [= <- <-]. exists t, t'. split; [done|]. split; [done|].
  rewrite (thread_step_pending _ _ _ _ _ _ _ E).
  destruct res as [[o r]|]; split; repeat constructor.
Qed.

Lemma performed_app i evs evs' : performed i (evs ++ evs') = performed i evs ++ performed i evs'.
Proof. unfold performed. by rewrite filter_app, map_app. Qed.

Lemma performed_own i evs : Forall (λ e, e.1.1 = i) evs → performed i evs = map event_op evs.
Proof.
  unfold performed. induction 1 as [|e evs He _ IH]; [done|].
  rewrite filter_cons_True by done. cbn [map]. by f_equal.
Qed.

Lemma performed_other i j evs : i ≠ j → Forall (λ e, e.1.1 = i) evs → performed j evs = [].
Proof.
  intros Hne. unfold performed. induction 1 as [|e evs He _ IH]; [done|].
  rewrite filter_cons_False by congruence. done.
Qed.

(** Each process performs its program from the front. *)
Lemma program_order v ops evs c i os :
  steps (ready v ops) evs c → ops !! i = Some os →
  ∃ t, threads c !! i = Some t ∧ os = performed i evs ++ pending t.
Proof.
  intros H Hi. induction H as [|evs c1 j evs' c2 H (t & Ht & ->) E].
  - exists (mkThread os None). split; [|done]. cbn. by rewrite list_lookup_fmap, Hi.
  - destruct (step_inv _ _ _ _ E) as (t1 & t2 & H1 & Ets & Ep & Hown).
    rewrite Ets, performed_app. destruct (decide (j = i)) as [->|Hne].
    + simplify_eq. exists t2. split.
      * rewrite list_lookup_insert_eq; [done|]. by eapply lookup_lt_Some.
      * by rewrite Ep, (performed_own i evs'), app_assoc.
    + exists t. by rewrite list_lookup_insert_ne, (performed_other j i evs'), app_nil_r.
Qed.

(** All that has been performed and all that is pending are the programs. *)
Lemma programs_perm v ops evs c :
  steps (ready v ops) evs c →
  map event_op evs ++ (threads c ≫= pending) ≡ₚ concat ops.
Proof.
  induction 1 as [|evs c1 j evs' c2 H IH E].
  - cbn. induction ops as [|os ops IH]; [done|]. cbn. by rewrite IH.
  - destruct (step_inv _ _ _ _ E) as (t1 & t2 & H1 & -> & Ep & _). rewrite <-IH, map_app.
    rewrite <-app_assoc. f_equiv. apply take_drop_middle in H1 as Ets.
    assert (j < length (threads c1)) as Hlt by by eapply lookup_lt_Some.
    rewrite (insert_take_drop _ _ _ Hlt), !bind_app. rewrite <-Ets at 3. rewrite bind_app. cbn.
    rewrite Ep. solve_Permutation.
Qed.

(** ** The queue *)

Variables seg tot : Z.

Lemma spec_step_queue l i o r l' :
  spec_step seg tot l o r l' → no_erase o → l ++ put (i, o, r) = take_first (i, o, r) ++ l'.
Proof. by intros [] ?; cbn; rewrite ?app_nil_r. Qed.

Lemma spec_run_queue l evs l' :
  spec_run seg tot l evs l' → Forall (λ e, no_erase (event_op e)) evs →
  l ++ puts evs = taken evs ++ l'.
Proof.
  intros H. induction H as [|l evs l1 i o r l2 H IH Hs].
  - intros _. by rewrite app_nil_r.
  - intros [Hevs [Ho _]%Forall_cons]%Forall_app. unfold puts, taken in *. rewrite !bind_app.
    rewrite app_assoc, IH by done. cbn [mbind list_bind]. rewrite !app_nil_r, <-!app_assoc.
    f_equal. by apply spec_step_queue.
Qed.

(** The length never exceeds what was there and what has been appended. *)
Lemma put_pushed e : length (put e) ≤ length (pushed (event_op e)).
Proof. destruct e as [[i []] []]; cbn; lia. Qed.

Lemma puts_pushed evs : length (puts evs) ≤ length (map event_op evs ≫= pushed).
Proof.
  induction evs as [|e evs IH]; [done|]. cbn. rewrite !length_app.
  pose proof (put_pushed e). unfold puts in IH. cbn in IH. lia.
Qed.

(** The memory has room for twice the [n] elements, and for one. *)
Definition fits (n : nat) : Prop := (2 * Z.of_nat n * seg <= tot ∧ 0 <= seg <= tot)%Z.

Lemma spec_step_fits l o f l' n :
  spec_step seg tot l o (inl f) l' → fits n → length l ≤ n →
  (∃ k, o = Reserve k) ∨ (f = Throw out_of_range ∧ names_element o).
Proof.
  intros Hs [H2 H1] Hn. inversion Hs; subst; [by eauto| |by right..].

  exfalso. destruct (Z.max_spec 1 (2 * Z.of_nat (length l'))) as [[? E]|[? E]];
    rewrite E in *; nia.
Qed.

Lemma spec_run_fits l evs l' :
  spec_run seg tot l evs l' → Forall (λ e, no_erase (event_op e)) evs →
  fits (length l + length (map event_op evs ≫= pushed)) →
  puts evs = map event_op evs ≫= pushed ∧
  ∀ i o f, (i, o, inl f) ∈ evs → (∃ k, o = Reserve k) ∨ f = Throw out_of_range ∧ names_element o.
Proof.
  intros H. induction H as [|l evs l1 i o r l2 H IH Hs].
  - intros _ _. split; [done|]. set_solver.
  - intros [Hevs _]%Forall_app Hfit. rewrite map_app, bind_app, length_app in Hfit.
    destruct IH as [IHp IHe]; [done| |].
    { destruct Hfit. split; [nia|lia]. }
    assert (length l1 ≤ length l + length (map event_op evs ≫= pushed)) as Hlen.
    { pose proof (spec_run_queue _ _ _ H Hevs) as E%(f_equal length).
      rewrite !length_app in E. pose proof (puts_pushed evs). lia. }
    assert (match r with
            | inl f => (∃ k, o = Reserve k) ∨ f = Throw out_of_range ∧ names_element o
            | inr _ => True
            end ∧ put (i, o, r) = pushed o) as [Hr Hput].
    { destruct r as [f|r]; [|by destruct o].
      destruct (spec_step_fits l1 o f l2 _ Hs Hfit) as [[k ->]|[-> Hp]]; [lia|by eauto|].
      split; [by right|]. by destruct o. }
    split.
    + unfold puts in *. rewrite map_app, !bind_app, IHp.
      change (map event_op [(i, o, r)]) with [o]. by rewrite !bind_singleton, Hput.
    + intros j o' f [Hin|Hin]%elem_of_app; [by eapply IHe|].
      apply list_elem_of_singleton in Hin. by simplify_eq.
Qed.

(** ** Complete executions *)

Lemma eventually_reached (P : list (@event T) → @config T → Prop) c0 evs c :
  steps c0 evs c → eventually P evs c → eventually (λ evs c, P evs c ∧ steps c0 evs c) evs c.
Proof.
  intros H0 H. induction H as [evs c HP|evs c Hmove _ IH]; [by apply eventually_now|].
  apply eventually_later; [done|]. intros i c' evs' E. apply (IH i c' evs' E).
  by eapply steps_snoc.
Qed.

Lemma eventually_impl (P Q : list (@event T) → @config T → Prop) evs c :
  (∀ evs c, P evs c → Q evs c) → eventually P evs c → eventually Q evs c.
Proof.
  intros HPQ H. induction H as [evs c HP|evs c Hmove _ IH]; [by apply eventually_now, HPQ|].
  by apply eventually_later.
Qed.

Lemma idle_pending t : idle t = true → pending t = [].
Proof. by destruct t as [[] []]. Qed.

Lemma all_idle_pending (c : @config T) : all_idle c = true → threads c ≫= pending = [].
Proof.
  unfold all_idle. induction (threads c) as [|t ts IH]; [done|].
  cbn. intros [Ht Hts]%andb_true_iff. by rewrite (idle_pending t Ht), IH.
Qed.

(** The programs of processes that use the vector as a queue. *)
Definition queue_programs (ops : list (list (@op T))) : Prop :=
  Forall (Forall (λ o, op_ok seg o ∧ no_erase o)) ops.

Lemma queue_programs_ok ops : queue_programs ops → Forall (Forall (op_ok seg)) ops.
Proof.
  intros H. eapply Forall_impl; [exact H|]. intros os Hos.
  eapply Forall_impl; [exact Hos|]. by intros o [].
Qed.

Lemma performed_no_erase v ops evs c :
  queue_programs ops → steps (ready v ops) evs c → Forall (λ e, no_erase (event_op e)) evs.
Proof.
  intros Hops H. apply (Forall_map event_op no_erase).
  assert (Forall no_erase (concat ops)) as Hall.
  { apply Forall_concat. eapply Forall_impl; [exact Hops|]. intros os Hos.
    eapply Forall_impl; [exact Hos|]. by intros o []. }
  rewrite <-(programs_perm _ _ _ _ H) in Hall. by apply Forall_app in Hall as [? _].
Qed.

Lemma not_erased evs : Forall (λ e, no_erase (event_op e)) evs → ¬ erased_beyond evs.
Proof. intros H (i & n & Hin). rewrite Forall_forall in H. by apply (H _ Hin). Qed.

(** The end of an execution: every operation has returned and the lock is free;
    every process has performed its program, in order; what was in the vector and
    what was appended, in the order of the appends, is what was taken, in the
    order of the taking, and what is left; and if memory has room for twice as
    many elements as can be in it, no append has failed. *)
Record outcome (l : list T) (ops : list (list (@op T))) (evs : list (@event T)) (c : @config T) :
    Prop := {
  outcome_idle : all_idle c = true;
  outcome_unlocked : lock_ c = false;
  outcome_ops : map event_op evs ≡ₚ concat ops;
  outcome_order : ∀ i os, ops !! i = Some os → performed i evs = os;
  outcome_queue : ∃ l', l ++ puts evs = taken evs ++ l' ∧ repr seg tot (memory c) l';
  outcome_fits : fits (length l + length (concat ops ≫= pushed)) →
    puts evs ≡ₚ concat ops ≫= pushed ∧
    ∀ i o f, (i, o, inl f) ∈ evs → (∃ k, o = Reserve k) ∨ f = Throw out_of_range ∧ names_element o
}.

Lemma completed_outcome v l ops evs c :
  repr seg tot v l → queue_programs ops → completed evs c ∧ steps (ready v ops) evs c →
  outcome l ops evs c.
Proof.
  intros Hr Hops [Hdone H]. pose proof (performed_no_erase _ _ _ _ Hops H) as Hne.
  destruct Hdone as [Hidle|He]; [|by apply not_erased in He].
  pose proof (programs_perm _ _ _ _ H) as Hperm. rewrite all_idle_pending, app_nil_r in Hperm by done.
  destruct (inv_steps _ _ _ _ _ _ _ Hr (queue_programs_ok _ Hops) H) as (l' & lost & Hrun & Hinv & Hlost).
  destruct lost; [by apply not_erased in Hlost|].
  assert (lock_ c = false ∧ repr seg tot (memory c) l') as [Hlk Hr'].
  { destruct Hinv as [Hlk Hr' _|i t o q _ _ Ht Hc _ _ _]; [done|].
    unfold all_idle in Hidle. rewrite forallb_forall in Hidle.
    assert (In t (threads c)) as Hin by by apply list_elem_of_In, list_elem_of_lookup; eauto.
    specialize (Hidle t Hin). unfold idle in Hidle. rewrite Hc in Hidle. by destruct (todo t). }
  split; [done|done|done| |by exists l'; split; [by apply spec_run_queue|]|].
  - intros i os Hi. destruct (program_order _ _ _ _ _ _ H Hi) as (t & Ht & ->).
    unfold all_idle in Hidle. rewrite forallb_forall in Hidle.
    rewrite (idle_pending t), app_nil_r; [done|]. apply Hidle, list_elem_of_In.
    apply list_elem_of_lookup. eauto.
  - intros Hfit. rewrite <-Hperm in Hfit |- *.
    destruct (spec_run_fits _ _ _ Hrun Hne Hfit) as [-> He]. by split.
Qed.

(** ** Consumers only *)

Lemma spec_run_drained l evs l' :
  spec_run seg tot l evs l' → Forall (λ e, event_op e = GetNextElement) evs →
  ∀ i, (i, GetNextElement, inl (Throw out_of_range)) ∈ evs → l' = [].
Proof.
  intros H. induction H as [|l evs l1 i o r l2 H IH Hs]; [set_solver|].
  intros [Hevs [Ho _]%Forall_cons]%Forall_app j [Hin|Hin]%elem_of_app.
  - specialize (IH Hevs j Hin) as ->. cbn in Ho. subst o. by inversion Hs.
  - apply list_elem_of_singleton in Hin. simplify_eq. by inversion Hs.
Qed.

Lemma nothing_put evs : Forall (λ e, event_op e = GetNextElement) evs → puts evs = [].
Proof. induction 1 as [|[[i o] r] evs He _ IH]; [done|]. cbn in He. by subst o. Qed.

Lemma nothing_taken evs : GetNextElement ∉ map event_op evs → taken evs = [].
Proof.
  induction evs as [|[[i o] r] evs IH]; [done|]. cbn. rewrite not_elem_of_cons. intros [Ho H].
  unfold taken in *. cbn. rewrite IH by done. by destruct o.
Qed.

Lemma spec_run_ops v ops evs c (P : op → Prop) :
  steps (ready v ops) evs c → Forall (Forall P) ops → Forall (λ e, P (event_op e)) evs.
Proof.
  intros H Hops%Forall_concat. rewrite <-(programs_perm _ _ _ _ H) in Hops.
  apply Forall_app in Hops as [Hops _]. by apply (Forall_map event_op P).
Qed.

Lemma queue_outcome v l ops :
  repr seg tot v l → queue_programs ops → eventually (outcome l ops) [] (ready v ops).
Proof.
  intros Hr Hops. eapply eventually_impl; [intros evs c; by apply completed_outcome|].
  apply eventually_reached; [constructor|].
  by eapply operations_return, queue_programs_ok.
Qed.

End queue.
End ShmQueue.

(** ** Properties *)

Import SHMVector ShmConcurrent ShmLiveness ShmQueue.

(** C22: the vector is a queue: when processes append, take the first element and
    look at the vector, but none erases at an index, then, however the scheduler
    chooses, every operation returns, and the end is as [outcome] says: nothing
    is lost, invented, taken twice or reordered. *)
Theorem vector_is_queue {T} `{!Pod T} seg tot v l (ops : list (list (@op T))) :
  repr seg tot v l → queue_programs seg ops →
  eventually (outcome seg tot l ops) [] (ready v ops).
Proof. apply queue_outcome. Qed.

Lemma vector_is_queue_witness :
  eventually (outcome 2 8 [] sample_ops) [] (ready sample_empty sample_ops) ∧
  fits 2 8 (length (concat sample_ops ≫= pushed)) ∧
  let evs := (run_schedule sample_schedule (ready sample_empty sample_ops)).1 in
  puts evs = ["a"; "b"]%char ∧ taken evs = ["a"]%char.
Proof.
  split.
  - apply vector_is_queue; [exact sample_empty_repr|repeat constructor].
  - split; [by_decide|]. vm_compute. by split.
Defined.

(** Consumers that take until the vector is empty have taken what was in it, in
    its order, as soon as one of them has been told that it is empty. *)
Theorem consumers_drain {T} `{!Pod T} seg tot v l (ops : list (list (@op T))) evs c i :
  repr seg tot v l → Forall (Forall (λ o, o = GetNextElement)) ops →
  steps (ready v ops) evs c → (i, GetNextElement, inl (Throw out_of_range)) ∈ evs →
  taken evs = l.
Proof.
  intros Hr Hops H Hin. pose proof (spec_run_ops _ _ _ _ _ H Hops) as Hall.
  destruct (linearizable seg tot v l ops evs c) as (l' & Hrun & _); [done| |done|].
  { eapply Forall_impl; [exact Hops|]. intros os Hos.
    eapply Forall_impl; [exact Hos|]. by intros o ->. }
  assert (l ++ puts evs = taken evs ++ l') as E.
  { eapply spec_run_queue; [done|]. eapply Forall_impl; [exact Hall|].
    intros e He. by rewrite He. }
  rewrite nothing_put, (spec_run_drained _ _ _ _ _ Hrun Hall i Hin), !app_nil_r in E by done.
  done.
Qed.

Definition sample_consumers : list (list (@op ascii)) :=
  [[GetNextElement; GetNextElement]; [GetNextElement]].

Lemma consumers_drain_witness :
  let '(evs, _) :=
    run_schedule (replicate 60 0 ++ replicate 60 1) (ready sample_vec sample_consumers) in
  (1, GetNextElement, inl (Throw out_of_range)) ∈ evs ∧ taken evs = ["a"; "b"]%char.
Proof.
  destruct (run_schedule (replicate 60 0 ++ replicate 60 1) (ready sample_vec sample_consumers))
    as [evs c] eqn:E.
  assert ((1, GetNextElement, inl (Throw out_of_range)) ∈ evs) as Hin.
  { vm_compute in E. injection E as <- _. do 2 right. left. }
  split; [exact Hin|].
  apply (consumers_drain 2 8 sample_vec ["a"; "b"]%char sample_consumers evs c 1);
    [exact sample_vec_repr|repeat constructor| |exact Hin].
  exact (run_schedule_steps _ _ _ _ E).
Defined.
