(* ===== verification/ShmClients.v ===== *)
(** * Processes whose calls depend on results

    ShmConcurrent.v runs fixed lists of operations. Here a process decides, when
    a call has returned, which one to make next: a [policy] says which calls it
    may make after what has happened. A simulation reduces such an execution to
    one of fixed lists (those of the calls that were made), so that the
    properties of the vector of src/SHMVector.hpp hold for all its users. *)
From S2P Require Export ShmQueue.
From stdpp Require Import options.

Module ShmClients.
Import SHMVector ShmConcurrent ShmLiveness ShmQueue.

Section clients.
Context {T : Type} `{!Pod T}.

(** ** Executions *)

(** What process [i] may call after the events so far. It may depend on those of
    other processes too, of which they tell each other by other means. *)
Definition policy : Type := list (@event T) → nat → @op T → Prop.

(** The lists of operations are empty: an idle process starts a call of its
    choice, and its accesses are those of [step]. *)
Definition call (i : nat) (o : @op T) (c : @config T) : config :=
  mkConfig (memory c) (lock_ c) (<[i := mkThread [] (Some (o, body o))]> (threads c)).

Inductive client_steps (P : policy) (c : @config T) : list (@event T) → @config T → Prop :=
| clients_refl : client_steps P c [] c
| clients_call evs c1 i t o :
    client_steps P c evs c1 → threads c1 !! i = Some t → current t = None → P evs i o →
    client_steps P c evs (call i o c1)
| clients_access evs c1 i evs' c2 :
    client_steps P c evs c1 → step i c1 = Some (c2, evs') → client_steps P c (evs ++ evs') c2.

Definition idle_clients (v : SHMVector) (n : nat) : @config T := ready v (replicate n []).

(** ** Simulation by fixed lists of operations *)

Lemma alter_insert_eq {A} (f : A → A) (i : nat) x (l : list A) : alter f i (<[i:=x]> l) = <[i:=f x]> l.
Proof. by rewrite !list_insert_alter, list_alter_alter_eq. Qed.

Lemma alter_insert_ne {A} (f : A → A) (i j : nat) x (l : list A) :
  i ≠ j → alter f i (<[j:=x]> l) = <[j:=x]> (alter f i l).
Proof. intros H. by rewrite !list_insert_alter, list_alter_alter_ne. Qed.

Lemma insert_alter_eq {A} (f : A → A) (i : nat) x (l : list A) : <[i:=x]> (alter f i l) = <[i:=x]> l.
Proof. by rewrite !list_insert_alter, list_alter_alter_eq. Qed.

(** One more operation at the end of a list. *)
Definition extend (i : nat) (o : @op T) (c : @config T) : config :=
  mkConfig (memory c) (lock_ c)
    (alter (λ t, mkThread (todo t ++ [o]) (current t)) i (threads c)).

Lemma thread_step_extend v lk t v' lk' t' res o :
  thread_step v lk t = Some (v', lk', t', res) →
  thread_step v lk (mkThread (todo t ++ [o]) (current t)) =
    Some (v', lk', mkThread (todo t' ++ [o]) (current t'), res).
Proof.
  destruct t as [td [[o' p]|]]; cbn.
  - destruct p; [..|destruct lk|idtac|idtac]; intros E; by simplify_eq/=.
  - destruct td; intros E; by simplify_eq/=.
Qed.

Lemma step_extend i o j c c' evs :
  step j c = Some (c', evs) → step j (extend i o c) = Some (extend i o c', evs).
Proof.
  unfold step. destruct (threads c !! j) as [t|] eqn:Ht; [|done]. cbn.
  destruct (thread_step (memory c) (lock_ c) t) as [[[[v lk] t'] res]|] eqn:E; [|done].
  cbn. intros [= <- <-]. destruct (decide (i = j)) as [->|Hne].
  - rewrite list_lookup_alter_eq, Ht. cbn. rewrite (thread_step_extend _ _ _ _ _ _ _ o E). cbn.
    unfold extend. cbn. by rewrite alter_insert_eq, insert_alter_eq.
  - rewrite list_lookup_alter_ne, Ht by done. cbn. rewrite E. cbn.
    unfold extend. cbn. by rewrite alter_insert_ne.
Qed.

Lemma steps_extend i o c evs c' :
  steps c evs c' → steps (extend i o c) evs (extend i o c').
Proof.
  induction 1 as [|evs c1 j evs' c2 _ IH E]; [constructor|].
  econstructor; [exact IH|]. by apply step_extend.
Qed.

Lemma extend_ready i o v ops :
  extend i o (ready v ops) = ready v (alter (λ os, os ++ [o]) i ops).
Proof. unfold extend, ready. cbn. f_equal. symmetry. apply list_fmap_alter. by apply Forall_true. Qed.

(** Clients have no operations besides the one they are in. *)
Lemma clients_todo P v n evs c :
  client_steps P (idle_clients v n) evs c → Forall (λ t, todo t = []) (threads c).
Proof.
  induction 1 as [|evs c1 i t o _ IH Ht Hc _|evs c1 i evs' c2 _ IH E].
  - apply Forall_map. apply Forall_replicate. done.
  - by apply Forall_insert.
  - unfold step in E. destruct (threads c1 !! i) as [t|] eqn:Ht; [|done]. cbn in E.
    destruct (thread_step (memory c1) (lock_ c1) t) as [[[[v' lk] t'] res]|] eqn:Es; [|done].
    cbn in E. injection E as <- _. apply Forall_insert; [done|].
    rewrite Forall_lookup in IH. specialize (IH i t Ht).
    destruct t as [td [[o p]|]]; cbn in IH; subst td; [|done].
    cbn in Es. destruct p; [..|destruct (lock_ c1)|idtac|idtac]; by simplify_eq/=.
Qed.

(** Every execution of clients is one of the lists of the calls they made. *)
Lemma clients_simulated P v n evs c :
  client_steps P (idle_clients v n) evs c →
  ∃ ops, length ops = n ∧ steps (ready v ops) evs c ∧
    ∀ Q, (∀ evs i o, P evs i o → Q o) → Forall (Forall Q) ops.
Proof.
  intros H. induction H as [|evs c1 i t o H (ops & Hlen & Hs & HQ) Ht Hc HP
    |evs c1 i evs' c2 _ (ops & Hlen & Hs & HQ) E].
  - exists (replicate n []). split; [apply length_replicate|]. split; [constructor|].
    intros Q _. by apply Forall_replicate.
  - exists (alter (λ os, os ++ [o]) i ops). split; [by rewrite length_alter|]. split.
    + rewrite <-extend_ready. rewrite <-(app_nil_r evs).
      eapply steps_snoc; [by apply steps_extend|].
      unfold step, extend. cbn. rewrite list_lookup_alter_eq, Ht. cbn.
      pose proof (clients_todo _ _ _ _ _ H) as Htd. rewrite Forall_lookup in Htd.
      rewrite (Htd i t Ht), Hc. cbn. unfold call. by rewrite insert_alter_eq.
    + intros Q HPQ. apply Forall_alter; [by apply HQ|].
      intros os Hos Hin. apply Forall_app. split; [done|]. constructor; [eauto|done].
  - exists ops. split; [done|]. split; [|done]. by eapply steps_snoc.
Qed.

(** ** Calls are those the policy allows *)

(** Process [i] has done nothing since [evs0], when the policy allowed [o]. *)
Definition allowed (P : policy) (evs : list (@event T)) (i : nat) (o : @op T) : Prop :=
  ∃ evs0 evs1, evs = evs0 ++ evs1 ∧ P evs0 i o ∧ Forall (λ e, e.1.1 ≠ i) evs1.

Lemma allowed_app P evs i o evs' :
  allowed P evs i o → Forall (λ e, e.1.1 ≠ i) evs' → allowed P (evs ++ evs') i o.
Proof.
  intros (evs0 & evs1 & -> & HP & H1) H'. exists evs0, (evs1 ++ evs').
  split; [by rewrite app_assoc|]. split; [done|]. by apply Forall_app.
Qed.

(** One access: nothing returns, or the call of its process does. *)
Lemma step_client i c c' evs :
  step i c = Some (c', evs) → Forall (λ t, todo t = []) (threads c) →
  ∃ t t' o p, threads c !! i = Some t ∧ current t = Some (o, p) ∧
    threads c' = <[i := t']> (threads c) ∧
    ((evs = [] ∧ ∃ p', current t' = Some (o, p')) ∨ (current t' = None ∧ ∃ r, evs = [(i, o, r)])).
Proof.
  intros E Htd. unfold step in E. destruct (threads c !! i) as [t|] eqn:Ht; [|done]. cbn in E.
  destruct (thread_step (memory c) (lock_ c) t) as [[[[v lk] t'] res]|] eqn:Es; [|done].
  cbn in E. injection E as <- <-. rewrite Forall_lookup in Htd. specialize (Htd i t Ht).
  destruct t as [td [[o p]|]]; cbn in Htd; subst td; [|done].
  exists (mkThread [] (Some (o, p))), t', o, p. do 3 (split; [done|]). cbn in Es.
  destruct p; [..|destruct (lock_ c)|idtac|idtac]; simplify_eq/=; eauto.
Qed.

Lemma clients_allowed P v n evs c :
  client_steps P (idle_clients v n) evs c →
  (∀ i t o p, threads c !! i = Some t → current t = Some (o, p) → allowed P evs i o) ∧
  ∀ A i o r B, evs = A ++ (i, o, r) :: B → allowed P A i o.
Proof.
  intros H. induction H as [|evs c1 j t o H [IHc IHe] Ht Hc HP|evs c1 j evs' c2 H [IHc IHe] E].
  - split; [|by intros []]. intros i t o p Hi Hc. unfold idle_clients, ready in Hi. cbn in Hi.
    rewrite list_lookup_fmap in Hi. apply fmap_Some in Hi as (os & _ & ->). done.
  - split; [|done]. intros i t' o' p Hi Hc'. destruct (decide (i = j)) as [->|Hne].
    + cbn in Hi. rewrite list_lookup_insert_eq in Hi by eauto using lookup_lt_Some.
      simplify_eq/=. exists evs, []. by rewrite app_nil_r.
    + cbn in Hi. rewrite list_lookup_insert_ne in Hi by done. eauto.
  - pose proof (clients_todo _ _ _ _ _ H) as Htd.
    destruct (step_client _ _ _ _ E Htd) as (t & t' & o & p & Ht & Hc & Ets & Hevs).
    split.
    + intros i ti oi pi Hi Hci. rewrite Ets in Hi. destruct (decide (i = j)) as [->|Hne].
      * rewrite list_lookup_insert_eq in Hi by eauto using lookup_lt_Some.
        destruct Hevs as [[-> (p' & Hp')]|[Hn _]]; simplify_eq/=.
        rewrite app_nil_r. eauto.
      * rewrite list_lookup_insert_ne in Hi by done. apply allowed_app; [eauto|].
        destruct Hevs as [[-> _]|[_ [r ->]]]; repeat constructor. cbn. congruence.
    + intros A i oi r B Eq. destruct Hevs as [[-> _]|[_ [r' ->]]].
      { rewrite app_nil_r in Eq. by eapply IHe. }
      destruct B as [|e B _] using rev_ind.
      * apply app_inj_tail in Eq as [-> [= -> -> ->]]. eauto.
      * rewrite app_comm_cons, app_assoc in Eq. apply app_inj_tail in Eq as [-> _].
        by eapply IHe.
Qed.

(** The calls of process [i] with their results, in order. *)
Definition own (i : nat) (evs : list (@event T)) : list (@op T * (fault + @result T)) :=
  map (λ e, (e.1.2, e.2)) (filter (λ e, e.1.1 = i) evs).

Lemma own_app i A B : own i (A ++ B) = own i A ++ own i B.
Proof. unfold own. by rewrite filter_app, map_app. Qed.

Lemma own_none i A : Forall (λ e, e.1.1 ≠ i) A → own i A = [].
Proof.
  unfold own. induction 1 as [|e A He _ IH]; [done|]. by rewrite filter_cons_False.
Qed.

Lemma own_snoc i A o r : own i (A ++ [(i, o, r)]) = own i A ++ [(o, r)].
Proof. rewrite own_app. unfold own at 2. by rewrite filter_cons_True. Qed.

Lemma performed_own_calls i evs : performed i evs = (own i evs).*1.
Proof.
  unfold performed, own. induction (filter _ evs) as [|[[j o] r] evs' IH]; [done|].
  cbn. by f_equal.
Qed.

(** A property that holds at the start of a process's history, and is kept by
    calls the policy allows, holds of its history at any time. *)
Lemma own_invariant P v n evs c (R : list (@op T * (fault + @result T)) → Prop) i :
  client_steps P (idle_clients v n) evs c → R [] →
  (∀ A o r, P A i o → R (own i A) → R (own i A ++ [(o, r)])) → R (own i evs).
Proof.
  intros H H0 HR. destruct (clients_allowed _ _ _ _ _ H) as [_ He].
  assert (∀ A B, evs = A ++ B → R (own i A)) as Hall; [|apply (Hall evs []); by rewrite app_nil_r].
  induction A as [|[[j o] r] A IH] using rev_ind; intros B ->; [done|].
  assert (R (own i A)) as HA by (apply (IH ([(j, o, r)] ++ B)); by rewrite app_assoc).
  destruct (decide (j = i)) as [->|Hne].
  - rewrite own_snoc. destruct (He A i o r B) as (A0 & A1 & -> & HP & H1); [by rewrite <-app_assoc|].
    rewrite own_app, (own_none i A1), app_nil_r in HA |- * by done. by apply HR.
  - rewrite own_app, (own_none i [_]), app_nil_r; [done|]. by repeat constructor.
Qed.

(** ** Programs *)

(** What a process does with the results of its calls. *)
Inductive client :=
| Stop
| Call (o : @op T) (k : fault + @result T → client).

Inductive reaches : client → list (@op T * (fault + @result T)) → client → Prop :=
| reaches_refl p : reaches p [] p
| reaches_call o k r h p : reaches (k r) h p → reaches (Call o k) ((o, r) :: h) p.

Lemma reaches_snoc p h o k r : reaches p h (Call o k) → reaches p (h ++ [(o, r)]) (k r).
Proof.
  intros H. remember (Call o k) as q eqn:E. induction H as [p|o' k' r' h p _ IH]; subst.
  - repeat constructor.
  - constructor. by apply IH.
Qed.

(** Process [i] runs [prog i]. *)
Definition runs (prog : nat → client) : policy :=
  λ evs i o, ∃ k, reaches (prog i) (own i evs) (Call o k).

Lemma runs_reaches prog v n evs c i :
  client_steps (runs prog) (idle_clients v n) evs c → ∃ p, reaches (prog i) (own i evs) p.
Proof.
  intros H. eapply (own_invariant _ _ _ _ _ (λ h, ∃ p, reaches (prog i) h p)); [done| |].
  - by eexists; constructor.
  - intros A o r [k Hk] _. exists (k r). by apply reaches_snoc.
Qed.

Fixpoint all_calls (Q : @op T → Prop) (p : client) : Prop :=
  match p with Stop => True | Call o k => Q o ∧ ∀ r, all_calls Q (k r) end.

(** No path through the program makes more than [m] appends. *)
Fixpoint appends_at_most (m : nat) (p : client) : Prop :=
  match p with
  | Stop => True
  | Call o k =>
      match pushed o, m with
      | [], _ => ∀ r, appends_at_most m (k r)
      | _, S m => ∀ r, appends_at_most m (k r)
      | _, O => False
      end
  end.

Lemma reaches_all_calls Q p h o k : reaches p h (Call o k) → all_calls Q p → Q o.
Proof.
  intros H. remember (Call o k) as q eqn:E. induction H as [p|o' k' r' h p _ IH]; subst.
  - by intros [? _].
  - intros [_ Hk]. by apply IH.
Qed.

Lemma all_calls_impl (Q R : @op T → Prop) p :
  (∀ o, Q o → R o) → all_calls Q p → all_calls R p.
Proof. intros HQR. induction p as [|o k IH]; [done|]. intros [Ho Hk]. split; eauto. Qed.

Lemma appends_weaken m p : appends_at_most m p → appends_at_most (S m) p.
Proof.
  revert m. induction p as [|o k IH]; intros m; [done|]. cbn.
  destruct (pushed o); [intros H r; by apply IH|]. destruct m as [|m]; [done|].
  intros H r. by apply IH.
Qed.

Lemma reaches_appends m p h q :
  reaches p h q → appends_at_most m p →
  ∃ m', appends_at_most m' q ∧ length (h.*1 ≫= pushed) + m' ≤ m.
Proof.
  intros H. revert m. induction H as [p|o k r h p _ IH]; intros m Hm; [by exists m|].
  cbn in Hm |- *. rewrite length_app. destruct o; cbn in Hm |- *;
    try (by destruct (IH m (Hm r)) as (m' & ? & ?); exists m').
  destruct m as [|m]; [done|]. destruct (IH m (Hm r)) as (m' & ? & ?). exists m'. split; [done|lia].
Qed.

Lemma concat_appends k (ops : list (list (@op T))) :
  Forall (λ os, length (os ≫= pushed) ≤ k) ops → length (concat ops ≫= pushed) ≤ length ops * k.
Proof.
  induction 1 as [|os ops Hos _ IH]; [done|]. cbn. rewrite bind_app, length_app. lia.
Qed.

(** The number of appends in an execution of programs. *)
Lemma runs_appends prog m v n evs c :
  client_steps (runs prog) (idle_clients v n) evs c → (∀ i, appends_at_most m (prog i)) →
  length (map event_op evs ≫= pushed) ≤ n * m.
Proof.
  intros H Hm. destruct (clients_simulated _ _ _ _ _ H) as (ops & <- & Hs & _).
  pose proof (programs_perm _ _ _ _ Hs) as Hperm.
  transitivity (length (concat ops ≫= pushed)).
  { rewrite <-Hperm, bind_app, length_app. lia. }
  apply concat_appends, Forall_lookup. intros i os Hi.
  destruct (program_order _ _ _ _ _ _ Hs Hi) as (t & Ht & ->).
  rewrite performed_own_calls. destruct (runs_reaches _ _ _ _ _ i H) as [p Hp].
  pose proof (clients_todo _ _ _ _ _ H) as Htd. rewrite Forall_lookup in Htd.
  specialize (Htd i t Ht). rewrite bind_app, length_app. unfold pending. rewrite Htd.
  destruct (current t) as [[o q]|] eqn:Hc.
  - destruct (clients_allowed _ _ _ _ _ H) as [Hal _].
    destruct (Hal i t o q Ht Hc) as (A0 & A1 & -> & [k Hk] & H1).
    rewrite own_app, (own_none i A1), app_nil_r by done.
    destruct (reaches_appends m _ _ _ Hk (Hm i)) as (m' & Hm' & Hle). cbn in Hm' |- *.
    destruct o; cbn in *; try lia. destruct m'; [done|lia].
  - destruct (reaches_appends m _ _ _ Hp (Hm i)) as (m' & _ & Hle). cbn. lia.
Qed.

(** ** Running clients *)

Inductive action :=
| Begin (i : nat) (o : @op T)
| Access (i : nat).

(** [None]: a call that is not allowed, or of a process that is in one. An access
    of a process that spins is passed over. *)
Fixpoint run_actions (allow : list (@event T) → nat → @op T → bool) (acts : list action)
    (evs : list (@event T)) (c : @config T) : option (list (@event T) * @config T) :=
  match acts with
  | [] => Some (evs, c)
  | Begin i o :: acts =>
      match threads c !! i with
      | Some (mkThread _ None) =>
          if allow evs i o then run_actions allow acts evs (call i o c) else None
      | _ => None
      end
  | Access i :: acts =>
      match step i c with
      | Some (c', evs') => run_actions allow acts (evs ++ evs') c'
      | None => run_actions allow acts evs c
      end
  end.

Lemma run_actions_steps (P : policy) allow c0 acts evs c evs' c' :
  (∀ evs i o, allow evs i o = true → P evs i o) →
  client_steps P c0 evs c → run_actions allow acts evs c = Some (evs', c') →
  client_steps P c0 evs' c'.
Proof.
  intros HP. revert evs c. induction acts as [|[i o|i] acts IH]; intros evs c H E; cbn in E.
  - by simplify_eq.
  - destruct (threads c !! i) as [[td [|]]|] eqn:Ht; [done| |done].
    destruct (allow evs i o) eqn:Ha; [|done]. eapply IH; [|exact E].
    eapply clients_call; [done|exact Ht|done|by apply HP].
  - destruct (step i c) as [[c1 evs1]|] eqn:Es; [|by eapply IH].
    eapply IH; [|exact E]. by eapply clients_access.
Qed.

#[global] Instance op_eq_dec `{!EqDecision T} : EqDecision (@op T).
Proof. solve_decision. Defined.

(** The state of a program after a history, if it is one of the program. *)
Fixpoint follow `{!EqDecision T} (p : client) (h : list (@op T * (fault + @result T))) :
    option client :=
  match h, p with
  | [], _ => Some p
  | (o, r) :: h, Call o' k => if decide (o = o') then follow (k r) h else None
  | _, Stop => None
  end.

Definition next_of `{!EqDecision T} (prog : nat → client) (evs : list (@event T)) (i : nat)
    (o : @op T) : bool :=
  match follow (prog i) (own i evs) with Some (Call o' _) => bool_decide (o = o') | _ => false end.

Lemma next_of_runs `{!EqDecision T} prog evs i o : next_of prog evs i o = true → runs prog evs i o.
Proof.
  unfold next_of, runs. generalize (prog i) (own i evs). intros p h. revert p.
  induction h as [|[o' r] h IH]; intros p; cbn.
  - destruct p as [|o'' k]; [done|]. cbn. intros ->%bool_decide_eq_true. exists k. constructor.
  - destruct p as [|o'' k]; [done|]. cbn. case_decide as Ho; [|done]. subst o''.
    intros [k' Hk']%IH. exists k'. by constructor.
Qed.

End clients.
Arguments client T : clear implicits.
Arguments action T : clear implicits.
End ShmClients.

(** ** Properties *)

Import SHMVector ShmConcurrent ShmLiveness ShmQueue ShmClients.

(** Two programs: one appends twice; the other tries to take an element twice, and
    looks at the size once it has got one. *)
Definition sample_programs (i : nat) : client ascii :=
  if decide (i = 0) then Call (PushBack "a"%char) (λ _, Call (PushBack "b"%char) (λ _, Stop))
  else
    let again := λ r : fault + result, match r with inr _ => Call Size (λ _, Stop) | inl _ => Stop end in
    Call GetNextElement (λ r,
      match r with
      | inr _ => Call Size (λ _, Stop)
      | inl _ => Call GetNextElement again
      end).

Definition sample_actions : list (action ascii) :=
  [Begin 1 GetNextElement; Begin 0 (PushBack "a"%char)] ++ replicate 5 (Access 1) ++
  replicate 12 (Access 0) ++ [Begin 1 GetNextElement; Begin 0 (PushBack "b"%char)] ++
  concat (replicate 15 [Access 1; Access 0]) ++ [Begin 1 Size] ++ replicate 4 (Access 1).

Definition sample_events : list (@event ascii) :=
  [(1, GetNextElement, inl (Throw out_of_range)); (0, PushBack "a"%char, inr RUnit);
   (1, GetNextElement, inr (RVal "a"%char)); (0, PushBack "b"%char, inr RUnit);
   (1, Size, inr (RSize 1))].

Lemma sample_client_run :
  ∃ c, client_steps (runs sample_programs) (idle_clients sample_empty 2) sample_events c.
Proof.
  destruct (run_actions (next_of sample_programs) sample_actions [] (idle_clients sample_empty 2))
    as [[evs c]|] eqn:E; [|by vm_compute in E].
  assert (evs = sample_events) as -> by (vm_compute in E; by injection E).
  exists c. eapply run_actions_steps; [apply next_of_runs|apply clients_refl|exact E].
Defined.

(** C19: the vector is linearizable for processes that choose their calls by what has
    happened: the results are those of the same operations performed one after
    the other on a list, in the order in which they release the lock, and each
    call was allowed when its process made it. *)
Theorem vector_serves_clients {T} `{!Pod T} seg tot v l (P : policy) n evs c :
  repr seg tot v l → (∀ evs i o, P evs i o → op_ok seg o) →
  client_steps P (idle_clients v n) evs c →
  (∃ l', spec_run seg tot l evs l' ∧ (lock_ c = false → repr seg tot (memory c) l')) ∧
  ∀ A i o r B, evs = A ++ (i, o, r) :: B → allowed P A i o.
Proof.
  intros Hr HP H. split; [|by apply (clients_allowed _ _ _ _ _ H)].
  destruct (clients_simulated _ _ _ _ _ H) as (ops & _ & Hs & HQ).
  by apply (linearizable seg tot v l ops); [|apply HQ|].
Qed.

Lemma sample_programs_ok i :
  all_calls (λ o, op_ok 2 o ∧ no_erase o) (sample_programs i) ∧
  appends_at_most 2 (sample_programs i).
Proof.
  unfold sample_programs. case_decide; cbn;
    repeat first [exact I|split|let r := fresh "r" in intros r; destruct r; cbn].
Defined.

Lemma vector_serves_clients_witness :
  ∃ c : @config ascii, (∃ l', spec_run 2 8 [] sample_events l' ∧ (lock_ c = false → repr 2 8 (memory c) l')) ∧
    ∀ A i o r B, sample_events = A ++ (i, o, r) :: B → allowed (runs sample_programs) A i o.
Proof.
  destruct sample_client_run as [c H]. exists c.
  apply (vector_serves_clients 2 8 sample_empty [] (runs sample_programs) 2 sample_events c);
    [exact sample_empty_repr| |exact H].
  intros evs i o [k Hk]. exact (proj1 (reaches_all_calls _ _ _ _ _ Hk (proj1 (sample_programs_ok i)))).
Defined.

(** Programs that use the vector as a queue, [n] of them with at most [m] appends
    each, on a memory with room for twice what that makes: the vector delivers in
    order, and no call fails but a look at, or a removal of, an element that is
    not there (or a [reserve]). *)
Theorem queue_clients_safe {T} `{!Pod T} seg tot v l (prog : nat → client T) n m evs c :
  repr seg tot v l →
  (∀ i, all_calls (λ o, op_ok seg o ∧ no_erase o) (prog i) ∧ appends_at_most m (prog i)) →
  fits seg tot (length l + n * m) →
  client_steps (runs prog) (idle_clients v n) evs c →
  (∃ l', l ++ puts evs = taken evs ++ l' ∧ (lock_ c = false → repr seg tot (memory c) l')) ∧
  ∀ i o f, (i, o, inl f) ∈ evs → (∃ k, o = Reserve k) ∨ f = Throw out_of_range ∧ names_element o.
Proof.
  intros Hr Hprog Hfit H.
  assert (∀ evs i o, runs prog evs i o → op_ok seg o ∧ no_erase o) as HP.
  { intros A i o [k Hk]. eapply (reaches_all_calls (λ o, op_ok seg o ∧ no_erase o));
      [exact Hk|apply Hprog]. }
  pose proof (runs_appends prog m v n evs c H (λ i, proj2 (Hprog i))) as Hm.
  destruct (clients_simulated _ _ _ _ _ H) as (ops & _ & Hs & HQ).
  assert (queue_programs seg ops) as Hops by (by apply HQ).
  pose proof (performed_no_erase seg _ _ _ _ Hops Hs) as Hne.
  destruct (linearizable seg tot v l ops evs c) as (l' & Hrun & Hl');
    [done|by eapply queue_programs_ok|done|].
  split; [exists l'; split; [by eapply spec_run_queue|done]|].
  eapply spec_run_fits; [done|done|]. destruct Hfit. split; [nia|lia].
Qed.

(** Memory for sixteen elements, and the run above. *)
Definition roomy_memory : bytes := replicate 32 "000"%char.
Definition roomy_empty : SHMVector := mkVec 2 0 0 roomy_memory 32.

Lemma roomy_empty_repr : repr (T := ascii) 2 32 roomy_empty [].
Proof. split; [split; [split; by_decide|done|by_decide|done]|done]. Defined.

Lemma queue_clients_safe_witness :
  ∃ evs c, client_steps (runs sample_programs) (idle_clients roomy_empty 2) evs c ∧
    evs = sample_events ∧
    (∃ l', [] ++ puts evs = taken evs ++ l' ∧ (lock_ c = false → repr 2 32 (memory c) l')) ∧
    ∀ i o f, (i, o, inl f) ∈ evs → (∃ k, o = Reserve k) ∨ f = Throw out_of_range ∧ names_element o.
Proof.
  destruct (run_actions (next_of sample_programs) sample_actions [] (idle_clients roomy_empty 2))
    as [[evs c]|] eqn:E; [|by vm_compute in E].
  assert (client_steps (runs sample_programs) (idle_clients roomy_empty 2) evs c) as H.
  { eapply run_actions_steps; [apply next_of_runs|apply clients_refl|exact E]. }
  exists evs, c. split; [exact H|]. split; [vm_compute in E; by injection E|].
  apply (queue_clients_safe 2 32 roomy_empty [] sample_programs 2 2 evs c);
    [exact roomy_empty_repr|exact sample_programs_ok|by_decide|exact H].
Defined.
