(* ===== verification/ShmProducers.v ===== *)
(** * Producers and consumers

    The pattern of test_custom_vector_multithreaded_producer_consumer in
    test/integration/custom-vector/test-SHMVector.cpp, for any number of
    producers and consumers: a producer appends its elements; a consumer takes
    elements until it sees the flag that all producers are done and then the
    vector empty. *)
From S2P Require Export ShmClients.
From stdpp Require Import options.

Module ShmProducers.
Import SHMVector ShmConcurrent ShmLiveness ShmQueue ShmClients.

Section producers.
Context {T : Type} `{!Pod T}.

(** ** Helpers *)

Lemma own_last i (evs : list (@event T)) o r :
  last (own i evs) = Some (o, r) → ∃ A B, evs = A ++ (i, o, r) :: B.
Proof.
  induction evs as [|[[j o'] r'] evs IH] using rev_ind; [done|]. intros H.
  destruct (decide (j = i)) as [->|Hne].
  - assert (last (own i evs ++ [(o', r')]) = Some (o, r)) as Hl
      by (rewrite <-H; f_equal; symmetry; apply own_snoc).
    rewrite last_snoc in Hl. simplify_eq. by exists evs, [].
  - assert (own i (evs ++ [(j, o', r')]) = own i evs) as Ho.
    { etransitivity; [apply own_app|]. rewrite (own_none i [_]), app_nil_r; [done|].
      by repeat constructor. }
    assert (last (own i evs) = Some (o, r)) as Hl by (rewrite <-H; f_equal; by symmetry).
    destruct (IH Hl) as (A & B & ->). exists A, (B ++ [(j, o', r')]).
    by rewrite <-app_assoc.
Qed.

Lemma spec_run_split seg tot l A B l2 :
  spec_run seg tot l (A ++ B) l2 →
  ∃ l1, spec_run seg tot l A l1 ∧ spec_run (T := T) seg tot l1 B l2.
Proof.
  revert l2. induction B as [|[[i o] r] B IH] using rev_ind; intros l2 H.
  - rewrite app_nil_r in H. exists l2. split; [done|constructor].
  - rewrite app_assoc in H. inversion H as [|? evs l1 i' o' r' ? H1 Hs E1 E2]; subst.
    { by destruct (A ++ B). }
    apply app_inj_tail in E2 as [-> [= -> -> ->]]. destruct (IH _ H1) as (l0 & HA & HB).
    exists l0. split; [done|]. by econstructor.
Qed.

Lemma concat_pushed (ops : list (list (@op T))) (yss : list (list T)) :
  length yss ≤ length ops → (∀ i os, ops !! i = Some os → os ≫= pushed = default [] (yss !! i)) →
  concat ops ≫= pushed = concat yss.
Proof.
  revert yss. induction ops as [|os ops IH]; intros yss Hlen H.
  - destruct yss; [done|]. cbn in Hlen. lia.
  - cbn. rewrite bind_app. rewrite (H 0 os eq_refl). destruct yss as [|ys yss]; cbn.
    + apply (IH []); [cbn; lia|]. intros i os' Hi. exact (H (S i) os' Hi).
    + f_equal. apply IH; [cbn in Hlen; lia|]. intros i os' Hi. exact (H (S i) os' Hi).
Qed.

Lemma no_pushes (os : list (@op T)) : Forall (λ o, pushed o = []) os → os ≫= pushed = [].
Proof. induction 1 as [|o os Ho _ IH]; [done|]. cbn. by rewrite Ho. Qed.

Lemma pushes_back (xs : list T) : map PushBack xs ≫= pushed = xs.
Proof. induction xs as [|x xs IH]; [done|]. cbn in *. by rewrite IH. Qed.

(** ** The processes *)

(** The elements of the producers, which are the first processes. *)
Variable xss : list (list T).

(** All producers have been joined. *)
Definition produced (evs : list (@event T)) : Prop :=
  ∀ i xs, xss !! i = Some xs → performed i evs = map PushBack xs.

Definition producer_call (evs : list (@event T)) (i : nat) (o : @op T) : Prop :=
  ∃ xs x, xss !! i = Some xs ∧ xs !! length (own i evs) = Some x ∧ o = PushBack x.

(** The condition of the loop reads the flag [production_done], which is set some
    time after the producers have been joined: when it is not set, and when the
    vector is not empty, the consumer takes an element. *)
Definition consumer_call (evs : list (@event T)) (i : nat) (o : @op T) : Prop :=
  match last (own i evs) with
  | None | Some (GetNextElement, _) => o = GetNextElement ∨ (o = Size ∧ produced evs)
  | Some (Size, inr (RSize n)) => (n > 0)%Z ∧ o = GetNextElement
  | _ => False
  end.

Definition producers_consumers : policy :=
  λ evs i o, if decide (i < length xss) then producer_call evs i o else consumer_call evs i o.

(** The consumer has left its loop. *)
Definition finished (evs : list (@event T)) (i : nat) : Prop :=
  length xss ≤ i ∧ last (own i evs) = Some (Size, inr (RSize 0)).

(** ** Histories *)

Lemma producer_policy A i xs o :
  xss !! i = Some xs → producers_consumers A i o →
  ∃ x, xs !! length (own i A) = Some x ∧ o = PushBack x.
Proof.
  intros Hi. unfold producers_consumers.
  rewrite decide_True by (by eapply lookup_lt_Some). intros (xs' & x & ? & ? & ->).
  simplify_eq. by exists x.
Qed.

Lemma consumer_policy A i o :
  length xss ≤ i → producers_consumers A i o →
  (o = GetNextElement ∨ o = Size) ∧ (o = Size → produced A).
Proof.
  intros Hi. unfold producers_consumers. rewrite decide_False by lia. unfold consumer_call.
  destruct (last (own i A)) as [[[| | | | | |] [|[]]]|]; naive_solver.
Qed.

Lemma policy_ok seg A i o : producers_consumers A i o → op_ok seg o ∧ no_erase o.
Proof.
  intros H. destruct (decide (i < length xss)) as [Hi|Hi].
  - apply lookup_lt_is_Some_2 in Hi as [xs Hxs].
    by destruct (producer_policy _ _ _ _ Hxs H) as (x & _ & ->).
  - by destruct (consumer_policy A i o) as [[-> | ->] _]; [lia|done|..].
Qed.

Section execution.
Set Default Proof Using "Type*".
Context {v : @SHMVector} {n : nat} {evs : list (@event T)} {c : @config T}.
Hypothesis Hrun : client_steps producers_consumers (idle_clients v n) evs c.

Lemma producer_history i xs :
  xss !! i = Some xs →
  (own i evs).*1 = map PushBack (take (length (own i evs)) xs) ∧ length (own i evs) ≤ length xs.
Proof.
  intros Hi. eapply (own_invariant _ _ _ _ _ (λ h,
    h.*1 = map PushBack (take (length h) xs) ∧ length h ≤ length xs)); [exact Hrun|split; [done|cbn; lia]|].
  intros A o r HP [IH Hlen]. destruct (producer_policy _ _ _ _ Hi HP) as (x & Hx & ->).
  rewrite fmap_app, length_app, IH. cbn. rewrite Nat.add_1_r, (take_S_r _ _ _ Hx), map_app.
  split; [done|]. by apply lookup_lt_Some in Hx.
Qed.

Lemma consumer_history i :
  length xss ≤ i → Forall (λ h, pushed h.1 = []) (own i evs).
Proof.
  intros Hi. eapply (own_invariant _ _ _ _ _ (Forall (λ h, pushed h.1 = []))); [exact Hrun|done|].
  intros A o r HP IH. apply Forall_app. split; [done|]. constructor; [|done].
  by destruct (consumer_policy _ _ _ Hi HP) as [[-> | ->] _].
Qed.

(** A producer that is done calls nothing more. *)
Lemma done_producer A B i xs :
  evs = A ++ B → xss !! i = Some xs → performed i A = map PushBack xs → performed i B = [].
Proof.
  intros E Hi HA. destruct (producer_history i xs Hi) as [_ Hlen].
  assert (length (performed i evs) ≤ length xs) as H
    by (rewrite performed_own_calls, length_fmap; exact Hlen).
  rewrite E, performed_app, HA, length_app, length_map in H.
  apply length_zero_iff_nil. lia.
Qed.

(** After that, nothing is appended. *)
Lemma nothing_appended A B : evs = A ++ B → produced A → puts B = [].
Proof.
  intros E HA. apply length_zero_iff_nil, Nat.le_0_r.
  etransitivity; [apply puts_pushed|]. apply Nat.le_0_r, length_zero_iff_nil.
  assert (∀ e, e ∈ B → pushed (event_op e) = []) as HB.
  { intros [[i o] r] Hin. destruct (decide (i < length xss)) as [Hi|Hi].
    - apply lookup_lt_is_Some_2 in Hi as [xs Hxs]. exfalso.
      pose proof (done_producer A B i xs E Hxs (HA i xs Hxs)) as HBi.
      assert (o ∈ performed i B) as Hio; [|rewrite HBi in Hio; by apply elem_of_nil in Hio].
      unfold performed. apply list_elem_of_fmap. exists (i, o, r). split; [done|].
      by apply list_elem_of_filter.
    - assert (length xss ≤ i) as Hi' by lia. pose proof (consumer_history i Hi') as Hc.
      rewrite Forall_forall in Hc. apply (Hc (o, r)). rewrite E. unfold own.
      apply list_elem_of_fmap. exists (i, o, r). split; [done|].
      apply list_elem_of_filter. split; [done|]. apply elem_of_app. by right. }
  clear E. induction B as [|e B IH]; [done|]. cbn.
  rewrite HB, IH by set_solver. done.
Qed.

Lemma still_produced A B : evs = A ++ B → produced A → produced evs.
Proof.
  intros E HA i xs Hi. rewrite E, performed_app, (HA i xs Hi), (done_producer A B i xs E Hi).
  - by rewrite app_nil_r.
  - by apply HA.
Qed.

End execution.

(** What process [i] has appended, and that nothing is on its way. *)
Lemma performed_pushes v n evs c i :
  client_steps producers_consumers (idle_clients v n) evs c → produced evs →
  performed i evs ≫= pushed = default [] (xss !! i).
Proof.
  intros H Hp. destruct (xss !! i) as [xs|] eqn:Hi; cbn.
  - by rewrite (Hp i xs Hi), pushes_back.
  - apply lookup_ge_None in Hi. rewrite performed_own_calls. apply no_pushes, Forall_fmap.
    exact (consumer_history H i Hi).
Qed.

Lemma pending_pushes v n evs c i t :
  client_steps producers_consumers (idle_clients v n) evs c → produced evs →
  threads c !! i = Some t → pending t ≫= pushed = [].
Proof.
  intros H Hp Ht. pose proof (clients_todo _ _ _ _ _ H) as Htd.
  rewrite Forall_lookup in Htd. specialize (Htd i t Ht). unfold pending. rewrite Htd.
  destruct (current t) as [[o p]|] eqn:Hc; [|done].
  destruct (clients_allowed _ _ _ _ _ H) as [Hal _].
  destruct (Hal i t o p Ht Hc) as (A0 & A1 & -> & HP & H1).
  destruct (decide (i < length xss)) as [Hlt|Hge].
  - apply lookup_lt_is_Some_2 in Hlt as [xs Hi]. exfalso.
    destruct (producer_policy _ _ _ _ Hi HP) as (x & Hx & ->).
    pose proof (Hp i xs Hi) as Hperf. apply (f_equal length) in Hperf.
    rewrite performed_own_calls, length_fmap, length_map, own_app, (own_none i A1),
      app_nil_r in Hperf by done.
    apply lookup_lt_Some in Hx. lia.
  - by destruct (consumer_policy A0 i o) as [[-> | ->] _]; [lia|done|..].
Qed.

(** The appends of an execution whose producers are done. *)
Lemma appended_perm v n evs c :
  client_steps producers_consumers (idle_clients v n) evs c → produced evs → length xss ≤ n →
  map event_op evs ≫= pushed ≡ₚ concat xss.
Proof.
  intros H Hp Hn. destruct (clients_simulated _ _ _ _ _ H) as (ops & <- & Hs & _).
  pose proof (programs_perm _ _ _ _ Hs) as Hperm.
  assert (concat ops ≫= pushed = concat xss) as <-.
  { apply concat_pushed; [done|]. intros j os Hj.
    destruct (program_order _ _ _ _ _ _ Hs Hj) as (t & Ht & ->).
    by rewrite bind_app, (performed_pushes _ _ _ _ j H Hp), (pending_pushes _ _ _ _ j t H Hp Ht),
      app_nil_r. }
  rewrite <-Hperm, bind_app.
  assert (∀ ts : list (@thread T), Forall (λ t, pending t ≫= pushed = []) ts →
    (ts ≫= pending) ≫= pushed = []) as Hts.
  { induction 1 as [|t ts Ht _ IH]; [done|]. cbn. by rewrite bind_app, Ht, IH. }
  rewrite Hts, app_nil_r; [done|]. apply Forall_lookup. intros j t Ht.
  exact (pending_pushes _ _ _ _ j t H Hp Ht).
Qed.

(** The end of the pattern. *)
Lemma everything_taken seg tot v n evs c i :
  repr (T := T) seg tot v [] → fits seg tot (length (concat xss)) → length xss ≤ n →
  client_steps producers_consumers (idle_clients v n) evs c → finished evs i →
  produced evs ∧ taken evs = puts evs ∧ taken evs ≡ₚ concat xss ∧
  (lock_ c = false → repr (T := T) seg tot (memory c) []).
Proof.
  intros Hr Hfit Hn H [Hi Hlast]. destruct (own_last _ _ _ _ Hlast) as (A & B & E).
  destruct (clients_allowed _ _ _ _ _ H) as [_ Hal].
  destruct (Hal A i _ _ B E) as (A0 & A1 & EA & HP & _).
  destruct (consumer_policy _ _ _ Hi HP) as [_ HpA]. specialize (HpA eq_refl).
  assert (produced evs) as Hp.
  { eapply (still_produced H A0); [|done]. by rewrite E, EA, <-app_assoc. }
  destruct (clients_simulated _ _ _ _ _ H) as (ops & Hlen & Hs & HQ).
  assert (queue_programs seg ops) as Hops by (apply HQ; intros ? ? ?; apply policy_ok).
  pose proof (performed_no_erase seg _ _ _ _ Hops Hs) as Hne.
  destruct (linearizable seg tot v [] ops evs c) as (l' & Hrun & Hl');
    [done|by eapply queue_programs_ok|done|].
  assert (map event_op evs ≫= pushed ≡ₚ concat xss) as Hpush by by eapply appended_perm.
  assert (puts evs = taken evs ++ l') as Hq by exact (spec_run_queue seg tot [] evs l' Hrun Hne).
  destruct (spec_run_fits seg tot [] evs l' Hrun Hne) as [Hputs _].
  { by rewrite Hpush. }
  assert (l' = []) as ->.
  { rewrite E in Hrun. apply spec_run_split in Hrun as (l1 & _ & HB).
    change (?e :: B) with ([e] ++ B) in HB. apply spec_run_split in HB as (l2 & H1 & HB).
    assert (l2 = []) as ->.
    { apply (spec_run_split seg tot l1 [] [_]) in H1 as (l0 & _ & H1).
      inversion H1 as [|? evs0 l3 i' o' r' ? _ Hs1 E1 E2]; subst.
      destruct evs0 as [|? []]; simplify_eq/=. inversion Hs1; subst. apply nil_length_inv. lia. }
    assert (Forall (λ e, no_erase (event_op e)) B) as HneB.
    { rewrite E in Hne. apply Forall_app in Hne as [_ Hne]. by apply Forall_cons in Hne as [_ ?]. }
    pose proof (spec_run_queue _ _ _ _ _ HB HneB) as HqB.
    assert (puts (A1 ++ [(i, Size, inr (RSize 0))] ++ B) = []) as Hno.
    { eapply (nothing_appended H A0); [by rewrite E, EA, <-app_assoc|done]. }
    unfold puts in Hno, HqB. rewrite !bind_app in Hno. apply app_nil in Hno as [_ Hno].
    apply app_nil in Hno as [_ Hno]. rewrite Hno in HqB. symmetry in HqB.
    by apply app_nil in HqB as [_ ?]. }
  rewrite app_nil_r in Hq. split; [done|]. split; [done|]. split; [by rewrite <-Hq, Hputs|done].
Qed.

(** A test of what is allowed. *)
Definition allow `{!EqDecision T} (evs : list (@event T)) (i : nat) (o : @op T) : bool :=
  match xss !! i with
  | Some xs =>
      match xs !! length (own i evs) with Some x => bool_decide (o = PushBack x) | None => false end
  | None =>
      match last (own i evs), o with
      | (None | Some (GetNextElement, _)), GetNextElement => true
      | (None | Some (GetNextElement, _)), Size =>
          bool_decide (Forall (λ p, performed p.1 evs = map PushBack p.2)
            (imap (λ i xs, (i, xs)) xss))
      | Some (Size, inr (RSize n)), GetNextElement => bool_decide (n > 0)%Z
      | _, _ => false
      end
  end.

Lemma allow_policy `{!EqDecision T} evs i o :
  allow evs i o = true → producers_consumers evs i o.
Proof.
  unfold allow, producers_consumers. destruct (xss !! i) as [xs|] eqn:Hi.
  - rewrite decide_True by (by eapply lookup_lt_Some).
    destruct (xs !! _) as [x|] eqn:Hx; [|done]. intros ->%bool_decide_eq_true. by exists xs, x.
  - rewrite decide_False by (apply lookup_ge_None in Hi; lia). unfold consumer_call.
    assert (bool_decide (Forall (λ p, performed p.1 evs = map PushBack p.2)
      (imap (λ i xs, (i, xs)) xss)) = true → produced evs) as Hp.
    { intros Hall%bool_decide_eq_true j xs Hj. rewrite Forall_lookup in Hall.
      apply (Hall j (j, xs)). by rewrite list_lookup_imap, Hj. }
    destruct (last (own i evs)) as [[[| | | | | |] [|[]]]|], o; try done; auto.
    by intros ?%bool_decide_eq_true.
Qed.

End producers.
End ShmProducers.

(** ** Properties *)

Import SHMVector ShmConcurrent ShmLiveness ShmQueue ShmClients ShmProducers.

(** C23: when a consumer has left its loop, the producers have appended all their
    elements, the elements taken are the elements appended, in the order of the
    appends, and nothing is left. *)
Theorem consumers_get_everything {T} `{!Pod T} seg tot v (xss : list (list T)) n evs c i :
  repr (T := T) seg tot v [] → fits seg tot (length (concat xss)) → length xss ≤ n →
  client_steps (producers_consumers xss) (idle_clients v n) evs c → finished xss evs i →
  produced xss evs ∧ taken evs = puts evs ∧ taken evs ≡ₚ concat xss ∧
  (lock_ c = false → repr (T := T) seg tot (memory c) []).
Proof. apply everything_taken. Qed.

(** One producer and one consumer, which at first finds nothing. *)
Definition sample_elements : list (list ascii) := [["a"; "b"]%char].

Definition sample_pattern : list (action ascii) :=
  let run o i := Begin i o :: replicate 15 (Access i) in
  run GetNextElement 1 ++ run (PushBack "a"%char) 0 ++ run GetNextElement 1 ++
  [Begin 0 (PushBack "b"%char)] ++ run GetNextElement 1 ++ replicate 15 (Access 0) ++
  replicate 15 (Access 1) ++ run Size 1 ++ run GetNextElement 1 ++ run Size 1.

Lemma consumers_get_everything_witness :
  ∃ evs (c : @config ascii), finished sample_elements evs 1 ∧
    produced sample_elements evs ∧ taken evs = puts evs ∧ taken evs ≡ₚ ["a"; "b"]%char ∧
    (lock_ c = false → repr (T := ascii) 2 8 (memory c) []).
Proof.
  destruct (run_actions (allow sample_elements) sample_pattern [] (idle_clients sample_empty 2))
    as [[evs c]|] eqn:E; [|by vm_compute in E].
  assert (client_steps (producers_consumers sample_elements) (idle_clients sample_empty 2) evs c)
    as H by (eapply run_actions_steps; [apply allow_policy|apply clients_refl|exact E]).
  assert (finished sample_elements evs 1) as Hf.
  { split; [by_decide|]. vm_compute in E. injection E as <- _. reflexivity. }
  exists evs, c. split; [exact Hf|].
  apply (consumers_get_everything 2 8 sample_empty sample_elements 2 evs c 1);
    [exact sample_empty_repr|by_decide|by_decide|exact H|exact Hf].
Defined.
