(* ===== verification/ShmThreadTests.v ===== *)
(** * The multi-threaded test cases of the shared-memory vector

    test/integration/custom-vector/test-SHMVector.cpp, the cases that start
    threads. What such a case checks is proved for every interleaving of the
    memory accesses of its threads. *)
From S2P Require Export ShmProducers.
From stdpp Require Import options.

(** ** Elements of several bytes *)

#[export] Program Instance pod_pair {A B} `{!Pod A, !Pod B} : Pod (A * B) := {|
  sizeof := @sizeof A _ + @sizeof B _;
  to_bytes p := to_bytes p.1 ++ to_bytes p.2;
  of_bytes bs := (of_bytes (take (@sizeof A _) bs), of_bytes (drop (@sizeof A _) bs))
|}.
Next Obligation. intros A B ? ?. pose proof (@sizeof_pos A _). lia. Qed.
Next Obligation. intros A B ? ? [a b]. cbn. by rewrite length_app, !to_bytes_length. Qed.
Next Obligation.
  intros A B ? ? [a b]. cbn.
  by rewrite take_app_length', drop_app_length', !of_to_bytes by by rewrite to_bytes_length.
Qed.

Module ShmThreadTests.
Import SHMVector ShmConcurrent ShmLiveness ShmQueue ShmClients ShmProducers.

(** An [int] is its four bytes. *)
Abbreviation int := ((ascii * ascii) * (ascii * ascii))%type (only parsing).

Definition byte_of (k : Z) (z : Z) : ascii := Ascii.ascii_of_N (Z.to_N (u8 (Z.shiftr z k))).

Definition int_of (z : Z) : int := ((byte_of 0 z, byte_of 8 z), (byte_of 16 z, byte_of 24 z)).

(** Different numbers have different bytes: checked on their decoding. *)
Definition value_of (x : int) : Z :=
  let '((a, b), (c, d)) := x in
  let n c := Z.of_N (Ascii.N_of_ascii c) in
  (n a + 2 ^ 8 * n b + 2 ^ 16 * n c + 2 ^ 24 * n d)%Z.

Fixpoint increasing (l : list Z) : bool :=
  match l with
  | x :: ((y :: _) as l) => (x <? y)%Z && increasing l
  | _ => true
  end.

Lemma increasing_NoDup (xs : list int) : increasing (map value_of xs) = true → NoDup xs.
Proof.
  intros H. apply (NoDup_fmap_1 value_of).
  assert (∀ x l, increasing (x :: l) = true → Forall (Z.lt x) l ∧ NoDup l) as Hall.
  { intros x l. revert x. induction l as [|y l IH]; intros x Hi; [by repeat constructor|].
    change (increasing _) with ((x <? y)%Z && increasing (y :: l)) in Hi.
    apply andb_true_iff in Hi as [Hxy%Z.ltb_lt Hi]. destruct (IH y Hi) as [Hy Hn].
    split; [constructor; [done|]; eapply Forall_impl; [exact Hy|]; cbn; lia|].
    constructor; [|done]. intros Hin. rewrite Forall_forall in Hy. specialize (Hy _ Hin). lia. }
  change (value_of <$> xs) with (map value_of xs). destruct (map value_of xs) as [|x l]; [constructor|].
  destruct (Hall x l H) as [Hx Hn]. constructor; [|done].
  intros Hin. rewrite Forall_forall in Hx. specialize (Hx _ Hin). lia.
Qed.

(** A newly constructed vector is empty. *)
Lemma new_vector {T} `{!Pod T} seg m :
  (Z.of_nat (@sizeof T _) <= seg < 2 ^ 64)%Z → (0 < Z.of_nat (length m) < 2 ^ 63)%Z →
  ∃ v, construct seg (Some m) (Z.of_nat (length m)) = inr v ∧
    repr (T := T) seg (Z.of_nat (length m)) v [].
Proof.
  intros Hseg Hm. pose proof (@sizeof_pos T _).
  exists (mkVec seg 0 0 m (Z.of_nat (length m))). split.
  - unfold construct. by rewrite !decide_False by lia.
  - split; [|done]. split; [split; cbn; [done|done|lia|lia]|done|done|by intros i x ?].
Qed.

(** ** Ten threads append a hundred elements each *)

Definition push_values (t : Z) : list int := map (λ i, int_of (t * 1000 + i)) (seqZ 0 100).

Definition multithreaded_push : list (list (@op int)) :=
  map (λ t, map PushBack (push_values t)) (seqZ 0 10).

Lemma multithreaded_push_ok : queue_programs 4 multithreaded_push.
Proof.
  unfold queue_programs, multithreaded_push, push_values. apply Forall_map.
  rewrite Forall_forall. intros t _. apply Forall_map, Forall_map. by apply Forall_true.
Qed.

Lemma multithreaded_push_values :
  concat multithreaded_push ≫= pushed = concat (map push_values (seqZ 0 10)).
Proof. vm_compute. reflexivity. Qed.

Lemma multithreaded_push_appends o : o ∈ concat multithreaded_push → ∃ x, o = PushBack x.
Proof.
  intros (os & Hos & Ho)%list_elem_of_In%in_concat. unfold multithreaded_push in Hos.
  apply in_map_iff in Hos as (t & <- & _), Ho as (x & <- & _). by exists x.
Qed.

(** test_custom_vector_multithreaded_push: in the end the vector holds the
    thousand elements, each once, and those of each thread in its order. *)
Theorem test_custom_vector_multithreaded_push m :
  Z.of_nat (length m) = 640000%Z →
  ∃ v, construct 4 (Some m) 640000 = inr v ∧
  eventually (λ evs c, all_idle c = true ∧ ∃ l',
      repr 4 640000 (memory c) l' ∧ length l' = 1000 ∧
      l' ≡ₚ concat (map push_values (seqZ 0 10)) ∧
      ∀ t, (0 <= t < 10)%Z →
        performed (Z.to_nat t) evs = map PushBack (push_values t))
    [] (ready v multithreaded_push).
Proof.
  intros Hm. destruct (new_vector (T := int) 4 m) as (v & Ev & Hr); [by_decide|lia|].
  rewrite Hm in *. exists v. split; [done|].
  eapply eventually_impl; [|by apply (queue_outcome 4 640000), multithreaded_push_ok].
  intros evs c [Hidle _ Hops Horder (l' & Eq & Hr') Hfit]. split; [done|]. exists l'.
  rewrite multithreaded_push_values in Hfit.
  assert (length (concat (map push_values (seqZ 0 10))) = 1000) as Hlen by (vm_compute; reflexivity).
  destruct Hfit as [Hput _]; [rewrite Hlen; split; cbn; lia|].
  assert (puts evs = l') as <-.
  { rewrite nothing_taken in Eq; [done|]. rewrite Hops.
    intros Hin%multithreaded_push_appends. by destruct Hin. }
  split; [done|]. split; [by rewrite Hput|]. split; [done|].
  intros t Ht. apply Horder. unfold multithreaded_push. rewrite list_lookup_fmap.
  rewrite lookup_seqZ_lt by lia. cbn. do 3 f_equal. lia.
Qed.

(** ** Threads that take until the vector is empty *)

(** test_custom_vector_multithreaded_get: any number of consumers of a vector
    that holds [l]; when one of them has found it empty, what they have taken
    together is [l], in its order, and the vector stays empty. The case starts
    ten of them on the numbers below a thousand. *)
Definition multithreaded_get (takes : list nat) : list (list (@op int)) :=
  map (λ n, replicate n GetNextElement) takes.

Theorem test_custom_vector_multithreaded_get v (takes : list nat) evs c i :
  let l := map int_of (seqZ 0 1000) in
  repr 4 640000 v l → steps (ready v (multithreaded_get takes)) evs c →
  (i, GetNextElement, inl (Throw out_of_range)) ∈ evs →
  taken evs = l ∧ NoDup (taken evs).
Proof.
  intros l Hr H Hin. assert (taken evs = l) as ->.
  { eapply (consumers_drain 4 640000); [done| |done|done]. apply Forall_map.
    rewrite Forall_forall. intros n _. rewrite Forall_forall. intros o Ho.
    by apply elem_of_replicate_inv in Ho. }
  split; [done|]. apply increasing_NoDup. vm_compute. reflexivity.
Qed.

(** ** Five producers and five consumers *)

Definition produced_values : list (list int) :=
  map (λ t, map (λ i, int_of (t * 10000 + i)) (seqZ 0 200)) (seqZ 0 5).

(** test_custom_vector_multithreaded_producer_consumer: once a consumer has left
    its loop, the thousand elements have been produced, each has been taken once,
    and the vector is empty. *)
Theorem test_custom_vector_multithreaded_producer_consumer m :
  Z.of_nat (length m) = 640000%Z →
  ∃ v, construct 4 (Some m) 640000 = inr v ∧
  ∀ evs c i,
    client_steps (producers_consumers produced_values) (idle_clients v 10) evs c →
    finished produced_values evs i →
    length (taken evs) = 1000 ∧ NoDup (taken evs) ∧ taken evs ≡ₚ concat produced_values ∧
    (lock_ c = false → repr (T := int) 4 640000 (memory c) []).
Proof.
  intros Hm. destruct (new_vector (T := int) 4 m) as (v & Ev & Hr); [by_decide|lia|].
  rewrite Hm in *. exists v. split; [done|]. intros evs c i H Hf.
  assert (length (concat produced_values) = 1000) as Hlen by (vm_compute; reflexivity).
  destruct (everything_taken produced_values 4 640000 v 10 evs c i)
    as (_ & _ & Ht & Hl); [done|rewrite Hlen; split; cbn; lia|by_decide|done|done|].
  split; [rewrite Ht; exact Hlen|]. split; [rewrite Ht; by apply increasing_NoDup; vm_compute|]. split; [done|].
  exact Hl.
Qed.

(** ** Eight threads with mixed operations *)

(** The calls of thread [t], the last [n] rounds of its loop from round [i] on. The
    two handlers of the loop catch [out_of_range]; another exception ends it. *)
Fixpoint mixed (t : Z) (n : nat) (i : Z) : client int :=
  match n with
  | O => Stop
  | S n =>
      let next := mixed t n (i + 1) in
      let catching := λ r : fault + result,
        match r with inr _ | inl (Throw out_of_range) => next | inl _ => Stop end in
      if decide (i `mod` 3 = 0)%Z then
        Call (PushBack (int_of (t * 1000 + i)))
          (λ r, match r with inr _ => next | inl _ => Stop end)
      else if decide (i `mod` 3 = 1)%Z then Call GetNextElement catching
      else
        Call Size (λ r,
          match r with
          | inr (RSize s) => if decide (s > 0)%Z then Call (At 0) catching else next
          | _ => Stop
          end)
  end.

Definition mixed_op (o : @op int) : Prop :=
  match o with PushBack _ | GetNextElement | Size => True | At i => i = 0%Z | _ => False end.

Lemma mixed_op_ok o : mixed_op o → op_ok 4 o ∧ no_erase o.
Proof. destruct o; cbn; intros; split; (done || lia). Qed.

Lemma mixed_ok t n i :
  all_calls mixed_op (mixed t n i) ∧ appends_at_most n (mixed t n i).
Proof.
  revert i. induction n as [|n IH]; intros i; [done|]. cbn [mixed].
  destruct (IH (i + 1)%Z) as [Hc Ha]. pose proof (appends_weaken _ _ Ha).
  repeat case_decide; cbn.
  - by split; [split; [done|]|]; intros [].
  - by split; [split; [done|]|]; intros [[[]| |]|].
  - split; [split; [done|]|]; (intros [|[]]; cbn; [done..| |done|done]); case_decide; cbn; try done;
      [split; [done|]|]; by intros [[[]| |]|].
Qed.

(** test_custom_vector_multithreaded_mixed_operations: no exception leaves the
    handlers of the loop, in whatever order the accesses of the threads happen. *)
Theorem test_custom_vector_multithreaded_mixed_operations v evs c :
  repr 4 640000 v (map int_of (seqZ 0 100)) →
  client_steps (runs (λ t, mixed (Z.of_nat t) 100 0)) (idle_clients v 8) evs c →
  ∀ i o f, (i, o, inl f) ∈ evs → f = Throw out_of_range ∧ (o = GetNextElement ∨ o = At 0).
Proof.
  intros Hr H i o f Hin.
  destruct (queue_clients_safe 4 640000 v (map int_of (seqZ 0 100))
    (λ t, mixed (Z.of_nat t) 100 0) 8 100 evs c) as [_ Hf]; [done| | |done|].
  { intros t. destruct (mixed_ok (Z.of_nat t) 100 0) as [Hc Ha]. split; [|exact Ha].
    eapply all_calls_impl; [exact mixed_op_ok|exact Hc]. }
  { rewrite length_map, length_seqZ. split; cbn; lia. }
  assert (mixed_op o) as Ho.
  { apply list_elem_of_split in Hin as (A & B & E).
    destruct (clients_allowed _ _ _ _ _ H) as [_ Hal].
    destruct (Hal A i o _ B E) as (A0 & A1 & _ & [k Hk] & _).
    eapply reaches_all_calls; [exact Hk|apply mixed_ok]. }
  destruct (Hf i o f Hin) as [[k ->]|[-> Hp]]; [by destruct Ho|]. split; [reflexivity|].
  clear -Ho Hp. destruct o; cbn in Ho, Hp; try done; [subst; by right|by left].
Qed.

End ShmThreadTests.
