(* ===== verification/Memory.v ===== *)
(** * Memory helpers of the server

    [MemoryManager] (src/MemoryManager.hpp), which cuts one allocation into the
    receive buffers of the clients, and [Vector] (src/Vector.hpp), which erases
    several elements at once. *)
From S2P Require Export Prelude.
From Stdlib Require Import Sorting.Sorted.
From stdpp Require Import options.

Module MemoryManager.
Section manager.

(** [sizeof(T)] of the element type. *)
Variable sizeofT : Z.

Record MemoryManager := mkManager {
  SegmentCount : Z;
  SegmentSize : Z;
  SegmentOffset : Z;
  MemoryBaseAddress : Z
}.

(** The largest [int]: the product of two [uint16_t] is one. *)
Definition INT_MAX : Z := 2 ^ 31 - 1.

(** [MemoryManager(SegmentCount, SegmentSize)] with [allocateMemory]; [malloc]
    is the allocator, [None] its null pointer. *)
Definition construct (malloc : Z → option Z) (SegmentCount SegmentSize : Z) :
    fault + MemoryManager :=
  if decide (INT_MAX < SegmentCount * SegmentSize)%Z then inl Undefined
  else
    let MemSizeBytes := u32 (SegmentCount * SegmentSize) in
    match malloc MemSizeBytes with
    | None => inl (Throw bad_alloc)
    | Some MemoryBaseAddress => inr (mkManager SegmentCount SegmentSize 0 MemoryBaseAddress)
    end.

(** [getMemPointer(SegmentOffset)]: the address; adding to a [T*] scales by
    [sizeof(T)] once more. *)
Definition getMemPointer (m : MemoryManager) (SegmentOffset : Z) : Z :=
  if decide (SegmentOffset < SegmentCount m)%Z
  then MemoryBaseAddress m + (SegmentOffset * SegmentSize m * sizeofT) * sizeofT
  else MemoryBaseAddress m.

(** [getNextMemPointer()] *)
Definition getNextMemPointer (m : MemoryManager) : Z * MemoryManager :=
  let ReturnPointer := getMemPointer m (SegmentOffset m) in
  let SegmentOffset' :=
    if decide (SegmentOffset m + 1 >= SegmentCount m)%Z then 0%Z
    else u16 (SegmentOffset m + 1) in
  (ReturnPointer, mkManager (SegmentCount m) (SegmentSize m) SegmentOffset' (MemoryBaseAddress m)).

Definition getMemBaseAddress (m : MemoryManager) : Z := MemoryBaseAddress m.

(** [isAligned(ptr)] for [alignof(T)]. *)
Definition isAligned (alignofT ptr : Z) : bool := bool_decide (ptr `mod` alignofT = 0)%Z.

(** The lines [verifyAlignment()] logs in a debug build, for the address it
    finds misaligned: it does nothing else. *)
Definition verifyAlignment (alignofT : Z) (m : MemoryManager) : list Z :=
  if isAligned alignofT (MemoryBaseAddress m) then [] else [alignofT; MemoryBaseAddress m].

(** The pointers of [n] successive calls. *)
Fixpoint pointers (n : nat) (m : MemoryManager) : list Z :=
  match n with
  | O => []
  | S n => let '(p, m') := getNextMemPointer m in p :: pointers n m'
  end.

Record manager_ok (m : MemoryManager) : Prop := {
  mok_count : (0 < SegmentCount m < 65536)%Z;
  mok_size : (0 < SegmentSize m < 65536)%Z;
  mok_offset : (0 <= SegmentOffset m < SegmentCount m)%Z
}.

Definition segment (m : MemoryManager) (k : Z) : Z :=
  MemoryBaseAddress m + (k * SegmentSize m * sizeofT) * sizeofT.

Lemma next_pointer m :
  manager_ok m →
  getNextMemPointer m =
    (segment m (SegmentOffset m),
     mkManager (SegmentCount m) (SegmentSize m) ((SegmentOffset m + 1) `mod` SegmentCount m)
       (MemoryBaseAddress m)).
Proof.
  intros [Hc Hs Ho]. unfold getNextMemPointer, getMemPointer.
  rewrite (decide_True (P := (SegmentOffset m < _)%Z)) by lia.
  do 2 f_equal. case_decide.
  - replace (SegmentOffset m + 1)%Z with (SegmentCount m) by lia. symmetry.
    apply Z_mod_same_full.
  - unfold u16. rewrite wrap_id by lia. by rewrite Z.mod_small by lia.
Qed.

Lemma next_ok m : manager_ok m → manager_ok (getNextMemPointer m).2.
Proof.
  intros Hm. rewrite next_pointer by done. destruct Hm. split; simpl; [done..|].
  apply Z.mod_pos_bound. lia.
Qed.

(** The segments are handed out in turn. *)
Lemma pointers_lookup n m k :
  manager_ok m → k < n →
  pointers n m !! k = Some (segment m ((SegmentOffset m + Z.of_nat k) `mod` SegmentCount m)).
Proof.
  revert m k. induction n as [|n IH]; intros m k Hm Hk; [lia|].
  cbn [pointers]. pose proof (next_ok m Hm) as Hm'. rewrite next_pointer in Hm' |- * by done.
  destruct Hm as [Hc Hs Ho]. destruct k as [|k]; simpl.
  - by rewrite Z.add_0_r, Z.mod_small by lia.
  - rewrite IH by (done || lia). simpl. unfold segment. simpl.
    rewrite Zplus_mod_idemp_l. do 6 f_equal. lia.
Qed.

Lemma segment_inside m k :
  manager_ok m → (0 < sizeofT)%Z → (0 <= k)%Z →
  (segment m k + SegmentSize m <= MemoryBaseAddress m + SegmentCount m * SegmentSize m)%Z ↔
  (k * (sizeofT * sizeofT) < SegmentCount m)%Z.
Proof.
  intros [Hc Hs Ho] Ht Hk. unfold segment.
  replace (k * SegmentSize m * sizeofT * sizeofT)%Z
    with (k * (sizeofT * sizeofT) * SegmentSize m)%Z by ring.
  generalize (k * (sizeofT * sizeofT))%Z. intros q. split; intros H; nia.
Qed.

Lemma segments_apart m k j :
  manager_ok m → (0 < sizeofT)%Z → (k < j)%Z → (segment m k + SegmentSize m <= segment m j)%Z.
Proof.
  intros [Hc Hs Ho] Ht Hkj. unfold segment.
  assert (1 <= (j - k) * (sizeofT * sizeofT))%Z as H1 by nia.
  assert (1 * SegmentSize m <= (j - k) * (sizeofT * sizeofT) * SegmentSize m)%Z by nia. lia.
Qed.

(** Adding to a [T*] keeps the alignment, whatever the size of the segments. *)
Lemma segments_aligned alignofT m k :
  (0 < alignofT)%Z → (alignofT | sizeofT)%Z →
  isAligned alignofT (segment m k) = isAligned alignofT (MemoryBaseAddress m).
Proof.
  intros Ha [q Hq]. unfold isAligned, segment. apply bool_decide_ext.
  rewrite Hq, Z.mul_assoc, Z.mod_add by lia. done.
Qed.

End manager.
End MemoryManager.

(** ** [Vector::erase] *)

Module Vector.
Section vector.
Context {T : Type}.

(** One round of the loop: the vector and [erase_count]. The position of the
    erased element is counted back by the number of elements erased before; the
    bound that is tested is not. *)
Definition erase_one (v : list T) (erase_count it : Z) : fault + list T * Z :=
  if decide (it <= Z.of_nat (length v))%Z then
    let pos := (it - erase_count)%Z in
    if decide (0 <= pos < Z.of_nat (length v))%Z
    then inr (delete (Z.to_nat pos) v, u32 (erase_count + 1))
    else inl Undefined
  else inr (v, erase_count).

Fixpoint erase_loop (v : list T) (erase_count : Z) (EraseElements : list Z) : fault + list T :=
  match EraseElements with
  | [] => inr v
  | it :: rest =>
      match erase_one v erase_count it with
      | inl e => inl e
      | inr (v, erase_count) => erase_loop v erase_count rest
      end
  end.

(** [erase(EraseElements)] *)
Definition erase (v : list T) (EraseElements : list Z) : fault + list T :=
  erase_loop v 0 EraseElements.

(** ** Specification: the elements whose index, counted from [c], is not named *)
Fixpoint keep (c : Z) (idxs : list Z) (v : list T) : list T :=
  match v with
  | [] => []
  | x :: v => if decide (c ∈ idxs) then keep (c + 1) idxs v else x :: keep (c + 1) idxs v
  end.

Lemma keep_app c idxs v w :
  keep c idxs (v ++ w) = keep c idxs v ++ keep (c + Z.of_nat (length v)) idxs w.
Proof.
  revert c. induction v as [|x v IH]; intros c; simpl.
  - by rewrite Z.add_0_r.
  - rewrite !IH. replace (c + 1 + Z.of_nat (length v))%Z with (c + Z.of_nat (S (length v)))%Z by lia.
    by case_decide.
Qed.

Lemma keep_below c idxs v :
  Forall (λ i, c + Z.of_nat (length v) <= i)%Z idxs → keep c idxs v = v.
Proof.
  revert c. induction v as [|x v IH]; intros c Hi; simpl; [done|].
  rewrite decide_False.
  - f_equal. apply IH. eapply Forall_impl; [exact Hi|]. simpl. lia.
  - intros Hin. rewrite Forall_forall in Hi. apply Hi in Hin. simpl in Hin. lia.
Qed.

Lemma keep_cons_lt c i idxs v : (i < c)%Z → keep c (i :: idxs) v = keep c idxs v.
Proof.
  revert c. induction v as [|x v IH]; intros c Hc; simpl; [done|].
  rewrite IH by lia. destruct (decide (c ∈ idxs)).
  - rewrite decide_True by set_solver. done.
  - rewrite decide_False; [done|]. intros [->|?]%elem_of_cons; [lia|done].
Qed.

Lemma keep_delete c i idxs v :
  Forall (λ j, i < j)%Z idxs → (c <= i < c + Z.of_nat (length v))%Z →
  keep c (i :: idxs) v = keep (c + 1) idxs (delete (Z.to_nat (i - c)) v).
Proof.
  intros Hs Hi. destruct (lookup_lt_is_Some_2 v (Z.to_nat (i - c))) as [x Hx]; [lia|].
  rewrite <-(take_drop_middle v _ _ Hx) at 1. rewrite delete_take_drop, !keep_app.
  assert (length (take (Z.to_nat (i - c)) v) = Z.to_nat (i - c)) as El
    by (rewrite length_take; lia).
  cbn [keep]. rewrite El. rewrite decide_True by (apply elem_of_cons; left; lia).
  rewrite keep_below, (keep_below (c + 1)).
  - f_equal. rewrite keep_cons_lt by lia. f_equal. lia.
  - rewrite El. eapply Forall_impl; [exact Hs|]. simpl. lia.
  - rewrite El. constructor; [lia|]. eapply Forall_impl; [exact Hs|]. simpl. lia.
Qed.

(** The bounds the code tests, with the number of elements already erased. *)
Fixpoint passes (n k : Z) (idxs : list Z) : Prop :=
  match idxs with
  | [] => True
  | i :: idxs => (i < n ∧ i + k <= n)%Z ∧ passes n (k + 1) idxs
  end.

#[global] Instance passes_dec n k idxs : Decision (passes n k idxs).
Proof. revert k. induction idxs; intros k; cbn [passes]; apply _. Defined.

Lemma erase_loop_keep idxs : ∀ v k n,
  StronglySorted Z.lt idxs → Forall (λ i, k <= i)%Z idxs → passes n k idxs →
  (Z.of_nat (length v) = n - k)%Z → (0 <= k)%Z → (n < 2 ^ 32)%Z →
  erase_loop v k idxs = inr (keep k idxs v).
Proof.
  induction idxs as [|i idxs IH]; intros v k n Hs Hk Hp Hn H0 Hb.
  - cbn [erase_loop]. by rewrite keep_below.
  - apply StronglySorted_inv in Hs as [Hs Hi]. apply Forall_cons in Hk as [Hki Hk].
    destruct Hp as [[Hin Hik] Hp]. cbn [erase_loop]. unfold erase_one.
    rewrite decide_True by lia. cbv zeta. rewrite decide_True by lia.
    unfold u32. rewrite wrap_id by lia.
    rewrite (IH _ (k + 1)%Z n); try done.
    + by rewrite keep_delete by (done || lia).
    + eapply Forall_impl; [exact Hi|]. simpl. lia.
    + rewrite length_delete by (apply lookup_lt_is_Some_2; lia). lia.
    + lia.
Qed.

Lemma erase_skips v k i :
  (Z.of_nat (length v) < i)%Z → erase_one v k i = inr (v, k).
Proof. intros H. unfold erase_one. by rewrite decide_False by lia. Qed.

End vector.
End Vector.
