(* ===== verification/Connection.v ===== *)
(** * Connections: [Client] and [ClientHandler]

    src/Client.cpp and src/ClientHandler.cpp. The operating system is the source
    of three kinds of input: what [read] returns on a descriptor ([pending]),
    which descriptors [epoll_wait] reports, and whether a call succeeds. All
    clients receive through one memory block, so the block is part of the state
    and an exception leaves everything as it is at that point. *)
From S2P Require Export HttpParserSpec Memory.
From stdpp Require Import options.

(** ** Constants (src/Constant.hpp) *)

Definition CLIENTS_MAX : Z := 4096 * 2.
Definition SOCKET_RECEIVE_BUFFER_SIZE : Z := 4096.
Definition EPOLL_FD_COUNT_MAX : Z := 512.
Definition EXIT_FAILURE : Z := 1.
Definition LOG_LEVEL : Z := 250.

(** Whether [DBG(level, ...)] evaluates what it prints (src/Debug.cpp). *)
Definition debug_enabled (level : Z) : bool := bool_decide (LOG_LEVEL > level)%Z.

Module Connection.
Import HTTPParser.

(** ** The operating system's side *)

Inductive errno := EAGAIN | EWOULDBLOCK | EINTR | EOTHER (n : Z).

#[global] Instance errno_eq_dec : EqDecision errno.
Proof. solve_decision. Defined.

(** One result of [read]: bytes (none at the end of the stream), or -1. *)
Inductive recv :=
| Bytes (bs : bytes)
| Error (e : errno).

(** ** Data *)

(** [Client]: an [HTTPParser] with a descriptor and the address of its receive
    buffer, here its offset in the block. *)
Record Client := mkClient {
  parser : HTTPParser;
  _ClientFD : Z;
  _ReceiveBuffer : Z
}.

(** [ClientHandler], the block its [BufferMemory] manages, and the descriptors:
    what is still to be read from each, those [epoll] monitors, and those closed
    so far. *)
Record ClientHandler := mkHandler {
  ProcessedClients : Z;
  BufferMemory : MemoryManager.MemoryManager;
  Block : bytes;
  Clients : gmap Z Client;
  pending : gmap Z (list recv);
  monitored : gset Z;
  closed : list Z
}.

Definition set_processed (n : Z) (h : ClientHandler) : ClientHandler :=
  mkHandler n (BufferMemory h) (Block h) (Clients h) (pending h) (monitored h) (closed h).
Definition set_memory (m : MemoryManager.MemoryManager) (h : ClientHandler) : ClientHandler :=
  mkHandler (ProcessedClients h) m (Block h) (Clients h) (pending h) (monitored h) (closed h).
Definition set_block (b : bytes) (h : ClientHandler) : ClientHandler :=
  mkHandler (ProcessedClients h) (BufferMemory h) b (Clients h) (pending h) (monitored h)
    (closed h).
Definition set_clients (cs : gmap Z Client) (h : ClientHandler) : ClientHandler :=
  mkHandler (ProcessedClients h) (BufferMemory h) (Block h) cs (pending h) (monitored h)
    (closed h).
Definition set_pending (fd : Z) (rs : list recv) (h : ClientHandler) : ClientHandler :=
  mkHandler (ProcessedClients h) (BufferMemory h) (Block h) (Clients h)
    (<[fd := rs]> (pending h)) (monitored h) (closed h).
Definition set_monitored (fds : gset Z) (h : ClientHandler) : ClientHandler :=
  mkHandler (ProcessedClients h) (BufferMemory h) (Block h) (Clients h) (pending h) fds
    (closed h).
Definition set_closed (fds : list Z) (h : ClientHandler) : ClientHandler :=
  mkHandler (ProcessedClients h) (BufferMemory h) (Block h) (Clients h) (pending h)
    (monitored h) fds.

(** [ClientHandler()]: the block is fresh, [base] its address. *)
Definition init (base : Z) (block : bytes) : ClientHandler :=
  mkHandler 0 (MemoryManager.mkManager CLIENTS_MAX SOCKET_RECEIVE_BUFFER_SIZE 0 base)
    block ∅ ∅ ∅ [].

(** ** System calls *)

(** [read(fd, buffer, size)] on a non-blocking descriptor: [EAGAIN] when nothing
    is pending. *)
Definition sys_read (fd : Z) : St ClientHandler recv :=
  h ← get;
  match pending h !! fd with
  | Some (r :: rs) => _ ← modify (set_pending fd rs); mret r
  | _ => mret (Error EAGAIN)
  end.

(** The kernel stores the bytes it read at the buffer's address. *)
Definition store_bytes (off : Z) (bs : bytes) : St ClientHandler () :=
  h ← get;
  if decide (0 <= off ∧ off + Z.of_nat (length bs) <= Z.of_nat (length (Block h)))%Z
  then modify (set_block (take (Z.to_nat off) (Block h) ++ bs ++
                          drop (Z.to_nat off + length bs) (Block h)))
  else fail Undefined.

(** Closing a descriptor also ends its monitoring. *)
Definition sys_close (fd : Z) : St ClientHandler () :=
  modify (λ h, set_closed (closed h ++ [fd]) (set_monitored (monitored h ∖ {[fd]}) h)).

(** ** [Client] *)

(** [Client(ClientFD, BufferAddress)] *)
Definition new_client (ClientFD BufferAddress : Z) : Client :=
  mkClient (HTTPParser.init 4096) ClientFD BufferAddress.

(** [appendBuffer] of the client stored under the descriptor: the object is
    shared by reference, its bytes come from its part of the block. *)
Definition client_append (fd : Z) (RecvBytes : Z) : St ClientHandler () :=
  h ← get;
  match Clients h !! fd with
  | None => fail Undefined
  | Some c =>
      let '(p', res) :=
        appendBuffer (drop (Z.to_nat (_ReceiveBuffer c)) (Block h))
          (Z.to_nat (u16 RecvBytes)) (parser c) in
      _ ← modify (set_clients
            (<[fd := mkClient p' (_ClientFD c) (_ReceiveBuffer c)]> (Clients h)));
      lift res
  end.

(** [receiveData()]: the [while] loop, with a step budget; every round takes
    one pending result, so one more round than there are is enough. *)
Fixpoint receive_loop (fuel : nat) (fd : Z) (c : Client) : St ClientHandler bool :=
  match fuel with
  | O => fail Undefined
  | S fuel =>
      r ← sys_read (_ClientFD c);
      match r with
      | Bytes bs =>
          let RcvBytes := Z.of_nat (length bs) in
          if decide (RcvBytes > 0)%Z then
            _ ← store_bytes (_ReceiveBuffer c) bs;
            _ ← client_append fd RcvBytes;
            receive_loop fuel fd c
          else mret true
      | Error e =>
          if decide (e = EAGAIN ∨ e = EWOULDBLOCK ∨ e = EINTR) then mret false
          else mret true
      end
  end.

Definition receiveData (fd : Z) (c : Client) : St ClientHandler bool :=
  h ← get;
  receive_loop (S (length (default [] (pending h !! _ClientFD c)))) fd c.

(** ** [ClientHandler] *)

(** [addClient(ClientFD)]; [fcntl] is the result of [makeNonblocking]'s call. *)
Definition addClient (fcntl : Z) (ClientFD : Z) : St ClientHandler () :=
  if decide (fcntl < 0)%Z then fail (Exit EXIT_FAILURE)
  else
    h ← get;
    let '(p, m) := MemoryManager.getNextMemPointer 1 (BufferMemory h) in
    _ ← modify (set_memory m);
    let c := new_client ClientFD (p - MemoryManager.getMemBaseAddress m) in
    _ ← modify (λ h,
      match Clients h !! ClientFD with
      | Some _ => h
      | None => set_clients (<[ClientFD := c]> (Clients h)) h
      end);
    modify (λ h, set_monitored (monitored h ∪ {[ClientFD]}) h).

(** [readClientData(FDCount)]: the loop over the reported descriptors. *)
Fixpoint readClientData (EpollEvents : list Z) : St ClientHandler () :=
  match EpollEvents with
  | [] => mret ()
  | ReadFD :: rest =>
      h ← get;
      _ ← match Clients h !! ReadFD with
          | None => mret ()
          | Some c =>
              done ← receiveData ReadFD c;
              if decide (done = true) then
                _ ← modify (λ h, set_clients (delete ReadFD (Clients h)) h);
                sys_close ReadFD
              else mret ()
          end;
      readClientData rest
  end.

(** [processClients()]; [epoll_wait] is the list it reports, [None] for -1. *)
Definition processClients (epoll_wait : option (list Z)) : St ClientHandler () :=
  _ ← modify (set_processed 0);
  match epoll_wait with
  | None => mret ()
  | Some fds => if decide (0 < length fds) then readClientData fds else mret ()
  end.

(** ** What a client receives *)

(** The chunks a call of [receiveData] takes from the pending results, whether
    it reports the connection as finished, and what it leaves. *)
Fixpoint stream (rs : list recv) : list bytes * bool * list recv :=
  match rs with
  | [] => ([], false, [])
  | Bytes [] :: rs => ([], true, rs)
  | Bytes bs :: rs => let '(chunks, done, rest) := stream rs in (bs :: chunks, done, rest)
  | Error e :: rs => ([], bool_decide (¬ (e = EAGAIN ∨ e = EWOULDBLOCK ∨ e = EINTR)), rs)
  end.

(** [read] never returns more than it was asked for. *)
Definition recv_ok (r : recv) : Prop :=
  match r with
  | Bytes bs => (Z.of_nat (length bs) <= SOCKET_RECEIVE_BUFFER_SIZE)%Z
  | Error _ => True
  end.

#[global] Instance recv_ok_dec r : Decision (recv_ok r).
Proof. destruct r; cbn; apply _. Defined.

Record client_ok (block : nat) (fd : Z) (c : Client) : Prop := {
  cok_fd : _ClientFD c = fd;
  cok_parser : ParserSpec.parser_ok (parser c);
  cok_buffer : (0 <= _ReceiveBuffer c ∧
    _ReceiveBuffer c + SOCKET_RECEIVE_BUFFER_SIZE <= Z.of_nat block)%Z
}.

(** The object invariant of the handler and the contract of the kernel: the
    clients are the monitored descriptors, each with its own number and with a
    buffer inside the block that the manager cuts into segments. *)
Record handler_ok (h : ClientHandler) : Prop := {
  hok_fds : dom (Clients h) = monitored h;
  hok_clients : map_Forall (client_ok (length (Block h))) (Clients h);
  hok_memory : MemoryManager.manager_ok (BufferMemory h);
  hok_segment : MemoryManager.SegmentSize (BufferMemory h) = SOCKET_RECEIVE_BUFFER_SIZE;
  hok_block : (MemoryManager.SegmentCount (BufferMemory h) * SOCKET_RECEIVE_BUFFER_SIZE =
    Z.of_nat (length (Block h)))%Z;
  hok_kernel : map_Forall (λ _ rs, Forall recv_ok rs) (pending h)
}.

(** Nothing but the client [fd], the contents of the block and its pending
    input changed. *)
Record received (fd : Z) (c : Client) (h h' : ClientHandler) : Prop := {
  rc_clients : Clients h' = <[fd := c]> (Clients h);
  rc_processed : ProcessedClients h' = ProcessedClients h;
  rc_memory : BufferMemory h' = BufferMemory h;
  rc_block : length (Block h') = length (Block h);
  rc_pending : ∀ fd', fd' ≠ fd → pending h' !! fd' = pending h !! fd';
  rc_kernel : Forall recv_ok (default [] (pending h' !! fd));
  rc_monitored : monitored h' = monitored h;
  rc_closed : closed h' = closed h
}.

Lemma append_take B n p : appendBuffer (take n B) n p = appendBuffer B n p.
Proof. unfold appendBuffer. by rewrite take_take, Nat.min_id. Qed.

Lemma run_store off bs h :
  (0 <= off ∧ off + Z.of_nat (length bs) <= Z.of_nat (length (Block h)))%Z →
  ∃ block, store_bytes off bs h = (set_block block h, inr ()) ∧
    length block = length (Block h) ∧ take (length bs) (drop (Z.to_nat off) block) = bs.
Proof.
  intros Hr. eexists. split; [unfold store_bytes; run; by rewrite decide_True|].
  rewrite !length_app, length_take, length_drop. split; [lia|].
  rewrite drop_app_length' by (rewrite length_take; lia). by rewrite take_app_length.
Qed.

Lemma run_client_append fd c h bs :
  Clients h !! fd = Some c → (Z.of_nat (length bs) < 65536)%Z →
  take (length bs) (drop (Z.to_nat (_ReceiveBuffer c)) (Block h)) = bs →
  client_append fd (Z.of_nat (length bs)) h =
  let '(p', res) := appendBuffer bs (length bs) (parser c) in
  (set_clients (<[fd := mkClient p' (_ClientFD c) (_ReceiveBuffer c)]> (Clients h)) h, res).
Proof.
  intros Hc Hl Hb. unfold client_append. run. rewrite Hc. unfold u16.
  rewrite wrap_id, Nat2Z.id by lia. rewrite <-append_take, Hb.
  by destruct (appendBuffer bs (length bs) (parser c)) as [p' [e|[]]].
Qed.

Lemma run_read fd rs h :
  default [] (pending h !! fd) = rs →
  sys_read fd h =
  match rs with
  | [] => (h, inr (Error EAGAIN))
  | r :: rs => (set_pending fd rs h, inr r)
  end.
Proof.
  intros E. unfold sys_read. run. destruct (pending h !! fd) as [[|r l]|]; by simplify_eq/=.
Qed.

Lemma feed_nil p : feed [] p = (p, inr ()).
Proof. done. Qed.

Lemma feed_ok chunks p p' res :
  ParserSpec.parser_ok p → feed chunks p = (p', res) → ParserSpec.parser_ok p'.
Proof.
  revert p. induction chunks as [|c cs IH]; intros p Hp E.
  - by injection E as <- _.
  - rewrite ParserSpec.feed_cons in E.
    destruct (appendBuffer c (length c) p) as [p1 [e|[]]] eqn:Ea; simplify_eq/=.
    + by eapply ParserSpec.append_ok.
    + eapply IH; [|done]. by eapply ParserSpec.append_ok.
Qed.

Lemma received_trans fd c1 c2 h h1 h2 :
  received fd c1 h h1 → received fd c2 h1 h2 → received fd c2 h h2.
Proof.
  intros [] []. split; try congruence.
  - rewrite rc_clients1, rc_clients0. apply insert_insert_eq.
  - intros fd' Hne. rewrite rc_pending1 by done. by apply rc_pending0.
Qed.

(** One call of [receiveData] is [feed] of the chunks it reads. *)
Lemma receive_loop_spec fuel fd off rs : ∀ h p chunks done rest p' res c0,
  _ClientFD c0 = fd → _ReceiveBuffer c0 = off →
  (0 <= off ∧ off + SOCKET_RECEIVE_BUFFER_SIZE <= Z.of_nat (length (Block h)))%Z →
  Clients h !! fd = Some (mkClient p fd off) →
  default [] (pending h !! fd) = rs → Forall recv_ok rs → length rs < fuel →
  stream rs = (chunks, done, rest) → feed chunks p = (p', res) →
  ∃ h', receive_loop fuel fd c0 h =
      (h', match res with inl e => inl e | inr _ => inr done end) ∧
    received fd (mkClient p' fd off) h h' ∧
    (res = inr () → default [] (pending h' !! fd) = rest).
Proof.
  revert fuel. induction rs as [|r rs IH];
    intros [|fuel] h p chunks done rest p' res c0 Hfd Hoff Hb Hc Hp Hok Hf Hs Hfeed;
    try (simpl in Hf; lia); cbn [receive_loop]; rewrite Hfd;
    rewrite (run_bind _ _ _ _ _ (run_read _ _ _ Hp)).
  - cbn [stream] in Hs. simplify_eq. rewrite feed_nil in Hfeed.
    simplify_eq. eexists. split; [done|]. split; [|done].
    split; try done; [by rewrite insert_id|by rewrite Hp].
  - apply Forall_cons in Hok as [Hr Hok]. destruct r as [bs|e].
    2:{ cbn [stream] in Hs. simplify_eq. rewrite feed_nil in Hfeed. simplify_eq. eexists. split.
        { case_decide as He; [by rewrite bool_decide_false by tauto|].
          by rewrite bool_decide_true. }
        split; [|intros _; cbn; by rewrite lookup_insert_eq]. split; cbn; try done.
        - by rewrite insert_id.
        - intros fd' Hne. by rewrite lookup_insert_ne.
        - by rewrite lookup_insert_eq. }
    destruct bs as [|b bs].
    { cbn [stream] in Hs. simplify_eq. rewrite feed_nil in Hfeed. simplify_eq.
      eexists. split; [done|]. split; [|intros _; cbn; by rewrite lookup_insert_eq].
      split; cbn; try done.
      - by rewrite insert_id.
      - intros fd' Hne. by rewrite lookup_insert_ne.
      - by rewrite lookup_insert_eq. }
    cbn [stream] in Hs. destruct (stream rs) as [[chunks' done'] rest'] eqn:Es.
    simplify_eq. set (bs' := b :: bs) in *. unfold recv_ok in Hr.
    rewrite decide_True by (subst bs'; simpl; lia).
    set (h1 := set_pending (_ClientFD c0) rs h).
    destruct (run_store (_ReceiveBuffer c0) bs' h1) as (block & E & Hlen & Hbs); [change (Block h1) with (Block h); lia|].
    rewrite (run_bind _ _ _ _ _ E).
    pose proof (run_client_append (_ClientFD c0) _ (set_block block h1) bs' Hc) as Ea.
    unfold SOCKET_RECEIVE_BUFFER_SIZE in Hr. specialize (Ea ltac:(lia) Hbs).
    cbn [parser _ClientFD _ReceiveBuffer] in Ea. rewrite ParserSpec.feed_cons in Hfeed.
    destruct (appendBuffer bs' (length bs') p) as [p1 [e|[]]] eqn:Ep.
    + simplify_eq. rewrite (run_bind _ _ _ _ _ Ea). eexists. split; [done|].
      split; [|done]. split; cbn; try done.
      * intros fd' Hne. by rewrite lookup_insert_ne.
      * by rewrite lookup_insert_eq.
    + rewrite (run_bind _ _ _ _ _ Ea).
      match goal with |- context [receive_loop fuel _ c0 ?h2] =>
        destruct (IH fuel h2 p1 chunks' done rest p' res c0) as (h' & E' & Hrec & Hrest) end;
        try done.
      * cbn. rewrite Hlen. exact Hb.
      * cbn. apply lookup_insert_eq.
      * cbn. by rewrite lookup_insert_eq.
      * simpl in Hf. lia.
      * exists h'. split; [done|]. split; [|done].
        eapply received_trans; [|exact Hrec]. split; cbn; try done.
        -- intros fd' Hne. by rewrite lookup_insert_ne.
        -- by rewrite lookup_insert_eq.
Qed.

Lemma receive_spec h fd c chunks done rest p' res :
  handler_ok h → Clients h !! fd = Some c →
  stream (default [] (pending h !! fd)) = (chunks, done, rest) →
  feed chunks (parser c) = (p', res) →
  ∃ h', receiveData fd c h = (h', match res with inl e => inl e | inr _ => inr done end) ∧
    received fd (mkClient p' fd (_ReceiveBuffer c)) h h' ∧
    (res = inr () → default [] (pending h' !! fd) = rest).
Proof.
  intros [Hfds Hcl Hm Hseg Hblk Hk] Hc Hs Hf.
  destruct (map_Forall_lookup_1 _ _ _ _ Hcl Hc) as [Hfd Hpar Hbuf].
  unfold receiveData. run. rewrite Hfd.
  destruct (receive_loop_spec (S (length (default [] (pending h !! fd)))) fd (_ReceiveBuffer c)
    (default [] (pending h !! fd)) h (parser c) chunks done rest p' res c)
    as (h' & E & Hrec & Hrest); try done.
  - rewrite Hc. destruct c. by simplify_eq/=.
  - destruct (pending h !! fd) as [rs|] eqn:E; [|constructor]. by apply (Hk fd).
  - lia.
  - eauto.
Qed.

(** ** The invariant *)

Lemma received_ok fd c h h' :
  handler_ok h → Clients h !! fd = Some c →
  ∀ p', ParserSpec.parser_ok p' → received fd (mkClient p' fd (_ReceiveBuffer c)) h h' →
  handler_ok h'.
Proof.
  intros [Hfds Hcl Hm Hseg Hblk Hk] Hc p' Hp' [].
  destruct (map_Forall_lookup_1 _ _ _ _ Hcl Hc) as [Hfd Hpar Hbuf].
  split; try congruence.
  - rewrite rc_clients0, dom_insert_L, rc_monitored0, <-Hfds.
    apply elem_of_dom_2 in Hc. set_solver.
  - rewrite rc_clients0, rc_block0. apply map_Forall_insert_2; [|done]. by split.
  - intros fd' rs Hrs. destruct (decide (fd' = fd)) as [->|Hne].
    + by rewrite Hrs in rc_kernel0.
    + rewrite rc_pending0 in Hrs by done. by eapply Hk.
Qed.

(** One descriptor of the loop of [readClientData]. *)
Lemma receive_ok h fd c h' r :
  handler_ok h → Clients h !! fd = Some c → receiveData fd c h = (h', r) →
  handler_ok h' ∧ (∀ fd', fd' ≠ fd → Clients h' !! fd' = Clients h !! fd').
Proof.
  intros Hh Hc E. destruct (stream (default [] (pending h !! fd))) as [[chunks dn] rest] eqn:Es.
  destruct (feed chunks (parser c)) as [p' res] eqn:Ef.
  destruct (receive_spec _ _ _ _ _ _ _ _ Hh Hc Es Ef) as (h1 & E1 & Hrec & _).
  rewrite E in E1. injection E1 as <- _. split.
  - eapply received_ok; [done|done| |exact Hrec]. eapply feed_ok; [|done].
    by apply (hok_clients _ Hh) in Hc as [].
  - intros fd' Hne. rewrite (rc_clients _ _ _ _ Hrec). by rewrite lookup_insert_ne.
Qed.

Lemma close_ok h fd :
  handler_ok h →
  handler_ok (set_closed (closed h ++ [fd])
    (set_monitored (monitored h ∖ {[fd]}) (set_clients (delete fd (Clients h)) h))).
Proof.
  intros [Hfds Hcl Hm Hseg Hblk Hk]. split; cbn; try done.
  - rewrite dom_delete_L. by rewrite Hfds.
  - by apply map_Forall_delete.
Qed.

Lemma read_clients_ok fds : ∀ h h' r,
  handler_ok h → readClientData fds h = (h', r) →
  handler_ok h' ∧ (∀ fd, fd ∉ fds → Clients h' !! fd = Clients h !! fd).
Proof.
  induction fds as [|fd fds IH]; intros h h' r Hh E; [by injection E as <- _|].
  cbn [readClientData] in E. rewrite run_get in E.
  destruct (Clients h !! fd) as [c|] eqn:Hc.
  - destruct (receiveData fd c h) as [h1 [e|dn]] eqn:Er;
      destruct (receive_ok _ _ _ _ _ Hh Hc Er) as [Hh1 Hf1];
      unfold mbind, St_bind in E; rewrite Er in E.
    + injection E as <- _. split; [done|]. intros fd' Hn. apply Hf1. set_solver.
    + case_decide as Hd.
      * change (readClientData fds (set_closed (closed h1 ++ [fd])
          (set_monitored (monitored h1 ∖ {[fd]}) (set_clients (delete fd (Clients h1)) h1))) =
          (h', r)) in E.
        apply IH in E as [Hh' Hf']; [|by apply close_ok].
        split; [done|]. intros fd' Hn. rewrite Hf' by set_solver. cbn.
        rewrite lookup_delete_ne by set_solver. apply Hf1. set_solver.
      * change (readClientData fds h1 = (h', r)) in E.
        apply IH in E as [Hh' Hf']; [|done].
        split; [done|]. intros fd' Hn. rewrite Hf' by set_solver. apply Hf1. set_solver.
  - change (readClientData fds h = (h', r)) in E.
    apply IH in E as [Hh' Hf']; [|done]. split; [done|]. intros fd' Hn. apply Hf'. set_solver.
Qed.

Lemma parser_init_ok : ParserSpec.parser_ok (HTTPParser.init 4096).
Proof. split; by_decide. Qed.

Lemma add_client_ok h fcntl fd h' r :
  handler_ok h → addClient fcntl fd h = (h', r) →
  handler_ok h' ∧ (r = inr () → is_Some (Clients h' !! fd)) ∧
  (∀ fd' c, Clients h !! fd' = Some c → Clients h' !! fd' = Some c).
Proof.
  intros Hh E. pose proof Hh as [Hfds Hcl Hm Hseg Hblk Hk]. unfold addClient in E.
  case_decide as Hfc; [by injection E as <- <-|]. rewrite run_get in E.
  rewrite (MemoryManager.next_pointer 1) in E by done.
  pose proof (MemoryManager.next_ok 1 _ Hm) as Hm'.
  rewrite (MemoryManager.next_pointer 1) in Hm' by done. cbn [snd] in Hm'.
  rewrite !run_modify in E. injection E as <- <-.
  set (m' := MemoryManager.mkManager _ _ _ _) in *.
  assert (client_ok (length (Block h)) fd (new_client fd
    (MemoryManager.segment 1 (BufferMemory h) (MemoryManager.SegmentOffset (BufferMemory h)) -
     MemoryManager.getMemBaseAddress m'))) as Hnew.
  { split; [done|apply parser_init_ok|]. destruct Hm as [Hc Hs Ho].
    unfold MemoryManager.segment. cbn. rewrite Hseg in *. unfold SOCKET_RECEIVE_BUFFER_SIZE in *.
    nia. }
  cbn [Clients set_memory]. destruct (Clients h !! fd) as [c|] eqn:Hc.
  - split; [|by eauto]. split; cbn; try done.
    rewrite Hfds. apply elem_of_dom_2 in Hc. rewrite Hfds in Hc. set_solver.
  - split; [|split].
    + split; cbn; try done.
      * rewrite dom_insert_L, Hfds. set_solver.
      * by apply map_Forall_insert_2.
    + intros _. cbn. by rewrite lookup_insert_eq.
    + intros fd' c' Hc'. cbn. rewrite lookup_insert_ne; [done|]. congruence.
Qed.

End Connection.
