(* ===== verification/Server.v ===== *)
(** * The server process (src/Server.cpp, src/Global.hpp, src/Helper.hpp)

    [proc] is what the kernel knows of the process: the calls it made, in order,
    its user and group, its signal dispositions. [os] answers each call. The
    server loop runs on the handler of Connection.v; a [round] is what the
    kernel provides to one iteration. *)
From S2P Require Export Connection.
From stdpp Require Import options.

Module Server.
Import Connection.

(** ** [String::hexout] (src/Helper.hpp) *)

(** The value of a [char], which is signed. *)
Definition char_value (c : ascii) : Z :=
  let n := Z.of_nat (Ascii.nat_of_ascii c) in if decide (n < 128)%Z then n else n - 256.

(** [setw(2) << setfill('0')] *)
Definition padded (s : bytes) : bytes :=
  if decide (length s < 2) then replicate (2 - length s) "0"%char ++ s else s.

(** What is printed; a negative [int] is printed as an [unsigned int]. *)
Definition hexout (String : bytes) : bytes :=
  concat (map (λ c, str "0x" ++ padded (to_hex (u32 (char_value c))) ++ str " ") String) ++ [LF].

Example hexout_bytes :
  hexout [CR; "a"%char; "233"%char] = str "0x0d 0x61 0xffffffe9 " ++ [LF].
Proof. reflexivity. Qed.

(** ** System calls of the setup *)

Inductive syscall :=
| SigIgnore (sig : string)
| SigHandler (sig handler : string)
| SysSocket
| FcntlGetFl (fd : Z)
| FcntlSetFl (fd flags : Z)
| SetSockOpt (fd : Z) (name : string) (value : Z)
| SysBind (fd : Z) (address : bytes) (port : Z)
| SysListen (fd backlog : Z)
| SetGid (g : Z)
| SetUid (u : Z)
| Kill (pid : Z) (sig : string)
| SleepFor (milliseconds : Z).

#[global] Instance syscall_eq_dec : EqDecision syscall.
Proof. solve_decision. Defined.

Record proc := mkProc { calls : list syscall; uid : Z; gid : Z }.

(** *** Constants of the C library *)
Definition O_NONBLOCK : Z := 2048.
Definition SO_REUSEADDR : Z := 2.
Definition POLLIN : Z := 1.

Section setup.

(** The kernel's answers. *)
Variable os : syscall → Z.

(** A call is recorded; a successful [setgid] or [setuid] by root changes the
    identity of the process. *)
Definition sys (c : syscall) : St proc Z :=
  let r := os c in
  _ ← modify (λ p,
    mkProc (calls p ++ [c])
      (match c with SetUid u => if decide (r = 0%Z) then u else uid p | _ => uid p end)
      (match c with SetGid g => if decide (r = 0%Z) then g else gid p | _ => gid p end));
  mret r.

(** [Signal::disableSignals()] *)
Definition disableSignals : St proc () :=
  _ ← sys (SigIgnore "SIGINT"); _ ← sys (SigIgnore "SIGPIPE"); mret ().

(** [Permission::dropPrivileges(GroupID, UserID)] *)
Definition dropPrivileges (GroupID UserID : Z) : St proc () :=
  p ← get;
  if decide (uid p = 0%Z) then
    rc ← sys (SetGid GroupID);
    if decide (rc ≠ 0%Z) then fail (Exit EXIT_FAILURE)
    else
      rc ← sys (SetUid UserID);
      if decide (rc ≠ 0%Z) then fail (Exit EXIT_FAILURE) else mret ()
  else fail (Exit EXIT_FAILURE).

(** [Socket::makeNonblocking(fd)] *)
Definition makeNonblocking (fd : Z) : St proc () :=
  flags ← sys (FcntlGetFl fd);
  rc ← sys (FcntlSetFl fd (Z.lor flags O_NONBLOCK));
  if decide (rc < 0)%Z then fail (Exit EXIT_FAILURE) else mret ().

(** [setTerminationHandler()] *)
Definition setTerminationHandler : St proc () :=
  _ ← sys (SigHandler "SIGTERM" "Server::terminate"); mret ().

(** [setupSocket()]; the result is [ServerSocketFD]. *)
Definition setupSocket (SocketListenAddress : bytes) (SocketListenPort : Z) : St proc Z :=
  ServerSocketFD ← sys SysSocket;
  flags ← sys (FcntlGetFl ServerSocketFD);
  rc ← sys (FcntlSetFl ServerSocketFD (Z.lor flags SO_REUSEADDR));
  if decide (rc < 0)%Z then fail (Exit EXIT_FAILURE)
  else
    _ ← sys (SetSockOpt ServerSocketFD "TCP_NODELAY" 1);
    _ ← makeNonblocking ServerSocketFD;
    rc ← sys (SysBind ServerSocketFD SocketListenAddress SocketListenPort);
    if decide (rc ≠ 0%Z) then fail (Exit EXIT_FAILURE)
    else _ ← sys (SysListen ServerSocketFD 0); mret ServerSocketFD.

(** [init()] up to the server loop; [setupSharedMemory] is empty, the static
    files are mapped before (Filesystem.v). *)
Definition init_process (Address : bytes) (Port GroupID UserID : Z) : St proc Z :=
  _ ← disableSignals;
  _ ← setTerminationHandler;
  ServerSocketFD ← setupSocket Address Port;
  _ ← dropPrivileges GroupID UserID;
  mret ServerSocketFD.

(** The calls of a complete setup. *)
Definition setup_calls (Address : bytes) (Port GroupID UserID : Z) : list syscall :=
  let fd := os SysSocket in
  let flags := os (FcntlGetFl fd) in
  [SigIgnore "SIGINT"; SigIgnore "SIGPIPE"; SigHandler "SIGTERM" "Server::terminate";
   SysSocket; FcntlGetFl fd; FcntlSetFl fd (Z.lor flags SO_REUSEADDR);
   SetSockOpt fd "TCP_NODELAY" 1;
   FcntlGetFl fd; FcntlSetFl fd (Z.lor flags O_NONBLOCK);
   SysBind fd Address Port; SysListen fd 0; SetGid GroupID; SetUid UserID].

Lemma run_sys {B} c (f : Z → St proc B) p :
  (sys c ≫= f) p =
  f (os c) (mkProc (calls p ++ [c])
    (match c with SetUid u => if decide (os c = 0%Z) then u else uid p | _ => uid p end)
    (match c with SetGid g => if decide (os c = 0%Z) then g else gid p | _ => gid p end)).
Proof. done. Qed.
#[local] Hint Rewrite @run_sys : run.

(** Starting as anything but root ends before the server loop. *)
Lemma drop_not_root GroupID UserID p :
  uid p ≠ 0%Z → dropPrivileges GroupID UserID p = (p, inl (Exit EXIT_FAILURE)).
Proof. intros H. unfold dropPrivileges. run. by rewrite decide_False. Qed.

Lemma drop_root GroupID UserID p p' :
  dropPrivileges GroupID UserID p = (p', inr ()) →
  uid p = 0%Z ∧ uid p' = UserID ∧ gid p' = GroupID ∧
  calls p' = calls p ++ [SetGid GroupID; SetUid UserID].
Proof.
  unfold dropPrivileges. run. case_decide as Hu; run; [|done].
  case_decide as Hg; run; [done|]. case_decide as Hs; run; [done|].
  intros [= <-]. cbn. rewrite !decide_True by lia. by rewrite <-app_assoc.
Qed.

Lemma bind_inr {S A B} (m : St S A) (f : A → St S B) s s' b :
  (m ≫= f) s = (s', inr b) → ∃ s1 a, m s = (s1, inr a) ∧ f a s1 = (s', inr b).
Proof.
  unfold mbind, St_bind. destruct (m s) as [s1 [e|a]]; [done|]. eauto.
Qed.

Lemma setup_socket_calls Address Port p p' fd :
  setupSocket Address Port p = (p', inr fd) →
  fd = os SysSocket ∧ uid p' = uid p ∧ gid p' = gid p ∧
  calls p' = calls p ++
    [SysSocket; FcntlGetFl fd; FcntlSetFl fd (Z.lor (os (FcntlGetFl fd)) SO_REUSEADDR);
     SetSockOpt fd "TCP_NODELAY" 1; FcntlGetFl fd;
     FcntlSetFl fd (Z.lor (os (FcntlGetFl fd)) O_NONBLOCK);
     SysBind fd Address Port; SysListen fd 0].
Proof.
  unfold setupSocket, makeNonblocking. run. case_decide as H1; run; [done|].
  intros (p1 & [] & E1 & E2)%bind_inr. revert E1. run. case_decide as H2; run; [done|].
  intros [= <-]. revert E2. run. case_decide as H3; run; [done|].
  intros [= <- <-]. cbn. by rewrite <-!app_assoc.
Qed.

Lemma init_process_calls Address Port GroupID UserID p p' fd :
  init_process Address Port GroupID UserID p = (p', inr fd) →
  uid p = 0%Z ∧ uid p' = UserID ∧ gid p' = GroupID ∧
  calls p' = calls p ++ setup_calls Address Port GroupID UserID.
Proof.
  unfold init_process, disableSignals, setTerminationHandler.
  intros (p1 & [] & E1 & E2)%bind_inr. revert E1. run. intros [= <-].
  apply bind_inr in E2 as (p2 & [] & E2 & E3). revert E2. run. intros [= <-].
  apply bind_inr in E3 as (p3 & sfd & E3 & E4).
  apply setup_socket_calls in E3 as (-> & Hu & Hg & Hc).
  apply bind_inr in E4 as (p4 & [] & E4 & E5). injection E5 as -> <-.
  apply drop_root in E4 as (Hroot & Hu' & Hg' & Hc').
  rewrite Hu in Hroot. split; [done|]. split; [done|]. split; [done|].
  rewrite Hc', Hc. cbn [calls]. by rewrite <-!app_assoc.
Qed.

End setup.

(** ** Termination *)

(** [terminateChildren()]: the vector of children is reversed in place. *)
Definition kill_order (ChildPIDs : list Z) : list syscall :=
  concat (map (λ pid, [Kill pid "SIGTERM"; SleepFor 50]) ChildPIDs).

Definition terminateChildren (ChildPIDs : list Z) : list syscall * list Z :=
  let ChildPIDs := reverse ChildPIDs in (kill_order ChildPIDs, ChildPIDs).

(** [addChildPID(pid)] *)
Definition addChildPID (pid : Z) (ChildPIDs : list Z) : list Z := ChildPIDs ++ [pid].

(** [terminate]: the flag of the loop, and the children. *)
Definition terminate (ChildPIDs : list Z) : bool * (list syscall * list Z) :=
  (false, terminateChildren ChildPIDs).

(** ** The server loop *)

Record round := mkRound {
  poll_rc : Z;
  revents : Z;
  accepted : Z;
  accepted_fcntl : Z;
  epoll_ready : option (list Z);
  arrivals : list (Z * list recv);
  sigterm : bool
}.

(** Input that arrived since the last round. *)
Definition arrive (ars : list (Z * list recv)) (h : ClientHandler) : ClientHandler :=
  foldl (λ h '(fd, rs), set_pending fd (default [] (pending h !! fd) ++ rs) h) h ars.

(** [acceptClient()] *)
Definition acceptClient (ClientFD fcntl : Z) : St ClientHandler () :=
  if decide (ClientFD > 0)%Z then addClient fcntl ClientFD else mret ().

(** One iteration of the loop body; the idle sleep changes nothing. *)
Definition server_round (i : round) : St ClientHandler () :=
  _ ← modify (arrive (arrivals i));
  _ ← (if decide (poll_rc i = (-1)%Z) then mret ()
       else if decide (Z.land (revents i) POLLIN ≠ 0%Z)
       then acceptClient (accepted i) (accepted_fcntl i) else mret ());
  processClients (epoll_ready i).

(** [ServerLoop()] over the rounds of an execution: [RunServer] holds until the
    handler of [SIGTERM] has run, in the round in which the signal arrives; it
    is tested between the rounds. *)
Fixpoint ServerLoop (rounds : list round) : St ClientHandler () :=
  match rounds with
  | [] => mret ()
  | i :: rounds => _ ← server_round i; if sigterm i then mret () else ServerLoop rounds
  end.

(** The rounds that are executed. *)
Fixpoint executed (rounds : list round) : list round :=
  match rounds with
  | [] => []
  | i :: rounds => i :: if sigterm i then [] else executed rounds
  end.

Definition round_ok (i : round) : Prop := Forall (λ a, Forall recv_ok a.2) (arrivals i).

Lemma arrive_ok ars h :
  handler_ok h → Forall (λ a : Z * list recv, Forall recv_ok a.2) ars →
  handler_ok (arrive ars h) ∧ Clients (arrive ars h) = Clients h.
Proof.
  intros Hh Ha. revert h Hh. induction Ha as [|[fd rs] ars Hrs _ IH]; intros h Hh; [done|].
  cbn [arrive foldl]. destruct (IH (set_pending fd (default [] (pending h !! fd) ++ rs) h))
    as [H1 H2]; [|exact (conj H1 H2)].
  destruct Hh. split; cbn; try done. apply map_Forall_insert_2; [|done].
  apply Forall_app. split; [|done]. destruct (pending h !! fd) eqn:E; [|constructor].
  by apply (hok_kernel0 fd).
Qed.

Lemma process_clients_ok epoll h h' r :
  handler_ok h → processClients epoll h = (h', r) → handler_ok h'.
Proof.
  intros Hh E. unfold processClients in E. rewrite run_modify in E.
  assert (handler_ok (set_processed 0 h)) as H0 by by destruct Hh.
  destruct epoll as [fds|]; [|by injection E as <- _].
  case_decide; [|by injection E as <- _]. by apply read_clients_ok in E as [? _].
Qed.

Lemma server_round_ok i h h' r :
  handler_ok h → round_ok i → server_round i h = (h', r) → handler_ok h'.
Proof.
  intros Hh Hi E. unfold server_round in E. rewrite run_modify in E.
  destruct (arrive_ok (arrivals i) h Hh Hi) as [Ha _]. revert Ha E.
  generalize (arrive (arrivals i) h). intros h0 Ha E.
  match type of E with (?m ≫= ?f) h0 = _ => destruct (m h0) as [h1 [e|[]]] eqn:Em end;
    rewrite (run_bind _ _ _ _ _ Em) in E.
  - simplify_eq. case_decide; [by injection Em as <- _|].
    case_decide; [|by injection Em as <- _]. unfold acceptClient in Em.
    case_decide; [|by injection Em as <- _]. by apply add_client_ok in Em as [? _].
  - eapply process_clients_ok; [|exact E]. clear E.
    case_decide; [by injection Em as <- |].
    case_decide; [|by injection Em as <-]. unfold acceptClient in Em.
    case_decide; [|by injection Em as <-]. by apply add_client_ok in Em as [? _].
Qed.

Lemma server_loop_ok rounds : ∀ h h' r,
  handler_ok h → Forall round_ok rounds → ServerLoop rounds h = (h', r) → handler_ok h'.
Proof.
  induction rounds as [|i rounds IH]; intros h h' r Hh Hr E; [by injection E as <- _|].
  apply Forall_cons in Hr as [Hi Hr]. cbn [ServerLoop] in E.
  destruct (server_round i h) as [h1 [e|[]]] eqn:Ei; rewrite (run_bind _ _ _ _ _ Ei) in E.
  - simplify_eq. by eapply server_round_ok.
  - assert (handler_ok h1) by by eapply server_round_ok.
    destruct (sigterm i); [by injection E as <- _|]. by eapply IH.
Qed.

(** Nothing after the signal is executed. *)
Lemma server_loop_executed rounds h : ServerLoop rounds h = ServerLoop (executed rounds) h.
Proof.
  revert h. induction rounds as [|i rounds IH]; intros h; [done|]. cbn [ServerLoop executed].
  destruct (server_round i h) as [h1 [e|[]]] eqn:Ei; rewrite !(run_bind _ _ _ _ _ Ei); [done|].
  destruct (sigterm i); [done|apply IH].
Qed.

End Server.
