(* ===== verification/ServerDelivery.v ===== *)
(** * What a client has sent, over several rounds of the server loop

    [tracks] relates the input of a descriptor since some moment, the parser of
    its client, and what is still pending; every part of a round keeps it. *)
From S2P Require Export Server.
From stdpp Require Import options.

Module ServerDelivery.
Import HTTPParser Connection Server.

(** ** Input *)

(** A result of [read] that does not end the connection. *)
Definition alive (r : recv) : Prop :=
  match r with
  | Bytes bs => bs ≠ []
  | Error e => e = EAGAIN ∨ e = EWOULDBLOCK ∨ e = EINTR
  end.

#[export] Instance alive_dec r : Decision (alive r).
Proof. destruct r; cbn; apply _. Defined.

(** The bytes of a sequence of results. *)
Definition payloads (rs : list recv) : list bytes :=
  omap (λ r, match r with Bytes bs => Some bs | Error _ => None end) rs.

(** What arrives for a descriptor in one round, and over several. *)
Definition arrived_in (fd : Z) (i : round) : list recv :=
  flat_map (λ a, if decide (a.1 = fd) then a.2 else []) (arrivals i).
Definition arrived (fd : Z) (rounds : list round) : list recv := flat_map (arrived_in fd) rounds.

Lemma payloads_app xs ys : payloads (xs ++ ys) = payloads xs ++ payloads ys.
Proof. apply omap_app. Qed.

Lemma feed_app xs ys p :
  feed (xs ++ ys) p =
  match feed xs p with (p', inr _) => feed ys p' | (p', inl e) => (p', inl e) end.
Proof.
  revert p. induction xs as [|x xs IH]; intros p; [done|]. cbn [app].
  rewrite !ParserSpec.feed_cons. destruct (appendBuffer x (length x) p) as [p' [e|[]]]; [done|apply IH].
Qed.

(** One call of [receiveData] on such input does not finish the client. *)
Lemma stream_alive rs chunks finished rest :
  Forall alive rs → stream rs = (chunks, finished, rest) →
  finished = false ∧ ∃ taken, rs = taken ++ rest ∧ payloads taken = chunks.
Proof.
  intros Ha. revert chunks finished rest.
  induction Ha as [|r rs Hr Ha IH]; intros chunks finished rest; cbn [stream].
  { intros [= <- <- <-]. split; [done|]. by exists []. }
  destruct r as [[|b bs]|e]; cbn in Hr; [done| |].
  - destruct (stream rs) as [[chunks' finished'] rest'] eqn:Es. intros [= <- <- <-].
    destruct (IH _ _ _ eq_refl) as (-> & taken & -> & <-). split; [done|].
    by exists (Bytes (b :: bs) :: taken).
  - intros [= <- <- <-]. split; [by rewrite bool_decide_false by tauto|]. by exists [Error e].
Qed.

(** What has arrived is pending. *)
Lemma arrive_pending fd i h :
  default [] (pending (arrive (arrivals i) h) !! fd) =
  default [] (pending h !! fd) ++ arrived_in fd i.
Proof.
  unfold arrived_in, arrive. revert h. induction (arrivals i) as [|[fd' rs] ars IH]; intros h;
    cbn [flat_map foldl]; [by rewrite app_nil_r|].
  rewrite IH, app_assoc. f_equal. cbn [fst snd pending set_pending].
  destruct (decide (fd' = fd)) as [->|Hne].
  - by rewrite lookup_insert_eq.
  - by rewrite lookup_insert_ne, app_nil_r.
Qed.

Lemma arrive_clients ars h : Clients (arrive ars h) = Clients h.
Proof.
  unfold arrive. revert h. induction ars as [|[fd' rs] ars IH]; intros h; cbn; [done|].
  by rewrite IH.
Qed.

(** ** Tracking a client *)

Section tracking.
Variables (fd off : Z) (p0 : HTTPParser).

(** The client is connected, and its parser has been fed what it has read of
    the input so far, in order; the rest of the input is pending. *)
Definition tracks (input : list recv) (h : ClientHandler) : Prop :=
  ∃ consumed p', input = consumed ++ default [] (pending h !! fd) ∧
    feed (payloads consumed) p0 = (p', inr ()) ∧
    Clients h !! fd = Some (mkClient p' fd off).

(** What does not touch the client or its input keeps it tracked. *)
Lemma tracks_same input h h' :
  pending h' !! fd = pending h !! fd → Clients h' !! fd = Clients h !! fd →
  tracks input h → tracks input h'.
Proof. intros Hp Hc (consumed & p' & Hi & Hf & Hcl). exists consumed, p'. by rewrite Hp, Hc. Qed.

Lemma tracks_arrive input i h :
  tracks input h → tracks (input ++ arrived_in fd i) (arrive (arrivals i) h).
Proof using Type.
  intros (consumed & p' & -> & Hf & Hcl). exists consumed, p'.
  by rewrite arrive_pending, arrive_clients, app_assoc.
Qed.

Lemma tracks_add input fcntl fd' h h' r :
  fd' ≠ fd → addClient fcntl fd' h = (h', r) → tracks input h → tracks input h'.
Proof.
  intros Hne E. unfold addClient in E. case_decide; [by injection E as <- _|].
  rewrite run_get in E. destruct (MemoryManager.getNextMemPointer 1 (BufferMemory h)) as [p m].
  rewrite !run_modify in E. injection E as <- _. cbn.
  destruct (Clients h !! fd') as [c|]; apply tracks_same; try done.
  cbn. by rewrite lookup_insert_ne.
Qed.

Lemma tracks_receive input h fd' c h' r :
  handler_ok h → Forall alive input → tracks input h → Clients h !! fd' = Some c →
  receiveData fd' c h = (h', r) → (∃ finished, r = inr finished) →
  tracks input h' ∧ (fd' = fd → r = inr false).
Proof.
  intros Hh Ha Ht Hc E (finished & ->).
  destruct (stream (default [] (pending h !! fd'))) as [[chunks dn] rest] eqn:Es.
  destruct (feed chunks (parser c)) as [p' res] eqn:Ef.
  destruct (receive_spec _ _ _ _ _ _ _ _ Hh Hc Es Ef) as (h1 & E1 & Hrec & Hrest).
  rewrite E in E1. destruct res as [e|[]]; [done|]. injection E1 as <- <-. specialize (Hrest eq_refl). destruct Hrec as [Hcl _ _ _ Hp _ _ _].
  destruct (decide (fd' = fd)) as [->|Hne].
  - destruct Ht as (consumed & p1 & -> & Hf & Hcl1). rewrite Hcl1 in Hc. injection Hc as <-.
    apply Forall_app in Ha as [_ Ha]. destruct (stream_alive _ _ _ _ Ha Es) as (-> & taken & Htk & <-).
    split; [|done]. exists (consumed ++ taken), p'.
    split; [by rewrite Htk, <-app_assoc, Hrest|]. split.
    + rewrite payloads_app, feed_app, Hf. exact Ef.
    + rewrite Hcl. by rewrite lookup_insert_eq.
  - split; [|done]. eapply tracks_same; [..|exact Ht]; [by apply Hp|].
    rewrite Hcl. by rewrite lookup_insert_ne.
Qed.

Lemma tracks_read input fds : ∀ h h',
  handler_ok h → Forall alive input → tracks input h →
  readClientData fds h = (h', inr ()) → tracks input h'.
Proof.
  induction fds as [|fd' fds IH]; intros h h' Hh Ha Ht E; [by injection E as <-|].
  cbn [readClientData] in E. rewrite run_get in E.
  destruct (Clients h !! fd') as [c|] eqn:Hc; [|by eapply IH].
  destruct (receiveData fd' c h) as [h1 [e|dn]] eqn:Er;
    destruct (receive_ok _ _ _ _ _ Hh Hc Er) as [Hh1 _];
    unfold mbind, St_bind in E; rewrite Er in E; [done|].
  destruct (tracks_receive _ _ _ _ _ _ Hh Ha Ht Hc Er) as [Ht1 Hfd]; [by eexists|].
  case_decide as Hd; [|exact (IH h1 h' Hh1 Ha Ht1 E)].
  refine (IH _ h' (close_ok _ fd' Hh1) Ha _ E).
  assert (fd' ≠ fd) as Hne by (intros ->; specialize (Hfd eq_refl); congruence).
  eapply tracks_same; [..|exact Ht1]; [done|]. cbn. by rewrite lookup_delete_ne.
Qed.

Lemma tracks_process input epoll h h' :
  handler_ok h → Forall alive input → tracks input h →
  processClients epoll h = (h', inr ()) → tracks input h'.
Proof using Type.
  intros Hh Ha Ht E. unfold processClients in E. rewrite run_modify in E.
  assert (handler_ok (set_processed 0 h)) as Hok by by destruct Hh.
  destruct epoll as [fds|]; [|by injection E as <-].
  case_decide; [|by injection E as <-]. exact (tracks_read _ _ _ _ Hok Ha Ht E).
Qed.

Lemma tracks_round input i h h' :
  handler_ok h → round_ok i → accepted i ≠ fd → Forall alive (input ++ arrived_in fd i) →
  tracks input h → server_round i h = (h', inr ()) →
  tracks (input ++ arrived_in fd i) h' ∧ handler_ok h'.
Proof using Type.
  intros Hh Hi Hacc Ha Ht E. split; [|by eapply server_round_ok].
  unfold server_round in E. rewrite run_modify in E.
  destruct (arrive_ok (arrivals i) h Hh Hi) as [Hok _].
  apply (tracks_arrive _ i) in Ht. revert Hok Ht E.
  generalize (arrive (arrivals i) h). intros h0 Hok Ht (h1 & [] & Em & E)%bind_inr.
  refine (tracks_process _ _ h1 h' _ Ha _ E); repeat case_decide; try by injection Em as <-.
  all: unfold acceptClient in Em; case_decide; [|by injection Em as <-].
  - by apply add_client_ok in Em as [? _].
  - by eapply tracks_add.
Qed.

Lemma tracks_loop rounds : ∀ input h h',
  handler_ok h → Forall round_ok rounds → Forall (λ i, accepted i ≠ fd) rounds →
  Forall alive (input ++ arrived fd (executed rounds)) → tracks input h →
  ServerLoop rounds h = (h', inr ()) →
  tracks (input ++ arrived fd (executed rounds)) h'.
Proof.
  induction rounds as [|i rounds IH]; intros input h h' Hh Hr Hacc Ha Ht E.
  { cbn. injection E as <-. by rewrite app_nil_r. }
  apply Forall_cons in Hr as [Hi Hr]. apply Forall_cons in Hacc as [Hai Hacc].
  cbn [ServerLoop executed arrived flat_map] in *.
  destruct (server_round i h) as [h1 [e|[]]] eqn:Ei; rewrite (run_bind _ _ _ _ _ Ei) in E; [done|].
  rewrite app_assoc in Ha. pose proof Ha as [Ha1 _]%Forall_app.
  destruct (tracks_round _ _ _ _ Hh Hi Hai Ha1 Ht Ei) as [Ht1 Hh1].
  destruct (sigterm i); rewrite app_assoc.
  - injection E as <-. cbn. by rewrite app_nil_r.
  - by eapply IH.
Qed.

End tracking.

(** ** A new connection *)

(** The kernel has a connection with this descriptor for the round. *)
Definition connects (fd : Z) (i : round) : Prop :=
  poll_rc i ≠ (-1)%Z ∧ Z.land (revents i) POLLIN ≠ 0%Z ∧ accepted i = fd ∧ (fd > 0)%Z.

#[export] Instance connects_dec fd i : Decision (connects fd i).
Proof. unfold connects. apply _. Defined.

(** It is tracked with a fresh parser from the round on that accepts it. *)
Lemma tracks_connect fd i h h' :
  handler_ok h → round_ok i → connects fd i → Clients h !! fd = None →
  Forall alive (default [] (pending h !! fd) ++ arrived_in fd i) →
  server_round i h = (h', inr ()) →
  ∃ off, tracks fd off (HTTPParser.init 4096) (default [] (pending h !! fd) ++ arrived_in fd i) h' ∧
    handler_ok h'.
Proof.
  intros Hh Hi (Hpoll & Hrev & Hacc & Hpos) Hnone Ha E.
  assert (handler_ok h') as Hok' by by eapply server_round_ok.
  unfold server_round in E. rewrite run_modify in E.
  destruct (arrive_ok (arrivals i) h Hh Hi) as [Hok _].
  rewrite <-(arrive_clients (arrivals i)) in Hnone. rewrite <-arrive_pending in Ha |- *.
  revert Hok Hnone Ha E. generalize (arrive (arrivals i) h).
  intros h0 Hok Hnone Ha (h1 & [] & Em & E)%bind_inr.
  rewrite decide_False, decide_True in Em by done. unfold acceptClient in Em.
  rewrite Hacc, decide_True in Em by done. destruct (add_client_ok _ _ _ _ _ Hok Em) as [Hok1 _].
  unfold addClient in Em. case_decide; [done|]. rewrite run_get in Em.
  destruct (MemoryManager.getNextMemPointer 1 (BufferMemory h0)) as [p m].
  rewrite !run_modify in Em. cbn in Em. rewrite Hnone in Em. injection Em as <-.
  eexists. split; [|done]. eapply tracks_process; [exact Hok1|exact Ha| |exact E].
  exists [], (HTTPParser.init 4096). cbn. rewrite lookup_insert_eq. done.
Qed.

End ServerDelivery.
