(* ===== verification/ServerEdges.v ===== *)
(** * Edge-triggered readiness

    [ClientHandler::addClient] asks for [EPOLLET]: the kernel reports a
    descriptor once when input arrives for it, not as long as there is some, so
    a server that leaves input unread waits for it for ever. This file adds the
    events that are raised and not yet reported to the state of the loop, as
    the documentation of epoll describes them, and shows what the reading loop
    of [Client::receiveData] makes of them. *)
From S2P Require Export ServerDelivery.
From stdpp Require Import options.

Module ServerEdges.
Import HTTPParser Connection Server ServerDelivery.

(** ** Events

    Input for a monitored descriptor raises its event; so does starting to
    monitor one that has input already. [epoll_wait] reports some of the events
    that are raised, which ends them; closing a descriptor drops its event. *)
Definition has_input (h : ClientHandler) (fd : Z) : bool :=
  bool_decide (default [] (pending h !! fd) ≠ []).

(** The handler when [epoll_wait] is called. *)
Definition before_wait (i : round) : St ClientHandler () :=
  _ ← modify (arrive (arrivals i));
  if decide (poll_rc i = (-1)%Z) then mret ()
  else if decide (Z.land (revents i) POLLIN ≠ 0%Z)
  then acceptClient (accepted i) (accepted_fcntl i) else mret ().

(** The descriptors whose event is raised in a round that is at [h] before it. *)
Definition raised (i : round) (h : ClientHandler) : gset Z :=
  let h1 := (before_wait i h).1 in
  list_to_set (filter (λ fd, fd ∈ monitored h1 ∧ has_input h1 fd)
    (map fst (arrivals i) ++ [accepted i])).

Definition reported (i : round) : list Z := default [] (epoll_ready i).

(** The rounds from [h], with the events [E] raised before, that the kernel
    can provide. *)
Inductive edge_rounds : ClientHandler → gset Z → list round → ClientHandler → gset Z → Prop :=
| edge_end h E : edge_rounds h E [] h E
| edge_round h E i h1 rounds h' E' :
    (∀ fd, fd ∈ reported i → fd ∈ E ∪ raised i h) →
    server_round i h = (h1, inr ()) →
    edge_rounds h1 (((E ∪ raised i h) ∖ list_to_set (reported i)) ∩ monitored h1) rounds h' E' →
    edge_rounds h E (i :: rounds) h' E'.

(** They can be computed: the state and the events after given rounds, and
    whether the kernel can provide them. *)
Definition events_left (i : round) (h : ClientHandler) (E : gset Z) : gset Z :=
  ((E ∪ raised i h) ∖ list_to_set (reported i)) ∩ monitored (server_round i h).1.

Fixpoint events_after (rounds : list round) (h : ClientHandler) (E : gset Z) :
    ClientHandler * gset Z :=
  match rounds with
  | [] => (h, E)
  | i :: rounds => events_after rounds (server_round i h).1 (events_left i h E)
  end.

Fixpoint possible (rounds : list round) (h : ClientHandler) (E : gset Z) : Prop :=
  match rounds with
  | [] => True
  | i :: rounds =>
      Forall (λ fd, fd ∈ E ∪ raised i h) (reported i) ∧ (server_round i h).2 = inr () ∧
      possible rounds (server_round i h).1 (events_left i h E)
  end.

#[export] Instance possible_dec rounds : ∀ h E, Decision (possible rounds h E).
Proof. induction rounds; intros h E; cbn [possible]; apply _. Defined.

Lemma possible_rounds rounds h E :
  possible rounds h E →
  edge_rounds h E rounds (events_after rounds h E).1 (events_after rounds h E).2.
Proof.
  revert h E. induction rounds as [|i rounds IH]; intros h E; cbn [possible events_after];
    [constructor|].
  intros (Hr & Hs & Hp). destruct (server_round i h) as [h1 r] eqn:E1. cbn in Hs. subst r.
  unfold events_left in *. rewrite E1 in *. cbn in *.
  eapply edge_round; [by apply Forall_forall|exact E1|by apply IH].
Qed.

(** No input is left without an event. *)
Definition no_lost_input (h : ClientHandler) (E : gset Z) : Prop :=
  ∀ fd, fd ∈ monitored h → has_input h fd → fd ∈ E.

(** A result of [read] that is not an invitation to try again. *)
Definition final (r : recv) : Prop :=
  match r with
  | Bytes _ => True
  | Error e => ¬ (e = EAGAIN ∨ e = EWOULDBLOCK ∨ e = EINTR)
  end.

#[export] Instance final_dec r : Decision (final r).
Proof. destruct r; cbn; apply _. Defined.

(** The results that are pending at a descriptor, and those of which none asks
    to try again. *)
Definition queued (fd : Z) (h : ClientHandler) : list recv := default [] (pending h !! fd).
Definition final_at (fd : Z) (h : ClientHandler) : Prop := Forall final (queued fd h).

(** ** Reading *)

(** A call of [receiveData] that does not finish the client has read all, or its
    last result asked to try again. *)
Lemma stream_stops rs chunks rest :
  stream rs = (chunks, false, rest) →
  rest = [] ∨ ∃ taken r, rs = (taken ++ [r]) ++ rest ∧ payloads (taken ++ [r]) = chunks ∧ ¬ final r.
Proof.
  revert chunks rest. induction rs as [|r rs IH]; intros chunks rest; cbn [stream].
  { intros [= <- <-]. by left. }
  destruct r as [[|b bs]|e]; [done| |].
  - destruct (stream rs) as [[chunks' done'] rest'] eqn:Es. intros [= <- -> ->].
    destruct (IH _ _ eq_refl) as [->|(taken & r & -> & <- & Hr)]; [by left|].
    right. exists (Bytes (b :: bs) :: taken), r. done.
  - intros [= <- Hd <-]. apply bool_decide_eq_false in Hd. right. exists [], (Error e). split; [done|]. split; [done|]. cbn. tauto.
Qed.

Lemma stream_suffix rs chunks dn rest :
  stream rs = (chunks, dn, rest) → ∃ taken, rs = taken ++ rest.
Proof.
  revert chunks dn rest. induction rs as [|r rs IH]; intros chunks dn rest; cbn [stream].
  { intros [= <- <- <-]. by exists []. }
  destruct r as [[|b bs]|e].
  - intros [= <- <- <-]. by exists [Bytes []].
  - destruct (stream rs) as [[chunks' dn'] rest'] eqn:Es. intros [= <- <- <-].
    destruct (IH _ _ _ eq_refl) as [taken ->]. by exists (Bytes (b :: bs) :: taken).
  - intros [= <- <- <-]. by exists [Error e].
Qed.

Lemma stream_drains rs chunks dn rest :
  Forall final rs → stream rs = (chunks, dn, rest) →
  Forall final rest ∧ (dn = false → rest = []).
Proof.
  intros Hf Es. split.
  - destruct (stream_suffix _ _ _ _ Es) as [taken ->]. by apply Forall_app in Hf as [_ Hf].
  - intros ->. destruct (stream_stops _ _ _ Es) as [?|(taken & r & -> & _ & Hr)]; [done|].
    apply Forall_app in Hf as [[_ [Hf _]%Forall_cons]%Forall_app _]. by destruct (Hr Hf).
Qed.

(** What the loop over the reported descriptors leaves: nothing pending for
    those whose results are final, and the others as they were. *)
Record drained (fds : list Z) (h h' : ClientHandler) : Prop := {
  dr_monitored fd : fd ∈ monitored h' → fd ∈ monitored h;
  dr_reported fd : fd ∈ fds → fd ∈ monitored h' → final_at fd h → has_input h' fd = false;
  dr_other fd : fd ∉ fds → pending h' !! fd = pending h !! fd
}.

Lemma drained_one fd c h h' dn :
  handler_ok h → Clients h !! fd = Some c →
  receiveData fd c h = (h', inr dn) →
  monitored h' = monitored h ∧
  (final_at fd h → final_at fd h' ∧ (dn = false → has_input h' fd = false)) ∧
  (∀ fd', fd' ≠ fd → pending h' !! fd' = pending h !! fd').
Proof.
  intros Hh Hc E. destruct (stream (default [] (pending h !! fd))) as [[chunks d] rest] eqn:Es.
  destruct (feed chunks (parser c)) as [p' res] eqn:Ef.
  destruct (receive_spec _ _ _ _ _ _ _ _ Hh Hc Es Ef) as (h1 & E1 & Hrec & Hrest).
  rewrite E in E1. destruct res as [e|[]]; [done|]. injection E1 as <- <-.
  specialize (Hrest eq_refl). destruct Hrec as [_ _ _ _ Hp _ Hm _].
  split; [done|]. split; [|done]. intros Hfi.
  destruct (stream_drains _ _ _ _ Hfi Es) as [Hfr Hdr].
  unfold final_at, queued, has_input. rewrite Hrest. split; [done|].
  intros Hd. apply bool_decide_eq_false. intros Hn. by apply Hn, Hdr.
Qed.

(** One step of the loop: it goes on from [h2], which is the handler after the
    descriptor was read, without its client when that is finished. *)
Lemma read_step fd fds c h h' :
  handler_ok h → Clients h !! fd = Some c → readClientData (fd :: fds) h = (h', inr ()) →
  ∃ h1 h2 dn, receiveData fd c h = (h1, inr dn) ∧ handler_ok h2 ∧
    readClientData fds h2 = (h', inr ()) ∧ pending h2 = pending h1 ∧
    h2 = if dn then set_closed (closed h1 ++ [fd]) (set_monitored (monitored h1 ∖ {[fd]})
      (set_clients (delete fd (Clients h1)) h1)) else h1.
Proof.
  intros Hh Hc E. cbn [readClientData] in E. rewrite run_get, Hc in E.
  destruct (receiveData fd c h) as [h1 [e|dn]] eqn:Er;
    destruct (receive_ok _ _ _ _ _ Hh Hc Er) as [Hh1 _];
    unfold mbind, St_bind in E; rewrite Er in E; [done|].
  eexists h1, _, dn. split; [done|]. split; [|split; [|split; [|reflexivity]]].
  - destruct dn; [by apply close_ok|done].
  - destruct dn; exact E.
  - by destruct dn.
Qed.

Lemma drained_read fds : ∀ h h',
  handler_ok h → readClientData fds h = (h', inr ()) → drained fds h h'.
Proof.
  induction fds as [|fd fds IH]; intros h h' Hh E.
  { injection E as <-. split; [done|set_solver|done]. }
  destruct (Clients h !! fd) as [c|] eqn:Hc.
  2:{ cbn [readClientData] in E. rewrite run_get, Hc in E.
      destruct (IH _ _ Hh E) as [Hm Hr Ho]. split; [done| |set_solver].
      intros fd' [->|Hin]%elem_of_cons Hm'; [|by apply Hr].
      apply Hm in Hm'. rewrite <-(hok_fds _ Hh) in Hm'.
      by apply not_elem_of_dom in Hc. }
  destruct (read_step _ _ _ _ _ Hh Hc E) as (h1 & h2 & dn & Er & Hh2 & E2 & Hp2 & Eh2).
  destruct (drained_one _ _ _ _ _ Hh Hc Er) as (Hm1 & Hf1 & Hp1).
  destruct (IH h2 h' Hh2 E2) as [Hm Hr Ho].
  assert (monitored h2 ⊆ monitored h) as Hm2 by (rewrite Eh2, <-Hm1; destruct dn; cbn; set_solver).
  assert (fd ∈ monitored h2 → dn = false) as Hdn by (rewrite Eh2; destruct dn; cbn; set_solver).
  split; [set_solver| |intros fd' Hn; rewrite Ho, Hp2, Hp1 by set_solver; done].
  intros fd' Hin Hm' Hf'. destruct (decide (fd' = fd)) as [->|Hne].
  - destruct (Hf1 Hf') as [Hf2 Hd1].
    destruct (decide (fd ∈ fds)) as [Hin'|Hnin].
    + apply Hr; [done..|]. unfold final_at, queued. by rewrite Hp2.
    + specialize (Hd1 (Hdn (Hm _ Hm'))). unfold has_input in Hd1 |- *. by rewrite Ho, Hp2.
  - apply elem_of_cons in Hin as [->|Hin]; [done|]. apply Hr; [done..|].
    unfold final_at, queued. by rewrite Hp2, Hp1.
Qed.

(** Whatever the results of [read], other descriptors keep their input. *)
Lemma read_other fds fd : ∀ h h',
  handler_ok h → fd ∉ fds → readClientData fds h = (h', inr ()) →
  pending h' !! fd = pending h !! fd.
Proof.
  induction fds as [|fd1 fds IH]; intros h h' Hh Hn E; [by injection E as <-|].
  apply not_elem_of_cons in Hn as [Hne Hn].
  cbn [readClientData] in E. rewrite run_get in E.
  destruct (Clients h !! fd1) as [c|] eqn:Hc; [|by apply IH].
  destruct (stream (default [] (pending h !! fd1))) as [[chunks d] rest] eqn:Es.
  destruct (feed chunks (parser c)) as [p' res] eqn:Ef.
  destruct (receive_spec _ _ _ _ _ _ _ _ Hh Hc Es Ef) as (h1 & Er & Hrec & _).
  destruct (receive_ok _ _ _ _ _ Hh Hc Er) as [Hh1 _].
  unfold mbind, St_bind in E; rewrite Er in E. destruct res as [e|[]]; [done|].
  rewrite <-(rc_pending _ _ _ _ Hrec fd) by done.
  case_decide; [|by apply IH].
  exact (IH (set_closed (closed h1 ++ [fd1]) (set_monitored (monitored h1 ∖ {[fd1]})
    (set_clients (delete fd1 (Clients h1)) h1))) h' (close_ok _ fd1 Hh1) Hn E).
Qed.

(** ** One round *)

Lemma round_split i h :
  server_round i h = (before_wait i ≫= λ _, processClients (epoll_ready i)) h.
Proof.
  unfold server_round, before_wait. rewrite run_modify.
  unfold mbind at 2, St_bind at 2. cbn. by repeat case_decide.
Qed.

Lemma arrive_other fd ars h :
  fd ∉ map fst ars → pending (arrive ars h) !! fd = pending h !! fd.
Proof.
  unfold arrive. revert h. induction ars as [|[fd' rs] ars IH]; intros h Hn; [done|].
  cbn [foldl]. cbn in Hn. apply not_elem_of_cons in Hn as [Hne Hn].
  rewrite IH by done. cbn. by rewrite lookup_insert_ne.
Qed.

Lemma arrive_monitored ars h : monitored (arrive ars h) = monitored h.
Proof.
  unfold arrive. revert h. induction ars as [|[fd' rs] ars IH]; intros h; [done|].
  cbn [foldl]. by rewrite IH.
Qed.

Lemma add_client_effect fcntl fd h h' r :
  addClient fcntl fd h = (h', r) →
  pending h' = pending h ∧ monitored h' ⊆ monitored h ∪ {[fd]} ∧
  ∀ fd', fd' ≠ fd → Clients h' !! fd' = Clients h !! fd'.
Proof.
  unfold addClient. case_decide; [intros [= <- _]; set_solver|]. rewrite run_get.
  destruct (MemoryManager.getNextMemPointer 1 (BufferMemory h)) as [p m].
  rewrite !run_modify. intros [= <- _]. cbn.
  destruct (Clients h !! fd); cbn; (split; [done|]; split; [set_solver|]); [done|].
  intros fd' Hne. by rewrite lookup_insert_ne.
Qed.

Lemma before_wait_effect i h h1 r :
  handler_ok h → round_ok i → before_wait i h = (h1, r) →
  handler_ok h1 ∧ pending h1 = pending (arrive (arrivals i) h) ∧
  monitored h1 ⊆ monitored h ∪ {[accepted i]} ∧
  ∀ fd, fd ≠ accepted i → Clients h1 !! fd = Clients h !! fd.
Proof.
  intros Hh Hi E. unfold before_wait in E. rewrite run_modify in E.
  destruct (arrive_ok (arrivals i) h Hh Hi) as [Hok _].
  rewrite <-(arrive_monitored (arrivals i) h), <-(arrive_clients (arrivals i) h).
  repeat case_decide; try (injection E as <- _; repeat (split; [done || set_solver|]); done).
  unfold acceptClient in E.
  case_decide; [|injection E as <- _; repeat (split; [done || set_solver|]); done].
  destruct (add_client_ok _ _ _ _ _ Hok E) as [Hok1 _].
  by apply add_client_effect in E as (Hp & Hm & Hc).
Qed.

Lemma drained_process epoll h h' :
  handler_ok h → processClients epoll h = (h', inr ()) → drained (default [] epoll) h h'.
Proof.
  intros Hh E. unfold processClients in E. rewrite run_modify in E.
  assert (handler_ok (set_processed 0 h)) as Hok by by destruct Hh.
  destruct epoll as [fds|]; cbn.
  - case_decide as Hl.
    + apply (drained_read _ _ _ Hok) in E as []. by split.
    + destruct fds; [|cbn in Hl; lia]. injection E as <-. split; [done|set_solver|done].
  - injection E as <-. split; [done|set_solver|done].
Qed.

Lemma before_wait_queued i h h0 r fd :
  handler_ok h → round_ok i → before_wait i h = (h0, r) →
  queued fd h0 = queued fd h ++ arrived_in fd i.
Proof.
  intros Hh Hi Eb. destruct (before_wait_effect _ _ _ _ Hh Hi Eb) as (_ & Hp0 & _ & _).
  unfold queued. by rewrite Hp0, arrive_pending.
Qed.

(** What a round leaves of the events, for one descriptor. *)
Lemma event_left i h h0 r fd E h1 :
  before_wait i h = (h0, r) → fd ∈ monitored h0 → fd ∈ monitored h1 → fd ∉ reported i →
  fd ∈ E ∨ (has_input h0 fd ∧ fd ∈ map fst (arrivals i) ++ [accepted i]) →
  fd ∈ ((E ∪ raised i h) ∖ list_to_set (reported i)) ∩ monitored h1.
Proof.
  intros Eb Hm0 Hm1 Hnr Hev. apply elem_of_intersection. split; [|done].
  apply elem_of_difference. split; [|by rewrite elem_of_list_to_set].
  apply elem_of_union. destruct Hev as [HE|[Hin Hev]]; [by left|right].
  unfold raised. rewrite Eb. cbn. apply elem_of_list_to_set, list_elem_of_filter. by split.
Qed.

(** Input that has no event after a round had none before it. *)
Lemma edge_round_ok h E i h1 fd :
  handler_ok h → round_ok i → server_round i h = (h1, inr ()) →
  Forall final (queued fd h ++ arrived_in fd i) →
  (fd ∈ monitored h → has_input h fd → fd ∈ E) →
  fd ∈ monitored h1 → has_input h1 fd →
  fd ∈ ((E ∪ raised i h) ∖ list_to_set (reported i)) ∩ monitored h1.
Proof.
  intros Hh Hi Er Hf Hn Hfd Hin.
  rewrite round_split in Er. apply bind_inr in Er as (h0 & [] & Eb & Ep).
  destruct (before_wait_effect _ _ _ _ Hh Hi Eb) as (Hh0 & Hp0 & Hm0 & _).
  rewrite <-(before_wait_queued _ _ _ _ _ Hh Hi Eb) in Hf.
  destruct (drained_process _ _ _ Hh0 Ep) as [Hm Hr Ho].
  assert (fd ∉ reported i) as Hnr.
  { intros Hrep. by rewrite (Hr fd Hrep Hfd Hf) in Hin. }
  assert (has_input h0 fd) as Hin0 by (unfold has_input in *; by rewrite <-Ho).
  apply (event_left _ _ _ _ _ _ _ Eb); [by apply Hm|done..|].
  destruct (decide (fd ∈ map fst (arrivals i) ++ [accepted i])) as [Hev|Hev]; [by right|left].
  apply not_elem_of_app in Hev as [Hna Hnacc]. apply not_elem_of_cons in Hnacc as [Hnacc _].
  apply Hn; [apply Hm in Hfd; set_solver|].
  unfold has_input in *. by rewrite Hp0, arrive_other in Hin0.
Qed.

(** What is queued after a round was queued before or has arrived. *)
Lemma round_queued h i h1 fd :
  handler_ok h → round_ok i → server_round i h = (h1, inr ()) →
  ∃ taken, queued fd h ++ arrived_in fd i = taken ++ queued fd h1.
Proof.
  intros Hh Hi Er. rewrite round_split in Er. apply bind_inr in Er as (h0 & [] & Eb & Ep).
  destruct (before_wait_effect _ _ _ _ Hh Hi Eb) as (Hh0 & _).
  rewrite <-(before_wait_queued _ _ _ _ _ Hh Hi Eb). clear Eb.
  unfold processClients in Ep. rewrite run_modify in Ep.
  assert (handler_ok (set_processed 0 h0)) as Hok by by destruct Hh0.
  change (queued fd h0) with (queued fd (set_processed 0 h0)).
  destruct (epoll_ready i) as [fds|]; [case_decide|]; try by (injection Ep as <-; exists []).
  revert Hok Ep. generalize (set_processed 0 h0). clear. intros h.
  revert h. induction fds as [|fd' fds IH]; intros h Hh E; [injection E as <-; by exists []|].
  destruct (Clients h !! fd') as [c|] eqn:Hc.
  2:{ cbn [readClientData] in E. rewrite run_get, Hc in E. by apply IH. }
  destruct (read_step _ _ _ _ _ Hh Hc E) as (h2 & h3 & dn & Er & Hh3 & E3 & Hp3 & _).
  destruct (IH _ Hh3 E3) as [taken Ht]. unfold queued in *. rewrite Hp3 in Ht.
  destruct (stream (default [] (pending h !! fd'))) as [[chunks d] rest] eqn:Es.
  destruct (feed chunks (parser c)) as [p' res] eqn:Ef.
  destruct (receive_spec _ _ _ _ _ _ _ _ Hh Hc Es Ef) as (h4 & E4 & Hrec & Hrest).
  rewrite Er in E4. destruct res as [e|[]]; [done|]. injection E4 as <- <-.
  destruct (decide (fd = fd')) as [->|Hne].
  - destruct (stream_suffix _ _ _ _ Es) as [pre Hpre].
    exists (pre ++ taken). by rewrite Hpre, <-app_assoc, <-Ht, (Hrest eq_refl).
  - exists taken. by rewrite <-Ht, (rc_pending _ _ _ _ Hrec).
Qed.

Lemma edge_rounds_ok h E rounds h' E' fd :
  edge_rounds h E rounds h' E' →
  handler_ok h → Forall round_ok rounds → Forall final (queued fd h ++ arrived fd rounds) →
  (fd ∈ monitored h → has_input h fd → fd ∈ E) →
  fd ∈ monitored h' → has_input h' fd → fd ∈ E'.
Proof.
  induction 1 as [|h E i h1 rounds h' E' _ Er _ IH]; intros Hh Hr Hf Hn; [done|].
  apply Forall_cons in Hr as [Hi Hr]. cbn [arrived flat_map] in Hf. rewrite app_assoc in Hf.
  pose proof Hf as [Hf1 Hfr]%Forall_app.
  apply IH; [by eapply server_round_ok|done| |by eapply edge_round_ok].
  destruct (round_queued _ _ _ fd Hh Hi Er) as [taken Ht]. rewrite Ht in Hf1.
  apply Forall_app in Hf1 as [_ Hf1]. by apply Forall_app.
Qed.

(** ** Where reading stops *)

(** The client is connected and its parser has been fed the results
    [consumed]; the rest of the input is pending. *)
Definition read_up_to (fd off : Z) (p0 : HTTPParser) (input consumed : list recv)
    (h : ClientHandler) : Prop :=
  ∃ p', input = consumed ++ queued fd h ∧ feed (payloads consumed) p0 = (p', inr ()) ∧
    Clients h !! fd = Some (mkClient p' fd off).

(** Nothing is left, or the last result asked to try again. *)
Definition stopped (consumed rest : list recv) : Prop :=
  rest = [] ∨ ∃ r, last consumed = Some r ∧ ¬ final r.

Definition settled fd off p0 input (h : ClientHandler) : Prop :=
  ∃ consumed, read_up_to fd off p0 input consumed h ∧ stopped consumed (queued fd h).

Lemma settled_tracks fd off p0 input h : settled fd off p0 input h → tracks fd off p0 input h.
Proof. intros (consumed & (p' & Ht) & _). by exists consumed, p'. Qed.

Lemma settled_same fd off p0 input h h' :
  pending h' !! fd = pending h !! fd → Clients h' !! fd = Clients h !! fd →
  settled fd off p0 input h → settled fd off p0 input h'.
Proof.
  unfold settled, read_up_to, queued. by intros -> ->.
Qed.

Lemma settled_receive fd off p0 input h c h' dn :
  handler_ok h → Forall alive input → tracks fd off p0 input h → Clients h !! fd = Some c →
  receiveData fd c h = (h', inr dn) → dn = false ∧ settled fd off p0 input h'.
Proof.
  intros Hh Ha (consumed & p1 & -> & Hf & Hcl1) Hc E. rewrite Hcl1 in Hc. injection Hc as <-.
  destruct (stream (default [] (pending h !! fd))) as [[chunks d] rest] eqn:Es.
  destruct (feed chunks p1) as [p' res] eqn:Ef.
  destruct (receive_spec _ _ _ _ _ _ _ _ Hh Hcl1 Es Ef) as (h1 & E1 & Hrec & Hrest).
  rewrite E in E1. destruct res as [e|[]]; [done|]. injection E1 as <- <-. specialize (Hrest eq_refl).
  apply Forall_app in Ha as [_ Ha].
  destruct (stream_alive _ _ _ _ Ha Es) as (-> & taken & Htk & Hch). split; [done|].
  exists (consumed ++ taken). unfold queued. rewrite Hrest. split.
  - exists p'. rewrite payloads_app, feed_app, Hf, Hch, Ef, Htk, app_assoc.
    unfold queued. rewrite Hrest. split; [done|]. split; [done|].
    by rewrite (rc_clients _ _ _ _ Hrec), lookup_insert_eq.
  - destruct (stream_stops _ _ _ Es) as [->|(taken' & r & Htk' & _ & Hr)]; [by left|right].
    exists r. split; [|done]. rewrite Htk in Htk'. apply app_inv_tail in Htk' as ->.
    by rewrite app_assoc, last_snoc.
Qed.

Lemma settled_read fd off p0 input fds : ∀ h h',
  handler_ok h → Forall alive input → tracks fd off p0 input h →
  fd ∈ fds ∨ settled fd off p0 input h →
  readClientData fds h = (h', inr ()) → settled fd off p0 input h'.
Proof.
  induction fds as [|fd' fds IH]; intros h h' Hh Ha Ht Hs E.
  { injection E as <-. destruct Hs as [Hin|Hs]; [set_solver|done]. }
  destruct (Clients h !! fd') as [c|] eqn:Hc.
  2:{ cbn [readClientData] in E. rewrite run_get, Hc in E. apply (IH h); try done.
      destruct Hs as [[->|?]%elem_of_cons|?]; [|by left|by right].
      destruct Ht as (consumed & p' & _ & _ & Hcl). congruence. }
  destruct (read_step _ _ _ _ _ Hh Hc E) as (h1 & h2 & dn & Er & Hh2 & E2 & Hp2 & Eh2).
  destruct (decide (fd' = fd)) as [->|Hne].
  - destruct (settled_receive _ _ _ _ _ _ _ _ Hh Ha Ht Hc Er) as [-> Hs1]. subst h2.
    apply (IH h1); [done..|by apply settled_tracks|by right|done].
  - destruct (drained_one _ _ _ _ _ Hh Hc Er) as (_ & _ & Hp1).
    destruct (receive_ok _ _ _ _ _ Hh Hc Er) as [_ Hc1].
    assert (pending h2 !! fd = pending h !! fd) as Hp by by rewrite Hp2, Hp1.
    assert (Clients h2 !! fd = Clients h !! fd) as Hcl.
    { rewrite Eh2, <-Hc1 by done. destruct dn; cbn; [by rewrite lookup_delete_ne|done]. }
    apply (IH h2); [done..|by eapply tracks_same| |done].
    destruct Hs as [[->|?]%elem_of_cons|Hs]; [done|by left|right; by eapply settled_same].
Qed.

(** The rounds are those of the server loop. *)
Lemma edge_rounds_loop h E rounds h' E' :
  edge_rounds h E rounds h' E' → Forall (λ i, sigterm i = false) rounds →
  ServerLoop rounds h = (h', inr ()).
Proof.
  induction 1 as [|h E i h1 rounds h' E' _ Er _ IH]; intros Hs; [done|].
  apply Forall_cons in Hs as [Hi Hs]. cbn [ServerLoop].
  rewrite (run_bind _ _ _ _ _ Er), Hi. by apply IH.
Qed.

(** A round either leaves an event or has read the input up to where it stopped. *)
Lemma settled_round fd off p0 input E h i h1 :
  handler_ok h → round_ok i → accepted i ≠ fd → Forall alive (input ++ arrived_in fd i) →
  tracks fd off p0 input h → fd ∈ E ∨ settled fd off p0 input h →
  server_round i h = (h1, inr ()) →
  fd ∈ ((E ∪ raised i h) ∖ list_to_set (reported i)) ∩ monitored h1 ∨
  settled fd off p0 (input ++ arrived_in fd i) h1.
Proof.
  intros Hh Hi Hacc Ha Ht Hs Er.
  destruct (tracks_round _ _ _ _ _ _ _ Hh Hi Hacc Ha Ht Er) as [Ht1 Hh1].
  rewrite round_split in Er. apply bind_inr in Er as (h0 & [] & Eb & Ep).
  destruct (before_wait_effect _ _ _ _ Hh Hi Eb) as (Hh0 & Hp0 & _ & Hc0).
  specialize (Hc0 fd ltac:(done)).
  assert (tracks fd off p0 (input ++ arrived_in fd i) h0) as Ht0.
  { eapply tracks_same; [| |exact (tracks_arrive _ _ _ _ i _ Ht)]; [by rewrite Hp0|].
    by rewrite arrive_clients. }
  assert (∀ h, handler_ok h → tracks fd off p0 (input ++ arrived_in fd i) h → fd ∈ monitored h) as Hmon.
  { intros h2 Hh2 (consumed & p' & _ & _ & Hcl). rewrite <-(hok_fds _ Hh2). by eapply elem_of_dom_2. }
  unfold processClients in Ep. rewrite run_modify in Ep.
  assert (handler_ok (set_processed 0 h0)) as Hok by by destruct Hh0.
  assert (∀ h2, settled fd off p0 (input ++ arrived_in fd i) h0 →
    pending h2 !! fd = pending h0 !! fd → Clients h2 !! fd = Clients h0 !! fd →
    settled fd off p0 (input ++ arrived_in fd i) h2) as Hsame by (intros; by eapply settled_same).
  destruct (decide (fd ∈ reported i)) as [Hrep|Hnr].
  { right. unfold reported in Hrep. destruct (epoll_ready i) as [fds|]; [|set_solver]. cbn in Hrep.
    rewrite decide_True in Ep by (destruct fds; [set_solver|cbn; lia]).
    by apply (settled_read _ _ _ _ _ _ _ Hok Ha Ht0 (or_introl Hrep) Ep). }
  assert (pending h1 !! fd = pending h0 !! fd ∧ Clients h1 !! fd = Clients h0 !! fd) as [Hp1 Hc1].
  { unfold reported in Hnr. destruct (epoll_ready i) as [fds|]; [|by injection Ep as <-].
    case_decide; [|by injection Ep as <-]. cbn in Hnr. split.
    - exact (read_other _ _ _ _ Hok Hnr Ep).
    - exact (proj2 (read_clients_ok _ _ _ _ Hok Ep) fd Hnr). }
  destruct (decide (fd ∈ E ∨ has_input h0 fd ∧ fd ∈ map fst (arrivals i) ++ [accepted i])) as [Hev|Hnev].
  { left. apply (event_left _ _ _ _ _ _ _ Eb); [by apply Hmon..|done|done]. }
  right. apply Hsame; [|done..]. destruct Hs as [HE|Hs]; [by destruct Hnev; left|].
  destruct (decide (fd ∈ map fst (arrivals i))) as [Hin|Hna].
  - destruct Ht0 as (consumed & p' & Hi0 & Hf & Hcl). exists consumed.
    split; [by exists p'|left]. unfold queued.
    destruct (decide (default [] (pending h0 !! fd) = [])) as [->|Hne]; [done|].
    destruct Hnev. right. split; [by apply bool_decide_pack|set_solver].
  - assert (pending h0 !! fd = pending h !! fd) as Hp by by rewrite Hp0, arrive_other.
    assert (arrived_in fd i = []) as ->.
    { apply (app_inv_head (queued fd h)). unfold queued at 1.
      rewrite <-arrive_pending, arrive_other by done. by rewrite app_nil_r. }
    rewrite app_nil_r. by eapply settled_same.
Qed.

Lemma edge_rounds_settled h E rounds h' E' :
  edge_rounds h E rounds h' E' → ∀ fd off p0 input,
  handler_ok h → Forall round_ok rounds → Forall (λ i, accepted i ≠ fd) rounds →
  Forall alive (input ++ arrived fd rounds) → tracks fd off p0 input h →
  fd ∈ E ∨ settled fd off p0 input h →
  fd ∈ E' ∨ settled fd off p0 (input ++ arrived fd rounds) h'.
Proof.
  induction 1 as [|h E i h1 rounds h' E' _ Er _ IH]; intros fd off p0 input Hh Hr Hacc Ha Ht Hs.
  { by rewrite app_nil_r. }
  apply Forall_cons in Hr as [Hi Hr]. apply Forall_cons in Hacc as [Hai Hacc].
  cbn [arrived flat_map] in *. rewrite app_assoc in Ha |- *. pose proof Ha as [Ha1 _]%Forall_app.
  destruct (tracks_round _ _ _ _ _ _ _ Hh Hi Hai Ha1 Ht Er) as [Ht1 Hh1].
  apply IH; try done. by eapply settled_round.
Qed.

(** Input without an event stays where it is until more arrives. *)
Lemma stranded h E rounds h' E' fd :
  edge_rounds h E rounds h' E' → handler_ok h →
  Forall (λ i, round_ok i ∧ (fd ∉ map fst (arrivals i)) ∧ accepted i ≠ fd) rounds →
  fd ∉ E → (fd ∉ E') ∧ pending h' !! fd = pending h !! fd ∧ Clients h' !! fd = Clients h !! fd.
Proof.
  induction 1 as [|h E i h1 rounds h' E' Hrep Er _ IH]; intros Hh Hr HE; [done|].
  apply Forall_cons in Hr as [(Hi & Hna & Hnacc) Hr].
  assert (handler_ok h1) as Hh1 by by eapply server_round_ok.
  assert (fd ∉ raised i h) as Hnr.
  { unfold raised. rewrite elem_of_list_to_set, list_elem_of_filter, elem_of_app. set_solver. }
  assert (fd ∉ reported i) as Hnrep by (intros Hin; specialize (Hrep fd Hin); set_solver).
  destruct (IH Hh1 Hr) as (HE' & Hp & Hc); [set_solver|].
  rewrite Hp, Hc. split; [done|]. clear IH Hp Hc.
  rewrite round_split in Er. apply bind_inr in Er as (h0 & [] & Eb & Ep).
  destruct (before_wait_effect _ _ _ _ Hh Hi Eb) as (Hh0 & Hp0 & _ & Hc0).
  rewrite <-(arrive_other fd (arrivals i) h), <-Hp0, <-Hc0 by done.
  unfold reported in Hnrep. unfold processClients in Ep. rewrite run_modify in Ep.
  assert (handler_ok (set_processed 0 h0)) as Hok by by destruct Hh0.
  destruct (epoll_ready i) as [fds|]; [|by injection Ep as <-].
  case_decide; [|by injection Ep as <-]. cbn in Hnrep. split.
  - exact (read_other _ _ _ _ Hok Hnrep Ep).
  - exact (proj2 (read_clients_ok _ _ _ _ Hok Ep) fd Hnrep).
Qed.

End ServerEdges.
