(* ===== verification/XmlParser.v ===== *)
(** * The NLAP message parser (lib/xml/xmlparser.cpp)

    Framing of the input into messages, preparation of a message for the XML
    library, and the tree of addresses built from its document. The library
    (Xerces) is a parameter: what it reports about a text, and the document it
    builds, whose names and texts are bytes as [transcodeXMLCh] returns them. *)
From S2P Require Export StringHelper.
From stdpp Require Import options.

(** ** Constants (lib/xml/xmlconstants.hpp) *)

Definition NLAP_XML_START_MARKER : bytes := str "<NLAP>".
Definition NLAP_XML_END_MARKER : bytes := str "</NLAP>".
Definition quoted (s : bytes) : bytes := JSON.DQ :: s ++ [JSON.DQ].
Definition NLAP_XML_DECLARATION : bytes :=
  str "<?xml version=" ++ quoted (str "1.0") ++ str " encoding=" ++ quoted (str "UTF-8") ++ str "?>".
Definition NLAP_DTD_SYSTEM_PATH : bytes := str "specs/xml/nlap.dtd".
Definition XML_ERROR_INVALID_CONTENT_DTD : Z := 10.
Definition XML_ERROR_INVALID_SYNTAX : Z := 20.
Definition XML_ERROR_INVALID_FRAMING : Z := 30.

Module XMLParser.

(** ** Data *)

(** [XMLNode]: the children by name, and where the text of a leaf stands in the
    input ([nullptr] is [None]). *)
Inductive XMLNode := Node {
  Children : gmap bytes XMLNode;
  Address : option nat;
  Length : nat
}.

Definition empty_node : XMLNode := Node ∅ None 0.

Definition ResultTree_t : Type := gmap bytes XMLNode.

Record ParseResult_t := mkResult { Results : list ResultTree_t; ErrorCode : Z }.

(** A part of the input: [std::string_view] by its offset and its bytes. *)
Definition view : Type := nat * bytes.

(** The library's document: elements, text and CDATA sections, other nodes. *)
Inductive dom :=
| Element (tag : bytes) (children : list dom)
| Text (s : bytes)
| CData (s : bytes)
| Other.

(** ** Strings *)

Definition is_blank (c : ascii) : bool :=
  bool_decide (c = " "%char ∨ c = "009"%char ∨ c = LF ∨ c = CR).

Fixpoint drop_blank (s : bytes) : bytes :=
  match s with
  | [] => []
  | c :: s' => if is_blank c then drop_blank s' else s
  end.

(** [trimCopy(Value)] *)
Definition trimCopy (Value : bytes) : bytes := reverse (drop_blank (reverse (drop_blank Value))).

(** ** Framing *)

(** [splitMessages(Input, FramingError)] from [Cursor] on; the list of slices it
    yields, and the flag. *)
Fixpoint split_loop (fuel : nat) (Input : bytes) (Cursor : nat) (LastEnd : option nat) :
    list view * bool :=
  match fuel with
  | O => ([], false)
  | S fuel =>
      match find_from NLAP_XML_START_MARKER Input Cursor with
      | None => ([], false)
      | Some Start =>
          if decide (LastEnd ≠ None ∧ LastEnd ≠ Some Start) then ([], true)
          else
            match find_from NLAP_XML_END_MARKER Input Start with
            | None => ([], false)
            | Some End =>
                let MessageEnd := End + length NLAP_XML_END_MARKER in
                let '(slices, FramingError) :=
                  split_loop fuel Input MessageEnd (Some MessageEnd) in
                ((Start, substr Input Start (MessageEnd - Start)) :: slices, FramingError)
            end
      end
  end.

(** A round consumes an end marker, so the length of the input is fuel enough. *)
Definition splitMessages (Input : bytes) : list view * bool :=
  split_loop (S (length Input)) Input 0 None.

(** ** Preparation of a message *)

Definition insert_at (pos : nat) (t s : bytes) : bytes := take pos s ++ t ++ drop pos s.

Definition DOCTYPE : bytes :=
  str "<!DOCTYPE NLAP SYSTEM " ++ quoted NLAP_DTD_SYSTEM_PATH ++ str ">".

(** [ensureParseableXML(Message)] *)
Definition ensureParseableXML (Message : bytes) : bytes :=
  let Parseable :=
    if decide (find (str "<?xml") Message = None) then NLAP_XML_DECLARATION ++ Message
    else Message in
  if decide (find (str "<!DOCTYPE") Parseable = None) then
    match find (str "?>") Parseable with
    | Some DeclEnd => insert_at (DeclEnd + 2) DOCTYPE Parseable
    | None => DOCTYPE ++ Parseable
    end
  else Parseable.

(** [resolveEntity(SystemId)]: whether the library may load the entity itself;
    any other is replaced by an empty document. *)
Definition resolveEntity (SystemPath : bytes) : bool :=
  let AllowedName := str "nlap.dtd" in
  if decide (SystemPath = []) then false
  else if decide (SystemPath = NLAP_DTD_SYSTEM_PATH) then true
  else if decide (length AllowedName <= length SystemPath ∧
                  drop (length SystemPath - length AllowedName) SystemPath = AllowedName)
  then true else false.

(** ** The tree *)

(** [getElementText(Element)] *)
Definition getElementText (children : list dom) : bytes :=
  trimCopy (foldl (λ Value c,
    match c with Text s | CData s => Value ++ s | _ => Value end) [] children).

Definition set_child (name : bytes) (c : XMLNode) (n : XMLNode) : XMLNode :=
  Node (<[name := c]> (Children n)) (Address n) (Length n).

(** [Node[Key]] of a fresh or an existing child. *)
Definition child (n : XMLNode) (name : bytes) : XMLNode := default empty_node (Children n !! name).

(** The leaf part of [populateTree]. *)
Definition populate_leaf (children : list dom) (n : XMLNode) (RawMessage : view)
    (SearchOffset : nat) : XMLNode * nat :=
  let Value := getElementText children in
  if decide (Value = []) then (n, SearchOffset)
  else
    let Found :=
      match find_from Value RawMessage.2 SearchOffset with
      | Some f => Some f
      | None => find Value RawMessage.2
      end in
    match Found with
    | None => (n, SearchOffset)
    | Some Found =>
        (Node (Children n) (Some (RawMessage.1 + Found)) (length Value), Found + length Value)
    end.

(** The loop over the element children, for the recursive call [pop]: whether
    there was one, the node, and the search offset. *)
Definition populate_children (pop : dom → XMLNode → nat → XMLNode * nat) :
    list dom → bool → XMLNode → nat → bool * XMLNode * nat :=
  fix go children HasElementChildren n SearchOffset :=
    match children with
    | [] => (HasElementChildren, n, SearchOffset)
    | c :: children =>
        match c with
        | Element ChildName _ =>
            let '(c', SearchOffset') := pop c (child n ChildName) SearchOffset in
            go children true (set_child ChildName c' n) SearchOffset'
        | _ => go children HasElementChildren n SearchOffset
        end
    end.

(** [populateTree(Element, Node, RawMessage, SearchOffset)] *)
Fixpoint populateTree (RawMessage : view) (e : dom) (n : XMLNode) (SearchOffset : nat) :
    XMLNode * nat :=
  match e with
  | Element _ children =>
      let '(HasElementChildren, n, SearchOffset) :=
        populate_children (populateTree RawMessage) children false n SearchOffset in
      if HasElementChildren then (n, SearchOffset)
      else populate_leaf children n RawMessage SearchOffset
  | _ => (n, SearchOffset)
  end.

(** ** Errors *)

(** The calls a parser makes to its error handler, in order. *)
Inductive report :=
| ErrorReport (message : bytes)
| FatalErrorReport (message : bytes)
| WarningReport (message : bytes)
| ResetErrors.

(** [ParseErrorHandler] *)
Record ParseErrorHandler := mkHandler { _HasAnyError : bool; _LastMessage : bytes }.

Definition new_handler : ParseErrorHandler := mkHandler false [].

(** [error], [fatalError], [warning], [resetErrors] *)
Definition handle (h : ParseErrorHandler) (r : report) : ParseErrorHandler :=
  match r with
  | ErrorReport message | FatalErrorReport message => mkHandler true message
  | WarningReport _ => h
  | ResetErrors => mkHandler false []
  end.

Definition handled (reports : list report) : ParseErrorHandler := foldl handle new_handler reports.

Definition hasAnyError (h : ParseErrorHandler) : bool := _HasAnyError h.

Definition lastMessage (h : ParseErrorHandler) : bytes := _LastMessage h.

(** An error counts unless the errors were reset after it, and the last one is
    remembered. *)
Lemma handled_error reports :
  hasAnyError (handled reports) = true ↔
  ∃ before message after, (reports = before ++ ErrorReport message :: after ∨
      reports = before ++ FatalErrorReport message :: after) ∧
    Forall (λ r, ∃ text, r = WarningReport text) after ∧
    lastMessage (handled reports) = message.
Proof.
  unfold handled. induction reports as [|r reports IH] using rev_ind.
  { split; [done|]. intros (b & m & a & [H|H] & _); by destruct b. }
  rewrite foldl_app. cbn [foldl]. destruct r as [m|m|m|]; cbn [handle].
  - split; [|done]. intros _. exists reports, m, []. auto.
  - split; [|done]. intros _. exists reports, m, []. auto.
  - rewrite IH. split; intros (b & m' & a & Hr & Ha & Hm).
    + exists b, m', (a ++ [WarningReport m]). split; [destruct Hr as [-> | ->]; rewrite <-app_assoc; auto|].
      split; [|done]. apply Forall_app. split; [done|]. repeat constructor. by eexists.
    + exists b, m'. destruct a as [|x a _] using rev_ind.
      { by destruct Hr as [[_ H]%app_inj_tail|[_ H]%app_inj_tail]. }
      apply Forall_app in Ha as [Ha _]. exists a. split; [|by split].
      rewrite !app_comm_cons, !app_assoc in Hr.
      destruct Hr as [[-> _]%app_inj_tail|[-> _]%app_inj_tail]; auto.
  - split; [done|]. intros (b & m & a & Hr & Ha & _). destruct a as [|x a _] using rev_ind.
    { by destruct Hr as [[_ H]%app_inj_tail|[_ H]%app_inj_tail]. }
    apply Forall_app in Ha as [_ Hx]. apply Forall_singleton in Hx as [text ->].
    rewrite !app_comm_cons, !app_assoc in Hr.
    by destruct Hr as [[_ H]%app_inj_tail|[_ H]%app_inj_tail].
Qed.

(** ** Parsing *)

Section parse.

(** The library: what its first, non-validating run over a text reports, and
    what its validating run gives: the reports, and the document, if there is
    one, with its root, if there is one. *)
Variable syntax_run : bytes → list report.
Variable dtd_run : bytes → list report * option (option dom).

(** [parseMessage]: the error code and the tree. *)
Definition parseMessage (RawMessage : view) : Z * ResultTree_t :=
  let Parseable := ensureParseableXML RawMessage.2 in
  if hasAnyError (handled (syntax_run Parseable)) then (XML_ERROR_INVALID_SYNTAX, ∅)
  else
    let '(reports, Document) := dtd_run Parseable in
    if hasAnyError (handled reports) then (XML_ERROR_INVALID_CONTENT_DTD, ∅)
    else
      match Document with
      | Some (Some (Element RootName children)) =>
          let '(_, RootNode, _) :=
            populate_children (populateTree RawMessage) children false empty_node 0 in
          (0%Z, {[RootName := RootNode]})
      | _ => (XML_ERROR_INVALID_SYNTAX, ∅)
      end.

(** The loop of [parse] over the slices: an error code, or the trees. *)
Fixpoint parse_slices (slices : list view) (Results : list ResultTree_t) :
    Z + list ResultTree_t :=
  match slices with
  | [] => inr Results
  | s :: slices =>
      let '(MessageError, Tree) := parseMessage s in
      if decide (MessageError ≠ 0%Z) then inl MessageError
      else parse_slices slices (Results ++ [Tree])
  end.

(** [parse(InputBuffer)]; a null pointer is [None]. *)
Definition parse (_ParseBufferSize : nat) (InputBuffer : option bytes) : ParseResult_t :=
  match InputBuffer with
  | None => mkResult [] XML_ERROR_INVALID_SYNTAX
  | Some InputBufferSV =>
      if decide (_ParseBufferSize < length InputBufferSV)
      then mkResult [] XML_ERROR_INVALID_FRAMING
      else
        let '(slices, FramingError) := splitMessages InputBufferSV in
        match parse_slices slices [] with
        | inl MessageError => mkResult [] MessageError
        | inr Results =>
            if FramingError then mkResult [] XML_ERROR_INVALID_FRAMING
            else mkResult Results 0
        end
  end.

End parse.

(** ** Framing: what the slices are *)

Definition message (body : bytes) : bytes :=
  NLAP_XML_START_MARKER ++ body ++ NLAP_XML_END_MARKER.

(** The first end marker behind the body is its own. *)
Definition body_ok (body : bytes) : Prop :=
  find NLAP_XML_END_MARKER (body ++ NLAP_XML_END_MARKER) = Some (length body).

#[global] Instance body_ok_dec body : Decision (body_ok body).
Proof. unfold body_ok. apply _. Defined.

(** Messages one behind the other, from an offset on. *)
Fixpoint slices_at (off : nat) (bodies : list bytes) : list view :=
  match bodies with
  | [] => []
  | b :: bodies => (off, message b) :: slices_at (off + length (message b)) bodies
  end.

(** Whether a further start marker follows, but not immediately. *)
Definition gap (tail : bytes) : bool :=
  match find NLAP_XML_START_MARKER tail with
  | Some (S _) => true
  | _ => false
  end.

(** No further complete message starts at the beginning. *)
Definition tail_ok (tail : bytes) : Prop :=
  find NLAP_XML_START_MARKER tail = Some 0 → find NLAP_XML_END_MARKER tail = None.

Lemma find_end_start z :
  find NLAP_XML_END_MARKER (NLAP_XML_START_MARKER ++ z) =
  Nat.add 6 <$> find NLAP_XML_END_MARKER z.
Proof. cbn. by destruct (find _ z). Qed.

Lemma find_start_start z : find NLAP_XML_START_MARKER (NLAP_XML_START_MARKER ++ z) = Some 0.
Proof. rewrite find_unfold, starts_with_app. done. Qed.

Lemma find_from_app p pre x :
  find_from p (pre ++ x) (length pre) = Nat.add (length pre) <$> find p x.
Proof.
  unfold find_from. rewrite decide_True by (rewrite length_app; lia). by rewrite drop_app_length.
Qed.

Lemma find_from_app_add p pre x n :
  n <= length x →
  find_from p (pre ++ x) (length pre + n) = Nat.add (length pre + n) <$> find p (drop n x).
Proof.
  intros Hn. rewrite <-(take_drop n x) at 1. rewrite app_assoc.
  replace (length pre + n) with (length (pre ++ take n x))
    by (rewrite length_app, length_take; lia).
  by rewrite find_from_app.
Qed.

(** Up to and with its first end marker, a text that starts with a start marker
    is a message. *)
Lemma message_of_end z e :
  find NLAP_XML_END_MARKER (NLAP_XML_START_MARKER ++ z) = Some e →
  ∃ body rest, z = body ++ NLAP_XML_END_MARKER ++ rest ∧ body_ok body ∧ e = 6 + length body.
Proof.
  rewrite find_end_start. intros (k & Hk & ->)%fmap_Some.
  pose proof (find_bound NLAP_XML_END_MARKER _ _ ltac:(discriminate) Hk) as Hb.
  exists (take k z), (drop (k + length NLAP_XML_END_MARKER) z).
  split; [by apply find_split|]. rewrite length_take, Nat.min_l by (simpl in Hb; lia).
  split; [|done]. unfold body_ok. rewrite length_take, Nat.min_l by (simpl in Hb; lia).
  pose proof (find_split _ _ _ Hk) as Hz. apply find_Some in Hk as (Ho & _ & Hmin).
  apply find_Some. split; [|split].
  - exists []. rewrite app_nil_r, drop_app_length' by (rewrite length_take; simpl in Hb; lia). done.
  - rewrite length_app, length_take. simpl in Hb. lia.
  - intros j Hj Hoj. apply (Hmin j Hj). rewrite Hz, app_assoc.
    apply occurs_app; [|done]. rewrite length_app, length_take. simpl in *. lia.
Qed.

Lemma message_length b : length (message b) = 6 + length b + 7.
Proof. unfold message. rewrite !length_app. simpl. lia. Qed.

Lemma messages_length bodies : length bodies <= length (concat (map message bodies)).
Proof.
  induction bodies as [|b bodies IH]; cbn [map concat]; [done|].
  rewrite length_app, message_length. simpl. lia.
Qed.

(** One round of the loop that yields a message. *)
Lemma split_loop_message fuel pre b rest last :
  body_ok b → last = None ∨ last = Some (length pre) →
  split_loop (S fuel) (pre ++ message b ++ rest) (length pre) last =
  let '(slices, err) := split_loop fuel ((pre ++ message b) ++ rest)
    (length (pre ++ message b)) (Some (length (pre ++ message b))) in
  ((length pre, message b) :: slices, err).
Proof.
  intros Hb Hlast. cbn [split_loop]. rewrite !find_from_app.
  assert (message b ++ rest =
    NLAP_XML_START_MARKER ++ b ++ NLAP_XML_END_MARKER ++ rest) as E.
  { unfold message. by rewrite <-!app_assoc. }
  rewrite E at 1. rewrite find_start_start. cbn [fmap option_fmap option_map].
  rewrite Nat.add_0_r. rewrite decide_False by (destruct Hlast as [->| ->]; naive_solver).
  rewrite find_from_app. rewrite E at 1. rewrite find_end_start.
  rewrite (app_assoc b), (find_app NLAP_XML_END_MARKER _ rest _ ltac:(discriminate) Hb). cbn [fmap option_fmap option_map].
  assert (length pre + (6 + length b) + length NLAP_XML_END_MARKER =
    length (pre ++ message b)) as ->.
  { rewrite length_app, message_length. simpl. lia. }
  rewrite (app_assoc pre). destruct (split_loop fuel _ _ _) as [slices err].
  do 3 f_equal. rewrite length_app, Nat.add_comm, Nat.add_sub. unfold substr.
  by rewrite <-app_assoc, drop_app_length, take_app_length.
Qed.

(** Before the first message, the loop passes over anything. *)
Lemma split_loop_skip fuel pre skip x :
  find NLAP_XML_START_MARKER (skip ++ x) = Some (length skip) →
  find NLAP_XML_START_MARKER x = Some 0 →
  split_loop (S fuel) (pre ++ skip ++ x) (length pre) None =
  split_loop (S fuel) ((pre ++ skip) ++ x) (length (pre ++ skip)) None.
Proof.
  intros Hs Hx. cbn [split_loop]. rewrite !find_from_app, Hs, Hx.
  cbn [fmap option_fmap option_map]. rewrite Nat.add_0_r, length_app, <-app_assoc. done.
Qed.

(** The end of the loop, behind the last message. *)
Lemma split_loop_end fuel pre tail :
  tail_ok tail →
  split_loop (S fuel) (pre ++ tail) (length pre) (Some (length pre)) = ([], gap tail).
Proof.
  intros Ht. cbn [split_loop]. rewrite find_from_app. unfold gap.
  destruct (find NLAP_XML_START_MARKER tail) as [[|k]|] eqn:E; cbn [fmap option_fmap option_map].
  - rewrite Nat.add_0_r. rewrite decide_False by naive_solver.
    by rewrite find_from_app, (Ht E).
  - rewrite decide_True; [done|]. split; [done|]. intros [= H]. lia.
  - done.
Qed.

Lemma split_loop_complete bodies : ∀ fuel pre tail,
  Forall body_ok bodies → tail_ok tail → length bodies < fuel →
  split_loop fuel (pre ++ concat (map message bodies) ++ tail) (length pre) (Some (length pre)) =
  (slices_at (length pre) bodies, gap tail).
Proof.
  induction bodies as [|b bodies IH]; intros [|fuel] pre tail Hb Ht Hf;
    try (simpl in Hf; lia).
  - by apply split_loop_end.
  - apply Forall_cons in Hb as [Hb1 Hb]. cbn [map concat slices_at].
    rewrite <-(app_assoc (message b)), split_loop_message by auto.
    rewrite IH by (done || (simpl in Hf; lia)). by rewrite length_app.
Qed.

Lemma split_messages_complete skip bodies tail :
  Forall body_ok bodies → bodies ≠ [] → tail_ok tail →
  find NLAP_XML_START_MARKER (skip ++ NLAP_XML_START_MARKER) = Some (length skip) →
  splitMessages (skip ++ concat (map message bodies) ++ tail) =
  (slices_at (length skip) bodies, gap tail).
Proof.
  intros Hb Hne Ht Hs. destruct bodies as [|b bodies]; [done|].
  apply Forall_cons in Hb as [Hb1 Hb]. unfold splitMessages.
  cbn [map concat slices_at]. rewrite <-(app_assoc (message b)).
  set (rest := concat (map message bodies) ++ tail).
  set (fuel := length (skip ++ message b ++ rest)).
  pose proof (split_loop_skip fuel [] skip (message b ++ rest)) as E.
  rewrite !app_nil_l in E. cbn [length] in E. rewrite E; clear E.
  - rewrite split_loop_message by auto.
    unfold rest. rewrite split_loop_complete; [by rewrite length_app|done|done|].
    unfold fuel. rewrite !length_app, message_length. unfold rest. rewrite length_app.
    pose proof (messages_length bodies). lia.
  - unfold message. rewrite <-!app_assoc, app_assoc. by apply find_app.
  - unfold message. rewrite <-app_assoc. apply find_start_start.
Qed.

Lemma split_loop_sound fuel : ∀ pre x last slices err,
  length x < fuel → last = None ∨ last = Some (length pre) →
  split_loop fuel (pre ++ x) (length pre) last = (slices, err) →
  ∃ skip bodies tail, x = skip ++ concat (map message bodies) ++ tail ∧
    Forall body_ok bodies ∧ slices = slices_at (length pre + length skip) bodies ∧
    tail_ok tail ∧ (last ≠ None → skip = []) ∧
    (bodies ≠ [] → find NLAP_XML_START_MARKER x = Some (length skip)) ∧
    err = match last, bodies with None, [] => false | _, _ => gap tail end.
Proof.
  induction fuel as [|fuel IH]; intros pre x last slices err Hf Hlast E; [lia|].
  destruct (find NLAP_XML_START_MARKER x) as [k|] eqn:Hk.
  2:{ cbn [split_loop] in E. rewrite find_from_app, Hk in E. simplify_eq/=.
      exists [], [], x. unfold tail_ok, gap. rewrite Hk. by destruct last. }
  destruct (decide (last ≠ None ∧ k ≠ 0)) as [[Hl H0]|Hd].
  { cbn [split_loop] in E. rewrite find_from_app, Hk in E. cbn [fmap option_fmap option_map] in E.
    destruct Hlast as [->| ->]; [done|].
    rewrite decide_True in E by (split; [done|]; intros [= ?]; lia). simplify_eq.
    exists [], [], x. unfold tail_ok, gap. rewrite Hk. destruct k; [done|].
    by repeat split. }
  pose proof (find_split _ _ _ Hk) as Hx.
  pose proof (find_bound NLAP_XML_START_MARKER _ _ ltac:(discriminate) Hk) as Hbound.
  set (skip := take k x) in *. set (z := drop (k + length NLAP_XML_START_MARKER) x) in *.
  assert (length skip = k) as Hskip by (unfold skip; rewrite length_take; simpl in Hbound; lia).
  assert (last ≠ None → skip = []) as Hsk.
  { intros Hl. apply nil_length_inv. rewrite Hskip. destruct (decide (k = 0)); tauto. }
  clearbody skip z. subst x.
  assert (split_loop (S fuel) ((pre ++ skip) ++ NLAP_XML_START_MARKER ++ z)
    (length (pre ++ skip)) last = (slices, err)) as E'.
  { destruct Hlast as [->| ->].
    - rewrite <-split_loop_skip; [done|by rewrite Hskip|apply find_start_start].
    - rewrite Hsk in E |- * by done. by rewrite app_nil_r. }
  clear E.
  destruct (find NLAP_XML_END_MARKER (NLAP_XML_START_MARKER ++ z)) as [e|] eqn:He.
  - destruct (message_of_end _ _ He) as (body & rest & -> & Hbody & ->).
    replace (NLAP_XML_START_MARKER ++ body ++ NLAP_XML_END_MARKER ++ rest)
      with (message body ++ rest) in *
      by (unfold message; by rewrite <-!app_assoc).
    rewrite split_loop_message in E'; [|done|].
    2:{ destruct Hlast as [->| ->]; [by left|right]. by rewrite Hsk, app_nil_r by done. }
    destruct (split_loop fuel _ _ _) as [slices' err'] eqn:E2. simplify_eq.
    apply IH in E2 as (skip' & bodies & tail & -> & Hb & -> & Ht & Hs' & _ & ->);
      [|rewrite !length_app, message_length in Hf; lia|by right].
    rewrite Hs' by done. exists skip, (body :: bodies), tail. cbn [map concat slices_at app].
    split; [by rewrite <-!app_assoc|]. split; [by constructor|].
    split; [|split; [done|split; [done|split; [done|by destruct last, bodies]]]].
    rewrite !length_app, Nat.add_0_r. done.
  - cbn [split_loop] in E'. rewrite !find_from_app, find_start_start in E'.
    cbn [fmap option_fmap option_map] in E'. rewrite Nat.add_0_r in E'.
    rewrite decide_False in E'.
    2:{ destruct Hlast as [->| ->]; [naive_solver|]. rewrite Hsk, app_nil_r by done. naive_solver. }
    rewrite find_from_app, He in E'. simplify_eq/=.
    exists [], [], (skip ++ NLAP_XML_START_MARKER ++ z). unfold tail_ok, gap.
    destruct Hlast as [->| ->].
    + split; [done|]. split; [constructor|]. split; [done|].
      split; [|by split]. intros H0.
      pose proof (eq_trans (eq_sym Hk) H0). by destruct skip; simplify_eq/=.
    + rewrite Hsk by done. by repeat split.
Qed.

(** ** The tree: what it says of the document *)

Lemma dom_ind_nested (P : dom → Prop) :
  (∀ tag cs, Forall P cs → P (Element tag cs)) → (∀ s, P (Text s)) → (∀ s, P (CData s)) →
  P Other → ∀ e, P e.
Proof.
  intros He Ht Hc Ho. fix IH 1. intros [tag cs|s|s|]; [apply He|apply Ht|apply Hc|apply Ho].
  induction cs as [|c cs IHcs]; constructor; [apply IH|apply IHcs].
Qed.

(** The names of the element children. *)
Fixpoint names (cs : list dom) : list bytes :=
  match cs with
  | [] => []
  | Element tag _ :: cs => tag :: names cs
  | _ :: cs => names cs
  end.

Lemma elem_of_names name cs' cs : Element name cs' ∈ cs → name ∈ names cs.
Proof.
  induction cs as [|c cs IH]; intros H; [by apply elem_of_nil in H|].
  apply elem_of_cons in H as [<-|H]; cbn [names]; [by left|].
  destruct c; [right|..]; by apply IH.
Qed.

(** Siblings have different names, at every level. *)
Inductive distinct_tags : dom → Prop :=
| distinct_element tag cs :
    NoDup (names cs) → Forall distinct_tags cs → distinct_tags (Element tag cs)
| distinct_text s : distinct_tags (Text s)
| distinct_cdata s : distinct_tags (CData s)
| distinct_other : distinct_tags Other.

(** The node of a leaf points at an occurrence of its text in the message; it
    points nowhere only when the text is empty or does not occur (because the
    document's text is not written in the message as it is). *)
Definition leaf_ok (RawMessage : view) (Value : bytes) (n : XMLNode) : Prop :=
  match Address n with
  | Some a => ∃ f, a = RawMessage.1 + f ∧ Length n = length Value ∧ Value ≠ [] ∧
                substr RawMessage.2 f (length Value) = Value
  | None => Length n = 0 ∧ (Value = [] ∨ find Value RawMessage.2 = None)
  end.

(** A node represents an element: a leaf by its text, any other by nodes that
    represent its children, under their names. *)
Inductive represents (RawMessage : view) : dom → XMLNode → Prop :=
| represents_leaf tag cs n :
    names cs = [] → Children n = ∅ → leaf_ok RawMessage (getElementText cs) n →
    represents RawMessage (Element tag cs) n
| represents_branch tag cs n :
    names cs ≠ [] → Address n = None →
    (∀ name, is_Some (Children n !! name) → name ∈ names cs) →
    (∀ name cs', Element name cs' ∈ cs →
       ∃ c, Children n !! name = Some c ∧ represents RawMessage (Element name cs') c) →
    represents RawMessage (Element tag cs) n.

Lemma populate_children_spec pop cs : ∀ has n off has' n' off',
  NoDup (names cs) → (∀ name, name ∈ names cs → Children n !! name = None) →
  populate_children pop cs has n off = (has', n', off') →
  has' = (has || bool_decide (names cs ≠ [])) ∧ Address n' = Address n ∧ Length n' = Length n ∧
  (∀ name, name ∉ names cs → Children n' !! name = Children n !! name) ∧
  (∀ name cs', Element name cs' ∈ cs →
     ∃ off1, Children n' !! name = Some (pop (Element name cs') empty_node off1).1).
Proof.
  induction cs as [|c cs IH]; intros has n off has' n' off' Hnd Hn E.
  - simplify_eq/=. rewrite orb_false_r. repeat split; [done..|].
    intros name cs' H. by apply elem_of_nil in H.
  - destruct c as [tag cs0|s|s|]; cbn [names] in *.
    2-4: apply IH in E as (-> & HA & HL & Ho & Hc); [|done..];
      repeat split; try done; intros name cs' [?|H]%elem_of_cons; [done|by apply (Hc name)].
    cbn [populate_children] in E.
    destruct (pop (Element tag cs0) (child n tag) off) as [c' off1] eqn:Ep.
    assert (child n tag = empty_node) as Hchild.
    { unfold child. by rewrite Hn by set_solver. }
    apply NoDup_cons in Hnd as [Htag Hnd].
    apply IH in E as (-> & HA & HL & Ho & Hc); [|done|].
    2:{ intros name Hname. cbn. rewrite lookup_insert_ne by (intros ->; done).
        apply Hn. set_solver. }
    split; [|split; [done|split; [done|split]]].
    + rewrite orb_true_l. symmetry. apply orb_true_r.
    + intros name Hname. rewrite Ho by set_solver. cbn.
      rewrite lookup_insert_ne; [done|]. set_solver.
    + intros name cs' [H|H]%elem_of_cons; [|by apply Hc]. simplify_eq. exists off.
      rewrite Ho by done. cbn. rewrite lookup_insert_eq. by rewrite <-Hchild, Ep.
Qed.

Lemma occurs_substr p s i : occurs p s i → substr s i (length p) = p.
Proof. intros [r Hr]. unfold substr. by rewrite Hr, take_app_length. Qed.

Lemma find_from_occurs p s pos f : find_from p s pos = Some f → occurs p s f.
Proof.
  unfold find_from. case_decide; [|done].
  intros (k & Hk & ->)%fmap_Some. apply find_Some in Hk as (Ho & _ & _).
  unfold occurs in *. by rewrite drop_drop in Ho.
Qed.

Lemma populate_leaf_ok cs n RawMessage off :
  Address n = None → Length n = 0 →
  leaf_ok RawMessage (getElementText cs) (populate_leaf cs n RawMessage off).1 ∧
  Children (populate_leaf cs n RawMessage off).1 = Children n.
Proof.
  intros HA HL. unfold populate_leaf. set (Value := getElementText cs).
  case_decide as Hv; [split; [|done]; cbn [fst]; unfold leaf_ok; rewrite HA; by auto|].
  destruct (find_from Value RawMessage.2 off) as [f|] eqn:Ef; [|destruct (find Value _) as [f|] eqn:E].
  - split; [|done]. exists f. repeat split; try done. by apply occurs_substr, (find_from_occurs _ _ off).
  - split; [|done]. exists f. repeat split; try done.
    apply occurs_substr. by apply find_Some in E as (? & _ & _).
  - split; [|done]. cbn [fst]. unfold leaf_ok. rewrite HA. auto.
Qed.

Lemma names_nil_no_element cs name cs' : names cs = [] → Element name cs' ∉ cs.
Proof. intros H He%elem_of_names. rewrite H in He. by apply elem_of_nil in He. Qed.

Lemma populate_represents RawMessage e :
  distinct_tags e → ∀ off,
  match e with
  | Element _ _ => represents RawMessage e (populateTree RawMessage e empty_node off).1
  | _ => True
  end.
Proof.
  induction e as [tag cs IH|s|s|] using dom_ind_nested; intros Hd off; try done.
  inversion Hd as [? ? Hnd Hcs|?|?|]; subst. cbn [populateTree].
  destruct (populate_children (populateTree RawMessage) cs false empty_node off)
    as [[has n] off'] eqn:E.
  apply populate_children_spec in E as (-> & HA & HL & Ho & Hc); [|done|done].
  cbn [orb]. case_bool_decide as Hn.
  - apply represents_branch; [done|done| |].
    + intros name [c Hname]. destruct (decide (name ∈ names cs)) as [|Hout]; [done|].
      rewrite Ho in Hname by done. cbn in Hname. by rewrite lookup_empty in Hname.
    + intros name cs' Hin. destruct (Hc name cs' Hin) as [off1 Hname].
      eexists. split; [done|]. rewrite Forall_forall in IH, Hcs.
      apply (IH _ Hin (Hcs _ Hin) off1).
  - assert (names cs = []) as Hnil by (destruct (names cs); naive_solver).
    destruct (populate_leaf_ok cs n RawMessage off') as [Hl Hch]; [done|done|].
    apply represents_leaf; [done| |done]. rewrite Hch. apply map_eq. intros name.
    rewrite Ho by (rewrite Hnil; apply not_elem_of_nil). done.
Qed.

(** ** Addresses stay in the message *)

Inductive all_nodes (P : XMLNode → Prop) (n : XMLNode) : Prop :=
| all_nodes_intro :
    P n → (∀ name c, Children n !! name = Some c → all_nodes P c) → all_nodes P n.

Definition inside (RawMessage : view) (n : XMLNode) : Prop :=
  match Address n with
  | Some a => RawMessage.1 <= a ∧ 0 < Length n ∧
      a + Length n <= RawMessage.1 + length RawMessage.2
  | None => True
  end.

Lemma inside_empty RawMessage : all_nodes (inside RawMessage) empty_node.
Proof. split; [done|]. intros name c. cbn. by rewrite lookup_empty. Qed.

Lemma occurs_inside p s f : p ≠ [] → occurs p s f → f + length p <= length s ∧ 0 < length p.
Proof. intros Hp Ho. split; [by apply occurs_lt|auto with cpp]. Qed.

Lemma populate_leaf_inside cs n RawMessage off :
  all_nodes (inside RawMessage) n →
  all_nodes (inside RawMessage) (populate_leaf cs n RawMessage off).1.
Proof.
  intros [Hn Hc]. unfold populate_leaf. set (Value := getElementText cs).
  case_decide as Hv; [by split|].
  assert (∀ f, occurs Value RawMessage.2 f →
    all_nodes (inside RawMessage) (Node (Children n) (Some (RawMessage.1 + f)) (length Value)))
    as Hocc.
  { intros f Ho. destruct (occurs_inside _ _ _ Hv Ho). split; [|done]. cbn. lia. }
  destruct (find_from Value RawMessage.2 off) as [f|] eqn:Ef; [|destruct (find Value _) as [f|] eqn:E].
  - apply Hocc. by eapply find_from_occurs.
  - apply Hocc. by apply find_Some in E as (? & _ & _).
  - by split.
Qed.

Lemma populate_children_inside RawMessage pop cs :
  Forall (λ e, ∀ n off, all_nodes (inside RawMessage) n →
    all_nodes (inside RawMessage) (pop e n off).1) cs →
  ∀ has n off, all_nodes (inside RawMessage) n →
  all_nodes (inside RawMessage) (populate_children pop cs has n off).1.2.
Proof.
  induction 1 as [|c cs Hc _ IH]; intros has n off Hn; [done|].
  destruct c as [tag cs0|s|s|]; cbn [populate_children]; try by apply IH.
  assert (all_nodes (inside RawMessage) (child n tag)) as Hch.
  { destruct Hn as [_ Hn]. unfold child. destruct (Children n !! tag) as [c|] eqn:E; [by eapply Hn|].
    apply inside_empty. }
  specialize (Hc _ off Hch). destruct (pop (Element tag cs0) (child n tag) off) as [c' off1].
  apply IH. destruct Hn as [H1 H2]. split; [done|]. intros name c. cbn.
  intros [[<- <-]|[_ H]]%lookup_insert_Some; [done|by eapply H2].
Qed.

Lemma populate_inside RawMessage e : ∀ n off,
  all_nodes (inside RawMessage) n →
  all_nodes (inside RawMessage) (populateTree RawMessage e n off).1.
Proof.
  induction e as [tag cs IH|s|s|] using dom_ind_nested; intros n off Hn; [|exact Hn..].
  cbn [populateTree]. pose proof (populate_children_inside _ _ _ IH false n off Hn) as H.
  destruct (populate_children _ _ _ _ _) as [[[] n'] off']; cbn [fst snd] in *; [exact H|].
  by apply populate_leaf_inside.
Qed.

Section results.
Variable syntax_run : bytes → list report.
Variable dtd_run : bytes → list report * option (option dom).

Lemma parse_message_inside m code tree :
  parseMessage syntax_run dtd_run m = (code, tree) →
  map_Forall (λ _ n, all_nodes (inside m) n) tree.
Proof using Type.
  unfold parseMessage. destruct (hasAnyError _); [intros [= _ <-]; apply map_Forall_empty|].
  destruct (dtd_run _) as [reports doc]. destruct (hasAnyError _); [intros [= _ <-]; apply map_Forall_empty|].
  destruct doc as [[[tag cs|s|s|]|]|]; try (intros [= _ <-]; apply map_Forall_empty).
  assert (Forall (λ e, ∀ n off, all_nodes (inside m) n →
    all_nodes (inside m) (populateTree m e n off).1) cs) as Hcs.
  { apply Forall_forall. intros e _ n off. apply populate_inside. }
  pose proof (populate_children_inside m _ _ Hcs false empty_node 0 (inside_empty m)) as H.
  destruct (populate_children _ _ _ _ _) as [[has n'] off']. intros [= _ <-].
  by apply map_Forall_singleton.
Qed.

Lemma parse_slices_spec slices : ∀ acc,
  match parse_slices syntax_run dtd_run slices acc with
  | inl code => code ≠ 0%Z ∧ ∃ done_ m rest, slices = done_ ++ m :: rest ∧
      Forall (λ s, (parseMessage syntax_run dtd_run s).1 = 0%Z) done_ ∧
      (parseMessage syntax_run dtd_run m).1 = code
  | inr trees => ∃ new, trees = acc ++ new ∧
      Forall2 (λ s t, parseMessage syntax_run dtd_run s = (0%Z, t)) slices new
  end.
Proof using Type.
  induction slices as [|s slices IH]; intros acc; cbn [parse_slices].
  - exists []. by rewrite app_nil_r.
  - destruct (parseMessage syntax_run dtd_run s) as [code t] eqn:E. case_decide as Hc.
    + split; [done|]. exists [], s, slices. rewrite E. done.
    + subst code. specialize (IH (acc ++ [t])).
      destruct (parse_slices syntax_run dtd_run slices (acc ++ [t])) as [code|trees].
      * destruct IH as [Hne (dn & m & rest & -> & Hd & Hm)]. split; [done|].
        exists (s :: dn), m, rest. split; [done|]. split; [|done]. constructor; [by rewrite E|done].
      * destruct IH as (new & -> & Hnew). exists (t :: new). rewrite <-app_assoc.
        split; [done|]. by constructor.
Qed.

(** The outcome of [parse] by cases: too long, a message rejected, a gap, or
    one tree for each message. *)
Lemma parse_outcome size Input slices err :
  length Input <= size → splitMessages Input = (slices, err) →
  let r := parse syntax_run dtd_run size (Some Input) in
  (ErrorCode r = 0%Z ∧ err = false ∧
     Forall2 (λ s t, parseMessage syntax_run dtd_run s = (0%Z, t)) slices (Results r)) ∨
  (ErrorCode r = XML_ERROR_INVALID_FRAMING ∧ Results r = [] ∧ err = true ∧
     Forall (λ s, (parseMessage syntax_run dtd_run s).1 = 0%Z) slices) ∨
  (Results r = [] ∧ ErrorCode r ≠ 0%Z ∧ ∃ done_ m rest, slices = done_ ++ m :: rest ∧
     Forall (λ s, (parseMessage syntax_run dtd_run s).1 = 0%Z) done_ ∧
     (parseMessage syntax_run dtd_run m).1 = ErrorCode r).
Proof using Type.
  intros Hs E r. unfold r, parse. rewrite decide_False by lia. rewrite E.
  pose proof (parse_slices_spec slices []) as H.
  destruct (parse_slices syntax_run dtd_run slices []) as [code|trees].
  - destruct H as [Hne H]. right. right. by split.
  - destruct H as (new & -> & Hnew). destruct err; [right|]; left.
    + repeat split; [done..|]. clear -Hnew. induction Hnew as [|s t ss ts E _ IH]; constructor; [|done].
      by rewrite E.
    + by repeat split.
Qed.

End results.
End XMLParser.
