(* ===== verification/XmlStrings.v ===== *)
(** * The strings of the XML library (lib/xml/xmlparser.cpp)

    Xerces hands over names, texts and messages as UTF-16 strings, which
    [transcodeXMLCh] converts before the parser looks at them. This file puts
    the conversion between the library's documents and those of XmlParser.v. The
    conversion of the library, [XMLString::transcode], is a parameter. *)
From S2P Require Export XmlParser.
From stdpp Require Import options.

Module XmlStrings.
Import XMLParser.

(** A string of the library; a null pointer is [None]. *)
Abbreviation XMLCh := (option (list Z)) (only parsing).

(** A document, and the calls of an error handler, as the library gives them. *)
Inductive DOMNode :=
| DOMElement (TagName : XMLCh) (ChildNodes : list DOMNode)
| DOMText (NodeValue : XMLCh)
| DOMCData (NodeValue : XMLCh)
| DOMOther.

Inductive SAXReport :=
| SAXError (Message : XMLCh)
| SAXFatalError (Message : XMLCh)
| SAXWarning (Message : XMLCh)
| SAXResetErrors.

Section library.
Variable transcode : list Z → option bytes.

(** [std::string(Buffer)]: up to the first null byte. *)
Definition c_string (Buffer : bytes) : bytes := (span (λ c, bool_decide (c ≠ "000"%char)) Buffer).1.

(** [transcodeXMLCh(Input)] *)
Definition transcodeXMLCh (Input : XMLCh) : bytes :=
  match Input with
  | None => []
  | Some s =>
      match transcode s with
      | None => []
      | Some Buffer => c_string Buffer
      end
  end.

(** What the parser sees of a document: it converts the tag names of elements
    and the values of texts and sections. *)
Fixpoint as_dom (n : DOMNode) : dom :=
  match n with
  | DOMElement TagName ChildNodes => Element (transcodeXMLCh TagName) (map as_dom ChildNodes)
  | DOMText NodeValue => Text (transcodeXMLCh NodeValue)
  | DOMCData NodeValue => CData (transcodeXMLCh NodeValue)
  | DOMOther => Other
  end.

(** The overrides of [ParseErrorHandler]: a warning is not converted. *)
Definition as_report (r : SAXReport) : report :=
  match r with
  | SAXError Message => ErrorReport (transcodeXMLCh Message)
  | SAXFatalError Message => FatalErrorReport (transcodeXMLCh Message)
  | SAXWarning _ => WarningReport []
  | SAXResetErrors => ResetErrors
  end.

(** [BlockingEntityResolver::resolveEntity(PublicId, SystemId)] *)
Definition resolve (SystemId : XMLCh) : bool := resolveEntity (transcodeXMLCh SystemId).

(** No name or text holds a null byte, so that it is the same string for the
    functions that take it as a C string. *)
Lemma transcode_no_null Input : "000"%char ∉ transcodeXMLCh Input.
Proof.
  destruct Input as [s|]; [|set_solver]. cbn. destruct (transcode s) as [b|]; [|set_solver].
  unfold c_string. induction b as [|c b IH]; cbn; [set_solver|].
  case_bool_decide as Hc; [|set_solver].
  destruct (span _ b) as [a r]. cbn in IH |- *. set_solver.
Qed.

(** The only entities that are not replaced are those whose converted name ends
    in the name of the document type, or is its path. *)
Theorem entities_blocked SystemId :
  resolve SystemId = true ↔
  transcodeXMLCh SystemId = NLAP_DTD_SYSTEM_PATH ∨
  ∃ directory, transcodeXMLCh SystemId = directory ++ str "nlap.dtd".
Proof.
  unfold resolve, resolveEntity. generalize (transcodeXMLCh SystemId). intros path. split.
  - repeat case_decide; try done; [by left|]. intros _. right.
    match goal with H : _ ∧ _ |- _ => destruct H as [_ <-] end. eexists. by rewrite take_drop.
  - intros H. assert (path ≠ []) as Hne.
    { destruct H as [->|[d ->]]; [done|]. by destruct d. }
    rewrite decide_False by done. case_decide as Hp; [done|]. destruct H as [|[d ->]]; [done|].
    rewrite decide_True; [done|]. rewrite length_app. split; [lia|].
    by rewrite drop_app_length' by lia.
Qed.

(** [parse] over the runs of the library. *)
Variable syntax_run : bytes → list SAXReport.
Variable dtd_run : bytes → list SAXReport * option (option DOMNode).

Definition parse_library : nat → option bytes → ParseResult_t :=
  parse (λ s, map as_report (syntax_run s))
    (λ s, let '(reports, Document) := dtd_run s in
          (map as_report reports, option_map (option_map as_dom) Document)).

End library.

(** The local path of the document type is itself allowed, a remote one of the
    same name as well. *)
Example remote_dtd_allowed :
  resolveEntity (str "http://example.org/nlap.dtd") = true ∧
  resolveEntity (str "http://example.org/other.dtd") = false.
Proof. by split. Qed.

End XmlStrings.
