(* ===== verification/XmlOrder.v ===== *)
(** * The addresses of a message's leaves, in document order

    [populateTree] passes one search offset through the whole tree. Read off the
    leaves in document order, the addresses are those of a single scan of the
    message for the leaves' texts ([scan]), and when the texts are written in
    the message one behind the other ([written]), the scan finds them without
    starting over: the addresses come in document order and do not overlap. *)
From S2P Require Export XmlParser.
From stdpp Require Import options.

Module XmlOrder.
Import XMLParser.

(** ** Specification *)

(** Where the text of a leaf stands, and how long it is. *)
Definition span : Type := option nat * nat.

Fixpoint leaf_texts (e : dom) : list bytes :=
  match e with
  | Element _ cs =>
      if decide (names cs = []) then [getElementText cs] else flat_map leaf_texts cs
  | _ => []
  end.

(** The spans of the nodes of the leaves of a document. *)
Fixpoint leaf_spans (e : dom) (n : XMLNode) : list span :=
  match e with
  | Element _ cs =>
      if decide (names cs = []) then [(Address n, Length n)]
      else flat_map (λ c, match c with
                          | Element name _ => leaf_spans c (child n name)
                          | _ => []
                          end) cs
  | _ => []
  end.

(** Searching a text: from the offset on, or else from the start. *)
Definition locate (s : bytes) (off : nat) (Value : bytes) : option nat :=
  if decide (Value = []) then None
  else match find_from Value s off with
       | Some f => Some f
       | None => find Value s
       end.

Fixpoint scan (RawMessage : view) (off : nat) (texts : list bytes) : list span * nat :=
  match texts with
  | [] => ([], off)
  | v :: texts =>
      let '(sp, off) := match locate RawMessage.2 off v with
                        | Some f => ((Some (RawMessage.1 + f), length v), f + length v)
                        | None => ((None, 0), off)
                        end in
      let '(spans, off) := scan RawMessage off texts in
      (sp :: spans, off)
  end.

(** The texts stand in [s] one behind the other, from [from] on. *)
Inductive written (s : bytes) : nat → list bytes → Prop :=
| written_nil from : written s from []
| written_empty from vs : written s from vs → written s from ([] :: vs)
| written_at from p v vs :
    from <= p → v ≠ [] → occurs v s p → written s (p + length v) vs → written s from (v :: vs).

(** Spans in ascending order without overlap, from [from] on, one for each of
    the texts that is not empty. *)
Fixpoint in_order (from : nat) (spans : list span) (vs : list bytes) : Prop :=
  match spans, vs with
  | [], [] => True
  | (None, len) :: spans, v :: vs => len = 0 ∧ v = [] ∧ in_order from spans vs
  | (Some a, len) :: spans, v :: vs =>
      from <= a ∧ v ≠ [] ∧ len = length v ∧ in_order (a + len) spans vs
  | _, _ => False
  end.

(** A span holds a text: it is where the text occurs, or none when the text is
    empty or does not occur. *)
Definition placed (RawMessage : view) (sp : span) (Value : bytes) : Prop :=
  match sp.1 with
  | Some a => ∃ f, a = RawMessage.1 + f ∧ sp.2 = length Value ∧ Value ≠ [] ∧
                substr RawMessage.2 f (length Value) = Value
  | None => sp.2 = 0 ∧ (Value = [] ∨ find Value RawMessage.2 = None)
  end.

(** *** Paths

    The names from a node down to another, and from an element down to the
    elements and the leaves in it. *)
Fixpoint node_at (n : XMLNode) (path : list bytes) : option XMLNode :=
  match path with
  | [] => Some n
  | name :: path => Children n !! name ≫= λ c, node_at c path
  end.

Definition span_at (n : XMLNode) (path : list bytes) : span :=
  match node_at n path with
  | Some c => (Address c, Length c)
  | None => (None, 0)
  end.

Fixpoint element_paths (e : dom) : list (list bytes) :=
  match e with
  | Element _ cs =>
      [] :: flat_map (λ c, match c with
                           | Element name _ => map (cons name) (element_paths c)
                           | _ => []
                           end) cs
  | _ => []
  end.

Fixpoint leaf_paths (e : dom) : list (list bytes) :=
  match e with
  | Element _ cs =>
      if decide (names cs = []) then [[]]
      else flat_map (λ c, match c with
                          | Element name _ => map (cons name) (leaf_paths c)
                          | _ => []
                          end) cs
  | _ => []
  end.

(** The last of the spans at a path that is not empty. *)
Definition last_written (path : list bytes) (leaves : list (list bytes * span)) : option span :=
  last (omap (λ l, if decide (l.1 = path ∧ l.2.1 ≠ None) then Some l.2 else None) leaves).

(** ** The tree is a scan *)

Lemma scan_app RawMessage off xs ys :
  scan RawMessage off (xs ++ ys) =
  let '(s1, off1) := scan RawMessage off xs in
  let '(s2, off2) := scan RawMessage off1 ys in (s1 ++ s2, off2).
Proof.
  revert off. induction xs as [|x xs IH]; intros off; cbn [scan app].
  - by destruct (scan _ off ys).
  - destruct (match locate _ _ _ with Some _ => _ | None => _ end) as [sp off1].
    rewrite IH. destruct (scan _ off1 xs) as [s1 off2]. by destruct (scan _ off2 ys).
Qed.

Lemma populate_leaf_scan cs n RawMessage off :
  Address n = None → Length n = 0 →
  let '(n', off') := populate_leaf cs n RawMessage off in
  scan RawMessage off [getElementText cs] = ([(Address n', Length n')], off').
Proof.
  intros HA HL. unfold populate_leaf. cbn [scan]. unfold locate.
  case_decide; [by rewrite HA, HL|].
  destruct (match find_from _ _ _ with Some _ => _ | None => _ end); [done|]. by rewrite HA, HL.
Qed.

(** What the traversal of an element does, in terms of the scan. *)
Definition scanned (RawMessage : view) (e : dom) : Prop :=
  ∀ off, let '(n, off') := populateTree RawMessage e empty_node off in
  scan RawMessage off (leaf_texts e) = (leaf_spans e n, off').

Lemma populate_children_scan RawMessage cs : ∀ has n off has' n' off',
  Forall (scanned RawMessage) cs → NoDup (names cs) →
  (∀ name, name ∈ names cs → Children n !! name = None) →
  populate_children (populateTree RawMessage) cs has n off = (has', n', off') →
  scan RawMessage off (flat_map leaf_texts cs) =
    (flat_map (λ c, match c with
                    | Element name _ => leaf_spans c (child n' name)
                    | _ => []
                    end) cs, off').
Proof.
  induction cs as [|c cs IH]; intros has n off has' n' off' Hcs Hnd Hn E; [by simplify_eq/=|].
  inversion_clear Hcs as [|? ? Hc Hrest].
  destruct c as [tag cs0|s|s|]; [|by eapply IH in E..].
  cbn [populate_children names] in *. apply NoDup_cons in Hnd as [Htag Hnd].
  assert (child n tag = empty_node) as Hch by (unfold child; by rewrite Hn by set_solver).
  rewrite Hch in E. specialize (Hc off).
  destruct (populateTree RawMessage (Element tag cs0) empty_node off) as [c' off1].
  assert (∀ name, name ∈ names cs → Children (set_child tag c' n) !! name = None) as Hn1.
  { intros name Hname. cbn. rewrite lookup_insert_ne by (intros ->; done). apply Hn. set_solver. }
  pose proof (populate_children_spec _ _ _ _ _ _ _ _ Hnd Hn1 E) as (_ & _ & _ & Ho & _).
  apply IH in E; [|done..].
  assert (child n' tag = c') as Hc'.
  { unfold child. rewrite Ho by done. cbn. by rewrite lookup_insert_eq. }
  change (flat_map leaf_texts (Element tag cs0 :: cs))
    with (leaf_texts (Element tag cs0) ++ flat_map leaf_texts cs).
  rewrite scan_app, Hc, E. cbn [flat_map]. by rewrite Hc'.
Qed.

Lemma populate_scan RawMessage e : distinct_tags e → scanned RawMessage e.
Proof.
  induction e as [tag cs IH|s|s|] using dom_ind_nested; intros Hd off; [|done..].
  inversion Hd as [? ? Hnd Hcs|?|?|]; subst. cbn [populateTree leaf_texts].
  destruct (populate_children (populateTree RawMessage) cs false empty_node off)
    as [[has n] off'] eqn:E.
  pose proof (populate_children_spec _ _ _ _ _ _ _ _ Hnd (λ _ _, lookup_empty _) E)
    as (-> & HA & HL & _ & _).
  apply populate_children_scan in E; [|rewrite Forall_forall in *; by auto|done..].
  cbn [orb]. cbn [leaf_spans]. case_bool_decide as Hn; case_decide as Hn'; try done.
  assert (off' = off) as ->.
  { clear -E Hn'. revert E. induction cs as [|[] cs IHc]; cbn; intros E; try discriminate;
      [congruence|by apply IHc..]. }
  pose proof (populate_leaf_scan cs n RawMessage off HA HL).
  by destruct (populate_leaf cs n RawMessage off) as [n1 off1].
Qed.

(** ** The tree is what the leaves write, one after the other *)

Lemma last_written_app path xs ys :
  last_written path (xs ++ ys) =
  match last_written path ys with Some sp => Some sp | None => last_written path xs end.
Proof. unfold last_written. by rewrite omap_app, last_app. Qed.

Lemma last_written_cons path name leaves :
  last_written (name :: path) (prod_map (cons name) id <$> leaves) = last_written path leaves.
Proof.
  unfold last_written. f_equal. induction leaves as [|[q sp] leaves IH]; [done|]. cbn.
  rewrite IH. repeat case_decide; try done; naive_solver.
Qed.

Lemma last_written_other path leaves :
  path ∉ leaves.*1 → last_written path leaves = None.
Proof.
  unfold last_written. induction leaves as [|[q sp] leaves IH]; [done|]. cbn.
  intros [Hne Hn]%not_elem_of_cons. rewrite decide_False by naive_solver. by apply IH.
Qed.

(** The only leaf with a path writes what its node has in the end. *)
Lemma last_written_only path paths spans i sp :
  (∀ j, paths !! j = Some path → j = i) → paths !! i = Some path → spans !! i = Some sp →
  (sp.1 = None → sp = (None, 0)) → default (None, 0) (last_written path (zip paths spans)) = sp.
Proof.
  revert spans i. induction paths as [|q paths IH]; intros spans i Hu Hp Hs Hsp; [done|].
  destruct spans as [|sp' spans]; [by destruct i|]. cbn [zip zip_with].
  change ((q, sp') :: zip paths spans) with ([(q, sp')] ++ zip paths spans).
  rewrite last_written_app. destruct i as [|i]; simplify_eq/=.
  - rewrite last_written_other.
    + unfold last_written. cbn. destruct sp as [[a|] len]; [by rewrite decide_True|].
      rewrite decide_False by naive_solver. by rewrite Hsp.
    + intros Hin. apply list_elem_of_fmap in Hin as ([q' sp'] & -> & Hin).
      apply elem_of_zip_l in Hin. apply list_elem_of_lookup in Hin as [j Hj].
      by specialize (Hu (S j) Hj).
  - assert (default (None, 0) (last_written path (zip paths spans)) = sp) as <-.
    { apply (IH spans i); try done. intros j Hj. specialize (Hu (S j) Hj). lia. }
    destruct (last_written path (zip paths spans)) as [sp1|]; [done|].
    rewrite last_written_other; [done|]. intros ->%list_elem_of_singleton.
    by specialize (Hu 0 eq_refl).
Qed.

Lemma node_at_empty name path : node_at empty_node (name :: path) = None.
Proof. cbn. by rewrite lookup_empty. Qed.

Lemma span_at_child n name path : span_at (child n name) path = span_at n (name :: path).
Proof.
  unfold span_at, child. cbn. destruct (Children n !! name) as [c|]; [done|]. cbn [default mbind option_bind].
  destruct path; [done|]. by rewrite node_at_empty.
Qed.

Lemma node_at_child n name path :
  is_Some (node_at (child n name) path) ↔ path = [] ∨ is_Some (node_at n (name :: path)).
Proof.
  unfold child. cbn. destruct (Children n !! name) as [c|]; cbn [default mbind option_bind].
  - destruct path; cbn; naive_solver.
  - destruct path; [cbn; naive_solver|]. rewrite node_at_empty. split; [intros [? [=]]|].
    intros [[=]|[? [=]]].
Qed.

Lemma node_at_set_child n name c path :
  node_at (set_child name c n) (name :: path) = node_at c path.
Proof. cbn. by rewrite lookup_insert_eq. Qed.

Lemma node_at_set_other n name name' c path :
  name' ≠ name → node_at (set_child name c n) (name' :: path) = node_at n (name' :: path).
Proof. intros Hne. cbn. by rewrite lookup_insert_ne. Qed.

Lemma scan_length RawMessage texts : ∀ off, length (scan RawMessage off texts).1 = length texts.
Proof.
  induction texts as [|v texts IH]; intros off; [done|]. cbn [scan].
  destruct (match locate _ _ _ with Some _ => _ | None => _ end) as [sp off1].
  specialize (IH off1). destruct (scan _ off1 texts). cbn in *. by f_equal.
Qed.

Lemma leaf_paths_length e : length (leaf_paths e) = length (leaf_texts e).
Proof.
  induction e as [tag cs IH|s|s|] using dom_ind_nested; [|done..].
  cbn [leaf_paths leaf_texts]. case_decide; [done|]. clear -IH.
  induction IH as [|c cs Hc _ IHc]; [done|].
  destruct c; cbn [flat_map]; rewrite ?length_app, ?length_map, ?Hc, IHc; done.
Qed.

Definition child_paths (paths : dom → list (list bytes)) (c : dom) : list (list bytes) :=
  match c with
  | Element name _ => map (cons name) (paths c)
  | _ => []
  end.

(** What a traversal does to the node it starts from, whatever that is. *)
Definition writes (RawMessage : view) (elements leaves : list (list bytes)) (texts : list bytes)
    (n : XMLNode) (off : nat) (n' : XMLNode) (off' : nat) : Prop :=
  ∃ spans, scan RawMessage off texts = (spans, off') ∧
    (∀ path, is_Some (node_at n' path) ↔ is_Some (node_at n path) ∨ path ∈ elements) ∧
    (∀ path, span_at n' path =
      default (span_at n path) (last_written path (zip leaves spans))).

Lemma writes_nothing RawMessage n off : writes RawMessage [] [] [] n off n off.
Proof.
  exists []. split; [done|]. split; [|done]. intros path. split; [by left|].
  intros [?|?%elem_of_nil]; done.
Qed.

(** One child: its node is written below its name. *)
Lemma writes_child RawMessage name elements leaves texts n off c off' :
  length leaves = length texts → [] ∈ elements →
  writes RawMessage elements leaves texts (child n name) off c off' →
  writes RawMessage (map (cons name) elements) (map (cons name) leaves) texts n off
    (set_child name c n) off'.
Proof.
  intros Hlen Hnil (spans & Hs & Hn & Hsp). exists spans. split; [done|]. split.
  - intros [|name' path].
    { cbn. split; [by left|eauto]. }
    destruct (decide (name' = name)) as [->|Hne].
    + rewrite node_at_set_child, Hn, node_at_child.
      assert (name :: path ∈ map (cons name) elements ↔ path ∈ elements) as ->.
      { rewrite list_elem_of_fmap. naive_solver. }
      naive_solver.
    + rewrite node_at_set_other by done. split; [by left|]. intros [?|Hin]; [done|].
      apply list_elem_of_fmap in Hin. naive_solver.
  - assert (zip (map (cons name) leaves) spans = prod_map (cons name) id <$> zip leaves spans) as ->.
    { clear. revert spans. induction leaves as [|l leaves IH]; intros [|sp spans]; cbn; [done..|].
      by rewrite IH. }
    intros [|name' path].
    { rewrite last_written_other; [done|]. intros Hin.
      rewrite list_elem_of_fmap in Hin. destruct Hin as (? & ? & Hin).
      apply list_elem_of_fmap in Hin as ([] & -> & _). done. }
    destruct (decide (name' = name)) as [->|Hne].
    + transitivity (span_at c path); [unfold span_at; by rewrite node_at_set_child|].
      by rewrite Hsp, span_at_child, last_written_cons.
    + rewrite last_written_other; [unfold span_at; by rewrite node_at_set_other|]. intros Hin.
      rewrite list_elem_of_fmap in Hin. destruct Hin as (? & ? & Hin).
      apply list_elem_of_fmap in Hin as ([] & -> & _). naive_solver.
Qed.

(** One traversal after the other. *)
Lemma writes_app RawMessage e1 l1 t1 e2 l2 t2 n off n1 off1 n2 off2 :
  length l1 = length t1 →
  writes RawMessage e1 l1 t1 n off n1 off1 → writes RawMessage e2 l2 t2 n1 off1 n2 off2 →
  writes RawMessage (e1 ++ e2) (l1 ++ l2) (t1 ++ t2) n off n2 off2.
Proof.
  intros Hlen (s1 & Hs1 & Hn1 & Hsp1) (s2 & Hs2 & Hn2 & Hsp2). exists (s1 ++ s2).
  rewrite scan_app, Hs1, Hs2. split; [done|]. split.
  - intros path. rewrite Hn2, Hn1, elem_of_app. tauto.
  - intros path. pose proof (scan_length RawMessage t1 off) as Hl. rewrite Hs1 in Hl. cbn in Hl.
    assert (zip (l1 ++ l2) (s1 ++ s2) = zip l1 s1 ++ zip l2 s2) as ->
      by (apply zip_with_app; lia).
    rewrite last_written_app, Hsp2, Hsp1.
    by destruct (last_written path (zip l2 s2)).
Qed.

Definition element_writes (RawMessage : view) (e : dom) : Prop :=
  match e with
  | Element _ _ => ∀ n off, let '(n', off') := populateTree RawMessage e n off in
      writes RawMessage (element_paths e) (leaf_paths e) (leaf_texts e) n off n' off'
  | _ => True
  end.

Lemma populate_children_writes RawMessage cs :
  Forall (element_writes RawMessage) cs →
  ∀ has n off, let '(has', n', off') := populate_children (populateTree RawMessage) cs has n off in
    has' = (has || bool_decide (names cs ≠ [])) ∧
    writes RawMessage (flat_map (child_paths element_paths) cs)
      (flat_map (child_paths leaf_paths) cs) (flat_map leaf_texts cs) n off n' off'.
Proof.
  induction 1 as [|c cs Hc _ IH]; intros has n off.
  { cbn. rewrite orb_false_r. split; [done|apply writes_nothing]. }
  destruct c as [name cs0|s|s|]; [|apply IH..]. cbn [populate_children].
  specialize (Hc (child n name) off).
  destruct (populateTree RawMessage (Element name cs0) (child n name) off) as [c off1].
  specialize (IH true (set_child name c n) off1).
  destruct (populate_children _ cs true _ off1) as [[has' n'] off']. destruct IH as [-> IH].
  split; [cbn; by rewrite orb_true_r|].
  change (flat_map leaf_texts (Element name cs0 :: cs))
    with (leaf_texts (Element name cs0) ++ flat_map leaf_texts cs).
  pose proof (leaf_paths_length (Element name cs0)) as Hl.
  assert ([] ∈ element_paths (Element name cs0)) as Hnil by (cbn; by left).
  refine (writes_app _ _ _ _ _ _ _ _ _ _ _ _ _ _ (writes_child _ _ _ _ _ _ _ _ _ Hl Hnil Hc) IH).
  by rewrite length_map.
Qed.

(** A leaf writes its span into the node itself. *)
Lemma populate_leaf_writes RawMessage cs n off :
  let '(n', off') := populate_leaf cs n RawMessage off in
  writes RawMessage [[]] [[]] [getElementText cs] n off n' off'.
Proof.
  unfold populate_leaf. set (Value := getElementText cs).
  assert (∀ n', Children n' = Children n → ∀ path,
    is_Some (node_at n' path) ↔ is_Some (node_at n path) ∨ path ∈ [[]]) as Hsame.
  { intros n' Hch path. rewrite list_elem_of_singleton. destruct path; cbn; [naive_solver|].
    rewrite Hch. naive_solver. }
  assert (∀ path, last_written path (zip [[]] [(None, 0)]) = None) as Hnone.
  { intros path. unfold last_written. cbn. by rewrite decide_False by naive_solver. }
  unfold writes. cbn [scan]. unfold locate. case_decide as Hv.
  { exists [(None, 0)]. split; [done|]. split; [by apply Hsame|]. intros path. by rewrite Hnone. }
  destruct (match find_from _ _ _ with Some _ => _ | None => _ end) as [f|].
  - eexists. split; [done|]. split; [by apply Hsame|]. intros path. unfold last_written. cbn.
    destruct path as [|name path]; [by rewrite decide_True|]. by rewrite decide_False by naive_solver.
  - exists [(None, 0)]. split; [done|]. split; [by apply Hsame|]. intros path. by rewrite Hnone.
Qed.

Lemma no_children {A} (f : dom → list A) cs :
  (∀ c, match c with Element _ _ => True | _ => f c = [] end) → names cs = [] → flat_map f cs = [].
Proof.
  intros Hf. induction cs as [|c cs IH]; [done|]. intros Hn. cbn.
  specialize (Hf c). destruct c; [done|..]; rewrite Hf; by apply IH.
Qed.

(** The tree of any element, built onto any node. *)
Lemma populate_writes RawMessage e : element_writes RawMessage e.
Proof.
  induction e as [tag cs IH|s|s|] using dom_ind_nested; [|done..]. intros n off.
  pose proof (populate_children_writes RawMessage cs IH false n off) as H.
  cbn [populateTree]. destruct (populate_children _ cs false n off) as [[has n1] off1].
  destruct H as [-> (spans & Hs & Hn & Hsp)]. cbn [orb].
  case_bool_decide as Hc; cbn [element_paths leaf_paths leaf_texts]; case_decide as Hc'; try done.
  - exists spans. split; [done|]. split; [|done]. intros path.
    rewrite Hn, elem_of_cons. destruct path; cbn; naive_solver.
  - change (flat_map _ cs) with (flat_map (child_paths element_paths) cs) at 1.
    rewrite (no_children (child_paths element_paths)) in Hn |- * by (done || by intros []).
    rewrite (no_children leaf_texts) in Hs by (done || by intros []).
    injection Hs as <- <-. pose proof (populate_leaf_writes RawMessage cs n1 off) as Hw.
    destruct (populate_leaf cs n1 RawMessage off) as [n2 off2]. destruct Hw as (spans & Hs & Hn2 & Hsp2).
    exists spans. split; [done|]. split.
    + intros path. rewrite Hn2, Hn, elem_of_nil. tauto.
    + intros path. rewrite Hsp2, Hsp. rewrite (no_children (child_paths leaf_paths)) by (done || by intros []).
      done.
Qed.

(** *** Built onto a fresh node *)

Lemma fresh_paths (elements : list (list bytes)) n :
  [] ∈ elements → (∀ path, is_Some (node_at n path) ↔
    is_Some (node_at empty_node path) ∨ path ∈ elements) →
  ∀ path, is_Some (node_at n path) ↔ path ∈ elements.
Proof.
  intros Hnil Hn [|name path]; rewrite Hn; [cbn; naive_solver|].
  rewrite node_at_empty. split; [intros [[? [=]]|?]; done|by right].
Qed.

Lemma span_at_fresh path : span_at empty_node path = (None, 0).
Proof. unfold span_at. destruct path; [done|]. by rewrite node_at_empty. Qed.

Lemma node_at_name n name : is_Some (node_at n [name]) → is_Some (Children n !! name).
Proof. cbn. destruct (Children n !! name); [by eexists|by intros [? [=]]]. Qed.

Lemma element_path_name tag cs name : name ∈ names cs → [name] ∈ element_paths (Element tag cs).
Proof.
  intros Hin. cbn. right. induction cs as [|c cs IH]; [by apply elem_of_nil in Hin|].
  cbn [flat_map]. apply elem_of_app. destruct c as [name' cs0|s|s|]; cbn [names] in Hin;
    [|by right; apply IH..].
  apply elem_of_cons in Hin as [->|Hin]; [left; cbn; by left|right; by apply IH].
Qed.

(** The only element among the children is built onto a fresh node. *)
Lemma one_child RawMessage cs name cs' :
  names cs = [name] → Element name cs' ∈ cs →
  ∃ has off, populate_children (populateTree RawMessage) cs false empty_node 0 =
    (has, set_child name (populateTree RawMessage (Element name cs') empty_node 0).1 empty_node, off).
Proof.
  assert (∀ cs has n off, names cs = [] →
    populate_children (populateTree RawMessage) cs has n off = (has, n, off)) as Hnone.
  { clear. induction cs as [|c cs IH]; intros has n off Hn; [done|]. destruct c; [done|by apply IH..]. }
  induction cs as [|c cs IH]; intros Hn Hin; [done|].
  destruct c as [name0 cs0|s|s|]; cbn [names] in Hn;
    [|apply elem_of_cons in Hin as [?|Hin]; [done|by apply IH]..].
  injection Hn as -> Hn. apply elem_of_cons in Hin as [[= ->]|Hin];
    [|by apply (names_nil_no_element cs name cs') in Hn].
  cbn [populate_children]. unfold child. cbn [Children empty_node]. rewrite lookup_empty.
  cbn [default]. destruct (populateTree RawMessage (Element name cs0) empty_node 0) as [c off1].
  exists true, off1. by rewrite Hnone.
Qed.

Lemma populate_leaf_place cs n RawMessage off :
  getElementText cs ≠ [] → find (getElementText cs) RawMessage.2 ≠ None →
  ∃ f, substr RawMessage.2 f (length (getElementText cs)) = getElementText cs ∧
    (populate_leaf cs n RawMessage off).1 =
      Node (Children n) (Some (RawMessage.1 + f)) (length (getElementText cs)).
Proof.
  intros Hv Hf. unfold populate_leaf. rewrite decide_False by done.
  destruct (find_from _ _ off) as [f|] eqn:Ef; [|destruct (find _ RawMessage.2) as [f|] eqn:E; [|done]].
  - exists f. split; [|done]. by apply occurs_substr, (find_from_occurs _ _ off).
  - exists f. split; [|done]. apply occurs_substr. by apply find_Some in E as (? & _ & _).
Qed.

Lemma scan_placed RawMessage texts : ∀ off,
  Forall2 (placed RawMessage) (scan RawMessage off texts).1 texts.
Proof.
  induction texts as [|v texts IH]; intros off; [constructor|]. cbn [scan].
  assert (placed RawMessage (match locate RawMessage.2 off v with
    | Some f => ((Some (RawMessage.1 + f), length v), f + length v)
    | None => ((None, 0), off) end).1 v) as Hp.
  { unfold locate. case_decide as Hv; [split; [done|by left]|].
    destruct (find_from v RawMessage.2 off) as [f|] eqn:Ef; [|destruct (find v _) as [f|] eqn:E].
    - exists f. repeat split; try done. by apply occurs_substr, (find_from_occurs _ _ off).
    - exists f. repeat split; try done. apply occurs_substr. by apply find_Some in E as (? & _ & _).
    - split; [done|by right]. }
  destruct (match locate _ _ _ with Some _ => _ | None => _ end) as [sp off1].
  specialize (IH off1). destruct (scan _ off1 texts). by constructor.
Qed.

(** ** A scan of written texts *)

Lemma written_mono s from from' vs : from' <= from → written s from vs → written s from' vs.
Proof.
  intros Hle H. revert from' Hle. induction H as [| |from p v vs]; intros from' Hle.
  - constructor.
  - constructor. auto.
  - apply (written_at _ _ p); [lia|done..].
Qed.

(** The search goes to the first occurrence behind the offset, which is not
    behind the one the text is written at. *)
Lemma locate_written s from p v :
  from <= p → v ≠ [] → occurs v s p →
  ∃ f, locate s from v = Some f ∧ from <= f <= p.
Proof.
  intros Hle Hv Ho. unfold locate. rewrite decide_False by done.
  pose proof (occurs_lt _ _ _ Hv Ho). unfold find_from. rewrite decide_True by lia.
  assert (occurs v (drop from s) (p - from)) as Ho'.
  { unfold occurs in *. rewrite drop_drop. by replace (from + (p - from)) with p by lia. }
  destruct (find v (drop from s)) as [k|] eqn:Ek.
  - exists (from + k). cbn. split; [f_equal; lia|]. apply find_Some in Ek as (_ & _ & Hmin).
    destruct (decide (from + k <= p)); [lia|]. exfalso. apply (Hmin (p - from)); [lia|done].
  - exfalso. rewrite find_None in Ek. apply (Ek (p - from)); [|done]. rewrite length_drop. lia.
Qed.

Lemma scan_written RawMessage off vs :
  written RawMessage.2 off vs →
  in_order (RawMessage.1 + off) (scan RawMessage off vs).1 vs.
Proof.
  revert off. induction vs as [|v vs IH]; intros off Hw; [done|]. cbn [scan].
  inversion Hw as [|? ? Hw'|? p ? ? Hle Hv Ho Hw']; subst.
  - apply IH in Hw'. unfold locate. rewrite decide_True by done.
    by destruct (scan RawMessage off vs).
  - destruct (locate_written _ _ _ _ Hle Hv Ho) as (f & -> & Hf1 & Hf2).
    apply (written_mono _ _ (f + length v)) in Hw'; [|lia]. apply IH in Hw'.
    destruct (scan RawMessage (f + length v) vs) as [spans off'] eqn:E. cbn [fst] in *.
    cbn [in_order]. split; [lia|]. split; [done|]. split; [done|].
    by rewrite <-Nat.add_assoc.
Qed.

End XmlOrder.
