(* ===== verification/XmlLifecycle.v ===== *)
(** * Lifetime of the message parsers (lib/xml/xmlparser.cpp, [XMLParser])

    Constructors and destructor share [XercesRefCount], which decides when the
    XML library is initialised and terminated, and parsers share their grammar
    pool when one is a copy of another. A constructor or destructor is a
    sequence of atomic steps; [advance] makes one step of one object, so that a
    schedule of objects is an interleaving of threads. *)
From S2P Require Export XmlParser.
From stdpp Require Import options.

Module XmlLifecycle.

(** ** State *)

(** How far an object's constructor or destructor has come: the member list is
    initialised; [fetch_add] has returned 0; the library may be used to load the
    grammar; the object is complete; the pool is released; [fetch_sub] has
    returned 1; the destructor has ended. *)
Inductive phase :=
| Entered
| MustInitialize
| Loading
| Complete
| Releasing
| MustTerminate
| Destroyed.

#[global] Instance phase_eq_dec : EqDecision phase.
Proof. solve_decision. Defined.

(** An [XMLParser]: its buffer size, and the object whose constructor made its
    grammar pool, as long as it holds one. *)
Record object := mkObject {
  _ParseBufferSize : nat;
  _GrammarPool : option nat;
  progress : phase
}.

(** [XercesRefCount]; how many calls of [Initialize] have not been answered by
    one of [Terminate], which are to be paired; and the objects. *)
Record world := mkWorld {
  XercesRefCount : Z;
  initialisations : nat;
  objects : gmap nat object
}.

Definition start : world := mkWorld 0 0 ∅.

Definition initialised (w : world) : bool := bool_decide (0 < initialisations w).

Definition set_object (i : nat) (o : object) (w : world) : world :=
  mkWorld (XercesRefCount w) (initialisations w) (<[i := o]> (objects w)).
Definition set_count (n : Z) (w : world) : world := mkWorld n (initialisations w) (objects w).
Definition Initialize (w : world) : world :=
  mkWorld (XercesRefCount w) (S (initialisations w)) (objects w).
Definition Terminate (w : world) : world :=
  mkWorld (XercesRefCount w) (pred (initialisations w)) (objects w).

(** Any use of the library needs it initialised. *)
Definition use_library : St world () :=
  w ← get;
  if initialised w then mret () else fail Undefined.

Definition with_object (i : nat) {A} (f : object → St world A) : St world A :=
  w ← get;
  match objects w !! i with
  | Some o => f o
  | None => fail Undefined
  end.

(** The objects that hold a grammar pool. *)
Definition holders (pool : nat) (w : world) : gmap nat object :=
  filter (λ io, _GrammarPool io.2 = Some pool) (objects w).

(** ** Steps *)

(** The step an object is at. Creating the pool and loading the grammar into it
    is one step here, since nothing else has access to the pool. The last holder
    of a pool deletes it. *)
Definition advance (i : nat) : St world () := with_object i (λ o,
  match progress o with
  | Entered =>
      w ← get;
      let n := XercesRefCount w in
      _ ← modify (set_count (u32 (n + 1)));
      modify (set_object i (mkObject (_ParseBufferSize o) None
        (if decide (n = 0%Z) then MustInitialize else Loading)))
  | MustInitialize =>
      _ ← modify Initialize;
      modify (set_object i (mkObject (_ParseBufferSize o) None Loading))
  | Loading =>
      _ ← use_library;
      modify (set_object i (mkObject (_ParseBufferSize o) (Some i) Complete))
  | Complete =>
      _ ← modify (set_object i (mkObject (_ParseBufferSize o) None Releasing));
      w ← get;
      match _GrammarPool o with
      | Some pool => if decide (holders pool w = ∅) then use_library else mret ()
      | None => mret ()
      end
  | Releasing =>
      w ← get;
      let n := XercesRefCount w in
      _ ← modify (set_count (u32 (n - 1)));
      modify (set_object i (mkObject (_ParseBufferSize o) None
        (if decide (n = 1%Z) then MustTerminate else Destroyed)))
  | MustTerminate =>
      _ ← modify Terminate;
      modify (set_object i (mkObject (_ParseBufferSize o) None Destroyed))
  | Destroyed => fail Undefined
  end).

(** An interleaving. *)
Fixpoint schedule (is_ : list nat) : St world () :=
  match is_ with
  | [] => mret ()
  | i :: is_ => _ ← advance i; schedule is_
  end.

(** [XMLParser(ParseBufferSize)] up to the body. *)
Definition enter (i : nat) (ParseBufferSize : nat) : St world () :=
  modify (set_object i (mkObject ParseBufferSize None Entered)).

(** A step if the object is at it. *)
Definition advance_at (p : phase) (i : nat) : St world () := with_object i (λ o,
  if decide (progress o = p) then advance i else mret ()).

(** [XMLParser(ParseBufferSize)], by one thread. *)
Definition construct (i : nat) (ParseBufferSize : nat) : St world () :=
  _ ← enter i ParseBufferSize;
  _ ← advance i;
  _ ← advance_at MustInitialize i;
  advance i.

(** [~XMLParser()], by one thread. *)
Definition destroy (i : nat) : St world () :=
  _ ← advance i;
  _ ← advance i;
  advance_at MustTerminate i.

(** The copy constructor is the implicit one. *)
Definition copy (i j : nat) : St world () := with_object i (λ o, modify (set_object j o)).

(** [setParseBufferSize(ParseBufferSize)] *)
Definition setParseBufferSize (i : nat) (ParseBufferSize : nat) : St world () :=
  with_object i (λ o, modify (set_object i (mkObject ParseBufferSize (_GrammarPool o) (progress o)))).

(** [getParseBufferSize()] *)
Definition getParseBufferSize (i : nat) : St world nat := with_object i (λ o, mret (_ParseBufferSize o)).

Section parse.
Variable syntax_run : bytes → list XMLParser.report.
Variable dtd_run : bytes → list XMLParser.report * option (option XMLParser.dom).

(** [parse(InputBuffer)] of an object; a call that reaches a message runs the
    library. *)
Definition parse (i : nat) (InputBuffer : option bytes) : St world XMLParser.ParseResult_t :=
  with_object i (λ o,
    _ ← match InputBuffer with
        | Some Input =>
            if decide (_ParseBufferSize o < length Input) then mret ()
            else match (XMLParser.splitMessages Input).1 with [] => mret () | _ => use_library end
        | None => mret ()
        end;
    mret (XMLParser.parse syntax_run dtd_run (_ParseBufferSize o) InputBuffer)).

(** ** Clients *)

(** What a program does with parsers, one thread, no copies. *)
Inductive operation :=
| Construct (i : nat) (size : nat)
| Destroy (i : nat)
| SetSize (i : nat) (size : nat)
| Parse (i : nat) (Input : option bytes).

Definition perform (op : operation) : St world () :=
  match op with
  | Construct i size => construct i size
  | Destroy i => destroy i
  | SetSize i size => setParseBufferSize i size
  | Parse i Input => _ ← parse i Input; mret ()
  end.

Fixpoint perform_all (ops : list operation) : St world () :=
  match ops with
  | [] => mret ()
  | op :: ops => _ ← perform op; perform_all ops
  end.

End parse.

(** The complete objects. *)
Definition alive (w : world) : gset nat :=
  dom (filter (λ io, progress io.2 = Complete) (objects w)).

(** The lifetimes are those of the language: an object is constructed where
    there is none, and used and destroyed while it lives. *)
Fixpoint lifetimes (live : gset nat) (ops : list operation) : Prop :=
  match ops with
  | [] => True
  | Construct i _ :: ops => (i ∉ live) ∧ lifetimes ({[i]} ∪ live) ops
  | Destroy i :: ops => i ∈ live ∧ lifetimes (live ∖ {[i]}) ops
  | SetSize i _ :: ops | Parse i _ :: ops => i ∈ live ∧ lifetimes live ops
  end.

#[export] Instance lifetimes_dec ops : ∀ live, Decision (lifetimes live ops).
Proof. induction ops as [|[] ops IH]; intros live; cbn; apply _. Defined.

(** ** Single steps *)

Lemma run_with_object i {A} (f : object → St world A) o w :
  objects w !! i = Some o → with_object i f w = f o w.
Proof. intros H. unfold with_object. by rewrite run_get, H. Qed.

Lemma advance_entered i n p w :
  objects w !! i = Some (mkObject n p Entered) →
  advance i w =
    (set_object i (mkObject n None (if decide (XercesRefCount w = 0%Z) then MustInitialize else Loading))
       (set_count (u32 (XercesRefCount w + 1)) w), inr ()).
Proof. intros H. unfold advance. by rewrite (run_with_object _ _ _ _ H). Qed.

Lemma advance_initialise i n p w :
  objects w !! i = Some (mkObject n p MustInitialize) →
  advance i w = (set_object i (mkObject n None Loading) (Initialize w), inr ()).
Proof. intros H. unfold advance. by rewrite (run_with_object _ _ _ _ H). Qed.

Lemma advance_load i n p w :
  objects w !! i = Some (mkObject n p Loading) →
  advance i w =
    if initialised w then (set_object i (mkObject n (Some i) Complete) w, inr ())
    else (w, inl Undefined).
Proof.
  intros H. unfold advance. rewrite (run_with_object _ _ _ _ H). cbn [progress _ParseBufferSize].
  unfold use_library, mbind, St_bind, get. by destruct (initialised w).
Qed.

Lemma advance_release i n w :
  objects w !! i = Some (mkObject n (Some i) Complete) →
  initialised w = true →
  advance i w = (set_object i (mkObject n None Releasing) w, inr ()).
Proof.
  intros H Hi. unfold advance. rewrite (run_with_object _ _ _ _ H). cbn [progress _ParseBufferSize _GrammarPool].
  rewrite run_modify, run_get. case_decide; [|done]. unfold use_library. rewrite run_get.
  change (initialised (set_object _ _ _)) with (initialised w). by rewrite Hi.
Qed.

Lemma advance_count_down i n p w :
  objects w !! i = Some (mkObject n p Releasing) →
  advance i w =
    (set_object i (mkObject n None (if decide (XercesRefCount w = 1%Z) then MustTerminate else Destroyed))
       (set_count (u32 (XercesRefCount w - 1)) w), inr ()).
Proof. intros H. unfold advance. by rewrite (run_with_object _ _ _ _ H). Qed.

Lemma advance_terminate i n p w :
  objects w !! i = Some (mkObject n p MustTerminate) →
  advance i w = (set_object i (mkObject n None Destroyed) (Terminate w), inr ()).
Proof. intros H. unfold advance. by rewrite (run_with_object _ _ _ _ H). Qed.

Lemma run_advance_at p i o w :
  objects w !! i = Some o →
  advance_at p i w = if decide (progress o = p) then advance i w else (w, inr ()).
Proof.
  intros H. unfold advance_at. rewrite (run_with_object _ _ _ _ H). by case_decide.
Qed.

Lemma bind_advance_at {A} p i o (f : () → St world A) w :
  objects w !! i = Some o →
  (advance_at p i ≫= f) w =
  if decide (progress o = p) then (advance i ≫= f) w else f () w.
Proof.
  intros H. unfold mbind, St_bind. rewrite (run_advance_at _ _ _ _ H). by case_decide.
Qed.

Lemma set_object_twice i o1 o2 w : set_object i o2 (set_object i o1 w) = set_object i o2 w.
Proof. unfold set_object. cbn. by rewrite insert_insert_eq. Qed.

Lemma set_object_lookup i o w : objects (set_object i o w) !! i = Some o.
Proof. apply lookup_insert_eq. Qed.

(** ** One thread *)

Lemma elem_of_alive i w :
  i ∈ alive w ↔ ∃ o : object, objects w !! i = Some o ∧ progress o = Complete.
Proof.
  unfold alive. rewrite elem_of_dom. split.
  - intros [o Ho]. apply map_lookup_filter_Some in Ho. eauto.
  - intros (o & Ho & Hc). exists o. by apply map_lookup_filter_Some.
Qed.

(** Between operations no constructor or destructor is under way, every live
    object holds its own pool, and the count is that of the live objects. *)
Record lifecycle_ok (w : world) : Prop := {
  lok_objects : ∀ i o, objects w !! i = Some o →
    progress o = Complete ∧ _GrammarPool o = Some i ∨
    progress o = Destroyed ∧ _GrammarPool o = None;
  lok_count : XercesRefCount w = Z.of_nat (size (alive w));
  lok_initialised : initialisations w = if decide (alive w = ∅) then 0 else 1
}.

Lemma start_ok : lifecycle_ok start.
Proof. split; done. Qed.

(** Replacing an object. *)
Lemma alive_insert i o n b w :
  alive (mkWorld n b (<[i := o]> (objects w))) =
  if decide (progress o = Complete) then {[i]} ∪ alive w else alive w ∖ {[i]}.
Proof.
  apply set_eq. intros j. rewrite elem_of_alive. cbn [objects].
  destruct (decide (j = i)) as [->|Hne].
  - rewrite lookup_insert_eq. case_decide; set_solver.
  - rewrite lookup_insert_ne, <-elem_of_alive by done. case_decide; set_solver.
Qed.

Lemma ok_insert i o n b w :
  lifecycle_ok w →
  progress o = Complete ∧ _GrammarPool o = Some i ∨ progress o = Destroyed ∧ _GrammarPool o = None →
  let w' := mkWorld n b (<[i := o]> (objects w)) in
  n = Z.of_nat (size (alive w')) → b = (if decide (alive w' = ∅) then 0 else 1) → lifecycle_ok w'.
Proof.
  intros Hw Ho w' Hn Hb. split; [|done..].
  unfold w'. intros j o'. cbn [objects]. intros [[<- <-]|[_ Hj]]%lookup_insert_Some; [done|by eapply lok_objects].
Qed.

Lemma alive_object i w :
  lifecycle_ok w → i ∈ alive w →
  ∃ size, objects w !! i = Some (mkObject size (Some i) Complete).
Proof.
  intros Hw (o & Ho & Hc)%elem_of_alive. exists (_ParseBufferSize o). rewrite Ho.
  destruct o as [n p ph]. destruct (lok_objects w Hw i _ Ho) as [[H1 H2]|[H1 _]]; cbn in *; congruence.
Qed.

Lemma size_zero (X : gset nat) : size X = 0 ↔ X = ∅.
Proof. rewrite size_empty_iff. by unfold_leibniz. Qed.

Lemma construct_ok i n w :
  lifecycle_ok w → i ∉ alive w → (Z.of_nat (size (alive w)) < 2 ^ 32 - 1)%Z →
  ∃ w', construct i n w = (w', inr ()) ∧ lifecycle_ok w' ∧ alive w' = {[i]} ∪ alive w.
Proof.
  intros Hw Hi Hs. pose proof (lok_count w Hw) as Hc. pose proof (lok_initialised w Hw) as Hb.
  set (w' := mkWorld (XercesRefCount w + 1) 1
    (<[i := mkObject n (Some i) Complete]> (objects w))).
  assert (alive w' = {[i]} ∪ alive w) as Ha by (unfold w'; by rewrite alive_insert).
  exists w'. split; [|split; [|done]].
  - unfold construct, enter. rewrite run_modify.
    rewrite (run_bind _ _ _ _ _ (advance_entered _ _ _ _ (set_object_lookup _ _ _))).
    cbn [XercesRefCount set_object].
    assert (u32 (XercesRefCount w + 1) = XercesRefCount w + 1)%Z as -> by (apply wrap_id; lia).
    rewrite (bind_advance_at _ _ _ _ _ (set_object_lookup _ _ _)). cbn [progress].
    destruct (decide (XercesRefCount w = 0%Z)) as [H0|H0].
    + rewrite decide_True by done.
      rewrite (run_bind _ _ _ _ _ (advance_initialise _ _ _ _ (set_object_lookup _ _ _))).
      rewrite (advance_load _ _ _ _ (set_object_lookup _ _ _)). cbn.
      unfold set_object, set_count, Initialize. cbn. rewrite !insert_insert_eq, Hb, decide_True; [done|].
      apply size_zero. lia.
    + rewrite decide_False by done. rewrite (advance_load _ _ _ _ (set_object_lookup _ _ _)).
      rewrite decide_False in Hb by (intros He; rewrite He, size_empty in Hc; lia).
      unfold set_object, set_count, initialised. cbn. rewrite Hb, bool_decide_true by lia.
      by rewrite !insert_insert_eq.
  - apply ok_insert; [done|by left| |].
    + fold w'. rewrite Ha, size_union, size_singleton by set_solver. lia.
    + fold w'. rewrite Ha. by rewrite decide_False by set_solver.
Qed.

Lemma destroy_ok i w :
  lifecycle_ok w → i ∈ alive w → (Z.of_nat (size (alive w)) < 2 ^ 32)%Z →
  ∃ w', destroy i w = (w', inr ()) ∧ lifecycle_ok w' ∧ alive w' = alive w ∖ {[i]}.
Proof.
  intros Hw Hi Hs. pose proof (lok_count w Hw) as Hc. pose proof (lok_initialised w Hw) as Hb.
  destruct (alive_object i w Hw Hi) as [n Hn].
  assert (size (alive w ∖ {[i]}) + 1 = size (alive w)) as Hsize.
  { rewrite size_difference by set_solver. rewrite size_singleton.
    assert (size (alive w) ≠ 0); [|lia]. rewrite size_zero. set_solver. }
  rewrite decide_False in Hb by set_solver.
  set (b := if decide (XercesRefCount w = 1%Z) then 0 else 1).
  assert (initialised w = true) as Hlib by (unfold initialised; by rewrite Hb).
  set (w' := mkWorld (XercesRefCount w - 1) b (<[i := mkObject n None Destroyed]> (objects w))).
  assert (alive w' = alive w ∖ {[i]}) as Ha by (unfold w'; by rewrite alive_insert).
  exists w'. split; [|split; [|done]].
  - unfold destroy. rewrite (run_bind _ _ _ _ _ (advance_release _ _ _ Hn Hlib)).
    rewrite (run_bind _ _ _ _ _ (advance_count_down _ _ _ _ (set_object_lookup _ _ _))).
    cbn [XercesRefCount set_object].
    assert (u32 (XercesRefCount w - 1) = XercesRefCount w - 1)%Z as -> by (apply wrap_id; lia).
    rewrite (run_advance_at _ _ _ _ (set_object_lookup _ _ _)). cbn [progress].
    subst w' b. destruct (decide (XercesRefCount w = 1%Z)) as [H1|H1].
    + rewrite decide_True by done. rewrite (advance_terminate _ _ _ _ (set_object_lookup _ _ _)).
      unfold set_object, set_count, Initialize, Terminate. cbn. by rewrite !insert_insert_eq, Hb.
    + rewrite decide_False by done.
      unfold set_object, set_count. cbn. by rewrite !insert_insert_eq, Hb.
  - apply ok_insert; [done|by right| |]; fold w'; rewrite Ha; [lia|].
    unfold b. case_decide; case_decide as He; rewrite <-size_zero in He; lia.
Qed.

Lemma set_size_ok i n w :
  lifecycle_ok w → i ∈ alive w →
  ∃ w', setParseBufferSize i n w = (w', inr ()) ∧ lifecycle_ok w' ∧ alive w' = alive w.
Proof.
  intros Hw Hi. destruct (alive_object i w Hw Hi) as [n0 Hn0].
  unfold setParseBufferSize. rewrite (run_with_object _ _ _ _ Hn0), run_modify_end.
  eexists. split; [done|]. unfold set_object. cbn [_GrammarPool progress].
  assert (alive (mkWorld (XercesRefCount w) (initialisations w)
    (<[i := mkObject n (Some i) Complete]> (objects w))) = alive w) as Ha.
  { rewrite alive_insert, decide_True by done. set_solver. }
  split; [|done]. apply ok_insert; [done|by left|..]; rewrite Ha; by destruct Hw.
Qed.

Lemma parse_ok syntax_run dtd_run i Input w :
  lifecycle_ok w → i ∈ alive w →
  ∃ n, objects w !! i = Some (mkObject n (Some i) Complete) ∧
    parse syntax_run dtd_run i Input w =
      (w, inr (XMLParser.parse syntax_run dtd_run n Input)).
Proof.
  intros Hw Hi. destruct (alive_object i w Hw Hi) as [n Hn]. exists n. split; [done|].
  unfold parse. rewrite (run_with_object _ _ _ _ Hn). cbn [_ParseBufferSize].
  assert (use_library w = (w, inr ())) as Hlib.
  { unfold use_library. rewrite run_get. unfold initialised. rewrite (lok_initialised w Hw), decide_False by set_solver. done. }
  destruct Input as [Input|]; [|done]. case_decide; [done|].
  destruct (XMLParser.splitMessages Input).1; [done|]. by rewrite (run_bind _ _ _ _ _ Hlib).
Qed.

Lemma perform_all_ok syntax_run dtd_run ops : ∀ w,
  lifecycle_ok w → lifetimes (alive w) ops →
  (Z.of_nat (size (alive w) + length ops) < 2 ^ 32)%Z →
  ∃ w', perform_all syntax_run dtd_run ops w = (w', inr ()) ∧ lifecycle_ok w'.
Proof.
  induction ops as [|op ops IH]; intros w Hw Hl Hs; [by eexists|]. cbn [perform_all length] in *.
  assert (∀ w', perform syntax_run dtd_run op w = (w', inr ()) → lifecycle_ok w' →
    lifetimes (alive w') ops → size (alive w') <= S (size (alive w)) →
    ∃ w2, (_ ← perform syntax_run dtd_run op; perform_all syntax_run dtd_run ops) w =
      (w2, inr ()) ∧ lifecycle_ok w2) as Hnext.
  { intros w' E Hw' Hl' Hs'. rewrite (run_bind _ _ _ _ _ E). apply IH; [done|done|lia]. }
  destruct op as [i n|i|i n|i Input]; cbn [lifetimes perform] in *; destruct Hl as [Hi Hl].
  - destruct (construct_ok i n w Hw Hi ltac:(lia)) as (w' & E & Hw' & Ha).
    apply (Hnext w'); [done|done|by rewrite Ha|]. rewrite Ha, size_union, size_singleton by set_solver. lia.
  - destruct (destroy_ok i w Hw Hi ltac:(lia)) as (w' & E & Hw' & Ha).
    apply (Hnext w'); [done|done|by rewrite Ha|]. rewrite Ha. apply le_S, subseteq_size. set_solver.
  - destruct (set_size_ok i n w Hw Hi) as (w' & E & Hw' & Ha).
    apply (Hnext w'); [done|done|by rewrite Ha|]. rewrite Ha. lia.
  - destruct (parse_ok syntax_run dtd_run i Input w Hw Hi) as (n & _ & E).
    apply (Hnext w); [by rewrite (run_bind _ _ _ _ _ E)|done|done|lia].
Qed.

End XmlLifecycle.
