(* ===== verification/XmlDtd.v ===== *)
(** * The document type of NLAP messages (lib/xml/static-dtd.hpp)

    The bytes of the definition the parser is built with (those of
    specs/xml/nlap.dtd), a reader for its element declarations, and the
    documents they describe. *)
From S2P Require Export XmlOrder.
From stdpp Require Import options.

Module XmlDtd.
Import XMLParser XmlOrder.

(** ** The bytes *)

Definition hex_value (c : ascii) : option nat :=
  let n := nat_of_ascii c in
  if decide (48 <= n <= 57) then Some (n - 48)
  else if decide (65 <= n <= 70) then Some (n - 55) else None.

(** Pairs of digits; what is no digit separates lines. *)
Fixpoint unhex (high : option nat) (s : bytes) : bytes :=
  match s with
  | [] => []
  | c :: s =>
      match hex_value c, high with
      | Some v, None => unhex (Some v) s
      | Some v, Some h => ascii_of_nat (16 * h + v) :: unhex None s
      | None, _ => unhex high s
      end
  end.

Definition NLAP_DTD_HEX : bytes := unhex None (str "
3C3F786D6C2076657273696F6E3D22312E302220656E636F64696E673D225554462D38223F3E0A0A3C212D2D0A202020
204E4C415020284E657874204C6576656C204170706C69636174696F6E2050726F746F636F6C29204454440A20202020
56657273696F6E3A20302E310A0A202020205375622D70726F746F636F6C7320636F76657265643A0A2020202020202D
204E4C414D502020284E657874204C6576656C204170706C69636174696F6E204D657461646174612050726F746F636F
6C290A2020202020202D204E4C4146502020284E657874204C6576656C204170706C69636174696F6E2046696C652050
726F746F636F6C290A2020202020202D204E4C4153502020284E657874204C6576656C204170706C69636174696F6E20
53657373696F6E2050726F746F636F6C290A2020202020202D204E4C4150502020284E657874204C6576656C20417070
6C69636174696F6E2050726F78792050726F746F636F6C290A2020202020202D204E4C4150532020284E657874204C65
76656C204170706C69636174696F6E2050726F746F636F6C2053656375726520457874656E73696F6E290A0A20202020
4E4F54453A20726573756C7420636F646573202F20656E756D20646566696E6974696F6E7320666F72203C436F64653E
2C203C537562747970653E2C0A202020203C436F6D7072657373696F6E3E2C203C4D696D652D547970653E2C20657463
2E2061726520776F726B20696E2070726F677265737320616E642077696C6C0A20202020626520726566696E6564206D
616E75616C6C792E0A2D2D3E0A0A3C212D2D203D3D3D3D3D3D3D3D3D3D3D3D3D3D3D3D3D3D3D3D3D3D3D3D3D3D3D3D3D
3D3D3D3D3D3D3D3D3D3D3D3D3D3D3D3D3D3D3D3D3D3D3D3D3D3D3D3D3D3D3D0A2020202020526F6F7420656C656D656E
740A20202020203D3D3D3D3D3D3D3D3D3D3D3D3D3D3D3D3D3D3D3D3D3D3D3D3D3D3D3D3D3D3D3D3D3D3D3D3D3D3D3D3D
3D3D3D3D3D3D3D3D3D3D3D3D3D3D3D3D3D3D3D202D2D3E0A0A3C21454C454D454E54204E4C4150202852657175657374
207C20526573706F6E7365293E0A0A3C212D2D203D3D3D3D3D3D3D3D3D3D3D3D3D3D3D3D3D3D3D3D3D3D3D3D3D3D3D3D
3D3D3D3D3D3D3D3D3D3D3D3D3D3D3D3D3D3D3D3D3D3D3D3D3D3D3D3D3D3D3D3D0A2020202020526571756573740A2020
2020203D3D3D3D3D3D3D3D3D3D3D3D3D3D3D3D3D3D3D3D3D3D3D3D3D3D3D3D3D3D3D3D3D3D3D3D3D3D3D3D3D3D3D3D3D
3D3D3D3D3D3D3D3D3D3D3D3D3D3D3D202D2D3E0A0A3C21454C454D454E5420526571756573742028555549442C205072
6F746F636F6C2C2056657273696F6E2C20537562747970652C204865616465722C2053656375726974793F2C20506179
6C6F61643F293E0A0A3C212D2D203D3D3D3D3D3D3D3D3D3D3D3D3D3D3D3D3D3D3D3D3D3D3D3D3D3D3D3D3D3D3D3D3D3D
3D3D3D3D3D3D3D3D3D3D3D3D3D3D3D3D3D3D3D3D3D3D3D3D3D3D0A2020202020526573706F6E73650A20202020203D3D
3D3D3D3D3D3D3D3D3D3D3D3D3D3D3D3D3D3D3D3D3D3D3D3D3D3D3D3D3D3D3D3D3D3D3D3D3D3D3D3D3D3D3D3D3D3D3D3D
3D3D3D3D3D3D3D3D3D3D202D2D3E0A0A3C21454C454D454E5420526573706F6E73652028555549442C2050726F746F63
6F6C2C2056657273696F6E2C20537562747970652C204865616465722C2053656375726974793F2C205061796C6F6164
3F2C205374617475733F293E0A0A3C212D2D203D3D3D3D3D3D3D3D3D3D3D3D3D3D3D3D3D3D3D3D3D3D3D3D3D3D3D3D3D
3D3D3D3D3D3D3D3D3D3D3D3D3D3D3D3D3D3D3D3D3D3D3D3D3D3D3D3D3D3D3D0A2020202020436F6D6D6F6E206669656C
647320736861726564206279207265717565737420616E6420726573706F6E73650A20202020203D3D3D3D3D3D3D3D3D
3D3D3D3D3D3D3D3D3D3D3D3D3D3D3D3D3D3D3D3D3D3D3D3D3D3D3D3D3D3D3D3D3D3D3D3D3D3D3D3D3D3D3D3D3D3D3D3D
3D3D3D202D2D3E0A0A3C212D2D20556E6976657273616C6C7920756E69717565206964656E7469666965722028524643
20343132322920666F7220726571756573742F726573706F6E736520636F7272656C6174696F6E202D2D3E0A3C21454C
454D454E542055554944202823504344415441293E0A0A3C212D2D20416C7761797320224E4C415022202D2D3E0A3C21
454C454D454E542050726F746F636F6C202823504344415441293E0A0A3C212D2D2050726F746F636F6C207665727369
6F6E2C20652E672E2022302E3122202D2D3E0A3C21454C454D454E542056657273696F6E202823504344415441293E0A
0A3C212D2D205375622D70726F746F636F6C2073656C6563746F723A204E4C414D50207C204E4C414650207C204E4C41
5350207C204E4C415050207C204E4C415053202D2D3E0A3C21454C454D454E5420537562747970652028235043444154
41293E0A0A3C212D2D203D3D3D3D3D3D3D3D3D3D3D3D3D3D3D3D3D3D3D3D3D3D3D3D3D3D3D3D3D3D3D3D3D3D3D3D3D3D
3D3D3D3D3D3D3D3D3D3D3D3D3D3D3D3D3D3D3D3D3D3D0A20202020204865616465720A2020202020416C6C206368696C
6420656C656D656E747320617265206F7074696F6E616C20746F20737570706F727420626F7468207265717565737420
616E640A2020202020726573706F6E73652068656164657273206163726F737320616C6C207375622D70726F746F636F
6C732E0A20202020203D3D3D3D3D3D3D3D3D3D3D3D3D3D3D3D3D3D3D3D3D3D3D3D3D3D3D3D3D3D3D3D3D3D3D3D3D3D3D
3D3D3D3D3D3D3D3D3D3D3D3D3D3D3D3D3D3D3D3D3D202D2D3E0A0A3C21454C454D454E542048656164657220280A2020
2020486F73743F2C0A2020202055524C3F2C0A20202020557365722D4167656E743F2C0A20202020757365723F2C0A20
202020436F6E6E656374696F6E2D436C6F73653F2C0A202020204D696D652D547970653F2C0A20202020456E636F6469
6E673F2C0A20202020427974652D53697A653F2C0A20202020427974652D53697A652D46756C6C3F2C0A202020204279
74652D53697A652D506172743F2C0A20202020436F6D7072657373696F6E3F2C0A2020202046696C652D555549443F2C
0A2020202046696C652D506172742D53756D3F2C0A2020202046696C652D506172743F0A293E0A0A3C212D2D20526571
7565737420686561646572206669656C6473202D2D3E0A0A3C212D2D205669727475616C20686F7374206E616D652C20
652E672E202274657374617070312E6C6F63616C22202D2D3E0A3C21454C454D454E5420486F73742028235043444154
41293E0A0A3C212D2D20526571756573742070617468202F207265736F757263652055524C2C20652E672E20222F7465
7374706174682F696E6465782E68746D6C22202D2D3E0A3C21454C454D454E542055524C202823504344415441293E0A
0A3C212D2D20436C69656E74206964656E7469666965722C20652E672E202246616C636F6E2D42726F7773657222202D
2D3E0A3C21454C454D454E5420557365722D4167656E74202823504344415441293E0A0A3C212D2D2041757468656E74
6963617465642075736572206964656E7469747920284E4C415053292C20652E672E2022757365723140646F6D61696E
2E636F6D22202D2D3E0A3C21454C454D454E542075736572202823504344415441293E0A0A3C212D2D20526573706F6E
736520686561646572206669656C6473202D2D3E0A0A3C212D2D205369676E616C20636F6E6E656374696F6E20746561
72646F776E20616674657220726573706F6E73653A2030207C2031202D2D3E0A3C21454C454D454E5420436F6E6E6563
74696F6E2D436C6F7365202823504344415441293E0A0A3C212D2D204D494D452074797065206F662074686520706179
6C6F61642C20652E672E2022746578742F68746D6C222C20226170706C69636174696F6E2F6A736F6E222C2022696D61
67652F706E6722202D2D3E0A3C21454C454D454E54204D696D652D54797065202823504344415441293E0A0A3C212D2D
20436861726163746572202F207472616E7366657220656E636F64696E672C20652E672E20225554462D38222C202262
696E61727922202D2D3E0A3C21454C454D454E5420456E636F64696E67202823504344415441293E0A0A3C212D2D2054
6F74616C20627974652073697A65206F6620612073696E676C652D706172742066696C65207061796C6F6164202D2D3E
0A3C21454C454D454E5420427974652D53697A65202823504344415441293E0A0A3C212D2D20546F74616C2062797465
2073697A65206F662074686520636F6D706C6574652066696C6520286D756C74692D70617274207472616E7366657229
202D2D3E0A3C21454C454D454E5420427974652D53697A652D46756C6C202823504344415441293E0A0A3C212D2D2042
7974652073697A65206F66207468697320696E646976696475616C207061727420286D756C74692D7061727420747261
6E7366657229202D2D3E0A3C21454C454D454E5420427974652D53697A652D50617274202823504344415441293E0A0A
3C212D2D20436F6D7072657373696F6E20616C676F726974686D206170706C69656420746F20746865207061796C6F61
643A206E6F6E65207C20677A6970207C20627A697032207C202E2E2E202D2D3E0A3C21454C454D454E5420436F6D7072
657373696F6E202823504344415441293E0A0A3C212D2D2055554944206964656E74696679696E67207468652066696C
65206163726F737320616C6C207061727473206F662061206D756C74692D70617274207472616E73666572202D2D3E0A
3C21454C454D454E542046696C652D55554944202823504344415441293E0A0A3C212D2D20546F74616C206E756D6265
72206F6620706172747320696E2061206D756C74692D70617274207472616E73666572202D2D3E0A3C21454C454D454E
542046696C652D506172742D53756D202823504344415441293E0A0A3C212D2D20496E646578206F6620746869732070
6172742077697468696E20746865206D756C74692D70617274207472616E736665722028312D626173656429202D2D3E
0A3C21454C454D454E542046696C652D50617274202823504344415441293E0A0A3C212D2D203D3D3D3D3D3D3D3D3D3D
3D3D3D3D3D3D3D3D3D3D3D3D3D3D3D3D3D3D3D3D3D3D3D3D3D3D3D3D3D3D3D3D3D3D3D3D3D3D3D3D3D3D3D3D3D3D3D3D
3D3D0A2020202020536563757269747920626C6F636B20284E4C415053290A20202020203D3D3D3D3D3D3D3D3D3D3D3D
3D3D3D3D3D3D3D3D3D3D3D3D3D3D3D3D3D3D3D3D3D3D3D3D3D3D3D3D3D3D3D3D3D3D3D3D3D3D3D3D3D3D3D3D3D3D3D3D
202D2D3E0A0A3C21454C454D454E542053656375726974792028456E6372797074696F6E2C205369676E617475726529
3E0A0A3C212D2D20456E6372797074696F6E20666C61673A2030203D2064697361626C65642C2031203D20656E61626C
6564202D2D3E0A3C21454C454D454E5420456E6372797074696F6E202823504344415441293E0A0A3C212D2D20426173
6536342D656E636F6465642063727970746F67726170686963207369676E6174757265206F6620746865207061796C6F
6164202D2D3E0A3C21454C454D454E54205369676E6174757265202823504344415441293E0A0A3C212D2D203D3D3D3D
3D3D3D3D3D3D3D3D3D3D3D3D3D3D3D3D3D3D3D3D3D3D3D3D3D3D3D3D3D3D3D3D3D3D3D3D3D3D3D3D3D3D3D3D3D3D3D3D
3D3D3D3D3D3D3D3D0A20202020205061796C6F61640A2020202020414E59206973207573656420746F206163636F6D6D
6F6461746520706C61696E20746578742C204A534F4E2C20696E6C696E652048544D4C2F584D4C2C0A2020202020616E
642062696E61727920286261736536342D656E636F6465642920636F6E74656E7420646570656E64696E67206F6E2073
75622D70726F746F636F6C2E0A20202020203D3D3D3D3D3D3D3D3D3D3D3D3D3D3D3D3D3D3D3D3D3D3D3D3D3D3D3D3D3D
3D3D3D3D3D3D3D3D3D3D3D3D3D3D3D3D3D3D3D3D3D3D3D3D3D3D3D3D3D3D202D2D3E0A0A3C21454C454D454E54205061
796C6F616420414E593E0A0A3C212D2D203D3D3D3D3D3D3D3D3D3D3D3D3D3D3D3D3D3D3D3D3D3D3D3D3D3D3D3D3D3D3D
3D3D3D3D3D3D3D3D3D3D3D3D3D3D3D3D3D3D3D3D3D3D3D3D3D3D3D3D3D0A202020202053746174757320626C6F636B20
28726573706F6E7365206F6E6C79290A20202020203D3D3D3D3D3D3D3D3D3D3D3D3D3D3D3D3D3D3D3D3D3D3D3D3D3D3D
3D3D3D3D3D3D3D3D3D3D3D3D3D3D3D3D3D3D3D3D3D3D3D3D3D3D3D3D3D3D3D3D3D202D2D3E0A0A3C21454C454D454E54
205374617475732028436F64652C204465736372697074696F6E3F2C20457863657074696F6E3F293E0A0A3C212D2D20
4E756D6572696320726573756C7420636F64653B2030203D20737563636573733B206E6F6E2D7A65726F203D20657272
6F7220285749503A20656E756D2054424429202D2D3E0A3C21454C454D454E5420436F6465202823504344415441293E
0A0A3C212D2D2048756D616E2D7265616461626C65206465736372697074696F6E206F662074686520726573756C7420
6F72206572726F7220636F6E646974696F6E202D2D3E0A3C21454C454D454E54204465736372697074696F6E20282350
4344415441293E0A0A3C212D2D20457863657074696F6E2064657461696C20737472696E672C20652E672E2061205079
74686F6E2074726163656261636B206C696E65202D2D3E0A3C21454C454D454E5420457863657074696F6E2028235043
44415441293E0A").

(** ** Content models *)

(** A sequence says of each element whether it may be missing. *)
Inductive model :=
| PCData
| Any
| Choice (names : list bytes)
| Sequence (particles : list (bytes * bool)).

#[global] Instance model_eq_dec : EqDecision model.
Proof. solve_decision. Defined.

(** *** Reading element declarations *)

(** The text without its comments. *)
Fixpoint strip_comments (inside : bool) (skip : nat) (s : bytes) : bytes :=
  match s with
  | [] => []
  | c :: s' =>
      match skip with
      | S skip => strip_comments inside skip s'
      | O =>
          if inside
          then if starts_with (str "-->") s then strip_comments false 2 s'
               else strip_comments true 0 s'
          else if starts_with (str "<!--") s then strip_comments true 3 s'
          else c :: strip_comments false 0 s'
      end
  end.

Fixpoint split_on (d : ascii) (s : bytes) : list bytes :=
  match s with
  | [] => [[]]
  | c :: s =>
      if decide (c = d) then [] :: split_on d s
      else match split_on d s with
           | t :: ts => (c :: t) :: ts
           | [] => [[c]]
           end
  end.

(** A name, perhaps followed by a question mark. *)
Definition particle (s : bytes) : bytes * bool :=
  if decide (last s = Some "?"%char) then (take (length s - 1) s, true) else (s, false).

(** The model after the name, without blanks. *)
Definition read_model (s : bytes) : model :=
  if decide (s = str "ANY") then Any
  else if decide (s = str "(#PCDATA)") then PCData
  else
    let inner := take (length s - 2) (drop 1 s) in
    if decide ("|"%char ∈ inner) then Choice (split_on "|"%char inner)
    else Sequence (map particle (split_on ","%char inner)).

(** The declarations of a text without comments. *)
Fixpoint read_declarations (fuel : nat) (s : bytes) : list (bytes * model) :=
  match fuel with
  | O => []
  | S fuel =>
      match find (str "<!ELEMENT ") s with
      | None => []
      | Some k =>
          let rest := drop (k + 10) s in
          match find (str ">") rest with
          | None => []
          | Some e =>
              let declaration := take e rest in
              let n := default 0 (find (str " ") declaration) in
              (take n declaration,
               read_model (filter (λ c, is_blank c = false) (drop n declaration)))
                :: read_declarations fuel (drop e rest)
          end
      end
  end.

Definition declarations (dtd : bytes) : list (bytes * model) :=
  read_declarations (length dtd) (strip_comments false 0 dtd).

(** *** The declared elements *)

Definition needed (name : string) : bytes * bool := (str name, false).
Definition maybe (name : string) : bytes * bool := (str name, true).
Definition text (name : string) : bytes * model := (str name, PCData).

Definition message_parts : list (bytes * bool) :=
  [needed "UUID"; needed "Protocol"; needed "Version"; needed "Subtype"; needed "Header";
   maybe "Security"; maybe "Payload"].

Definition header_fields : list string :=
  ["Host"; "URL"; "User-Agent"; "user"; "Connection-Close"; "Mime-Type"; "Encoding"; "Byte-Size";
   "Byte-Size-Full"; "Byte-Size-Part"; "Compression"; "File-UUID"; "File-Part-Sum"; "File-Part"].

Definition nlap_dtd : list (bytes * model) :=
  [(str "NLAP", Choice [str "Request"; str "Response"]);
   (str "Request", Sequence message_parts);
   (str "Response", Sequence (message_parts ++ [maybe "Status"]));
   text "UUID"; text "Protocol"; text "Version"; text "Subtype";
   (str "Header", Sequence (map maybe header_fields))] ++
  map text header_fields ++
  [(str "Security", Sequence [needed "Encryption"; needed "Signature"]);
   text "Encryption"; text "Signature";
   (str "Payload", Any);
   (str "Status", Sequence [needed "Code"; maybe "Description"; maybe "Exception"]);
   text "Code"; text "Description"; text "Exception"].

(** ** Valid documents *)

Fixpoint matches_sequence (particles : list (bytes * bool)) (names : list bytes) : bool :=
  match particles with
  | [] => bool_decide (names = [])
  | (p, optional) :: particles =>
      match names with
      | n :: names' =>
          if decide (n = p) then matches_sequence particles names'
          else if optional then matches_sequence particles names else false
      | [] => if optional then matches_sequence particles [] else false
      end
  end.

(** Whether a model admits the names of the element children. *)
Definition admits (m : model) (names : list bytes) : bool :=
  match m with
  | PCData => bool_decide (names = [])
  | Any => true
  | Choice choices => match names with [n] => bool_decide (n ∈ choices) | _ => false end
  | Sequence particles => matches_sequence particles names
  end.

Definition model_of (tag : bytes) : option model :=
  match list_find (λ d, d.1 = tag) nlap_dtd with
  | Some (_, d) => Some d.2
  | None => None
  end.

(** What the definition says of the elements of a document. *)
Inductive valid_element : dom → Prop :=
| valid_intro tag cs m :
    model_of tag = Some m → admits m (names cs) = true → Forall valid_element cs →
    valid_element (Element tag cs)
| valid_text s : valid_element (Text s)
| valid_cdata s : valid_element (CData s)
| valid_other : valid_element Other.

(** A valid document has the root that the document type declaration names. *)
Definition valid_document (d : dom) : Prop :=
  valid_element d ∧ ∃ cs, d = Element (str "NLAP") cs.

(** ** Siblings *)

Lemma matches_sublist particles : ∀ ns,
  matches_sequence particles ns = true → sublist ns particles.*1.
Proof.
  induction particles as [|[p optional] particles IH]; intros ns H; cbn in *.
  - apply bool_decide_eq_true in H as ->. constructor.
  - destruct ns as [|n ns].
    + apply sublist_nil_l.
    + case_decide as Hn.
      * subst. apply sublist_skip. by apply IH.
      * destruct optional; [|done]. apply sublist_cons. by apply IH.
Qed.

Lemma matches_needed particles p : ∀ ns,
  matches_sequence particles ns = true → (p, false) ∈ particles → p ∈ ns.
Proof.
  induction particles as [|[q optional] particles IH]; intros ns H Hin; cbn in *;
    [by apply elem_of_nil in Hin|].
  apply elem_of_cons in Hin as [[= <- <-]|Hin].
  - destruct ns as [|n ns]; [done|]. case_decide; [subst|done]. by left.
  - destruct ns as [|n ns]; [destruct optional; [|done]; by eapply (IH [])|].
    case_decide; [right; by apply IH|]. destruct optional; [|done]. by apply IH.
Qed.

Definition model_distinct (m : model) : bool :=
  match m with
  | Sequence particles => bool_decide (NoDup particles.*1)
  | _ => true
  end.

Lemma dtd_distinct : Forall (λ d, model_distinct d.2 = true ∧ (d.2 = Any → d.1 = str "Payload")) nlap_dtd.
Proof. by_decide. Qed.

Lemma model_of_elem tag m : model_of tag = Some m → (tag, m) ∈ nlap_dtd.
Proof.
  unfold model_of. destruct (list_find _ nlap_dtd) as [[k [t m']]|] eqn:E; [|done].
  intros [= <-]. apply list_find_Some in E as (Hk & Ht & _). cbn in Ht. subst.
  by eapply list_elem_of_lookup_2.
Qed.

(** In a valid document siblings have different names, except in a payload. *)
Lemma valid_names tag cs :
  valid_element (Element tag cs) → tag ≠ str "Payload" → NoDup (names cs).
Proof.
  intros Hv Hpay. inversion Hv as [? ? m Hm Ha _| | |]; subst.
  pose proof dtd_distinct as Hd. rewrite Forall_forall in Hd.
  destruct (Hd _ (model_of_elem _ _ Hm)) as [Hdist Hany]. cbn in Hdist, Hany.
  destruct m as [| |choices|particles]; cbn in Ha, Hdist.
  - apply bool_decide_eq_true in Ha as ->. constructor.
  - by destruct Hpay; apply Hany.
  - destruct (names cs) as [|n [|]]; try done. apply NoDup_singleton.
  - apply bool_decide_eq_true in Hdist. eapply sublist_NoDup; [exact Hdist|].
    by apply matches_sublist.
Qed.

(** *** Leaves outside payloads *)

Definition outside (path : list bytes) : Prop := str "Payload" ∉ path.

#[export] Instance outside_dec path : Decision (outside path).
Proof. unfold outside. apply _. Defined.

Definition no_payload (e : dom) : Prop :=
  match e with Element tag _ => tag ≠ str "Payload" | _ => True end.

Lemma outside_cons name paths :
  filter outside (map (cons name) paths) =
  if decide (name = str "Payload") then [] else map (cons name) (filter outside paths).
Proof.
  induction paths as [|p paths IH]; cbn [map]; [by case_decide|].
  assert (outside (name :: p) ↔ name ≠ str "Payload" ∧ outside p) as Ho.
  { unfold outside. rewrite not_elem_of_cons. naive_solver. }
  rewrite !filter_cons, IH. repeat case_decide; try done; naive_solver.
Qed.

Lemma child_paths_head cs path :
  path ∈ flat_map (child_paths leaf_paths) cs → ∃ name, head path = Some name ∧ name ∈ names cs.
Proof.
  induction cs as [|c cs IH]; [by intros ?%elem_of_nil|]. cbn [flat_map].
  intros [Hc|Hc]%elem_of_app.
  - destruct c as [name cs0|s|s|]; cbn [child_paths] in Hc; try by apply elem_of_nil in Hc.
    apply list_elem_of_fmap in Hc as (q & -> & _). exists name. split; [done|by left].
  - destruct (IH Hc) as (name & Hh & Hin). exists name. split; [done|].
    destruct c; [by right|done..].
Qed.

(** A leaf outside payloads shares its path with no other. *)
Lemma valid_leaf_paths e :
  valid_element e → no_payload e → NoDup (filter outside (leaf_paths e)).
Proof.
  induction e as [tag cs IH|s|s|] using dom_ind_nested; intros Hv Hp; [|constructor..].
  pose proof (valid_names tag cs Hv Hp) as Hnd. inversion Hv as [? ? m _ _ Hcs| | |]; subst.
  cbn [leaf_paths]. case_decide.
  { rewrite (filter_cons outside []). case_decide; [apply NoDup_singleton|constructor]. }
  change (flat_map _ cs) with (flat_map (child_paths leaf_paths) cs). clear Hv Hp.
  induction cs as [|c cs IHcs]; [constructor|]. apply Forall_cons in IH as [Hc IH].
  apply Forall_cons in Hcs as [Hvc Hcs]. cbn [flat_map]. rewrite filter_app.
  assert (NoDup (names cs) → NoDup (filter outside (flat_map (child_paths leaf_paths) cs))) as Hrest.
  { intros Hnd'. destruct (decide (names cs = [])) as [Hnil|?]; [|by apply IHcs].
    rewrite (no_children (child_paths leaf_paths)) by (done || by intros []). constructor. }
  destruct c as [name cs0|s|s|]; cbn [child_paths] in *; try (rewrite filter_nil; by apply Hrest).
  cbn [names] in Hnd. apply NoDup_cons in Hnd as [Hname Hnd].
  apply NoDup_app. split; [|split; [|by apply Hrest]].
  - rewrite outside_cons. case_decide; [constructor|].
    apply NoDup_fmap; [by intros ? ? [=]|]. by apply Hc.
  - intros path [_ Hin]%list_elem_of_filter [_ Hin']%list_elem_of_filter.
    apply list_elem_of_fmap in Hin as (q & -> & _). apply child_paths_head in Hin' as (name' & [= <-] & ?).
    done.
Qed.

Lemma filter_NoDup_lookup {A} (P : A → Prop) `{!∀ x, Decision (P x)} l i j x :
  NoDup (filter P l) → P x → l !! i = Some x → l !! j = Some x → j = i.
Proof.
  intros Hnd Hx. revert i j. induction l as [|y l IH]; intros i j Hi Hj; [done|].
  rewrite filter_cons in Hnd. destruct i as [|i], j as [|j]; simplify_eq/=; try done.
  - rewrite decide_True in Hnd by done. apply NoDup_cons in Hnd as [Hn _]. destruct Hn.
    apply list_elem_of_filter. split; [done|]. by eapply list_elem_of_lookup_2.
  - rewrite decide_True in Hnd by done. apply NoDup_cons in Hnd as [Hn _]. destruct Hn.
    apply list_elem_of_filter. split; [done|]. by eapply list_elem_of_lookup_2.
  - f_equal. apply IH; [|done..]. case_decide; [by apply NoDup_cons in Hnd as [_ ?]|done].
Qed.

End XmlDtd.
