(* ===== verification/Filesystem.v ===== *)
(** * Static files (src/Filesystem.cpp)

    The directory tree, the calls on a file, its contents and [std::hash], whose
    values the language leaves open, are parameters. Positions are [size_t]:
    [rfind] without a hit is [npos], and what is computed from it wraps. *)
From S2P Require Export StringHelper.
From stdpp Require Import options.

Module Filesystem.

(** ** Data *)

Record FileProperties_t := mkProps {
  Filedescriptor : Z;
  FileSize : Z;
  FileName : bytes;
  FileExtension : bytes;
  MimeType : bytes;
  ETag : bytes;
  LastModifiedString : bytes;
  LastModifiedSeconds : bytes
}.

Definition empty_props : FileProperties_t := mkProps 0 0 [] [] [] [] [] [].

Definition MimeRelations : list (bytes * bytes) :=
  [(str "html", str "text/html"); (str "js", str "text/javascript");
   (str "json", str "application/json"); (str "css", str "text/css");
   (str "png", str "image/png"); (str "jpg", str "image/jpg");
   (str "svg", str "image/svg+xml"); (str "woff", str "font/woff");
   (str "woff2", str "font/woff2"); (str "ico", str "image/png");
   (str "txt", str "text/plain")].

Record Filesystem := mkFS {
  Hostname : bytes;
  BasePath : bytes;
  Path : bytes;
  Mimetypes : list bytes;
  _Files : list bytes;
  _FilesExtended : gmap bytes FileProperties_t;
  _CompletePath : bytes
}.

Definition STATICFS_SUBDIR : bytes := str "/static".

(** ** Strings with [size_t] positions *)

Definition npos : Z := 2 ^ 64 - 1.

(** [s.rfind(c)] *)
Definition rfind_z (c s : bytes) : Z :=
  match rfind c s (length s) with Some k => Z.of_nat k | None => npos end.

(** [s.substr(pos, n)] *)
Definition substr_z (s : bytes) (pos n : Z) : fault + bytes :=
  if decide (pos <= Z.of_nat (length s))%Z
  then inr (take (Z.to_nat (Z.min n (Z.of_nat (length s)))) (drop (Z.to_nat pos) s))
  else inl (Throw out_of_range).

Definition length_z (s : bytes) : Z := Z.of_nat (length s).

Section files.

(** [directory path]: the files below [path], each with the extension the
    directory iterator reports, or nothing if the directory, or one below it,
    cannot be read; [open] and [fstat] of a file; its bytes as a
    stream reads them, if it can be opened; [std::hash<string>]. *)
Variable directory : bytes → option (list (bytes * bytes)).
Variable open_file : bytes → Z.
Variable file_size : bytes → Z.
Variable read_file : bytes → option bytes.
Variable hash_string : bytes → Z.

(** [FilesystemHelper::GetDirListingByFiletype]: the iterator throws for a
    directory it cannot read. *)
Definition GetDirListingByFiletype (Path FileType : bytes) : fault + list bytes :=
  match directory Path with
  | Some files => inr (map fst (filter (λ f, f.2 = FileType) files))
  | None => inl (Throw filesystem_error)
  end.

(** The loop of [initFiles] over the mime types. *)
Fixpoint list_files (complete : bytes) (Mimetypes : list bytes) (files : list bytes) :
    fault + list bytes :=
  match Mimetypes with
  | [] => inr files
  | Mimetype :: Mimetypes =>
      TmpFiles ← GetDirListingByFiletype complete (str "." ++ Mimetype);
      list_files complete Mimetypes (files ++ TmpFiles)
  end.

(** [initFiles()] *)
Definition initFiles (fs : Filesystem) : fault + Filesystem :=
  let complete := BasePath fs ++ Path fs ++ STATICFS_SUBDIR ++ str "/" in
  files ← list_files complete (Mimetypes fs) (_Files fs);
  mret (mkFS (Hostname fs) (BasePath fs) (Path fs) (Mimetypes fs) files (_FilesExtended fs) complete).

(** The mime type of an extension. *)
Definition mime_type (FileExtension : bytes) : bytes :=
  match list_find (λ r, r.1 = FileExtension) MimeRelations with
  | Some (_, r) => r.2
  | None => str "application/octet-stream"
  end.

(** [getFileEtag(File)]: of a stream that is not open [tellg] is -1, which is no
    size for the buffer; the exception is caught and ends the process. *)
Definition getFileEtag (File : bytes) : fault + bytes :=
  match read_file File with
  | Some FileBuffer => inr (to_hex (u64 (hash_string FileBuffer)))
  | None => inl (Exit 1)
  end.

(** The key and the properties [processFileProperties] computes of one file. *)
Definition file_entry (fs : Filesystem) (File : bytes) (fd : Z) :
    fault + bytes * FileProperties_t :=
  let FindPos := rfind_z (str "/") File in
  FileName ← substr_z File (u64 (FindPos + 1)) (u64 (length_z File - FindPos));
  FilePath ← substr_z File 0 FindPos;
  let FindPos := rfind_z (str ".") FileName in
  FileExtension ← substr_z FileName (u64 (FindPos + 1)) (u64 (length_z File - FindPos));
  let ReplacePath := BasePath fs ++ Path fs ++ str "/static" in
  RelPath ← substr_z FilePath (length_z ReplacePath)
              (u64 (length_z FilePath - length_z ReplacePath));
  etag ← getFileEtag File;
  mret (RelPath ++ str "/" ++ FileName,
        mkProps fd (u32 (file_size File)) FileName FileExtension (mime_type FileExtension)
          etag [] []).

(** The loop of [processFileProperties()]; mapping the file has no effect on
    the tables. *)
Fixpoint process_files (fs : Filesystem) (files : list bytes)
    (table : gmap bytes FileProperties_t) : fault + gmap bytes FileProperties_t :=
  match files with
  | [] => inr table
  | File :: files =>
      let fd := open_file File in
      if decide (fd > 0)%Z then
        '(key, props) ← file_entry fs File fd;
        process_files fs files (emplace key props table)
      else process_files fs files table
  end.

Definition processFileProperties (fs : Filesystem) : fault + Filesystem :=
  table ← process_files fs (_Files fs) (_FilesExtended fs);
  mret (mkFS (Hostname fs) (BasePath fs) (Path fs) (Mimetypes fs) (_Files fs) table
          (_CompletePath fs)).

(** [checkFileExists(File)] *)
Definition checkFileExists (fs : Filesystem) (File : bytes) : bool :=
  bool_decide (_FilesExtended fs !! File ≠ None).

(** [getFilePropertiesByFile(File)] *)
Definition getFilePropertiesByFile (fs : Filesystem) (File : bytes) : FileProperties_t :=
  default empty_props (_FilesExtended fs !! File).

(** ** Files below the static directory *)

(** A file by the directory it is in, relative to the static directory, and
    its name. *)
Definition static_file (fs : Filesystem) (rel name : bytes) : bytes :=
  BasePath fs ++ Path fs ++ STATICFS_SUBDIR ++ rel ++ str "/" ++ name.

(** What stands behind the last dot, or the whole name. *)
Definition extension (name : bytes) : bytes :=
  match rfind (str ".") name (length name) with
  | Some k => drop (S k) name
  | None => name
  end.

Lemma rfind_slash pre name :
  ("/"%char ∉ name) → rfind (str "/") (pre ++ str "/" ++ name) (length (pre ++ str "/" ++ name)) =
  Some (length pre).
Proof.
  intros Hn. apply rfind_Some; [done|]. rewrite !length_app. split; [|split; [lia|]].
  - exists name. by rewrite drop_app_length.
  - intros j Hj Ho. change (str "/") with ["/"%char] in *. apply occurs_char in Ho.
    rewrite lookup_app_r in Ho by lia. destruct (j - length pre) as [|i] eqn:E; [lia|].
    cbn in Ho. apply Hn. by eapply list_elem_of_lookup_2.
Qed.

Lemma substr_z_ok s pos n :
  pos <= length s →
  substr_z s (Z.of_nat pos) (Z.of_nat n) = inr (take n (drop pos s)).
Proof.
  intros Hp. unfold substr_z. rewrite decide_True by lia. f_equal.
  destruct (decide (n <= length s)).
  - by rewrite Z.min_l, !Nat2Z.id by lia.
  - rewrite Z.min_r, !Nat2Z.id by lia. by rewrite !take_ge by (rewrite length_drop; lia).
Qed.

Lemma u64_nat n : (Z.of_nat n < 2 ^ 64)%Z → u64 (Z.of_nat n) = Z.of_nat n.
Proof. intros H. apply wrap_id. lia. Qed.

Lemma extension_substr len name :
  (Z.of_nat len < 2 ^ 63)%Z → length name <= len →
  substr_z name (u64 (rfind_z (str ".") name + 1))
    (u64 (Z.of_nat len - rfind_z (str ".") name)) = inr (extension name).
Proof.
  unfold extension, rfind_z. intros HF Hl.
  destruct (rfind (str ".") name (length name)) as [k|] eqn:E.
  - pose proof (rfind_bound (str ".") name (length name) k ltac:(discriminate) E) as [Hk _].
    simpl in Hk. replace (Z.of_nat k + 1)%Z with (Z.of_nat (S k)) by lia.
    replace (Z.of_nat len - Z.of_nat k)%Z with (Z.of_nat (len - k)) by lia.
    rewrite !u64_nat by lia. rewrite substr_z_ok by lia. f_equal. apply take_ge.
    rewrite length_drop. lia.
  - replace (u64 (npos + 1)) with (Z.of_nat 0) by reflexivity.
    assert (u64 (Z.of_nat len - npos) = Z.of_nat (S len)) as ->.
    { unfold npos, u64, wrap. replace (Z.of_nat len - (2 ^ 64 - 1))%Z with
        (Z.of_nat (S len) + (-1) * 2 ^ 64)%Z by lia.
      rewrite Z_mod_plus_full. apply Z.mod_small. lia. }
    rewrite substr_z_ok by lia. f_equal. apply take_ge. simpl; lia.
Qed.

(** The entry of a file below the static directory: its key is its path
    relative to that directory. *)
Lemma file_entry_static fs rel name fd contents :
  ("/"%char ∉ name) → (length_z (static_file fs rel name) < 2 ^ 63)%Z →
  read_file (static_file fs rel name) = Some contents →
  file_entry fs (static_file fs rel name) fd =
  inr (rel ++ str "/" ++ name,
       mkProps fd (u32 (file_size (static_file fs rel name))) name (extension name)
         (mime_type (extension name)) (to_hex (u64 (hash_string contents))) [] []).
Proof using Type.
  intros Hn Hl He. unfold file_entry.
  assert (static_file fs rel name =
    (BasePath fs ++ Path fs ++ STATICFS_SUBDIR ++ rel) ++ str "/" ++ name) as E.
  { unfold static_file. by rewrite <-!app_assoc. }
  set (pre := BasePath fs ++ Path fs ++ STATICFS_SUBDIR ++ rel) in *.
  assert (rfind_z (str "/") (static_file fs rel name) = Z.of_nat (length pre)) as ->.
  { unfold rfind_z. by rewrite E, rfind_slash. }
  assert (length (static_file fs rel name) = length pre + S (length name)) as Elen.
  { rewrite E, !length_app. simpl. lia. }
  unfold length_z in Hl. rewrite Elen in Hl.
  replace (Z.of_nat (length pre) + 1)%Z with (Z.of_nat (length pre + 1)) by lia.
  replace (length_z (static_file fs rel name)) with (Z.of_nat (length pre + S (length name)))
    by (unfold length_z; by rewrite Elen).
  replace (Z.of_nat (length pre + S (length name)) - Z.of_nat (length pre))%Z
    with (Z.of_nat (S (length name))) by lia.
  rewrite !u64_nat by lia. rewrite substr_z_ok by lia.
  assert (take (S (length name)) (drop (length pre + 1) (static_file fs rel name)) = name) as ->.
  { rewrite E, app_assoc, drop_app_length' by (rewrite length_app; done). apply take_ge. lia. }
  cbn [mbind sum_bind]. change 0%Z with (Z.of_nat 0). rewrite substr_z_ok by lia.
  assert (take (length pre) (drop 0 (static_file fs rel name)) = pre) as ->.
  { by rewrite E, drop_0, take_app_length. }
  cbn [mbind sum_bind]. rewrite extension_substr by lia.
  cbn [mbind sum_bind]. change (str "/static") with STATICFS_SUBDIR.
  assert (pre = (BasePath fs ++ Path fs ++ STATICFS_SUBDIR) ++ rel) as Epre
    by (unfold pre; by rewrite <-!app_assoc).
  rewrite Epre in Hl |- *. set (A := BasePath fs ++ Path fs ++ STATICFS_SUBDIR) in *.
  unfold length_z. rewrite (length_app A rel) in Hl |- *.
  replace (Z.of_nat (length A + length rel) - Z.of_nat (length A))%Z
    with (Z.of_nat (length rel)) by lia.
  rewrite u64_nat by lia. rewrite substr_z_ok by (rewrite length_app; lia).
  rewrite drop_app_length, firstn_all. cbn [mbind sum_bind]. unfold getFileEtag. by rewrite He.
Qed.

(** What the table says of a file. *)
Definition file_props (fs : Filesystem) (contents : bytes * bytes → bytes) (f : bytes * bytes) :
    bytes * FileProperties_t :=
  (f.1 ++ str "/" ++ f.2,
   mkProps (open_file (static_file fs f.1 f.2)) (u32 (file_size (static_file fs f.1 f.2))) f.2
     (extension f.2) (mime_type (extension f.2)) (to_hex (u64 (hash_string (contents f)))) [] []).

(** Several files: those that can be opened, and the first of equal keys. *)
Lemma process_files_static fs contents files : ∀ table,
  Forall (λ f, ("/"%char ∉ f.2) ∧ (length_z (static_file fs f.1 f.2) < 2 ^ 63)%Z ∧
    ((open_file (static_file fs f.1 f.2) > 0)%Z →
     read_file (static_file fs f.1 f.2) = Some (contents f))) files →
  process_files fs (map (λ f, static_file fs f.1 f.2) files) table =
  inr (table ∪ list_to_map (map (file_props fs contents)
    (filter (λ f, open_file (static_file fs f.1 f.2) > 0)%Z files))).
Proof using Type.
  induction files as [|[rel name] files IH]; intros table Hf; cbn [map process_files].
  - f_equal. symmetry. apply (right_id_L ∅ (∪)).
  - apply Forall_cons in Hf as [(Hn & Hl & He) Hf]. cbn [fst snd] in *.
    rewrite filter_cons. cbn [fst snd]. case_decide as Ho; [|by apply IH].
    rewrite (file_entry_static _ _ _ _ _ Hn Hl (He Ho)).
    cbn [mbind sum_bind map list_to_map]. rewrite IH by done. f_equal. apply emplace_union.
Qed.

(** The files [initFiles] collects from a directory of static files: for each
    mime type those with its extension. *)
Lemma init_files_static fs ext listing :
  _Files fs = [] →
  directory (BasePath fs ++ Path fs ++ STATICFS_SUBDIR ++ str "/") =
    Some (map (λ f, (static_file fs f.1 f.2, ext f)) listing) →
  initFiles fs = inr (mkFS (Hostname fs) (BasePath fs) (Path fs) (Mimetypes fs)
    (map (λ f, static_file fs f.1 f.2)
      (flat_map (λ m, filter (λ f, ext f = str "." ++ m) listing) (Mimetypes fs)))
    (_FilesExtended fs) (BasePath fs ++ Path fs ++ STATICFS_SUBDIR ++ str "/")).
Proof using Type.
  intros H0 Hd. unfold initFiles. rewrite H0.
  assert (∀ ms acc, list_files (BasePath fs ++ Path fs ++ STATICFS_SUBDIR ++ str "/") ms acc =
    inr (acc ++ map (λ f, static_file fs f.1 f.2)
      (flat_map (λ m, filter (λ f, ext f = str "." ++ m) listing) ms))) as Hlist.
  { induction ms as [|m ms IH]; intros acc; cbn [list_files flat_map map]; [by rewrite app_nil_r|].
    unfold GetDirListingByFiletype. rewrite Hd. cbn [mbind sum_bind].
    rewrite IH, map_app, <-app_assoc. do 3 f_equal. clear. induction listing as [|f fs' IH]; [done|].
    cbn [map]. rewrite !filter_cons. cbn [snd]. case_decide; cbn [map fst]; by rewrite IH. }
  by rewrite Hlist.
Qed.

(** A static directory that cannot be read ends the mapping with an exception,
    when there is a mime type to look for. *)
Lemma init_files_unreadable fs :
  directory (BasePath fs ++ Path fs ++ STATICFS_SUBDIR ++ str "/") = None → Mimetypes fs ≠ [] →
  initFiles fs = inl (Throw filesystem_error).
Proof using Type.
  intros Hd Hm. unfold initFiles. destruct (Mimetypes fs) as [|m ms]; [done|].
  cbn [list_files]. unfold GetDirListingByFiletype. by rewrite Hd.
Qed.

End files.
End Filesystem.
