(* ===== verification/Configuration.v ===== *)
(** * Configuration and the smaller process components

    src/Configuration.cpp, src/CPU.cpp, src/ASProcessHandler.cpp and
    lib/event/Event.cpp. The JSON document is a parameter: what a path into it
    converts to, [None] where the library throws, and the members of the items
    of its namespaces. *)
From S2P Require Export Filesystem Server.
From stdpp Require Import options.

Module Configuration.
Import Filesystem.

(** ** Data *)

Definition RUNAS_USER_DEFAULT : Z := 2000.
Definition RUNAS_GROUP_DEFAULT : Z := 2000.

(** A member of a JSON value as the server reads it: missing from the object,
    of a type that does not convert (or the value is no object), or a value. *)
Inductive member (A : Type) :=
  | Absent
  | Mistyped
  | Is (a : A).
Arguments Absent {A}.
Arguments Mistyped {A}.
Arguments Is {A} _.

(** The members of one item of "namespaces" the server reads. *)
Record NamespaceItem := mkItem {
  hostname : member bytes;
  path : member bytes;
  interpreters : member Z
}.

(** [j[key]] converted, [j] being constant: the operator has no result for a
    missing key; the conversion throws. *)
Definition const_member {A} (m : member A) : fault + A :=
  match m with
  | Absent => inl Undefined
  | Mistyped => inl (Throw json_exception)
  | Is a => inr a
  end.

(** [j[key]] converted, [j] being no constant: a missing key is inserted with
    the null value, whose conversion throws. *)
Definition mutable_member {A} (m : member A) : fault + A :=
  match m with
  | Absent | Mistyped => inl (Throw json_exception)
  | Is a => inr a
  end.

(** [j[key]], [j] being no constant, leaves a null value for a missing key. *)
Definition touched {A} (m : member A) : member A :=
  match m with Absent => Mistyped | _ => m end.

(** [catch (const json::exception &) { ... std::exit(EXIT_FAILURE); }] *)
Definition exit_on_json {A} (m : fault + A) : fault + A :=
  match m with
  | inl (Throw json_exception) => inl (Exit EXIT_FAILURE)
  | _ => m
  end.

Record NamespaceProps_t := mkNamespace {
  JSONConfig : NamespaceItem;
  FilesystemRef : option Filesystem
}.

Record Configuration := mkConfiguration {
  RunAsUnixUser : bytes;
  RunAsUnixGroup : bytes;
  RunAsUnixUserID : Z;
  RunAsUnixGroupID : Z;
  ConfBasePath : bytes;
  ServerAddress : bytes;
  ServerPort : Z;
  ConfMimetypes : list bytes;
  Namespaces : gmap bytes NamespaceProps_t
}.

Section json.

(** The document: strings, numbers and lists of strings by path, and the items
    of "namespaces". *)
Variable json_string : list string → option bytes.
Variable json_number : list string → option Z.
Variable json_strings : list string → option (list bytes).
Variable json_namespaces : list NamespaceItem.

(** A conversion the outer handler catches. *)
Definition required {A} (v : option A) : fault + A :=
  match v with Some a => inr a | None => inl (Throw json_exception) end.

Fixpoint add_namespaces (items : list NamespaceItem) (ns : gmap bytes NamespaceProps_t) :
    fault + gmap bytes NamespaceProps_t :=
  match items with
  | [] => inr ns
  | item :: items =>
      host ← const_member (hostname item);
      add_namespaces items (emplace host (mkNamespace item None) ns)
  end.

(** [Configuration()] *)
Definition construct : fault + Configuration := exit_on_json (
  user ← required (json_string ["server"; "runas"; "user"]);
  group ← required (json_string ["server"; "runas"; "group"]);
  base ← required (json_string ["global"; "path"; "base"]);
  let address := default (str "127.0.0.1")
    (json_string ["server"; "connection"; "ipv4"; "address"]) in
  let port := match json_number ["server"; "connection"; "ipv4"; "port"] with
              | Some p => u16 p
              | None => 80
              end%Z in
  mimetypes ← required (json_strings ["server"; "mimetypes"]);
  namespaces ← add_namespaces json_namespaces ∅;
  mret (mkConfiguration user group RUNAS_USER_DEFAULT RUNAS_GROUP_DEFAULT base address port
          mimetypes namespaces)).

End json.

(** The body of the loop of [mapStaticFSData()] for one namespace; a path that
    is no string throws out of it. Its debug output looks up two members. *)
Definition map_namespace directory open_file file_size read_file hash_string (conf : Configuration)
    (Host : bytes) (ns : NamespaceProps_t) : fault + NamespaceProps_t :=
  p ← mutable_member (path (JSONConfig ns));
  let fs := mkFS Host (ConfBasePath conf) p (ConfMimetypes conf) [] ∅ [] in
  fs ← initFiles directory fs;
  fs ← processFileProperties open_file file_size read_file hash_string fs;
  let item := JSONConfig ns in
  let item := if debug_enabled 120
    then mkItem (hostname item) (touched (path item)) (touched (interpreters item))
    else mkItem (hostname item) (touched (path item)) (interpreters item) in
  mret (mkNamespace item (Some fs)).

(** [mapStaticFSData()] over the namespaces in iteration order. *)
Fixpoint mapStaticFSData directory open_file file_size read_file hash_string
    (items : list (bytes * NamespaceProps_t)) (conf : Configuration) : fault + Configuration :=
  match items with
  | [] => inr conf
  | (Host, ns) :: items =>
      ns ← map_namespace directory open_file file_size read_file hash_string conf Host ns;
      mapStaticFSData directory open_file file_size read_file hash_string items
        (mkConfiguration (RunAsUnixUser conf) (RunAsUnixGroup conf) (RunAsUnixUserID conf)
           (RunAsUnixGroupID conf) (ConfBasePath conf) (ServerAddress conf) (ServerPort conf)
           (ConfMimetypes conf) (<[Host := ns]> (Namespaces conf)))
  end.

(** ** Consequences *)

Lemma sum_bind_inr {A B} (m : fault + A) (f : A → fault + B) b :
  m ≫= f = inr b → ∃ a, m = inr a ∧ f a = inr b.
Proof. destruct m; [done|]. eauto. Qed.

Lemma exit_on_json_inr {A} (m : fault + A) a : exit_on_json m = inr a → m = inr a.
Proof. destruct m as [[[]| |]|]; simpl; congruence. Qed.

(** The user and group of the document never reach the numbers the server
    drops its privileges to; address and port have defaults. *)
Lemma construct_defaults js jn jl items conf :
  construct js jn jl items = inr conf →
  RunAsUnixUserID conf = 2000%Z ∧ RunAsUnixGroupID conf = 2000%Z ∧
  js ["server"; "runas"; "user"] = Some (RunAsUnixUser conf) ∧
  (0 <= ServerPort conf < 65536)%Z ∧
  (js ["server"; "connection"; "ipv4"; "address"] = None →
   ServerAddress conf = str "127.0.0.1") ∧
  (jn ["server"; "connection"; "ipv4"; "port"] = None → ServerPort conf = 80%Z).
Proof.
  unfold construct. intros E%exit_on_json_inr. revert E. intros (user & Hu & E)%sum_bind_inr. apply sum_bind_inr in E as (group & _ & E).
  apply sum_bind_inr in E as (base & _ & E). apply sum_bind_inr in E as (mimes & _ & E).
  apply sum_bind_inr in E as (ns & _ & [= <-]). cbn.
  split; [done|]. split; [done|]. split.
  { unfold required in Hu. by case_match; simplify_eq. }
  split; [|split].
  - case_match; [auto with cpp|lia].
  - by intros ->.
  - by intros ->.
Qed.

End Configuration.

(** ** [CPU] (src/CPU.cpp) *)

Module CPU.

(** [_cpuset] is indeterminate until [applyCPUConfigProcess] has run. *)
Record CPU := mkCPU { _CPUs : list Z; _cpuset : option (gset Z) }.

Definition setCPUConfig (CPUs : list Z) (c : CPU) : CPU := mkCPU CPUs (_cpuset c).

(** [applyCPUConfigProcess()]; [rc] is what [sched_setaffinity] returns. *)
Definition applyCPUConfigProcess (rc : Z) : St CPU () :=
  _ ← modify (λ c, mkCPU (_CPUs c) (Some (list_to_set (_CPUs c))));
  if decide (rc = (-1)%Z) then fail (Exit EXIT_FAILURE) else mret ().

(** [applyCPUConfigThread(ThreadRef)]: the set handed to
    [pthread_setaffinity_np], whose error is only reported. *)
Definition applyCPUConfigThread : St CPU (gset Z) :=
  c ← get;
  match _cpuset c with Some s => mret s | None => fail Undefined end.

End CPU.

(** ** [ASProcessHandler] (src/ASProcessHandler.cpp) *)

Module ASProcessHandler.
Import Configuration Server.

(** [getASInterpreterCount()] over the namespaces in iteration order; the sum is
    an [unsigned int]. *)
Fixpoint getASInterpreterCount (items : list (bytes * NamespaceProps_t)) (count : Z) :
    fault + Z :=
  match items with
  | [] => inr count
  | (_, ns) :: items =>
      n ← const_member (interpreters (JSONConfig ns));
      getASInterpreterCount items (u32 (count + u32 n))
  end.

(** [setTerminationHandler()] *)
Definition setTerminationHandler (os : syscall → Z) : St proc () :=
  _ ← sys os (SigHandler "SIGTERM" "ASProcessHandler::terminate"); mret ().

(** [terminate(_)]: the flag of the application server's loop. *)
Definition terminate : bool := false.

(** [registerChildPID(pid)] *)
Definition registerChildPID (pid : Z) (ChildPIDs : list Z) : list Z := addChildPID pid ChildPIDs.

(** The addresses of the three areas the processes share. *)
Record ASProcessHandlerSHMPointer_t := mkSHMPointer {
  PostASMetaPtr : Z;
  PostASRequestsPtr : Z;
  PostASResultsPtr : Z
}.

(** [forkProcessASHandler(SHMAdresses)]: what is not commented out; the body of
    the loop over the namespaces is. *)
Definition forkProcessASHandler (os : syscall → Z) (SHMAdresses : ASProcessHandlerSHMPointer_t) :
    St proc () := disableSignals os.

(** Once the static files are mapped, the number of interpreters of a namespace
    is never looked up where it is missing: the debug output has put a null value
    there, which throws instead. *)
Lemma interpreters_defined directory open_file file_size read_file hash_string conf items :
  Forall (λ item, ∃ Host ns, map_namespace directory open_file file_size read_file hash_string conf
    Host ns = inr item.2) items →
  ∀ count, getASInterpreterCount items count ≠ inl Undefined.
Proof.
  induction 1 as [|[h ns'] items (Host & ns & E) _ IH]; intros count; [done|].
  cbn [getASInterpreterCount snd] in *. unfold map_namespace in E.
  apply sum_bind_inr in E as (p & _ & E). apply sum_bind_inr in E as (fs0 & _ & E).
  apply sum_bind_inr in E as (fs & _ & [= <-]).
  cbn. destruct (interpreters (JSONConfig ns)) as [| |n]; [done|done|apply IH].
Qed.

End ASProcessHandler.

(** ** [Event] (lib/event/Event.cpp) *)

Module Event.

(** The two function objects; calling an empty one throws. *)
Record Event (S : Type) := mkEvent {
  CheckFunctionRef : option (St S bool);
  CallbackFunctionRef : option (St S ())
}.
Arguments mkEvent {S} _ _.
Arguments CheckFunctionRef {S} _.
Arguments CallbackFunctionRef {S} _.

Definition registerEvent {S} (FPCheckFunction : St S bool) (FPCallbackFunction : St S ()) :
    Event S := mkEvent (Some FPCheckFunction) (Some FPCallbackFunction).

Definition checkEvent {S} (e : Event S) : St S bool :=
  match CheckFunctionRef e with Some f => f | None => fail (Throw bad_function_call) end.

Definition callCallback {S} (e : Event S) : St S () :=
  match CallbackFunctionRef e with Some f => f | None => fail (Throw bad_function_call) end.

End Event.
