(* ===== verification/ServerMain.v ===== *)
(** * The whole program: [main], [Server::init] and the loop

    The parts of the server object as one state, the operations of Server.v,
    Connection.v and Configuration.v lifted to it, and the composition of
    src/main.cpp and [Server::init] (src/Server.cpp). *)
From S2P Require Export Configuration.
From stdpp Require Import options.

Module ServerMain.
Import Connection Filesystem Configuration Server.

(** ** State *)

(** The [Server] object with its base [ClientHandler], the statics of
    src/Server.cpp ([ConfigRef], [RunServer], [ChildPIDs]), and what the kernel
    knows of the process. Members no constructor sets are [None]. *)
Record Server := mkServer {
  SocketListenAddress : bytes;
  SocketListenPort : option Z;
  ServerSocketFD : option Z;
  ServerConnFD : option (Z * Z);
  Handler : ClientHandler;
  ConfigRef : Configuration;
  RunServer : bool;
  ChildPIDs : list Z;
  Process : proc
}.

Definition set_listen (address : bytes) (port : Z) (s : Server) : Server :=
  mkServer address (Some port) (ServerSocketFD s) (ServerConnFD s) (Handler s) (ConfigRef s)
    (RunServer s) (ChildPIDs s) (Process s).
Definition set_socket (fd : Z) (s : Server) : Server :=
  mkServer (SocketListenAddress s) (SocketListenPort s) (Some fd) (ServerConnFD s) (Handler s)
    (ConfigRef s) (RunServer s) (ChildPIDs s) (Process s).
Definition set_conn (c : Z * Z) (s : Server) : Server :=
  mkServer (SocketListenAddress s) (SocketListenPort s) (ServerSocketFD s) (Some c) (Handler s)
    (ConfigRef s) (RunServer s) (ChildPIDs s) (Process s).
Definition set_handler (h : ClientHandler) (s : Server) : Server :=
  mkServer (SocketListenAddress s) (SocketListenPort s) (ServerSocketFD s) (ServerConnFD s) h
    (ConfigRef s) (RunServer s) (ChildPIDs s) (Process s).
Definition set_config (c : Configuration) (s : Server) : Server :=
  mkServer (SocketListenAddress s) (SocketListenPort s) (ServerSocketFD s) (ServerConnFD s)
    (Handler s) c (RunServer s) (ChildPIDs s) (Process s).
Definition set_running (run : bool) (pids : list Z) (s : Server) : Server :=
  mkServer (SocketListenAddress s) (SocketListenPort s) (ServerSocketFD s) (ServerConnFD s)
    (Handler s) (ConfigRef s) run pids (Process s).
Definition set_process (p : proc) (s : Server) : Server :=
  mkServer (SocketListenAddress s) (SocketListenPort s) (ServerSocketFD s) (ServerConnFD s)
    (Handler s) (ConfigRef s) (RunServer s) (ChildPIDs s) p.

(** An operation on a part of the state. *)
Definition zoom {S T A} (view : S → T) (set : T → S → S) (m : St T A) : St S A :=
  λ s, let '(t, r) := m (view s) in (set t s, r).

Definition on_process {A} : St proc A → St Server A := zoom Process set_process.
Definition on_handler {A} : St ClientHandler A → St Server A := zoom Handler set_handler.

(** Reading a member no one has set. *)
Definition initialised {A} (v : option A) : fault + A :=
  match v with Some a => inr a | None => inl Undefined end.

(** [Server ServerObj] after the static [ConfigRef]: the base classes are
    constructed; the block of the receive segments is fresh. *)
Definition new_server (conf : Configuration) (base : Z) (block : bytes) (p : proc) : Server :=
  mkServer [] None None None (Connection.init base block) conf true [] p.

(** [addChildPID(pid)] on the static vector. *)
Definition addChild (pid : Z) : St Server () :=
  modify (λ s, set_running (RunServer s) (addChildPID pid (ChildPIDs s)) s).

Section program.

(** The kernel's answers to the calls of the setup; the directory tree and the
    files; the order in which the hash table of the namespaces is enumerated. *)
Variable os : syscall → Z.
Variable directory : bytes → option (list (bytes * bytes)).
Variable open_file : bytes → Z.
Variable file_size : bytes → Z.
Variable read_file : bytes → option bytes.
Variable hash_string : bytes → Z.
Variable order : gmap bytes NamespaceProps_t → list (bytes * NamespaceProps_t).

(** ** Operations *)

(** [setupSharedMemory()] has no statements. *)
Definition setupSharedMemory : St Server () := mret ().

(** [ConfigRef.mapStaticFSData()] *)
Definition map_files : St Server () :=
  s ← get;
  conf ← lift (mapStaticFSData directory open_file file_size read_file hash_string
    (order (Namespaces (ConfigRef s))) (ConfigRef s));
  modify (set_config conf).

(** [setupPoll()] *)
Definition setupPoll : St Server () :=
  s ← get;
  fd ← lift (initialised (ServerSocketFD s));
  modify (set_conn (fd, POLLIN)).

(** [terminate(_)], the handler of [SIGTERM]. *)
Definition on_sigterm : St Server () :=
  modify (λ s,
    let '(run, (kills, pids)) := terminate (ChildPIDs s) in
    set_process (mkProc (calls (Process s) ++ kills) (uid (Process s)) (gid (Process s)))
      (set_running run pids s)).

(** [ServerLoop()]: the flag is tested before each round. The handler of the
    signal touches nothing a round reads or writes, so its place within the
    round is immaterial. *)
Fixpoint Loop (rounds : list round) : St Server () :=
  match rounds with
  | [] => mret ()
  | i :: rounds =>
      s ← get;
      if RunServer s then
        _ ← on_handler (server_round i);
        _ ← (if sigterm i then on_sigterm else mret ());
        Loop rounds
      else mret ()
  end.

(** [init()] up to the loop. *)
Definition setup : St Server () :=
  _ ← setupSharedMemory;
  _ ← map_files;
  _ ← modify (λ s, set_listen (ServerAddress (ConfigRef s)) (ServerPort (ConfigRef s)) s);
  _ ← on_process (disableSignals os);
  _ ← on_process (setTerminationHandler os);
  s ← get;
  port ← lift (initialised (SocketListenPort s));
  fd ← on_process (setupSocket os (SocketListenAddress s) port);
  _ ← modify (set_socket fd);
  _ ← setupPoll;
  on_process (dropPrivileges os (RunAsUnixGroupID (ConfigRef s)) (RunAsUnixUserID (ConfigRef s))).

(** [init()]; [signalled]: a [SIGTERM] has arrived before the first round. *)
Definition init (signalled : bool) (rounds : list round) : St Server () :=
  _ ← setup;
  _ ← (if signalled then on_sigterm else mret ());
  Loop rounds.

(** The program: the static [ConfigRef] is constructed from the document before
    [main], which constructs the server and runs [init]. *)
Definition main js jn jl items (base : Z) (block : bytes) (p : proc) (signalled : bool)
    (rounds : list round) : fault + Server * (fault + ()) :=
  conf ← construct js jn jl items;
  mret (init signalled rounds (new_server conf base block p)).

(** ** Lemmas *)

Lemma run_zoom {S T A B} view set (m : St T A) (f : A → St S B) (s : S) :
  (zoom view set m ≫= f) s =
  match m (view s) with (t, inl e) => (set t s, inl e) | (t, inr a) => f a (set t s) end.
Proof using Type. unfold mbind, St_bind, zoom. by destruct (m (view s)) as [t [e|a]]. Qed.

(** Mapping the files of the namespaces changes nothing else. *)
Lemma map_files_other items : ∀ conf conf',
  mapStaticFSData directory open_file file_size read_file hash_string items conf = inr conf' →
  RunAsUnixUserID conf' = RunAsUnixUserID conf ∧ RunAsUnixGroupID conf' = RunAsUnixGroupID conf ∧
  ConfBasePath conf' = ConfBasePath conf ∧ ConfMimetypes conf' = ConfMimetypes conf ∧
  ServerAddress conf' = ServerAddress conf ∧ ServerPort conf' = ServerPort conf ∧
  (∀ Host, Host ∉ items.*1 → Namespaces conf' !! Host = Namespaces conf !! Host).
Proof using Type.
  induction items as [|[Host ns] items IH]; intros conf conf'; cbn [mapStaticFSData].
  { intros [= <-]. by repeat split. }
  intros (ns' & _ & E)%sum_bind_inr.
  apply IH in E as (-> & -> & -> & -> & -> & -> & Hns). cbn. repeat split.
  intros Host' [Hne Hn]%not_elem_of_cons. rewrite Hns by done. cbn [Namespaces].
  by rewrite lookup_insert_ne by congruence.
Qed.

(** Every enumerated namespace gets its table. *)
Lemma map_files_tables items : ∀ conf conf' Host ns,
  NoDup items.*1 →
  mapStaticFSData directory open_file file_size read_file hash_string items conf = inr conf' →
  (Host, ns) ∈ items →
  ∃ ns', map_namespace directory open_file file_size read_file hash_string conf Host ns = inr ns' ∧
    Namespaces conf' !! Host = Some ns'.
Proof using Type.
  induction items as [|[Host0 ns0] items IH]; intros conf conf' Host ns Hnd E Hin;
    [by apply not_elem_of_nil in Hin|].
  apply NoDup_cons in Hnd as [Hni Hnd]. cbn [mapStaticFSData] in E. apply sum_bind_inr in E as (ns' & Em & E).
  apply elem_of_cons in Hin as [[= -> ->]|Hin].
  - exists ns'. split; [done|]. apply map_files_other in E as (_ & _ & _ & _ & _ & _ & Hns).
    rewrite Hns by done. cbn. by rewrite lookup_insert_eq.
  - destruct (IH _ _ Host ns Hnd E Hin) as (ns'' & Em' & Hl). by exists ns''.
Qed.

(** *** What leaves the clients alone *)

Definition keeps_handler {A} (m : St Server A) : Prop :=
  ∀ s s' r, m s = (s', r) → Handler s' = Handler s.

Lemma keeps_bind {A B} (m : St Server A) (f : A → St Server B) :
  keeps_handler m → (∀ a, keeps_handler (f a)) → keeps_handler (m ≫= f).
Proof using Type.
  intros Hm Hf s s' r. unfold mbind, St_bind. destruct (m s) as [s1 [e|a]] eqn:E.
  - intros [= <- _]. by eapply Hm.
  - intros Ef. rewrite (Hf _ _ _ _ Ef). by eapply Hm.
Qed.

Lemma keeps_modify f : (∀ s, Handler (f s) = Handler s) → keeps_handler (modify f).
Proof using Type. intros H s s' r [= <- _]. apply H. Qed.

Lemma keeps_lift {A} (r : fault + A) : keeps_handler (lift r).
Proof using Type. by intros s s' r' [= <- _]. Qed.

Lemma keeps_get : keeps_handler get.
Proof using Type. by intros s s' r' [= <- _]. Qed.

Lemma keeps_ret {A} (a : A) : keeps_handler (mret a).
Proof using Type. by intros s s' r' [= <- _]. Qed.

Lemma keeps_process {A} (m : St proc A) : keeps_handler (on_process m).
Proof using Type.
  intros s s' r. unfold on_process, zoom. destruct (m (Process s)). by intros [= <- _].
Qed.

Lemma keeps_sigterm : keeps_handler on_sigterm.
Proof using Type. by apply keeps_modify. Qed.

#[local] Hint Resolve keeps_bind keeps_modify keeps_lift keeps_get keeps_ret keeps_process
  keeps_sigterm : core.

Lemma keeps_setup : keeps_handler setup.
Proof using Type.
  unfold setup, setupSharedMemory, map_files, setupPoll. repeat (apply keeps_bind; [|intros ?]); auto.
Qed.

(** *** A complete setup *)

Lemma run_process_inr {A} (m : St proc A) s s' a :
  on_process m s = (s', inr a) → ∃ p, m (Process s) = (p, inr a) ∧ s' = set_process p s.
Proof using Type.
  unfold on_process, zoom. destruct (m (Process s)) as [p r]. intros [= <- ->]. eauto.
Qed.

Lemma setup_inr s s' :
  setup s = (s', inr ()) →
  let Address := ServerAddress (ConfigRef s) in
  let Port := ServerPort (ConfigRef s) in
  let UserID := RunAsUnixUserID (ConfigRef s) in
  let GroupID := RunAsUnixGroupID (ConfigRef s) in
  uid (Process s) = 0%Z ∧
  ∃ conf, mapStaticFSData directory open_file file_size read_file hash_string
      (order (Namespaces (ConfigRef s))) (ConfigRef s) = inr conf ∧
    s' = mkServer Address (Some Port) (Some (os SysSocket)) (Some (os SysSocket, POLLIN))
      (Handler s) conf (RunServer s) (ChildPIDs s)
      (mkProc (calls (Process s) ++ setup_calls os Address Port GroupID UserID) UserID GroupID).
Proof using Type.
  unfold setup, setupSharedMemory. run. intros (s1 & [] & Em & E)%bind_inr.
  unfold map_files in Em. rewrite run_get in Em.
  destruct (mapStaticFSData _ _ _ _ _ _) as [e|conf] eqn:Ec; [done|].
  rewrite run_lift_ok, run_modify_end in Em. injection Em as <-.
  apply map_files_other in Ec as Heq. destruct Heq as (Hu & Hg & _ & _ & Ha & Hp & _).
  rewrite run_modify in E. cbn [ConfigRef set_config] in E. rewrite Ha, Hp in E.
  apply bind_inr in E as (s2 & [] & (p2 & E2 & ->)%run_process_inr & E).
  apply bind_inr in E as (s3 & [] & (p3 & E3 & ->)%run_process_inr & E).
  rewrite run_get in E. cbn [SocketListenPort SocketListenAddress set_process set_listen] in E.
  cbn [initialised] in E. rewrite run_lift_ok in E.
  apply bind_inr in E as (s4 & fd & (p4 & E4 & ->)%run_process_inr & E).
  rewrite run_modify in E. unfold setupPoll in E.
  apply bind_inr in E as (s5 & [] & E5 & (p6 & E6 & ->)%run_process_inr).
  rewrite run_get in E5. cbn [ServerSocketFD set_socket initialised] in E5.
  rewrite run_lift_ok, run_modify_end in E5. injection E5 as <-.
  cbn [Process set_process set_conn set_socket set_listen set_config ConfigRef
    Handler RunServer ChildPIDs] in *.
  rewrite Hu, Hg in E6. assert (init_process os (ServerAddress (ConfigRef s))
    (ServerPort (ConfigRef s)) (RunAsUnixGroupID (ConfigRef s)) (RunAsUnixUserID (ConfigRef s))
    (Process s) = (p6, inr fd)) as Ei.
  { unfold init_process. rewrite (run_bind _ _ _ _ _ E2), (run_bind _ _ _ _ _ E3),
      (run_bind _ _ _ _ _ E4), (run_bind _ _ _ _ _ E6). done. }
  apply init_process_calls in Ei as (Hroot & Huid & Hgid & Hcalls). split; [done|].
  apply setup_socket_calls in E4 as (-> & _). exists conf. split; [done|].
  destruct p6 as [calls6 uid6 gid6]. cbn [uid gid calls] in *. by subst.
Qed.

(** *** The loop *)

(** The flag and the children after some rounds. *)
Definition signalled_in (rounds : list round) : bool := existsb sigterm rounds.

(** The loop is that of Server.v on the handler, and ends with the first round
    in which the signal arrives, whose handler asks the children to end. *)
Lemma loop_spec rounds : ∀ s s' r,
  RunServer s = true → Loop rounds s = (s', r) →
  Server.ServerLoop rounds (Handler s) = (Handler s', r) ∧
  ConfigRef s' = ConfigRef s ∧ uid (Process s') = uid (Process s) ∧
  gid (Process s') = gid (Process s) ∧ calls (Process s) `prefix_of` calls (Process s') ∧
  (r = inr () → RunServer s' = negb (signalled_in rounds) ∧
    calls (Process s') = calls (Process s) ++
      if signalled_in rounds then kill_order (reverse (ChildPIDs s)) else []).
Proof using Type.
  induction rounds as [|i rounds IH]; intros s s' r Hrun E.
  { injection E as <- <-. repeat split; [done|done|]. cbn. by rewrite app_nil_r. }
  cbn [Loop] in E. rewrite run_get, Hrun in E. unfold on_handler in E. rewrite run_zoom in E.
  cbn [Server.ServerLoop].
  destruct (server_round i (Handler s)) as [h [e|[]]] eqn:Er; rewrite (run_bind _ _ _ _ _ Er).
  { injection E as <- <-. by repeat split. }
  cbn [signalled_in existsb]. destruct (sigterm i); cbn [orb negb].
  - unfold on_sigterm in E. rewrite run_modify in E.
    destruct rounds as [|j rounds]; cbn [Loop] in E; [|rewrite run_get in E]; cbn in E;
      injection E as <- <-; repeat split; by eexists.
  - rewrite run_bind_ret in E. apply (IH (set_handler h s)) in E; [|done]. exact E.
Qed.

(** Two stretches of an execution. *)
Lemma loop_app rounds more : ∀ s, Loop (rounds ++ more) s = (_ ← Loop rounds; Loop more) s.
Proof using Type.
  induction rounds as [|i rounds IH]; intros s; [done|]. cbn [app Loop].
  unfold mbind, St_bind in IH |- *. cbn. destruct (RunServer s) eqn:Hrun.
  - destruct (on_handler (server_round i) s) as [s1 [e|[]]]; [done|].
    destruct ((if sigterm i then on_sigterm else mret ()) s1) as [s2 [e|[]]]; [done|].
    apply IH.
  - destruct more; [done|]. cbn. unfold mbind, St_bind. cbn. by rewrite Hrun.
Qed.

Lemma loop_stopped rounds s : RunServer s = false → Loop rounds s = (s, inr ()).
Proof using Type. intros H. destruct rounds; [done|]. cbn [Loop]. by rewrite run_get, H. Qed.

(** Every outcome of [init]: it ends in the setup, and no client was touched, or
    the loop of Server.v runs with the identity the configuration says. *)
Lemma init_spec signalled rounds s s' r :
  RunServer s = true → init signalled rounds s = (s', r) →
  let UserID := RunAsUnixUserID (ConfigRef s) in
  let GroupID := RunAsUnixGroupID (ConfigRef s) in
  (∃ e, r = inl e) ∧ Handler s' = Handler s ∨
  ∃ conf, uid (Process s) = 0%Z ∧
    mapStaticFSData directory open_file file_size read_file hash_string
      (order (Namespaces (ConfigRef s))) (ConfigRef s) = inr conf ∧
    ConfigRef s' = conf ∧ uid (Process s') = UserID ∧ gid (Process s') = GroupID ∧
    (calls (Process s) ++ setup_calls os (ServerAddress (ConfigRef s))
      (ServerPort (ConfigRef s)) GroupID UserID) `prefix_of` calls (Process s') ∧
    Server.ServerLoop (if signalled then [] else rounds) (Handler s) = (Handler s', r).
Proof using Type.
  intros Hrun E UserID GroupID. unfold init in E.
  destruct (setup s) as [s1 [e|[]]] eqn:Es; rewrite (run_bind _ _ _ _ _ Es) in E.
  { injection E as <- <-. left. split; [by eexists|]. by eapply keeps_setup. }
  right. apply setup_inr in Es as (Hroot & conf & Em & ->). exists conf.
  split; [done|]. split; [done|]. destruct signalled.
  - unfold on_sigterm in E. rewrite run_modify in E. rewrite loop_stopped in E by done.
    injection E as <- <-. repeat split. cbn. by eexists.
  - rewrite run_bind_ret in E. apply loop_spec in E; [|done].
    destruct E as (Hl & Hc & Hu & Hg & Hcalls & _). by repeat split.
Qed.

End program.
End ServerMain.
