(* ===== verification/Backends.v ===== *)
(** * The back ends of the application servers

    src/ASBackend/JavaBackend.hpp and src/ASBackend/PythonBackend.hpp, the two
    definitions of [Backend::Processor]. The virtual machine behind the Java
    native interface, the Python interpreter, and the layout of the shared
    memory ([getResultAddress], [getMetaAddress], [HTTPPayloadLength_t], which
    the repository does not define) are parameters. *)
From S2P Require Export Prelude.
From stdpp Require Import options.

(** The bytes before the first null byte, which is what a function gets that
    takes a string as [const char*]. *)
Fixpoint c_string (bs : bytes) : bytes :=
  match bs with
  | [] => []
  | b :: bs => if decide (b = "000"%char) then [] else b :: c_string bs
  end.

Definition strlen (bs : bytes) : nat := length (c_string bs).

(** Writing [bs] at an offset of a block. *)
Definition overwrite (off : Z) (bs block : bytes) : bytes :=
  take (Z.to_nat off) block ++ bs ++ drop (Z.to_nat off + length bs) block.

Definition within (off : Z) (bs block : bytes) : Prop :=
  (0 <= off ∧ off + Z.of_nat (length bs) <= Z.of_nat (length block))%Z.

#[export] Instance within_dec off bs block : Decision (within off bs block).
Proof. unfold within. apply _. Defined.

(** ** Java *)

Module JavaBackend.

Definition JNI_VERSION_1_6 : Z := 65542.

Record JavaVMInitArgs := mkInitArgs {
  version : Z;
  options : list bytes;
  ignoreUnrecognized : bool
}.

Section java.

(** The state of the virtual machine and its references to classes, methods
    and objects. *)
Context {VM jclass jmethodID jobject : Type}.

(** The functions of the interface the code calls, each over the state of the
    machine; [None] is the null pointer. (A null string that [NewStringUTF] gives
    is one of the objects: the code passes it on without a test.) *)
Record JNIEnv := mkEnv {
  FindClass : bytes → St VM (option jclass);
  GetStaticMethodID : jclass → bytes → bytes → St VM (option jmethodID);
  NewStringUTF : bytes → St VM jobject;
  CallStaticObjectMethod : jclass → jmethodID → jobject → St VM (option jobject);
  ReleaseStringUTFChars : jobject → St VM ();
  ExceptionDescribe : St VM ();
  GetStringUTFChars : jobject → St VM (option bytes)
}.

(** The members of [ASProcessHandler] a back end uses, the machine, and the
    shared memory. [jnienv] is set by no constructor. *)
Record Handler := mkHandler {
  ReqPayloadString : bytes;
  jnienv : option JNIEnv;
  machine : VM;
  Shared : bytes
}.

Definition set_env (e : option JNIEnv) (h : Handler) : Handler :=
  mkHandler (ReqPayloadString h) e (machine h) (Shared h).
Definition set_machine (m : VM) (h : Handler) : Handler :=
  mkHandler (ReqPayloadString h) (jnienv h) m (Shared h).
Definition set_shared (bs : bytes) (h : Handler) : Handler :=
  mkHandler (ReqPayloadString h) (jnienv h) (machine h) bs.

(** Starting the machine: its return code, and the environment it stores if it
    stores one. *)
Variable JNI_CreateJavaVM : JavaVMInitArgs → St VM (Z * option JNIEnv).

(** The layout of the shared memory, and the representation of a length. *)
Variable getResultAddress : Z → Z.
Variable getMetaAddress : Z → Z → Z.
Variable HTTPPayloadLength : Z → bytes.

Definition on_machine {A} (m : St VM A) : St Handler A :=
  λ h, let '(v, r) := m (machine h) in (set_machine v h, r).

(** A call through [jnienv]. *)
Definition env_call {A} (f : JNIEnv → St VM A) : St Handler A :=
  h ← get;
  match jnienv h with
  | Some e => on_machine (f e)
  | None => fail Undefined
  end.

(** [memcpy] to, or construction of an object at, an address. *)
Definition store (off : Z) (bs : bytes) : St Handler () :=
  h ← get;
  if decide (within off bs (Shared h)) then modify (set_shared (overwrite off bs (Shared h)))
  else fail Undefined.

(** [init(ProcessHandlerPtr)]: the return code is only logged. *)
Definition init : St Handler () :=
  let JavaClassPath := str "-Djava.class.path=./json-java.jar:." in
  let vm_args := mkInitArgs JNI_VERSION_1_6 [c_string JavaClassPath] false in
  '(rc, env) ← on_machine (JNI_CreateJavaVM vm_args);
  match env with
  | Some e => modify (set_env (Some e))
  | None => mret ()
  end.

(** What [process] does until it has the characters of the result; without
    them (the machine is out of memory) it takes [strlen] of a null pointer. *)
Definition invoke : St Handler (option bytes) :=
  JavaClass ← env_call (λ e, FindClass e (str "WebApp"));
  match JavaClass with
  | None => mret None
  | Some JavaClass =>
      JavaMethodID ← env_call (λ e, GetStaticMethodID e JavaClass (str "invoke")
        (str "(Ljava/lang/String;)Ljava/lang/String;"));
      match JavaMethodID with
      | None => mret None
      | Some JavaMethodID =>
          h ← get;
          InputJSON ← env_call (λ e, NewStringUTF e (c_string (ReqPayloadString h)));
          Result ← env_call (λ e, CallStaticObjectMethod e JavaClass JavaMethodID InputJSON);
          _ ← env_call (λ e, ReleaseStringUTFChars e InputJSON);
          match Result with
          | None => _ ← env_call ExceptionDescribe; mret None
          | Some Result =>
              ResultCharArray ← env_call (λ e, GetStringUTFChars e Result);
              match ResultCharArray with
              | Some ResultCharArray => mret (Some ResultCharArray)
              | None => fail Undefined
              end
          end
      end
  end.

(** [process(ProcessHandlerPtr, Index)] *)
Definition process (Index : Z) : St Handler () :=
  Result ← invoke;
  match Result with
  | None => mret ()
  | Some ResultCharArray =>
      _ ← store (getResultAddress Index) (c_string ResultCharArray);
      store (getMetaAddress Index 7) (HTTPPayloadLength (Z.of_nat (strlen ResultCharArray)))
  end.

(** ** Lemmas *)

Lemma run_java_store_out off bs h :
  ¬ within off bs (Shared h) → store off bs h = (h, inl Undefined).
Proof using Type. intros Hw. unfold store. run. by rewrite decide_False. Qed.

(** An operation that leaves the shared memory, the request and the environment
    alone. *)
Definition calls_only {A} (m : St Handler A) : Prop :=
  ∀ h h' r, m h = (h', r) →
    Shared h' = Shared h ∧ ReqPayloadString h' = ReqPayloadString h ∧ jnienv h' = jnienv h.

Lemma calls_only_env {A} (f : JNIEnv → St VM A) : calls_only (env_call f).
Proof using Type.
  intros h h' r. unfold env_call, on_machine. run. destruct (jnienv h) as [e|] eqn:E.
  - destruct (f e (machine h)) as [v x]. by intros [= <- _].
  - by intros [= <- _].
Qed.

Lemma run_env_call {A} (f : JNIEnv → St VM A) e h v (x : A) :
  jnienv h = Some e → f e (machine h) = (v, inr x) → env_call f h = (set_machine v h, inr x).
Proof using Type. intros He Hf. unfold env_call, on_machine. run. by rewrite He, Hf. Qed.

Lemma calls_only_ret {A} (a : A) : calls_only (mret a).
Proof using Type. by intros h h' r [= <- _]. Qed.

Lemma calls_only_fail {A} e : calls_only (fail e : St Handler A).
Proof using Type. by intros h h' r [= <- _]. Qed.

Lemma calls_only_get : calls_only get.
Proof using Type. by intros h h' r [= <- _]. Qed.

Lemma calls_only_bind {A B} (m : St Handler A) (f : A → St Handler B) :
  calls_only m → (∀ a, calls_only (f a)) → calls_only (m ≫= f).
Proof using Type.
  intros Hm Hf h h' r. unfold mbind, St_bind. destruct (m h) as [h1 [e|a]] eqn:E.
  - intros [= <- _]. by eapply Hm.
  - intros Ef. apply Hf in Ef as (-> & -> & ->). by eapply Hm.
Qed.

#[local] Hint Resolve calls_only_env calls_only_ret calls_only_fail calls_only_get calls_only_bind : core.

Lemma invoke_calls_only : calls_only invoke.
Proof using Type.
  unfold invoke. apply calls_only_bind; [auto|]. intros [c|]; [|auto].
  apply calls_only_bind; [auto|]. intros [m|]; [|auto].
  apply calls_only_bind; [auto|]. intros h. apply calls_only_bind; [auto|]. intros i.
  apply calls_only_bind; [auto|]. intros r. apply calls_only_bind; [auto|]. intros [].
  destruct r; [|auto]. apply calls_only_bind; [auto|]. intros [chars|]; auto.
Qed.

Lemma run_java_store off bs h :
  within off bs (Shared h) →
  store off bs h = (set_shared (overwrite off bs (Shared h)) h, inr ()).
Proof using Type. intros Hw. unfold store. run. by rewrite decide_True. Qed.

End java.
End JavaBackend.

(** ** Python *)

Module PythonBackend.

Section python.

(** The interpreter's state and its objects. *)
Context {Interpreter object : Type}.

(** The interpreter: an operation that raises throws [error_already_set]. *)
Variable Py_InitializeEx : Z → St Interpreter ().
Variable Py_IsInitialized : St Interpreter Z.
Variable import : bytes → St Interpreter object.
Variable attr : object → bytes → St Interpreter object.
Variable call : object → list bytes → St Interpreter object.
Variable extract : object → St Interpreter bytes.
Variable PyErr_Print : St Interpreter ().

(** The members of [ASProcessHandler] the back end uses, and the shared memory.
    [PyClass] is [None] of Python after its construction. *)
Record Handler := mkHandler {
  ReqPayloadString : bytes;
  PyClass : object;
  interpreter : Interpreter;
  Shared : bytes
}.

Definition set_class (o : object) (h : Handler) : Handler :=
  mkHandler (ReqPayloadString h) o (interpreter h) (Shared h).
Definition set_interpreter (i : Interpreter) (h : Handler) : Handler :=
  mkHandler (ReqPayloadString h) (PyClass h) i (Shared h).

Definition on_python {A} (m : St Interpreter A) : St Handler A :=
  λ h, let '(i, r) := m (interpreter h) in (set_interpreter i h, r).

(** [catch (const bp::error_already_set&) { PyErr_Print(); ... }] *)
Definition catch_python (m : St Handler ()) : St Handler () := λ h,
  match m h with
  | (h, inl (Throw error_already_set)) => on_python PyErr_Print h
  | r => r
  end.

(** [init(ProcessHandlerPtr)] *)
Definition init : St Handler () :=
  _ ← on_python (Py_InitializeEx 0);
  rc ← on_python Py_IsInitialized;
  catch_python (
    PyModule ← on_python (import (str "WebApp"));
    WebApp ← on_python (attr PyModule (str "WebApp"));
    PyClass ← on_python (call WebApp []);
    modify (set_class PyClass)).

(** [process(ProcessHandlerPtr, Index)]: the code that would store the result
    is commented out. *)
Definition process (Index : Z) : St Handler () :=
  catch_python (
    h ← get;
    method ← on_python (attr (PyClass h) (str "invoke"));
    PyResult ← on_python (call method [ReqPayloadString h]);
    ResultCharArray ← on_python (extract PyResult);
    mret ()).

End python.
End PythonBackend.
