(* ===== verification/BackendTheorems.v ===== *)
(** * Properties of the back ends *)
From S2P Require Export Backends.
From stdpp Require Import options.

(** ** Overwriting part of a block *)

Lemma overwrite_length off bs block :
  within off bs block → length (overwrite off bs block) = length block.
Proof.
  intros H. unfold within in H. unfold overwrite.
  rewrite !length_app, length_take, length_drop. lia.
Qed.

(** A byte of the new contents, by its position relative to the write. *)
Lemma overwrite_lookup off bs block (k : nat) :
  within off bs block →
  overwrite off bs block !! k =
  if decide (off <= Z.of_nat k < off + Z.of_nat (length bs))%Z
  then bs !! (k - Z.to_nat off) else block !! k.
Proof.
  intros H. unfold within in H. unfold overwrite. case_decide as Hk.
  - rewrite lookup_app_r by (rewrite length_take; lia). rewrite length_take.
    rewrite lookup_app_l by lia. f_equal. lia.
  - destruct (decide (Z.of_nat k < off)%Z).
    + rewrite lookup_app_l by (rewrite length_take; lia). by rewrite lookup_take_lt by lia.
    + rewrite lookup_app_r by (rewrite length_take; lia). rewrite length_take.
      rewrite lookup_app_r by lia. rewrite lookup_drop. f_equal. lia.
Qed.

(** ** Java *)

(** C40: what an application server in Java answers arrives in the shared memory:
    the characters of the result up to the first null byte from the result
    address on, then what represents their number at the address of the length field; every
    other byte keeps its value. Nothing bounds the number of characters but the
    whole memory: a result longer than its region overwrites what follows, and
    where it reaches the length field the length overwrites it. Beyond the
    memory, the store is undefined. (The two addresses and the representation of
    a length are parameters: the repository declares none of them.) *)
Theorem java_result_stored {VM jclass jmethodID jobject : Type}
    (getResultAddress : Z → Z) (getMetaAddress : Z → Z → Z) (HTTPPayloadLength : Z → bytes)
    Index (h h1 : @JavaBackend.Handler VM jclass jmethodID jobject) chars :
  let result := getResultAddress Index in
  let meta := getMetaAddress Index 7%Z in
  let len := HTTPPayloadLength (Z.of_nat (strlen chars)) in
  let process := JavaBackend.process getResultAddress getMetaAddress HTTPPayloadLength Index h in
  let fits := within result (c_string chars) (JavaBackend.Shared h) ∧
              within meta len (JavaBackend.Shared h) in
  JavaBackend.invoke h = (h1, inr (Some chars)) →
  (fits → ∃ h', process = (h', inr ()) ∧
    length (JavaBackend.Shared h') = length (JavaBackend.Shared h) ∧
    ∀ k : nat, JavaBackend.Shared h' !! k =
      if decide (meta <= Z.of_nat k < meta + Z.of_nat (length len))%Z
      then len !! (k - Z.to_nat meta)
      else if decide (result <= Z.of_nat k < result + Z.of_nat (strlen chars))%Z
      then c_string chars !! (k - Z.to_nat result)
      else JavaBackend.Shared h !! k) ∧
  (¬ fits → process.2 = inl Undefined).
Proof.
  intros result meta len process fits Hi.
  destruct (JavaBackend.invoke_calls_only _ _ _ Hi) as (Hs & _).
  unfold fits, process, JavaBackend.process. rewrite (run_bind _ _ _ _ _ Hi). fold result meta len.
  rewrite <-Hs. destruct (decide (within result (c_string chars) (JavaBackend.Shared h1))) as [Hr|Hr].
  2:{ split; [by intros []|]. intros _. unfold mbind, St_bind.
      by rewrite JavaBackend.run_java_store_out. }
  rewrite (run_bind _ _ _ _ _ (JavaBackend.run_java_store _ _ h1 Hr)).
  set (h2 := JavaBackend.set_shared _ h1).
  assert (within meta len (JavaBackend.Shared h2) ↔ within meta len (JavaBackend.Shared h1)) as Hw.
  { unfold within. cbn. by rewrite overwrite_length. }
  split.
  - intros [_ Hm%Hw]. rewrite JavaBackend.run_java_store by done. eexists. split; [done|].
    cbn [JavaBackend.Shared JavaBackend.set_shared]. split.
    + rewrite overwrite_length by done. by apply overwrite_length.
    + intros k. rewrite overwrite_lookup by done. case_decide; [done|]. by apply overwrite_lookup.
  - intros Hn. rewrite JavaBackend.run_java_store_out; [done|]. rewrite Hw. tauto.
Qed.

(** A machine whose [WebApp.invoke] answers with the reversed request. *)
Definition sample_env : @JavaBackend.JNIEnv () () () bytes :=
  JavaBackend.mkEnv (λ _, mret (Some ())) (λ _ _ _, mret (Some ())) mret
    (λ _ _ s, mret (Some (reverse s))) (λ _, mret ()) (mret ()) (λ s, mret (Some s)).
Definition sample_java : @JavaBackend.Handler () () () bytes :=
  JavaBackend.mkHandler (str "olleh") (Some sample_env) () (replicate 24 "."%char).
Definition one_byte (n : Z) : bytes := [ascii_of_nat (Z.to_nat n)].

(** Regions of four bytes each: the answer reaches into the next one; with the
    length field behind the region, the length overwrites its last byte. *)
Lemma java_result_stored_witness :
  let stored meta := (JavaBackend.process (λ i, 8 + 4 * i)%Z meta one_byte 0 sample_java).1 in
  (∀ k : nat, JavaBackend.Shared (stored (λ i k, i + k)%Z) !! k =
    if decide (7 <= Z.of_nat k < 7 + 1)%Z then ["005"%char] !! (k - 7)
    else if decide (8 <= Z.of_nat k < 8 + 5)%Z then str "hello" !! (k - 8)
    else JavaBackend.Shared sample_java !! k) ∧
  (∀ k : nat, JavaBackend.Shared (stored (λ i k, 12 + i)%Z) !! k =
    if decide (12 <= Z.of_nat k < 12 + 1)%Z then ["005"%char] !! (k - 12)
    else if decide (8 <= Z.of_nat k < 8 + 5)%Z then str "hello" !! (k - 8)
    else JavaBackend.Shared sample_java !! k).
Proof.
  intros stored. split.
  - destruct (java_result_stored (λ i, 8 + 4 * i)%Z (λ i k, i + k)%Z one_byte 0 sample_java sample_java
      (str "hello") eq_refl) as [H _].
    destruct H as (h' & E & _ & H); [split; by_decide|]. unfold stored. rewrite E. exact H.
  - destruct (java_result_stored (λ i, 8 + 4 * i)%Z (λ i k, 12 + i)%Z one_byte 0 sample_java sample_java
      (str "hello") eq_refl) as [H _].
    destruct H as (h' & E & _ & H); [split; by_decide|]. unfold stored. rewrite E. exact H.
Defined.

(** Characters the machine cannot provide are taken for a string. *)
Lemma java_characters_missing {VM jclass jmethodID jobject : Type} ra ma pl Index
    (h : @JavaBackend.Handler VM jclass jmethodID jobject) e c m i o v1 v2 v3 v4 v5 v6 :
  JavaBackend.jnienv h = Some e →
  JavaBackend.FindClass e (str "WebApp") (JavaBackend.machine h) = (v1, inr (Some c)) →
  JavaBackend.GetStaticMethodID e c (str "invoke")
    (str "(Ljava/lang/String;)Ljava/lang/String;") v1 = (v2, inr (Some m)) →
  JavaBackend.NewStringUTF e (c_string (JavaBackend.ReqPayloadString h)) v2 = (v3, inr i) →
  JavaBackend.CallStaticObjectMethod e c m i v3 = (v4, inr (Some o)) →
  JavaBackend.ReleaseStringUTFChars e i v4 = (v5, inr ()) →
  JavaBackend.GetStringUTFChars e o v5 = (v6, inr None) →
  (JavaBackend.process ra ma pl Index h).2 = inl Undefined.
Proof.
  intros He Hc Hm Hi Ho Hr Hg.
  assert (∀ v, JavaBackend.jnienv (JavaBackend.set_machine v h) = Some e) as Hv by done.
  assert (JavaBackend.invoke h = (JavaBackend.set_machine v6 h, inl Undefined)) as E.
  { unfold JavaBackend.invoke.
    rewrite (run_bind _ _ _ _ _ (JavaBackend.run_env_call _ e h v1 _ He Hc)).
    rewrite (run_bind _ _ _ _ _ (JavaBackend.run_env_call _ e (JavaBackend.set_machine v1 h) v2 _ (Hv v1) Hm)).
    rewrite run_get.
    rewrite (run_bind _ _ _ _ _ (JavaBackend.run_env_call _ e (JavaBackend.set_machine v2 h) v3 _ (Hv v2) Hi)).
    rewrite (run_bind _ _ _ _ _ (JavaBackend.run_env_call _ e (JavaBackend.set_machine v3 h) v4 _ (Hv v3) Ho)).
    rewrite (run_bind _ _ _ _ _ (JavaBackend.run_env_call _ e (JavaBackend.set_machine v4 h) v5 _ (Hv v4) Hr)).
    rewrite (run_bind _ _ _ _ _ (JavaBackend.run_env_call _ e (JavaBackend.set_machine v5 h) v6 _ (Hv v5) Hg)).
    done. }
  unfold JavaBackend.process, mbind, St_bind. by rewrite E.
Qed.

(** A machine that does not start is not noticed; the first request then goes
    through an indeterminate pointer. *)
Lemma java_start_failure {VM jclass jmethodID jobject : Type} create ra ma pl Index
    (h : @JavaBackend.Handler VM jclass jmethodID jobject) m rc :
  JavaBackend.jnienv h = None →
  create (JavaBackend.mkInitArgs JavaBackend.JNI_VERSION_1_6
    [str "-Djava.class.path=./json-java.jar:."] false) (JavaBackend.machine h) =
    (m, inr (rc, None)) →
  JavaBackend.init create h = (JavaBackend.set_machine m h, inr ()) ∧
  (JavaBackend.process ra ma pl Index (JavaBackend.set_machine m h)).2 = inl Undefined.
Proof.
  intros He Hc. split.
  - unfold JavaBackend.init. unfold mbind, St_bind, JavaBackend.on_machine. cbv zeta.
    change (c_string (str "-Djava.class.path=./json-java.jar:.")) with
      (str "-Djava.class.path=./json-java.jar:."). by rewrite Hc.
  - unfold JavaBackend.process, JavaBackend.invoke, JavaBackend.env_call.
    unfold mbind, St_bind, get. cbn. by rewrite He.
Qed.

(** ** Python *)

(** An operation of the interpreter fails only by raising in Python. *)
Definition raises_python {I A} (m : St I A) : Prop :=
  ∀ i i' e, m i = (i', inl e) → e = Throw error_already_set.

(** An application server in Python survives every error of the interpreter
    and of the application, the import that failed included, and gives no
    answer: a request leaves the shared memory as it was, whatever the
    application returns. *)
Theorem python_request_without_answer {I object : Type} attr call extract PyErr_Print Index
    (h h' : @PythonBackend.Handler I object) r :
  (∀ o name, raises_python (attr o name)) → (∀ o args, raises_python (call o args)) →
  (∀ o, raises_python (extract o)) → (∀ i, (PyErr_Print i).2 = inr ()) →
  PythonBackend.process attr call extract PyErr_Print Index h = (h', r) →
  r = inr () ∧ PythonBackend.Shared h' = PythonBackend.Shared h ∧
  PythonBackend.PyClass h' = PythonBackend.PyClass h ∧
  PythonBackend.ReqPayloadString h' = PythonBackend.ReqPayloadString h.
Proof.
  intros Ha Hc Hx Hp. unfold PythonBackend.process, PythonBackend.catch_python,
    PythonBackend.on_python, mbind, St_bind, get. cbn.
  assert (∀ i, ∃ i', PyErr_Print i = (i', inr ())) as Hprint.
  { intros i. specialize (Hp i). destruct (PyErr_Print i) as [i' x]. cbn in Hp. subst. eauto. }
  destruct (attr _ _ _) as [i1 [e|m]] eqn:E1; cbn.
  { apply Ha in E1 as ->. destruct (Hprint i1) as [i' ->]. by intros [= <- <-]. }
  destruct (call _ _ _) as [i2 [e|o]] eqn:E2; cbn.
  { apply Hc in E2 as ->. destruct (Hprint i2) as [i' ->]. by intros [= <- <-]. }
  destruct (extract _ _) as [i3 [e|c]] eqn:E3; cbn.
  { apply Hx in E3 as ->. destruct (Hprint i3) as [i' ->]. by intros [= <- <-]. }
  by intros [= <- <-].
Qed.

(** [None] has no attribute [invoke]. *)
Lemma python_request_without_answer_witness :
  let attr := λ (o : option ()) (name : bytes) (i : nat),
    (i, match o with Some _ => inr o | None => inl (Throw error_already_set) end) in
  let call := λ (o : option ()) (args : list bytes), mret o in
  let extract := λ o : option (), mret (str "answer") in
  let print := modify S in
  let h := PythonBackend.mkHandler (str "request") None 0 (str "shared") in
  ∃ h', PythonBackend.process attr call extract print 3 h = (h', inr ()) ∧
    PythonBackend.Shared h' = str "shared" ∧ PythonBackend.interpreter h' = 1.
Proof.
  intros attr call extract print h.
  destruct (PythonBackend.process attr call extract print 3 h) as [h' r] eqn:E.
  destruct (python_request_without_answer attr call extract print 3 h h' r) as (-> & Hs & _).
  - intros o name i i' e. unfold attr. destruct o; intros [= _ <-]. done.
  - by intros o args i i' e.
  - by intros o i i' e.
  - done.
  - exact E.
  - exists h'. split; [reflexivity|]. split; [exact Hs|]. by injection E as <-.
Defined.
