(* ===== verification/SystemTheorems.v ===== *)
(** * Properties of connections, server, memory helpers and static files *)
From S2P Require Export Configuration HttpTheorems.
From stdpp Require Import options.

Import HTTPParser Connection Server.

(** ** Sample states of the witnesses *)

(** A handler with room for two clients, one of them connected as descriptor 5. *)
Definition sample_handler : ClientHandler :=
  mkHandler 0 (MemoryManager.mkManager 2 SOCKET_RECEIVE_BUFFER_SIZE 0 1000)
    (replicate (Z.to_nat 8192) "x"%char) ∅ ∅ ∅ [].
Definition connected : ClientHandler := (addClient 0 5 sample_handler).1.

Lemma sample_handler_ok : handler_ok sample_handler.
Proof.
  split.
  - apply dom_empty_L.
  - apply map_Forall_empty.
  - split; by_decide.
  - reflexivity.
  - vm_compute. reflexivity.
  - apply map_Forall_empty.
Defined.

Lemma connected_ok : handler_ok connected.
Proof. exact (proj1 (add_client_ok sample_handler 0 5 _ _ sample_handler_ok (surjective_pairing _))). Defined.

(** A request in two pieces, and two requests the parser throws on. *)
Definition get_bytes : bytes := printed_get sample_get ++ HTTP_1_1_END_MARKER.
Definition attack_bytes : bytes :=
  StringHelper.join HTTP_1_1_END_MARKER [printed_get sample_get; sample_post].

Definition receiving : ClientHandler :=
  arrive [(5%Z, [Bytes (take 9 get_bytes); Bytes (drop 9 get_bytes); Bytes []])] connected.
Definition attacked : ClientHandler := arrive [(5%Z, [Bytes attack_bytes])] connected.

Lemma receiving_ok : handler_ok receiving.
Proof. apply arrive_ok; [exact connected_ok|by_decide]. Defined.

Lemma attacked_ok : handler_ok attacked.
Proof. apply arrive_ok; [exact connected_ok|by_decide]. Defined.

Definition sample_client : Client := new_client 5 0.

(** ** Connections *)

(** A call of [receiveData] hands the client's parser exactly the chunks
    the kernel had for its descriptor, in order, although all clients receive
    through one block of memory: the parser is left as by [feed], nothing of any
    other client changes, and the client is reported as finished exactly at the
    end of its stream or at a fatal error. *)
Theorem receive_is_feed h fd c chunks finished rest p' res :
  handler_ok h → Clients h !! fd = Some c →
  stream (default [] (pending h !! fd)) = (chunks, finished, rest) →
  feed chunks (parser c) = (p', res) →
  ∃ h', receiveData fd c h = (h', match res with inl e => inl e | inr _ => inr finished end) ∧
    Clients h' = <[fd := mkClient p' fd (_ReceiveBuffer c)]> (Clients h) ∧
    monitored h' = monitored h ∧ closed h' = closed h ∧
    (res = inr () → default [] (pending h' !! fd) = rest).
Proof.
  intros Hh Hc Hs Hf.
  destruct (receive_spec _ _ _ _ _ _ _ _ Hh Hc Hs Hf) as (h' & E & [] & Hr).
  exists h'. by repeat split.
Qed.

Lemma receive_is_feed_witness :
  let p' := (feed [take 9 get_bytes; drop 9 get_bytes] (HTTPParser.init 4096)).1 in
  getRequests p' = [expected_get sample_get] ∧
  ∃ h', receiveData 5 sample_client receiving = (h', inr true) ∧
    Clients h' = <[5%Z := mkClient p' 5 0]> (Clients receiving) ∧
    monitored h' = monitored receiving ∧ closed h' = closed receiving ∧
    (inr () = inr () :> fault + () → default [] (pending h' !! 5%Z) = []).
Proof.
  intros p'. split; [vm_compute; reflexivity|].
  apply (receive_is_feed receiving 5 sample_client
    [take 9 get_bytes; drop 9 get_bytes] true [] p' (inr ()) receiving_ok);
    vm_compute; reflexivity.
Defined.

(** C27: whatever clients connect, send or close, and also when an exception
    ends it, the server loop keeps the invariant of the client handler: the
    clients are exactly the monitored descriptors, each with its own descriptor,
    a well-formed parser, and a receive buffer within the allocated block. *)
Theorem server_loop_invariant base block rounds h' r :
  Z.of_nat (length block) = (CLIENTS_MAX * SOCKET_RECEIVE_BUFFER_SIZE)%Z →
  Forall round_ok rounds → ServerLoop rounds (Connection.init base block) = (h', r) →
  handler_ok h'.
Proof.
  intros Hb Hr E. eapply server_loop_ok; [|exact Hr|exact E].
  split.
  - apply dom_empty_L.
  - apply map_Forall_empty.
  - split; by_decide.
  - reflexivity.
  - cbn [Block BufferMemory Connection.init MemoryManager.SegmentCount]. by rewrite Hb.
  - apply map_Forall_empty.
Qed.

(** A client connects, sends a request in two rounds and closes. *)
Definition sample_rounds : list round :=
  [mkRound 1 POLLIN 5 0 (Some []) [] false;
   mkRound 0 0 0 0 (Some [5%Z]) [(5%Z, [Bytes (take 9 get_bytes)])] false;
   mkRound 0 0 0 0 (Some [5%Z; 7%Z]) [(5%Z, [Bytes (drop 9 get_bytes); Bytes []])] false].

Lemma server_loop_invariant_witness :
  let block := replicate (Z.to_nat (CLIENTS_MAX * SOCKET_RECEIVE_BUFFER_SIZE)) "x"%char in
  handler_ok (ServerLoop sample_rounds (Connection.init 4096 block)).1.
Proof.
  intros block.
  apply (server_loop_invariant 4096 block sample_rounds _
    (ServerLoop sample_rounds (Connection.init 4096 block)).2).
  - unfold block. rewrite length_replicate. rewrite Z2Nat.id; [reflexivity|discriminate].
  - by_decide.
  - apply surjective_pairing.
Defined.

(** C28: nothing on the way catches an exception of the parser: a client whose
    pending bytes make it throw ends the server loop in the round in which the
    kernel reports it ready; the clients behind it are not served, and its own
    descriptor is not closed. *)
Theorem client_exception_stops_server h i rounds fd fds c chunks finished rest p' e :
  handler_ok h → arrivals i = [] → Z.land (revents i) POLLIN = 0%Z →
  epoll_ready i = Some (fd :: fds) → Clients h !! fd = Some c →
  stream (default [] (pending h !! fd)) = (chunks, finished, rest) →
  feed chunks (parser c) = (p', inl e) →
  ∃ h', ServerLoop (i :: rounds) h = (h', inl e) ∧
    Clients h' = <[fd := mkClient p' fd (_ReceiveBuffer c)]> (Clients h) ∧
    closed h' = closed h.
Proof.
  intros Hh Ha Hp He Hc Hs Hf.
  assert (handler_ok (set_processed 0 h)) as Hh0 by by destruct Hh.
  destruct (receive_spec (set_processed 0 h) _ _ _ _ _ _ _ Hh0 Hc Hs Hf)
    as (h' & E & [] & _).
  exists h'. split; [|done]. cbn [ServerLoop].
  erewrite run_bind; [|unfold server_round; rewrite Ha, Hp, He; run].
  2:{ rewrite (decide_False (P := 0%Z ≠ 0%Z)) by tauto.
      rewrite (run_bind _ _ h h (inr ())) by by case_decide.
      unfold processClients. run. rewrite decide_True by (simpl; lia).
      cbn [readClientData]. run. cbn [Clients set_processed]. rewrite Hc.
      unfold mbind at 1, St_bind at 1. unfold mbind at 1, St_bind at 1.
      rewrite E. reflexivity. }
  done.
Qed.

Lemma client_exception_stops_server_witness :
  ∃ h', ServerLoop [mkRound 0 0 0 0 (Some [5%Z]) [] false; mkRound 0 0 0 0 (Some []) [] false] attacked =
      (h', inl (Throw out_of_range)) ∧
    Clients h' = <[5%Z := mkClient (feed [attack_bytes] (HTTPParser.init 4096)).1 5 0]>
      (Clients attacked) ∧
    closed h' = closed attacked.
Proof.
  apply (client_exception_stops_server attacked _ _ 5 [] sample_client [attack_bytes] false []
    (feed [attack_bytes] (HTTPParser.init 4096)).1 (Throw out_of_range) attacked_ok);
    vm_compute; reflexivity.
Defined.

(** The server loop is entered only by a process that was root and has
    taken on the configured group and then the configured user, after the
    socket was bound and is listening; the calls of the setup are exactly these,
    in this order. *)
Theorem init_drops_privileges os Address Port GroupID UserID p p' fd :
  init_process os Address Port GroupID UserID p = (p', inr fd) →
  uid p = 0%Z ∧ uid p' = UserID ∧ gid p' = GroupID ∧
  calls p' = calls p ++ setup_calls os Address Port GroupID UserID.
Proof. apply init_process_calls. Qed.

Lemma init_drops_privileges_witness :
  let os := λ c, match c with SysSocket => 3%Z | FcntlGetFl _ => 2%Z | _ => 0%Z end in
  let p := mkProc [] 0 0 in
  let p' := (init_process os (str "127.0.0.1") 80 2000 2001 p).1 in
  uid p = 0%Z ∧ uid p' = 2001%Z ∧ gid p' = 2000%Z ∧
  calls p' = calls p ++ setup_calls os (str "127.0.0.1") 80 2000 2001.
Proof.
  intros os p p'. apply (init_drops_privileges os (str "127.0.0.1") 80 2000 2001 p p' 3).
  vm_compute. reflexivity.
Defined.

(** ** Memory helpers *)

(** C31: successive buffers are the segments in turn; segments never overlap;
    but because the address is scaled by [sizeof(T)] twice, segment [k] lies in
    the allocated block exactly if [k * sizeof(T)^2] is below the number of
    segments, so all do only for one-byte elements. *)
Theorem memory_segments sizeofT m n :
  MemoryManager.manager_ok m → (0 < sizeofT)%Z →
  (∀ k, k < n → MemoryManager.pointers sizeofT n m !! k =
     Some (MemoryManager.segment sizeofT m
       ((MemoryManager.SegmentOffset m + Z.of_nat k) `mod` MemoryManager.SegmentCount m))) ∧
  (∀ k j, (k < j)%Z → (MemoryManager.segment sizeofT m k + MemoryManager.SegmentSize m <=
     MemoryManager.segment sizeofT m j)%Z) ∧
  (∀ k, (0 <= k)%Z →
     (MemoryManager.segment sizeofT m k + MemoryManager.SegmentSize m <=
        MemoryManager.MemoryBaseAddress m +
        MemoryManager.SegmentCount m * MemoryManager.SegmentSize m)%Z ↔
     (k * (sizeofT * sizeofT) < MemoryManager.SegmentCount m)%Z).
Proof.
  intros Hm Ht. split; [|split].
  - intros k Hk. by apply MemoryManager.pointers_lookup.
  - intros k j Hkj. by apply MemoryManager.segments_apart.
  - intros k Hk. by apply MemoryManager.segment_inside.
Qed.

Lemma memory_segments_witness :
  let m := MemoryManager.mkManager 3 4 0 100 in
  MemoryManager.pointers 1 4 m !! 3 = Some 100%Z ∧
  ((MemoryManager.segment 8 m 1 + 4 <= 100 + 3 * 4)%Z ↔ (1 * (8 * 8) < 3)%Z).
Proof.
  intros m. assert (MemoryManager.manager_ok m) as Hm by (split; by_decide).
  split.
  - rewrite (proj1 (memory_segments 1 m 4 Hm eq_refl) 3) by by_decide. reflexivity.
  - apply (memory_segments 8 m 4 Hm eq_refl). by_decide.
Defined.

(** Erasing several elements, by ascending indices, removes exactly the
    named ones when every index passes the bound the code tests (the index, not
    corrected by the number of elements already erased, against the current
    end); an index that does not pass it is skipped. *)
Theorem erase_named_elements {T} (v : list T) idxs :
  Sorted.StronglySorted Z.lt idxs → Forall (λ i, 0 <= i)%Z idxs →
  Vector.passes (Z.of_nat (length v)) 0 idxs → (Z.of_nat (length v) < 2 ^ 32)%Z →
  Vector.erase v idxs = inr (Vector.keep 0 idxs v).
Proof. intros Hs Hp Hb Hl. by apply (Vector.erase_loop_keep _ _ 0 (Z.of_nat (length v))); [..|lia|lia|]. Qed.

Lemma erase_named_elements_witness :
  Vector.erase [10; 11; 12; 13; 14]%Z [0; 2; 3]%Z = inr (Vector.keep 0 [0; 2; 3]%Z [10; 11; 12; 13; 14]%Z) ∧
  Vector.erase [10; 11; 12; 13; 14]%Z [0; 1; 4]%Z = inr [12; 13; 14]%Z.
Proof.
  split; [|reflexivity]. apply erase_named_elements; [|by_decide..].
  repeat constructor.
Defined.
