(* ===== verification/ServerTheorems.v ===== *)
(** * Properties of the whole program *)
From S2P Require Export ServerDelivery ServerMain SystemTheorems ServerEdges.
From stdpp Require Import options.

Import StringHelper HTTPParser RoundTrip Connection Configuration Server ServerDelivery ServerEdges ServerMain Filesystem.

(** ** From the socket to the requests *)

(** C2: end to end: a client connects, and over any number of rounds, among any
    other traffic, the kernel delivers the bytes of a pipeline of GET requests
    in pieces of any size, with interruptions. When the loop is stopped without
    an exception and everything has been read, the parser of this client has
    delivered exactly these requests, in order. *)
Theorem server_delivers_pipeline fd i rounds h h' reqs :
  let input := default [] (pending h !! fd) ++ arrived fd (executed (i :: rounds)) in
  handler_ok h → Clients h !! fd = None → connects fd i →
  Forall round_ok (i :: rounds) → Forall (λ j, accepted j ≠ fd) rounds →
  Forall alive input → concat (payloads input) = join HTTP_1_1_END_MARKER (map printed_get reqs) →
  (Z.of_nat (length (concat (payloads input))) <= 4096)%Z → Forall get_ok reqs →
  ServerLoop (i :: rounds) h = (h', inr ()) → default [] (pending h' !! fd) = [] →
  ∃ c, Clients h' !! fd = Some c ∧ getRequests (parser c) = map expected_get reqs ∧
    _HTTPRequestBuffer (parser c) = [] ∧ _RequestParseError (parser c) = 0%Z.
Proof.
  intros input Hh Hnone Hcon [Hi Hr]%Forall_cons Hacc Ha Hc Hl Hreqs E Hread.
  assert (∃ off, tracks fd off (HTTPParser.init 4096) input h') as (off & taken & p & Hin & Hf & Hcl).
  { subst input. cbn [ServerLoop executed arrived flat_map] in *.
    destruct (server_round i h) as [h1 [e|[]]] eqn:Ei; rewrite (run_bind _ _ _ _ _ Ei) in E; [done|].
    rewrite app_assoc in Ha. pose proof Ha as [Ha1 _]%Forall_app.
    destruct (tracks_connect _ _ _ _ Hh Hi Hcon Hnone Ha1 Ei) as (off & Ht & Hh1).
    exists off. rewrite app_assoc. destruct (sigterm i).
    - injection E as <-. cbn. by rewrite app_nil_r.
    - by eapply tracks_loop. }
  rewrite Hread, app_nil_r in Hin. rewrite Hin in Hc, Hl.
  destruct (printed_gets_fed 4096 reqs _ Hreqs Hc Hl) as (p1 & Hf1 & Hq & Hb & He).
  rewrite Hf in Hf1. injection Hf1 as <-. by eexists.
Qed.

(** A client connects and sends two requests in four pieces, while another one
    connects and sends something else; then the server is stopped. *)
Definition pipeline_bytes : bytes := join HTTP_1_1_END_MARKER (map printed_get [sample_get; sample_get]).
Definition pipeline_first : round :=
  mkRound 1 POLLIN 5 0 (Some [5%Z]) [(5%Z, [Bytes (take 9 pipeline_bytes)])] false.
Definition pipeline_rounds : list round :=
  [mkRound 1 POLLIN 7 0 (Some []) [] false;
   mkRound 0 0 0 0 (Some [5; 7]%Z)
     [(7%Z, [Bytes (str "POST")]);
      (5%Z, [Bytes (take 30 (drop 9 pipeline_bytes)); Error EINTR])] false;
   mkRound 0 0 0 0 (Some [5]%Z) [(5%Z, [Bytes (take 1 (drop 39 pipeline_bytes))])] false;
   mkRound (-1) 0 0 0 (Some [7; 5]%Z)
     [(5%Z, [Bytes (drop 40 pipeline_bytes)]); (7%Z, [Bytes []])] true;
   mkRound 0 0 0 0 (Some [5]%Z) [(5%Z, [Bytes []])] false].

Lemma server_delivers_pipeline_witness :
  let h' := (ServerLoop (pipeline_first :: pipeline_rounds) sample_handler).1 in
  ∃ c, Clients h' !! 5%Z = Some c ∧
    getRequests (parser c) = map expected_get [sample_get; sample_get] ∧
    _HTTPRequestBuffer (parser c) = [] ∧ _RequestParseError (parser c) = 0%Z.
Proof.
  intros h'.
  apply (server_delivers_pipeline 5 pipeline_first pipeline_rounds sample_handler h'
    [sample_get; sample_get]).
  - exact sample_handler_ok.
  - reflexivity.
  - by_decide.
  - by_decide.
  - by_decide.
  - by_decide.
  - vm_compute. reflexivity.
  - vm_compute. discriminate.
  - by_decide.
  - unfold h'. rewrite (surjective_pairing (ServerLoop _ _)) at 1. apply f_equal. vm_compute. reflexivity.
  - vm_compute. reflexivity.
Defined.

(** ** The program *)

(** C29: the program serves clients only as the unprivileged user. However it is
    configured and whatever the kernel answers, either it ends before the loop
    with no client ever accepted, or it was started by root, has made exactly
    the calls of a complete setup with the configured address and port, in this
    order, and runs the loop as user and group 2000; every configured namespace
    then has the table of its files. *)
Theorem program_serves_unprivileged os directory open_file file_size read_file hash_string order
    js jn jl items base block p signalled rounds s r :
  (∀ m, order m ≡ₚ map_to_list m) →
  main os directory open_file file_size read_file hash_string order js jn jl items base block p signalled
    rounds = inr (s, r) →
  ∃ conf, construct js jn jl items = inr conf ∧
  ((∃ e, r = inl e) ∧ Handler s = Connection.init base block ∨
   (uid p = 0 ∧ uid (Process s) = 2000 ∧ gid (Process s) = 2000)%Z ∧
   (calls p ++ setup_calls os (ServerAddress conf) (ServerPort conf) 2000 2000)
     `prefix_of` calls (Process s) ∧
   ServerLoop (if signalled then [] else rounds) (Connection.init base block) = (Handler s, r) ∧
   ∀ Host ns, Namespaces conf !! Host = Some ns → ∃ ns',
     map_namespace directory open_file file_size read_file hash_string conf Host ns = inr ns' ∧
     Namespaces (ConfigRef s) !! Host = Some ns').
Proof.
  intros Horder E. unfold main in E. apply sum_bind_inr in E as (conf & Ec & E).
  injection E as E. exists conf. split; [done|].
  destruct (construct_defaults _ _ _ _ _ Ec) as (Hu & Hg & _).
  apply init_spec in E; [|done]. cbn [new_server Handler ConfigRef Process] in E.
  destruct E as [[He Hk]|(conf' & Hroot & Em & -> & Hu' & Hg' & Hcalls & Hloop)]; [by left|right].
  rewrite Hu, Hg in *. split; [done|]. split; [done|]. split; [done|].
  intros Host ns Hns. eapply map_files_tables; [|exact Em|].
  - rewrite (Horder _). apply NoDup_fst_map_to_list.
  - rewrite (Horder _). by apply elem_of_map_to_list.
Qed.

Definition sample_block : bytes := Block sample_handler.
Definition sample_os (c : syscall) : Z :=
  match c with SysSocket => 3 | FcntlGetFl _ => 2 | _ => 0 end%Z.
Definition sample_string (path : list string) : option bytes :=
  if decide (path = ["server"; "connection"; "ipv4"; "address"]) then None else Some (str "/www").
Definition sample_number (path : list string) : option Z := Some 8080%Z.
Definition sample_strings (path : list string) : option (list bytes) := Some [str "html"].
Definition sample_items : list NamespaceItem := [mkItem (Is (str "example.org")) (Is (str "/a")) (Is 2%Z)].
Definition sample_directory (path : bytes) : option (list (bytes * bytes)) :=
  Some [(path ++ str "index.html", str ".html")].
Definition sample_program : fault + ServerMain.Server * (fault + ()) :=
  main sample_os sample_directory (λ _, 4%Z) (λ _, 10%Z) (λ _, Some (str "abc")) length_z map_to_list
    sample_string sample_number sample_strings sample_items 4096 sample_block
    (mkProc [] 0 0) false (pipeline_first :: pipeline_rounds).

Lemma program_serves_unprivileged_witness :
  match sample_program with
  | inr (s, r) =>
      r = inr () ∧ dom (Clients (Handler s)) = {[5%Z]} ∧ ∃ conf, 
      construct sample_string sample_number sample_strings sample_items = inr conf ∧
      ((∃ e, r = inl e) ∧ Handler s = Connection.init 4096 sample_block ∨
       (0 = 0 ∧ uid (Process s) = 2000 ∧ gid (Process s) = 2000)%Z ∧
       ([] ++ setup_calls sample_os (ServerAddress conf) (ServerPort conf) 2000 2000)
         `prefix_of` calls (Process s) ∧
       ServerLoop (pipeline_first :: pipeline_rounds)
         (Connection.init 4096 sample_block) = (Handler s, r) ∧
       ∀ Host ns, Namespaces conf !! Host = Some ns → ∃ ns',
         map_namespace sample_directory (λ _, 4%Z) (λ _, 10%Z) (λ _, Some (str "abc")) length_z conf Host ns =
           inr ns' ∧
         Namespaces (ConfigRef s) !! Host = Some ns')
  | inl _ => False
  end.
Proof.
  assert (match sample_program with
          | inr (s, r) => r = inr () ∧ bool_decide (dom (Clients (Handler s)) = {[5%Z]}) = true
          | inl _ => False end) as H by (vm_compute; by split).
  destruct sample_program as [|[s r]] eqn:E; [exact H|]. destruct H as [Hr Hd].
  split; [exact Hr|]. split; [exact (bool_decide_eq_true_1 _ Hd)|].
  exact (program_serves_unprivileged sample_os sample_directory (λ _, 4%Z) (λ _, 10%Z)
    (λ _, Some (str "abc")) length_z map_to_list sample_string sample_number sample_strings sample_items
    4096 sample_block (mkProc [] 0 0) false (pipeline_first :: pipeline_rounds) s r
    (λ m, reflexivity (map_to_list m)) E).
Defined.

(** C30: termination: [SIGTERM] ends the server. The loop ends, at the latest, with
    the round in which the signal arrives, with the same state and outcome
    whatever would come after it. Unless the fault of a client has ended it, the
    flag is then cleared, and the children that were registered have each been
    asked once to end, the last one first. *)
Theorem sigterm_ends_loop rounds more s :
  RunServer s = true → signalled_in rounds = true →
  Loop (rounds ++ more) s = Loop rounds s ∧
  Server.ServerLoop (rounds ++ more) (Handler s) = Server.ServerLoop rounds (Handler s) ∧
  ∀ s', Loop rounds s = (s', inr ()) →
    RunServer s' = false ∧
    calls (Process s') = calls (Process s) ++
      flat_map (λ pid, [Kill pid "SIGTERM"; SleepFor 50]) (reverse (ChildPIDs s)).
Proof.
  intros Hrun Hsig. destruct (Loop rounds s) as [s1 r] eqn:E.
  destruct (loop_spec _ _ _ _ Hrun E) as (Hloop & _ & _ & _ & _ & Hend). rewrite Hsig in Hend.
  assert (Loop (rounds ++ more) s = (s1, r)) as E'.
  { rewrite loop_app, (run_bind _ _ _ _ _ E). destruct r as [e|[]]; [done|].
    apply loop_stopped. by destruct (Hend eq_refl). }
  split; [exact E'|]. split.
  - rewrite Hloop. by destruct (loop_spec _ _ _ _ Hrun E') as [-> _].
  - intros s' [= <- ->]. destruct (Hend eq_refl) as [Hflag Hcalls].
    split; [exact Hflag|]. rewrite Hcalls. f_equal. unfold kill_order.
    by rewrite flat_map_concat_map.
Qed.

Definition sample_parent : ServerMain.Server :=
  let conf := mkConfiguration [] [] 2000 2000 [] [] 80 [] ∅ in
  ((_ ← addChild 101; addChild 102)
    (new_server conf 4096 sample_block (mkProc [] 2000 2000))).1.

Lemma sigterm_ends_loop_witness :
  let rounds := pipeline_first :: pipeline_rounds in
  let s' := (Loop rounds sample_parent).1 in
  Loop (rounds ++ pipeline_rounds) sample_parent = Loop rounds sample_parent ∧
  RunServer s' = false ∧
  calls (Process s') = calls (Process sample_parent) ++
    flat_map (λ pid, [Kill pid "SIGTERM"; SleepFor 50]) [102; 101]%Z.
Proof.
  intros rounds s'.
  destruct (sigterm_ends_loop rounds pipeline_rounds sample_parent eq_refl eq_refl)
    as (H1 & _ & H2).
  split; [exact H1|]. apply (H2 s').
  unfold s'. rewrite (surjective_pairing (Loop _ _)) at 1. apply f_equal. vm_compute. reflexivity.
Defined.

(** ** Edge-triggered readiness *)

(** C3: readiness is asked for edge-triggered, so that every event has to be
    answered by reading all the input. In every state the loop can reach,
    whatever [read] returns: input that is pending at a monitored descriptor has
    an event the kernel has not reported yet, if none of the results of [read]
    asks to try again ([EINTR], [EAGAIN] or [EWOULDBLOCK] before the input is
    used up). A connected client without such an event has been fed everything
    that arrived for it, in order; or everything up to a result that asked to
    try again, which the code takes for the end of the input: what is behind it
    is pending and has no event. *)
Theorem edge_triggered_complete h E rounds h' E' :
  handler_ok h → no_lost_input h E → Forall round_ok rounds → edge_rounds h E rounds h' E' →
  (∀ fd, fd ∈ monitored h' → has_input h' fd →
    Forall final (queued fd h ++ arrived fd rounds) → fd ∈ E') ∧
  ∀ fd off p0 input,
    tracks fd off p0 input h → Forall (λ i, accepted i ≠ fd) rounds →
    Forall alive (input ++ arrived fd rounds) → fd ∉ E' →
    ∃ consumed p', input ++ arrived fd rounds = consumed ++ queued fd h' ∧
      feed (payloads consumed) p0 = (p', inr ()) ∧
      Clients h' !! fd = Some (mkClient p' fd off) ∧
      (queued fd h' = [] ∨ ∃ r, last consumed = Some r ∧ ¬ final r).
Proof.
  intros Hh Hn Hr He. split.
  - intros fd Hm Hin Hf. by apply (edge_rounds_ok _ _ _ _ _ fd He Hh Hr Hf (Hn fd)).
  - intros fd off p0 input Ht Hacc Ha HE.
    destruct (edge_rounds_settled _ _ _ _ _ He fd off p0 input Hh Hr Hacc Ha Ht)
      as [?|(consumed & (p' & Hi & Hf & Hcl) & Hst)]; [|done|by exists consumed, p'].
    destruct (decide (fd ∈ E)) as [?|Hne]; [by left|right].
    destruct Ht as (consumed & p' & Hi & Hf & Hcl). exists consumed.
    split; [by exists p'|left]. destruct (queued fd h) as [|r rs] eqn:Ep; [done|].
    destruct Hne. apply Hn; [rewrite <-(hok_fds _ Hh); by eapply elem_of_dom_2|].
    apply bool_decide_pack. unfold queued in Ep. by rewrite Ep.
Qed.

(** A request in two pieces; the event of the second is reported a round
    later. *)
Definition edge_sample : list round :=
  [mkRound 0 0 0 0 (Some [5]%Z) [(5%Z, [Bytes (take 9 get_bytes)])] false;
   mkRound 0 0 0 0 (Some []) [(5%Z, [Bytes (drop 9 get_bytes)])] false;
   mkRound 0 0 0 0 (Some [5]%Z) [] false].

Lemma edge_sample_rounds :
  edge_rounds connected ∅ edge_sample (events_after edge_sample connected ∅).1
    (events_after edge_sample connected ∅).2.
Proof. apply possible_rounds. by_decide. Defined.

(** In the second sample the call of [read] behind the first piece is
    interrupted; the piece behind it is left without an event. *)
Definition interrupted_sample : list round :=
  [mkRound 0 0 0 0 (Some [5]%Z)
     [(5%Z, [Bytes (take 9 get_bytes); Error EINTR; Bytes (drop 9 get_bytes)])] false].

Lemma interrupted_sample_rounds :
  edge_rounds connected ∅ interrupted_sample (events_after interrupted_sample connected ∅).1
    (events_after interrupted_sample connected ∅).2.
Proof. apply possible_rounds. by_decide. Defined.

Lemma nothing_queued : no_lost_input connected ∅.
Proof. intros fd _ Hin. apply bool_decide_unpack in Hin. by destruct Hin. Defined.

Lemma connected_tracked : tracks 5 0 (HTTPParser.init 4096) [] connected.
Proof. exists [], (HTTPParser.init 4096). repeat split; vm_compute; reflexivity. Defined.

Lemma edge_triggered_complete_witness :
  (let '(h', E') := events_after edge_sample connected ∅ in
   ∃ p', feed (payloads (arrived 5 edge_sample)) (HTTPParser.init 4096) = (p', inr ()) ∧
     Clients h' !! 5%Z = Some (mkClient p' 5 0)) ∧
  (let '(h', E') := events_after interrupted_sample connected ∅ in
   (5%Z ∉ E') ∧ queued 5 h' = [Bytes (drop 9 get_bytes)] ∧
   ∃ consumed p', arrived 5 interrupted_sample = consumed ++ queued 5 h' ∧
     feed (payloads consumed) (HTTPParser.init 4096) = (p', inr ()) ∧
     Clients h' !! 5%Z = Some (mkClient p' 5 0) ∧
     (queued 5 h' = [] ∨ ∃ r, last consumed = Some r ∧ ¬ final r)).
Proof.
  split.
  - destruct (edge_triggered_complete connected ∅ edge_sample _ _ connected_ok nothing_queued
      ltac:(by_decide) edge_sample_rounds) as [_ H].
    destruct (H 5%Z 0%Z (HTTPParser.init 4096) [] connected_tracked) as (consumed & p' & Hi & Hf & Hcl & _);
      [by_decide..|].
    assert (queued 5 (events_after edge_sample connected ∅).1 = []) as Hq by (vm_compute; reflexivity).
    rewrite Hq, app_nil_r in Hi. destruct (events_after edge_sample connected ∅) as [h' E'].
    exists p'. cbn [app] in Hi. by rewrite Hi.
  - destruct (edge_triggered_complete connected ∅ interrupted_sample _ _ connected_ok nothing_queued
      ltac:(by_decide) interrupted_sample_rounds) as [_ H].
    assert (5%Z ∉ (events_after interrupted_sample connected ∅).2) as HE by by_decide.
    specialize (H 5%Z 0%Z (HTTPParser.init 4096) [] connected_tracked ltac:(by_decide)
      ltac:(by_decide) HE).
    assert (queued 5 (events_after interrupted_sample connected ∅).1 = [Bytes (drop 9 get_bytes)])
      as Hq by (vm_compute; reflexivity).
    destruct (events_after interrupted_sample connected ∅) as [h' E'].
    split; [exact HE|]. split; [exact Hq|exact H].
Defined.

(** An interrupted call of [read] is taken for one that would block: the client
    stays, and what it has sent is read only when it sends more. *)
Theorem interrupted_read_strands_input h fd c rest :
  handler_ok h → Clients h !! fd = Some c → pending h !! fd = Some (Error EINTR :: rest) →
  ∃ h1, receiveData fd c h = (h1, inr false) ∧ default [] (pending h1 !! fd) = rest ∧
    ∀ E rounds h' E', edge_rounds h1 E rounds h' E' → fd ∉ E →
      Forall (λ i, round_ok i ∧ (fd ∉ map fst (arrivals i)) ∧ accepted i ≠ fd) rounds →
      default [] (pending h' !! fd) = rest ∧ Clients h' !! fd = Clients h !! fd.
Proof.
  intros Hh Hc Hp.
  destruct (receive_spec h fd c [] false rest (parser c) (inr ()) Hh Hc) as (h1 & Er & Hrec & Hrest);
    [by rewrite Hp|done|].
  destruct (receive_ok _ _ _ _ _ Hh Hc Er) as [Hh1 _]. specialize (Hrest eq_refl).
  exists h1. split; [done|]. split; [done|]. intros E rounds h' E' He HE Hr.
  destruct (stranded _ _ _ _ _ fd He Hh1 Hr HE) as (_ & -> & ->).
  split; [done|]. rewrite (rc_clients _ _ _ _ Hrec), lookup_insert_eq, Hc.
  destruct (map_Forall_lookup_1 _ _ _ _ (hok_clients _ Hh) Hc) as [Hfd _ _].
  destruct c. by simplify_eq/=.
Qed.

Lemma interrupted_read_strands_input_witness :
  let h := arrive [(5%Z, [Error EINTR; Bytes get_bytes])] connected in
  ∃ h1, receiveData 5 (new_client 5 0) h = (h1, inr false) ∧
    default [] (pending h1 !! 5%Z) = [Bytes get_bytes].
Proof.
  intros h. destruct (interrupted_read_strands_input h 5 (new_client 5 0) [Bytes get_bytes])
    as (h1 & E & Hp & _).
  - apply arrive_ok; [exact connected_ok|by_decide].
  - vm_compute. reflexivity.
  - vm_compute. reflexivity.
  - by exists h1.
Defined.

(** ** The idle test *)

Lemma read_keeps_count fds : ∀ h h' r,
  handler_ok h → readClientData fds h = (h', r) → ProcessedClients h' = ProcessedClients h.
Proof.
  induction fds as [|fd fds IH]; intros h h' r Hh E; [by injection E as <- _|].
  cbn [readClientData] in E. rewrite run_get in E.
  destruct (Clients h !! fd) as [c|] eqn:Hc; [|by eapply IH].
  destruct (stream (default [] (pending h !! fd))) as [[chunks d] rest] eqn:Es.
  destruct (feed chunks (parser c)) as [p' res] eqn:Ef.
  destruct (receive_spec _ _ _ _ _ _ _ _ Hh Hc Es Ef) as (h1 & Er & Hrec & _).
  destruct (receive_ok _ _ _ _ _ Hh Hc Er) as [Hh1 _].
  rewrite <-(rc_processed _ _ _ _ Hrec). unfold mbind, St_bind in E; rewrite Er in E.
  destruct res as [e|[]]; [by injection E as <- _|]. case_decide; [|by eapply IH].
  exact (IH (set_closed (closed h1 ++ [fd]) (set_monitored (monitored h1 ∖ {[fd]})
    (set_clients (delete fd (Clients h1)) h1))) h' r (close_ok _ fd Hh1) E).
Qed.

(** [ServerLoop] sleeps when nobody connects and no client was processed. The
    number of processed clients is reset by each call of [processClients] and
    never counted, so that the loop sleeps in every round without a connection,
    however busy it is. *)
Theorem processed_clients_never_counted epoll h h' r :
  handler_ok h → processClients epoll h = (h', r) → ProcessedClients h' = 0%Z.
Proof.
  intros Hh E. unfold processClients in E. rewrite run_modify in E.
  assert (handler_ok (set_processed 0 h)) as Hok by by destruct Hh.
  destruct epoll as [fds|]; [|by injection E as <- _].
  case_decide; [|by injection E as <- _]. exact (read_keeps_count _ _ _ _ Hok E).
Qed.

Lemma processed_clients_never_counted_witness :
  ProcessedClients (processClients (Some [5%Z]) receiving).1 = 0%Z.
Proof.
  eapply (processed_clients_never_counted (Some [5%Z]) receiving).
  - apply arrive_ok; [exact connected_ok|by_decide].
  - apply surjective_pairing.
Defined.
