(* ===== verification/XmlTheorems.v ===== *)
(** * Properties of the NLAP message parser and of the static file table *)
From S2P Require Export XmlOrder Filesystem.
From stdpp Require Import options.

Import XMLParser XmlOrder.

(** ** Framing *)

(** C32: the slices of an input are complete messages, one directly behind the
    other, found behind anything that is no start marker; a further start marker
    that does not follow immediately is a framing error, and an incomplete
    message at the end is none. This describes the result for every input, and
    every input composed in this way is split into its parts. *)
Theorem split_messages_correct :
  (∀ Input slices err, splitMessages Input = (slices, err) →
     ∃ skip bodies tail, Input = skip ++ concat (map message bodies) ++ tail ∧
       Forall body_ok bodies ∧ slices = slices_at (length skip) bodies ∧ tail_ok tail ∧
       (bodies ≠ [] → find NLAP_XML_START_MARKER Input = Some (length skip)) ∧
       err = match bodies with [] => false | _ => gap tail end) ∧
  (∀ skip bodies tail,
     Forall body_ok bodies → bodies ≠ [] → tail_ok tail →
     find NLAP_XML_START_MARKER (skip ++ NLAP_XML_START_MARKER) = Some (length skip) →
     splitMessages (skip ++ concat (map message bodies) ++ tail) =
       (slices_at (length skip) bodies, gap tail)).
Proof.
  split; [|apply split_messages_complete]. intros Input slices err E.
  destruct (split_loop_sound (S (length Input)) [] Input None slices err)
    as (skip & bodies & tail & HI & Hb & Hs & Ht & _ & Hf & He); [lia|by left|done|].
  exists skip, bodies, tail. by repeat split.
Qed.

(** ** The outcome of parsing *)

(** C33: parsing is all or nothing: an input that fits the buffer gives either
    one tree for every message and no error, or no tree at all and the error of
    the first message that is rejected, or, when every message is accepted and
    the framing is broken, the framing error. *)
Theorem parse_all_or_nothing syntax_run dtd_run size Input slices err :
  length Input <= size → splitMessages Input = (slices, err) →
  let r := parse syntax_run dtd_run size (Some Input) in
  (ErrorCode r = 0%Z ∧ err = false ∧
     Forall2 (λ s t, parseMessage syntax_run dtd_run s = (0%Z, t)) slices (Results r)) ∨
  (ErrorCode r = XML_ERROR_INVALID_FRAMING ∧ Results r = [] ∧ err = true ∧
     Forall (λ s, (parseMessage syntax_run dtd_run s).1 = 0%Z) slices) ∨
  (Results r = [] ∧ ErrorCode r ≠ 0%Z ∧ ∃ accepted m rest, slices = accepted ++ m :: rest ∧
     Forall (λ s, (parseMessage syntax_run dtd_run s).1 = 0%Z) accepted ∧
     (parseMessage syntax_run dtd_run m).1 = ErrorCode r).
Proof. apply parse_outcome. Qed.

(** A library that accepts every text and always builds the same document. *)
Definition sample_document : dom :=
  Element (str "NLAP") [Element (str "URL") [Text (str " /index ")]; Text (str "x");
                        Element (str "Info") [Element (str "UUID") [CData (str "42")]]].
Definition sample_syntax : bytes → list report := λ _, [].
Definition sample_run : bytes → list report * option (option dom) :=
  λ _, ([WarningReport (str "unused")], Some (Some sample_document)).
Definition sample_body : bytes :=
  str "<URL> /index </URL>x<Info><UUID>42</UUID></Info>".

Lemma parse_all_or_nothing_witness :
  let Input := str "junk" ++ message sample_body ++ message sample_body in
  let r := parse sample_syntax sample_run 4096 (Some Input) in
  (ErrorCode r = 0%Z ∧ (splitMessages Input).2 = false ∧
     Forall2 (λ s t, parseMessage sample_syntax sample_run s = (0%Z, t))
       (splitMessages Input).1 (Results r)) ∨
  (ErrorCode r = XML_ERROR_INVALID_FRAMING ∧ Results r = [] ∧ (splitMessages Input).2 = true ∧
     Forall (λ s, (parseMessage sample_syntax sample_run s).1 = 0%Z) (splitMessages Input).1) ∨
  (Results r = [] ∧ ErrorCode r ≠ 0%Z ∧ ∃ accepted m rest,
     (splitMessages Input).1 = accepted ++ m :: rest ∧
     Forall (λ s, (parseMessage sample_syntax sample_run s).1 = 0%Z) accepted ∧
     (parseMessage sample_syntax sample_run m).1 = ErrorCode r).
Proof.
  intros Input. apply (parse_all_or_nothing sample_syntax sample_run 4096 Input).
  - apply Nat.leb_le. vm_compute. reflexivity.
  - apply surjective_pairing.
Defined.

(** ** The tree *)

(** C34: the tree built for an element, whatever the document and the search
    offset. The recursive traversal with its shared offset is one scan of the
    message for the texts of the leaves in document order; what the scan gives
    for a leaf is an occurrence of its text in the message, or nothing when the
    text is empty or does not occur; and when the texts are written in the
    message one behind the other, every text that is not empty gets its own
    place, in document order and without overlap. The tree has a node for every
    path of names in the document and no other. Elements with the same path
    share its node, which has the place of the last leaf with that path that has
    one: what the earlier ones were given is lost. When siblings have different
    names, the tree represents the document, leaf by leaf. *)
Theorem populate_tree_faithful RawMessage tag cs off n off' :
  let e := Element tag cs in
  populateTree RawMessage e empty_node off = (n, off') →
  ∃ spans, scan RawMessage off (leaf_texts e) = (spans, off') ∧
    Forall2 (placed RawMessage) spans (leaf_texts e) ∧
    (written RawMessage.2 off (leaf_texts e) → in_order (RawMessage.1 + off) spans (leaf_texts e)) ∧
    (∀ path, is_Some (node_at n path) ↔ path ∈ element_paths e) ∧
    (∀ path, span_at n path = default (None, 0) (last_written path (zip (leaf_paths e) spans))) ∧
    (distinct_tags e → represents RawMessage e n ∧ leaf_spans e n = spans).
Proof.
  intros e E. pose proof (populate_writes RawMessage e empty_node off) as H. rewrite E in H.
  destruct H as (spans & Hs & Hn & Hsp). pose proof (scan_placed RawMessage (leaf_texts e) off) as Hp.
  exists spans. rewrite Hs in Hp. split; [done|]. split; [done|]. split; [|split; [|split]].
  - intros Hw%scan_written. by rewrite Hs in Hw.
  - apply fresh_paths; [by left|done].
  - intros path. by rewrite Hsp, span_at_fresh.
  - intros Hd. pose proof (populate_represents RawMessage _ Hd off) as Hr.
    pose proof (populate_scan RawMessage _ Hd off) as Hsc. rewrite E in Hr, Hsc.
    split; [done|]. rewrite Hs in Hsc. by injection Hsc.
Qed.

Lemma sample_distinct : distinct_tags sample_document.
Proof. repeat (constructor; try by_decide). Defined.

(** A document with different names, and one whose first element is lost. *)
Definition repeated_document : dom :=
  Element (str "Payload") [Element (str "Item") [Text (str "first")]; Element (str "Item") [Text (str "second")]].
Definition repeated_text : bytes :=
  str "<Payload><Item>first</Item><Item>second</Item></Payload>".

Lemma populate_tree_faithful_witness :
  (let R := (7, message sample_body) in
   let r := populateTree R sample_document empty_node 0 in
   represents R sample_document r.1 ∧
   in_order 7 (leaf_spans sample_document r.1) [str "/index"; str "42"] ∧
   leaf_spans sample_document r.1 = [(Some 19, 6); (Some 45, 2)]) ∧
  (let R := (0, repeated_text) in
   let r := populateTree R repeated_document empty_node 0 in
   scan R 0 [str "first"; str "second"] = ([(Some 15, 5); (Some 33, 6)], r.2) ∧
   ∀ path, span_at r.1 path =
     default (None, 0) (last_written path
       [([str "Item"], (Some 15, 5)); ([str "Item"], (Some 33, 6))])).
Proof.
  split; intros R r.
  - destruct (populate_tree_faithful R (str "NLAP") _ 0 r.1 r.2 (surjective_pairing _))
      as (spans & _ & _ & Hord & _ & _ & Hd).
    destruct (Hd sample_distinct) as [Hr Hl].
    split; [exact Hr|]. split; [|vm_compute; reflexivity]. unfold sample_document. rewrite Hl. apply Hord.
    apply (written_at _ _ 12); [by_decide|discriminate|by exists (drop 18 (message sample_body))|].
    apply (written_at _ _ 38); [by_decide|discriminate|by exists (drop 40 (message sample_body))|].
    apply written_nil.
  - destruct (populate_tree_faithful R (str "Payload") _ 0 r.1 r.2 (surjective_pairing _))
      as (spans & Hs & _ & _ & _ & Hsp & _).
    assert (spans = [(Some 15, 5); (Some 33, 6)]) as ->.
    { symmetry. etransitivity; [|exact (f_equal fst Hs)]. vm_compute. reflexivity. }
    split; [exact Hs|exact Hsp].
Defined.

(** Two siblings of one name with texts: the tree has the second one only, in a
    node of its own that does not mention the first. *)
Theorem repeated_siblings_share_node RawMessage tag name a b off n off' :
  populateTree RawMessage
    (Element tag [Element name [Text a]; Element name [Text b]]) empty_node off = (n, off') →
  trimCopy b ≠ [] → find (trimCopy b) RawMessage.2 ≠ None →
  ∃ f, substr RawMessage.2 f (length (trimCopy b)) = trimCopy b ∧
    Children n = {[name := Node ∅ (Some (RawMessage.1 + f)) (length (trimCopy b))]}.
Proof.
  intros E Hb Hf. cbn [populateTree populate_children] in E.
  unfold child in E. cbn [Children empty_node] in E. rewrite lookup_empty in E. cbn [default] in E.
  destruct (populate_leaf_ok [Text a] empty_node RawMessage off eq_refl eq_refl) as [_ Hc1].
  destruct (populate_leaf [Text a] empty_node RawMessage off) as [n1 off1]. cbn in Hc1.
  cbn [set_child Children] in E. rewrite lookup_insert_eq in E. cbn [default id] in E.
  pose proof (populate_leaf_place [Text b] n1 RawMessage off1 Hb Hf) as (f & Hsub & Hn2).
  destruct (populate_leaf [Text b] n1 RawMessage off1) as [n2 off2]. cbn in Hn2. subst n2.
  injection E as <- _. exists f. split; [done|]. cbn. rewrite Hc1. apply insert_insert_eq.
Qed.

Lemma repeated_siblings_share_node_witness :
  let R := (0, repeated_text) in let n := (populateTree R repeated_document empty_node 0).1 in
  ∃ f, substr repeated_text f 6 = str "second" ∧
    Children n = {[str "Item" := Node ∅ (Some f) 6]}.
Proof.
  intros R n. destruct (repeated_siblings_share_node R (str "Payload") (str "Item") (str "first")
    (str "second") 0 n _ (surjective_pairing _)) as (f & Hf & Hc).
  - discriminate.
  - vm_compute. discriminate.
  - exists f. split; [exact Hf|exact Hc].
Defined.

(** A text that is written with references, and not in the message as it is, is
    not found: its node stays as it was. *)
Theorem escaped_text_unaddressed RawMessage tag s off :
  trimCopy s ≠ [] → find (trimCopy s) RawMessage.2 = None →
  populateTree RawMessage (Element tag [Text s]) empty_node off = (empty_node, off).
Proof.
  intros Hs Hf. cbn [populateTree populate_children]. unfold populate_leaf.
  rewrite decide_False by done.
  destruct (find_from (getElementText [Text s]) RawMessage.2 off) as [f|] eqn:Ef.
  - apply find_from_occurs in Ef. exfalso. rewrite find_None in Hf.
    apply (Hf f); [|done]. apply occurs_lt in Ef; [lia|done].
  - by change (getElementText [Text s]) with (trimCopy s); rewrite Hf.
Qed.

Lemma escaped_text_unaddressed_witness :
  populateTree (0, str "<URL>/?a=1&amp;b=2</URL>") (Element (str "URL") [Text (str "/?a=1&b=2")])
    empty_node 0 = (empty_node, 0).
Proof. apply escaped_text_unaddressed; [discriminate|vm_compute; reflexivity]. Defined.

(** What an address may be. *)
Definition address_inside (Input : bytes) (n : XMLNode) : Prop :=
  match Address n with
  | Some a => 0 < Length n ∧ a + Length n <= length Input
  | None => True
  end.

Lemma all_nodes_impl (P Q : XMLNode → Prop) n :
  (∀ m, P m → Q m) → all_nodes P n → all_nodes Q n.
Proof. intros HPQ. induction 1 as [n Hn _ IH]. by split; auto. Qed.

Lemma slices_inside off bodies s :
  s ∈ slices_at off bodies → s.1 + length s.2 <= off + length (concat (map message bodies)).
Proof.
  revert off. induction bodies as [|b bodies IH]; intros off; cbn [slices_at map concat].
  - by intros ?%elem_of_nil.
  - rewrite length_app. intros [->|H]%elem_of_cons; cbn [fst snd]; [lia|].
    apply IH in H. lia.
Qed.

(** No address of any tree that [parse] returns leads out of the input,
    for every input, every buffer size, and whatever documents the library
    builds: each is followed by its length of bytes of the input. *)
Theorem parse_addresses_inside syntax_run dtd_run size Input :
  Forall (map_Forall (λ _, all_nodes (address_inside Input)))
    (Results (parse syntax_run dtd_run size (Some Input))).
Proof.
  destruct (decide (length Input <= size)) as [Hs|Hs].
  2:{ unfold parse. rewrite decide_True by lia. constructor. }
  destruct (splitMessages Input) as [slices err] eqn:E.
  destruct (parse_outcome syntax_run dtd_run size Input slices err Hs E)
    as [(_ & _ & H)|[(_ & -> & _)|[-> _]]]; [|constructor..].
  destruct (split_loop_sound (S (length Input)) [] Input None slices err)
    as (skip & bodies & tail & HI & _ & Hsl & _); [lia|by left|exact E|].
  apply Forall_forall. intros t Ht. apply list_elem_of_lookup_1 in Ht as [i Hi].
  destruct (Forall2_lookup_r _ _ _ _ _ H Hi) as (s & Hlook & Hp).
  apply parse_message_inside in Hp. eapply map_Forall_impl; [exact Hp|].
  intros name n Hn. eapply all_nodes_impl; [|exact Hn]. intros m Hm.
  apply list_elem_of_lookup_2 in Hlook. rewrite Hsl in Hlook. apply slices_inside in Hlook.
  cbn [length Nat.add] in Hlook.
  assert (length skip + length (concat (map message bodies)) <= length Input).
  { rewrite HI, !length_app. lia. }
  unfold inside in Hm. unfold address_inside. destruct (Address m); [lia|done].
Qed.

(** ** Static files *)

Import Filesystem.

Definition file_key (f : bytes * bytes) : bytes := f.1 ++ str "/" ++ f.2.

Lemma file_key_inj f g :
  ("/"%char ∉ f.2) → ("/"%char ∉ g.2) → file_key f = file_key g → f = g.
Proof.
  destruct f as [r1 n1], g as [r2 n2]. unfold file_key. cbn [fst snd]. intros H1 H2 E.
  pose proof (rfind_slash r1 n1 H1) as E1. rewrite E, rfind_slash in E1 by done.
  injection E1 as El. apply app_inj_1 in E as [-> E]; [|done]. by apply app_inv_head in E as ->.
Qed.

(** A file of the directory the server has to serve: its extension belongs to
    a configured mime type, and it can be opened. *)
Definition served (open_file : bytes → Z) (fs : Filesystem) (ext : bytes * bytes → bytes)
    (listing : list (bytes * bytes)) (f : bytes * bytes) : Prop :=
  f ∈ listing ∧ (∃ m, m ∈ Mimetypes fs ∧ ext f = str "." ++ m) ∧
  (open_file (static_file fs f.1 f.2) > 0)%Z.

Lemma elem_of_served open_file fs ext listing f :
  f ∈ filter (λ f, open_file (static_file fs f.1 f.2) > 0)%Z
        (flat_map (λ m, filter (λ f, ext f = str "." ++ m) listing) (Mimetypes fs)) ↔
  served open_file fs ext listing f.
Proof.
  rewrite list_elem_of_filter, list_elem_of_In, in_flat_map. unfold served. split.
  - intros [Ho (m & Hm%list_elem_of_In & [He Hf]%list_elem_of_In%list_elem_of_filter)]. eauto.
  - intros (Hf & (m & Hm & He) & Ho). split; [done|]. exists m.
    split; apply list_elem_of_In; [done|]. by apply list_elem_of_filter.
Qed.

(** C39: after [initFiles] and [processFileProperties] the table knows exactly
    the files below the static directory whose extension belongs to a
    configured mime type and which can be opened, by their path relative to
    that directory, each with its name, the text behind the last dot of the
    name, the mime type of that, its descriptor and the hash of its contents in
    hexadecimal, so that two tags are equal exactly if the hashes are. *)
Theorem static_files_served directory open_file file_size read_file hash_string fs ext
    contents listing :
  _Files fs = [] → _FilesExtended fs = ∅ →
  directory (BasePath fs ++ Path fs ++ STATICFS_SUBDIR ++ str "/") =
    Some (map (λ f, (static_file fs f.1 f.2, ext f)) listing) →
  Forall (λ f, ("/"%char ∉ f.2) ∧ (length_z (static_file fs f.1 f.2) < 2 ^ 63)%Z ∧
    ((open_file (static_file fs f.1 f.2) > 0)%Z →
     read_file (static_file fs f.1 f.2) = Some (contents f))) listing →
  ∃ fs', initFiles directory fs ≫= processFileProperties open_file file_size read_file hash_string =
      inr fs' ∧
    (∀ key, checkFileExists fs' key = true ↔
       ∃ f, served open_file fs ext listing f ∧ key = file_key f) ∧
    (∀ f, served open_file fs ext listing f → getFilePropertiesByFile fs' (file_key f) =
       mkProps (open_file (static_file fs f.1 f.2)) (u32 (file_size (static_file fs f.1 f.2)))
         f.2 (extension f.2) (mime_type (extension f.2)) (to_hex (u64 (hash_string (contents f))))
         [] []) ∧
    (∀ f g, served open_file fs ext listing f → served open_file fs ext listing g →
       ETag (getFilePropertiesByFile fs' (file_key f)) = ETag (getFilePropertiesByFile fs' (file_key g)) ↔
       u64 (hash_string (contents f)) = u64 (hash_string (contents g))).
Proof.
  intros H0 He Hd Hf. rewrite (init_files_static _ fs ext listing H0 Hd), He. set (fs1 := mkFS _ _ _ _ _ _ _).
  cbn [mbind sum_bind]. unfold processFileProperties.
  change (_Files fs1) with (map (λ f, static_file fs1 f.1 f.2)
    (flat_map (λ m, filter (λ f, ext f = str "." ++ m) listing) (Mimetypes fs))).
  change (_FilesExtended fs1) with (∅ : gmap bytes FileProperties_t).
  rewrite (process_files_static open_file file_size read_file hash_string fs1 contents).
  2:{ apply Forall_forall. intros f (m & Hm & Hin)%list_elem_of_In%in_flat_map.
      apply list_elem_of_In, list_elem_of_filter in Hin as [_ Hin].
      rewrite Forall_forall in Hf. exact (Hf f Hin). }
  cbn [mbind sum_bind]. eexists. split; [done|]. rewrite (left_id_L ∅ (∪)).
  unfold checkFileExists, getFilePropertiesByFile. cbn [_FilesExtended].
  match goal with |- context [list_to_map (map ?g ?l)] => set (L := l); set (props := g) end.
  assert (∀ f, f ∈ L ↔ served open_file fs ext listing f) as HL by (intros f; exact (elem_of_served open_file fs ext listing f)).
  clearbody L.
  assert (∀ f, served open_file fs ext listing f →
    (list_to_map (map props L) : gmap bytes FileProperties_t) !! file_key f = Some (props f).2) as Hlook.
  { intros f Hin. pose proof Hin as (Hfl & _). apply elem_of_list_to_map_1'.
    - intros x (g & Hg & (Hgl & _)%HL)%list_elem_of_fmap. injection Hg as Hk ->.
      rewrite Forall_forall in Hf.
      by rewrite (file_key_inj f g ltac:(by apply Hf) ltac:(by apply Hf) Hk).
    - apply list_elem_of_fmap. exists f. by rewrite HL. }
  split.
  - intros key. rewrite bool_decide_eq_true. split.
    + intros Hk. apply not_eq_None_Some in Hk as [x Hx].
      apply elem_of_list_to_map_2 in Hx. apply list_elem_of_fmap in Hx as (f & Hfx & Hin%HL).
      injection Hfx as -> _. by exists f.
    + intros (f & Hin & ->). by rewrite (Hlook f Hin).
  - split; [intros f Hin; by rewrite (Hlook f Hin)|]. intros f g Hf' Hg.
    rewrite (Hlook f Hf'), (Hlook g Hg). apply to_hex_inj; apply u64_range.
Qed.

Definition sample_fs : Filesystem :=
  mkFS (str "host") (str "/var/www") (str "/site") [str "html"; str "png"] [] ∅ [].
Definition sample_listing : list (bytes * bytes) :=
  [(str "", str "index.html"); (str "/img", str "a.b.png"); (str "", str "notes.txt")].
Definition sample_ext (f : bytes * bytes) : bytes := str "." ++ extension f.2.
Definition sample_directory (path : bytes) : option (list (bytes * bytes)) :=
  Some $ map (λ f, (static_file sample_fs f.1 f.2, sample_ext f)) sample_listing.

Lemma static_files_served_witness :
  let file := (str "/img", str "a.b.png") in
  served (λ _, 3%Z) sample_fs sample_ext sample_listing file ∧
  ∃ fs', initFiles sample_directory sample_fs ≫=
      processFileProperties (λ _, 3%Z) (λ _, 10%Z) (λ _, Some (str "e")) length_z = inr fs' ∧
    (∀ key, checkFileExists fs' key = true ↔
       ∃ f, served (λ _, 3%Z) sample_fs sample_ext sample_listing f ∧ key = file_key f) ∧
    (∀ f, served (λ _, 3%Z) sample_fs sample_ext sample_listing f →
       getFilePropertiesByFile fs' (file_key f) =
       mkProps 3 10 f.2 (extension f.2) (mime_type (extension f.2)) (str "1") [] []) ∧
    (∀ f g, served (λ _, 3%Z) sample_fs sample_ext sample_listing f →
       served (λ _, 3%Z) sample_fs sample_ext sample_listing g →
       ETag (getFilePropertiesByFile fs' (file_key f)) = ETag (getFilePropertiesByFile fs' (file_key g)) ↔
       1%Z = 1%Z).
Proof.
  intros file. split.
  - split; [by_decide|]. split; [exists (str "png"); split; [by_decide|reflexivity]|reflexivity].
  - apply (static_files_served sample_directory (λ _, 3%Z) (λ _, 10%Z) (λ _, Some (str "e")) length_z
      sample_fs sample_ext (λ _, str "e") sample_listing).
    + reflexivity.
    + reflexivity.
    + reflexivity.
    + repeat constructor; by_decide || reflexivity.
Defined.
