(* ===== verification/NlapTheorems.v ===== *)
(** * Properties of NLAP messages and of the parsers' lifetimes *)
From S2P Require Export XmlTheorems XmlDtd XmlLifecycle.
From stdpp Require Import options.

Import XMLParser XmlOrder XmlDtd.

(** ** The document type *)

(** The embedded bytes declare exactly the elements of [nlap_dtd]. *)
Lemma embedded_dtd : declarations NLAP_DTD_HEX = nlap_dtd.
Proof. vm_compute. reflexivity. Qed.

(** The root of a valid document has one element child, a request or a
    response. *)
Lemma valid_root cs :
  valid_element (Element (str "NLAP") cs) →
  ∃ kind, names cs = [kind] ∧ (kind = str "Request" ∨ kind = str "Response").
Proof.
  intros H. inversion H as [? ? m Hm Ha _| | |]; subst. 
  assert (Some m = Some (Choice [str "Request"; str "Response"])) as [= ->] by (rewrite <-Hm; reflexivity).
  cbn [admits] in Ha. destruct (names cs) as [|kind [|]]; try done.
  apply bool_decide_eq_true in Ha. exists kind. set_solver.
Qed.

Lemma names_element name cs : name ∈ names cs → ∃ cs', Element name cs' ∈ cs.
Proof.
  induction cs as [|c cs IH]; intros H; [by apply elem_of_nil in H|].
  destruct c; cbn [names] in H; try (destruct (IH H) as [cs' ?]; exists cs'; by right).
  apply elem_of_cons in H as [->|H]; [exists children; by left|].
  destruct (IH H) as [cs' ?]. exists cs'. by right.
Qed.

(** The parts every request and every response has. *)
Lemma valid_parts kind cs name :
  valid_element (Element kind cs) → kind = str "Request" ∨ kind = str "Response" →
  name ∈ [str "UUID"; str "Protocol"; str "Version"; str "Subtype"; str "Header"] →
  name ∈ names cs.
Proof.
  intros H Hk Hn. inversion H as [? ? m Hm Ha _| | |]; subst.
  assert (∃ ps, m = Sequence ps ∧ (name, false) ∈ ps) as (ps & -> & Hps).
  { destruct Hk as [-> | ->]; injection Hm as <-; eexists; (split; [reflexivity|]);
      rewrite !elem_of_cons, elem_of_nil in Hn; unfold message_parts, needed;
      set_solver. }
  by eapply matches_needed.
Qed.

Lemma find_declared p m :
  p = str "<!DOCTYPE" → find p (NLAP_XML_DECLARATION ++ m) = Nat.add 38 <$> find p m.
Proof. intros ->. cbn. by destruct (find _ m). Qed.

(** A message without declarations of its own gets both in front. *)
Lemma prepare_plain m :
  find (str "<?xml") m = None → find (str "<!DOCTYPE") m = None →
  ensureParseableXML m = NLAP_XML_DECLARATION ++ DOCTYPE ++ m.
Proof.
  intros Hxml Hdoc. unfold ensureParseableXML. rewrite (decide_True _ _ Hxml).
  rewrite decide_True by by rewrite find_declared, Hdoc.
  by rewrite (find_app (str "?>") NLAP_XML_DECLARATION m 36).
Qed.

(** What the library promises of its validating run, under the document type the
    parser puts in front of a message that has none: a text it has no error for
    gives a document that is valid. *)
Definition validates (dtd_run : bytes → list report * option (option dom)) : Prop :=
  ∀ text reports document, find (str "<!DOCTYPE") text = None →
    dtd_run (NLAP_XML_DECLARATION ++ DOCTYPE ++ text) = (reports, Some (Some document)) →
    hasAnyError (handled reports) = false → valid_document document.

(** C35: what the document type guarantees reaches the tree. When a message
    without declarations of its own is parsed, by a library that validates it,
    its tree has the path from the root to one request or response, whose node
    has the children identifier, protocol, version, subtype and header, and below
    it a node for every path of the document and no other. Every leaf outside
    the payload has a node of its own, with the place that one scan of the message for
    the texts of the leaves gives it: an occurrence of its text, or none when the
    text is empty or is not written in the message as it is; and when the texts
    are written one behind the other, the places follow each other without
    overlap. (The first occurrence may be inside a tag or another text.) In the
    payload, elements of one path share a node. *)
Theorem valid_message_tree syntax_run dtd_run m d tree :
  validates dtd_run → find (str "<?xml") m.2 = None → find (str "<!DOCTYPE") m.2 = None →
  parseMessage syntax_run dtd_run m = (0%Z, tree) →
  (dtd_run (ensureParseableXML m.2)).2 = Some (Some d) →
  ∃ cs kind parts root n spans off, d = Element (str "NLAP") cs ∧ Element kind parts ∈ cs ∧
    (kind = str "Request" ∨ kind = str "Response") ∧
    tree = {[str "NLAP" := root]} ∧ Children root = {[kind := n]} ∧
    let e := Element kind parts in
    (∀ name, name ∈ [str "UUID"; str "Protocol"; str "Version"; str "Subtype"; str "Header"] →
       name ∈ names parts ∧ is_Some (Children n !! name)) ∧
    (∀ path, is_Some (node_at n path) ↔ path ∈ element_paths e) ∧
    scan m 0 (leaf_texts e) = (spans, off) ∧ Forall2 (placed m) spans (leaf_texts e) ∧
    (written m.2 0 (leaf_texts e) → in_order m.1 spans (leaf_texts e)) ∧
    (∀ i path, leaf_paths e !! i = Some path → outside path → spans !! i = Some (span_at n path)) ∧
    (∀ path, span_at n path = default (None, 0) (last_written path (zip (leaf_paths e) spans))).
Proof.
  intros Hlib Hxml Hdoc Ep Ed. unfold parseMessage in Ep. rewrite prepare_plain in * by done.
  destruct (hasAnyError (handled (syntax_run _))); [done|].
  destruct (dtd_run _) as [reports document] eqn:Er. cbn in Ed. subst document.
  destruct (hasAnyError (handled reports)) eqn:He; [done|].
  destruct (Hlib _ _ _ Hdoc Er He) as [Hv [cs ->]].
  destruct (valid_root cs Hv) as (kind & Hnames & Hkind).
  destruct (names_element kind cs) as [parts Hparts]; [rewrite Hnames; by left|].
  destruct (one_child m cs kind parts Hnames Hparts) as (has & off & Hpop).
  pose proof (populate_writes m (Element kind parts) empty_node 0) as Hw. cbn beta iota in Hw.
  destruct (populateTree m (Element kind parts) empty_node 0) as [n off']. cbn [fst] in Hpop.
  rewrite Hpop in Ep. injection Ep as <-.
  destruct Hw as (spans & Hs & Hn & Hsp). inversion Hv as [? ? ? _ _ Hvs| | |]; subst.
  rewrite Forall_forall in Hvs. specialize (Hvs _ Hparts).
  pose proof (scan_placed m (leaf_texts (Element kind parts)) 0) as Hp. rewrite Hs in Hp. cbn [fst] in Hp.
  assert (∀ path, is_Some (node_at n path) ↔ path ∈ element_paths (Element kind parts)) as Hnode
    by (apply fresh_paths; [by left|done]).
  assert (∀ path, span_at n path =
    default (None, 0) (last_written path (zip (leaf_paths (Element kind parts)) spans))) as Hspan.
  { intros path. by rewrite Hsp, span_at_fresh. }
  exists cs, kind, parts, (set_child kind n empty_node), n, spans, off'. do 4 (split; [done|]). split.
  { apply insert_empty. }
  cbv zeta. split; [|split; [done|split; [done|split; [done|split; [|split; [|done]]]]]].
  - intros name Hname. pose proof (valid_parts kind parts name Hvs Hkind Hname) as Hin.
    split; [done|]. apply node_at_name, Hnode, element_path_name, Hin.
  - intros Hwr%scan_written. by rewrite Hs, Nat.add_0_r in Hwr.
  - intros i path Hi Hout. rewrite Hspan.
    assert (no_payload (Element kind parts)) as Hnp by by destruct Hkind as [-> | ->].
    pose proof (valid_leaf_paths _ Hvs Hnp) as Hnd.
    destruct (lookup_lt_is_Some_2 spans i) as [sp Hsi].
    { apply Forall2_length in Hp. rewrite Hp, <-leaf_paths_length. by eapply lookup_lt_Some. }
    rewrite Hsi. f_equal. symmetry. apply (last_written_only _ _ _ i); [|done..|].
    + intros j Hj. by eapply (filter_NoDup_lookup outside).
    + destruct (Forall2_lookup_l _ _ _ _ _ Hp Hsi) as (v & _ & Hpl). intros Hnone.
      destruct sp as [a len]. cbn in Hnone. subst a. by destruct Hpl as [[= ->] _].
Qed.

(** A request with the parts it needs, as the library's document and as text. *)
Definition leaf (name text : string) : dom := Element (str name) [Text (str text)].
Definition sample_request : dom :=
  Element (str "NLAP") [Element (str "Request")
    [leaf "UUID" "42"; leaf "Protocol" "NLAMP"; leaf "Version" "1"; leaf "Subtype" "GET";
     Element (str "Header") [leaf "Host" "example.org"; leaf "URL" "/"];
     Element (str "Payload") [leaf "UUID" "a"]]].
Definition request_body : bytes := str
  "<Request><UUID>42</UUID><Protocol>NLAMP</Protocol><Version>1</Version><Subtype>GET</Subtype><Header><Host>example.org</Host><URL>/</URL></Header><Payload><UUID>a</UUID></Payload></Request>".

Lemma sample_request_valid : valid_document sample_request.
Proof. split; [|by eexists]. unfold sample_request, leaf. repeat econstructor. Defined.

Lemma valid_message_tree_witness :
  let run := λ _ : bytes, ([WarningReport (str "unused")], Some (Some sample_request)) in
  let m := (0, message request_body) in
  let tree := (parseMessage (λ _, []) run m).2 in
  ∃ cs kind parts root n spans off, sample_request = Element (str "NLAP") cs ∧
    Element kind parts ∈ cs ∧ (kind = str "Request" ∨ kind = str "Response") ∧
    tree = {[str "NLAP" := root]} ∧ Children root = {[kind := n]} ∧
    let e := Element kind parts in
    (∀ name, name ∈ [str "UUID"; str "Protocol"; str "Version"; str "Subtype"; str "Header"] →
       name ∈ names parts ∧ is_Some (Children n !! name)) ∧
    (∀ path, is_Some (node_at n path) ↔ path ∈ element_paths e) ∧
    scan m 0 (leaf_texts e) = (spans, off) ∧ Forall2 (placed m) spans (leaf_texts e) ∧
    (written m.2 0 (leaf_texts e) → in_order m.1 spans (leaf_texts e)) ∧
    (∀ i path, leaf_paths e !! i = Some path → outside path → spans !! i = Some (span_at n path)) ∧
    (∀ path, span_at n path = default (None, 0) (last_written path (zip (leaf_paths e) spans))).
Proof.
  intros run m tree. apply (valid_message_tree (λ _, []) run m sample_request tree).
  - intros t r d _ [= _ <-] _. exact sample_request_valid.
  - vm_compute. reflexivity.
  - vm_compute. reflexivity.
  - reflexivity.
  - reflexivity.
Defined.

(** ** Preparation *)

(** C36: a message without declarations of its own is prepared by putting the
    declaration and the document type in front of it, and preparing the result
    again changes nothing. But a declaration is looked for anywhere: one that
    is quoted inside the message, in a payload, moves the document type there,
    so that nothing stands in front of the root element and the message is not
    validated against its type. *)
Theorem prepared_message body :
  let m := message body in
  let prepared := NLAP_XML_DECLARATION ++ DOCTYPE ++ m in
  find (str "<!DOCTYPE") m = None →
  (find (str "<?xml") m = None →
     ensureParseableXML m = prepared ∧ ensureParseableXML prepared = prepared) ∧
  (∀ i, find (str "<?xml") m ≠ None → find (str "?>") m = Some i →
     ensureParseableXML m = take (i + 2) m ++ DOCTYPE ++ drop (i + 2) m ∧
     NLAP_XML_START_MARKER `prefix_of` take (i + 2) m).
Proof.
  intros m prepared Hdoc. split.
  - intros Hxml. split; [by apply prepare_plain|]. unfold ensureParseableXML.
    + assert (find (str "<?xml") prepared ≠ None) as Hx by by rewrite find_unfold.
      assert (find (str "<!DOCTYPE") prepared ≠ None) as Hd
        by (unfold prepared; rewrite find_declared, find_unfold by done; done).
      by rewrite (decide_False _ _ Hx), (decide_False _ _ Hd).
  - intros i Hxml Hi. unfold ensureParseableXML. rewrite (decide_False _ _ Hxml), (decide_True _ _ Hdoc), Hi.
    split; [done|]. unfold m, message in *. exists (take (i + 2 - 6) (body ++ NLAP_XML_END_MARKER)).
    assert (4 <= i).
    { apply find_Some in Hi as (Ho & _ & _). destruct i as [|[|[|[|i]]]]; [..|lia];
        destruct Ho as [r Hr]; cbn in Hr; discriminate. }
    rewrite take_app. rewrite take_ge by (simpl; lia). done.
Qed.

Lemma prepared_message_witness :
  let m := message request_body in
  let quoted := message (str "<Payload><![CDATA[<?xml?>]]></Payload>") in
  ensureParseableXML m = NLAP_XML_DECLARATION ++ DOCTYPE ++ m ∧
  ensureParseableXML quoted =
    str "<NLAP><Payload><![CDATA[<?xml?>" ++ DOCTYPE ++ str "]]></Payload></NLAP>".
Proof.
  intros m quoted. split.
  - apply (prepared_message request_body); vm_compute; reflexivity.
  - assert (find (str "<?xml") quoted ≠ None) as Hx by (vm_compute; discriminate).
    exact (proj1 (proj2 (prepared_message (str "<Payload><![CDATA[<?xml?>]]></Payload>") eq_refl)
      29 Hx eq_refl)).
Defined.

(** ** Lifetimes *)

Import XmlLifecycle.

(** C37: as long as one thread constructs, uses and destroys parsers and does not
    copy them, every operation succeeds: the count is that of the living
    parsers, and the library is initialised exactly while there is one. *)
Theorem parser_lifetimes_safe syntax_run dtd_run ops :
  lifetimes ∅ ops → (Z.of_nat (length ops) < 2 ^ 32)%Z →
  ∃ w, perform_all syntax_run dtd_run ops start = (w, inr ()) ∧
    XercesRefCount w = Z.of_nat (size (alive w)) ∧ (initialised w = true ↔ alive w ≠ ∅) ∧
    (∀ i Input, i ∈ alive w → ∃ n,
       (parse syntax_run dtd_run i Input w).2 = inr (XMLParser.parse syntax_run dtd_run n Input)).
Proof.
  intros Hl Hs. destruct (perform_all_ok syntax_run dtd_run ops start start_ok Hl Hs) as (w & E & Hw).
  exists w. split; [done|]. split; [apply Hw|]. split.
  - unfold initialised. rewrite bool_decide_eq_true, (lok_initialised w Hw). case_decide; [|naive_solver lia].
    naive_solver lia.
  - intros i Input Hi. destruct (parse_ok syntax_run dtd_run i Input w Hw Hi) as (n & _ & Ep).
    exists n. by rewrite Ep.
Qed.

Lemma parser_lifetimes_safe_witness :
  ∃ w, perform_all sample_syntax sample_run
      [Construct 0 4096; Construct 1 10; Parse 0 (Some (message sample_body)); Destroy 0;
       SetSize 1 99; Parse 1 (Some (message sample_body))] start = (w, inr ()) ∧
    XercesRefCount w = Z.of_nat (size (alive w)) ∧ (initialised w = true ↔ alive w ≠ ∅) ∧
    (∀ i Input, i ∈ alive w → ∃ n,
       (parse sample_syntax sample_run i Input w).2 =
         inr (XMLParser.parse sample_syntax sample_run n Input)).
Proof. apply parser_lifetimes_safe; by_decide. Defined.

(** C38: two uses that the class allows are not safe. Destroying a parser
    terminates the library under a copy of it, because the copy was not counted;
    and of two threads that construct the first parsers, the second one may load
    its grammar before the first has initialised the library. *)
Theorem parser_lifetime_hazards syntax_run dtd_run size size' Input body :
  body_ok body → Input = message body → length Input <= size →
  ((_ ← construct 1 size; _ ← copy 1 2; _ ← destroy 1; parse syntax_run dtd_run 2 (Some Input)) start).2
    = inl Undefined ∧
  ((_ ← enter 1 size; _ ← enter 2 size'; schedule [1; 2; 2]) start).2 = inl Undefined ∧
  ∃ w, (_ ← enter 1 size; _ ← enter 2 size'; schedule [1; 2; 1; 2; 1]) start = (w, inr ()) ∧
    alive w = {[1; 2]}.
Proof.
  intros Hb -> Hs. split; [|split].
  - pose proof (split_messages_complete [] [body] [] ltac:(by constructor) ltac:(done)
      ltac:(done) ltac:(done)) as Hsplit. cbn [map concat app slices_at] in Hsplit.
    rewrite !app_nil_r in Hsplit.
    assert ((_ ← construct 1 size; _ ← copy 1 2; destroy 1) start =
      (mkWorld 0 0 {[1 := mkObject size None Destroyed; 2 := mkObject size (Some 1) Complete]},
       inr ())) as E by reflexivity.
    match goal with |- (?m start).2 = _ =>
      change (m start) with ((_ ← (_ ← construct 1 size; _ ← copy 1 2; destroy 1);
        parse syntax_run dtd_run 2 (Some (message body))) start) end.
    rewrite (run_bind _ _ _ _ _ E). unfold parse.
    rewrite (run_with_object 2 _ (mkObject size (Some 1) Complete)) by done. cbn [_ParseBufferSize].
    rewrite decide_False by lia. by rewrite Hsplit.
  - reflexivity.
  - eexists. split; [reflexivity|]. by_decide.
Qed.

Lemma parser_lifetime_hazards_witness :
  ((_ ← construct 1 4096; _ ← copy 1 2; _ ← destroy 1;
    parse sample_syntax sample_run 2 (Some (message sample_body))) start).2 = inl Undefined ∧
  ((_ ← enter 1 4096; _ ← enter 2 10; schedule [1; 2; 2]) start).2 = inl Undefined ∧
  ∃ w, (_ ← enter 1 4096; _ ← enter 2 10; schedule [1; 2; 1; 2; 1]) start = (w, inr ()) ∧
    alive w = {[1; 2]}.
Proof.
  apply (parser_lifetime_hazards sample_syntax sample_run 4096 10 (message sample_body) sample_body).
  - by_decide.
  - reflexivity.
  - apply Nat.leb_le. vm_compute. reflexivity.
Defined.
