(* ===== verification/ParserTests.v ===== *)
(** * Conformance: test/unit/http-parser/test-parser-requests.cpp

    The repository's unit tests of the request parser, run on the model: one
    definition per test case, true when every check of the case holds and no
    call throws. [parser_tests_pass] evaluates all of them. What the cases print
    is left out, and so are the reads of a file of the test machine: those cases
    run on the bytes they fall back to. *)
From S2P Require Export HttpParser.
From stdpp Require Import options.

Module ParserTests.
Import StringHelper HTTPParser.

(** ** Fixture *)

(** Lines, each with its end. *)
Definition lines (ls : list string) : bytes := flat_map (λ l, str l ++ CRLF) ls.

(** Bytes by their numbers. *)
Definition raw (ns : list nat) : bytes := map ascii_of_nat ns.

(** A receive per byte. *)
Definition bytewise (s : bytes) : list bytes := map (λ c, [c]) s.

(** The checks of a case on the requests a parser of 4096 bytes has after the
    receives, none of which throws. *)
Definition after (receives : list bytes) (checks : list RequestProperties_t → bool) : bool :=
  match feed receives (init 4096) with
  | (p, inr _) => checks (getRequests p)
  | (_, inl _) => false
  end.

Definition count_is (n : nat) (rs : list RequestProperties_t) : bool :=
  bool_decide (length rs = n).

(** Version, method and URL of a request. *)
Definition line_is (k : nat) (version method : Z) (url : string)
    (rs : list RequestProperties_t) : bool :=
  match rs !! k with
  | Some r => bool_decide (HTTPVersion r = version ∧ HTTPMethod r = method ∧ URL r = str url)
  | None => false
  end.

Definition method_is (k : nat) (method : Z) (rs : list RequestProperties_t) : bool :=
  bool_decide (HTTPMethod <$> rs !! k = Some method).
Definition url_is (k : nat) (url : string) (rs : list RequestProperties_t) : bool :=
  bool_decide (URL <$> rs !! k = Some (str url)).
Definition payload_is (k : nat) (payload : string) (rs : list RequestProperties_t) : bool :=
  bool_decide (Payload <$> rs !! k = Some (str payload)).
Definition header_is (k : nat) (name value : string) (rs : list RequestProperties_t) : bool :=
  bool_decide ((rs !! k ≫= λ r, RequestHeaders r !! str name) = Some (str value)).
Definition header_count (k : nat) (name : string) (n : nat) (rs : list RequestProperties_t) : bool :=
  match rs !! k with
  | Some r => bool_decide ((if decide (RequestHeaders r !! str name = None) then 0 else 1) = n)
  | None => false
  end.
Definition param_is (k : nat) (name value : string) (rs : list RequestProperties_t) : bool :=
  bool_decide ((rs !! k ≫= λ r, URLParams r !! str name) = Some (str value)).

Definition checks (cs : list (list RequestProperties_t → bool))
    (rs : list RequestProperties_t) : bool := forallb (λ c, c rs) cs.

Definition HTTP_REQUEST_GET_SINGLE1 : bytes :=
  lines ["GET /test/test.png HTTP/1.1"; "CustomHeader: one"; ""].
Definition HTTP_REQUEST_GET_SINGLE2 : bytes :=
  lines ["GET /test/test2.png HTTP/1.1"; "Host: test.dns"; "AnotherHeader: two"; ""].
Definition HTTP_REQUEST_GET_SINGLE3 : bytes :=
  lines ["GET /test/test3.png HTTP/1.1"; "ThirdHeader: three"; ""].
Definition HTTP_REQUEST_POST_SINGLE : bytes :=
  lines ["POST /backend/test1 HTTP/1.1"; "Host: test.loalnet"; "Content-Type: application/json";
         "Content-Length: 2"; ""] ++ str "{}".
Definition HTTP_REQUEST_POST_PARTIAL1 : bytes :=
  lines ["POST /other/path HTTP/1.1"] ++ str "Host: test.loal".
Definition HTTP_REQUEST_POST_PARTIAL2 : bytes :=
  lines ["net"; "Content-Type: application/json"] ++ str "Content-Length: 10" ++ [CR].
Definition HTTP_REQUEST_POST_PARTIAL3 : bytes := [LF] ++ CRLF ++ str "{12345678}".
Definition HTTP_REQUEST_GET_OK1 : bytes :=
  lines ["GET /test/test.html?a=1&b=2 HTTP/1.1"; "CustomHeader1: three"; ""].
Definition HTTP_REQUEST_GET_OK2 : bytes :=
  lines ["GET /test2.html?hello=hello1&test=test2&here=there HTTP/1.1"; "Header2: two"; ""].

(** ** Whole and partial transmissions *)

Definition get_single : list RequestProperties_t → bool :=
  checks [count_is 1; line_is 0 HTTP_VERSION_1_1 HTTP_METHOD_GET "/test/test.png";
          header_is 0 "CustomHeader" "one"].
Definition post_single : list RequestProperties_t → bool :=
  checks [count_is 1; line_is 0 HTTP_VERSION_1_1 HTTP_METHOD_POST "/backend/test1";
          header_is 0 "Host" "test.loalnet"; payload_is 0 "{}"].
Definition gets_multiple : list RequestProperties_t → bool :=
  checks [count_is 3;
          line_is 0 1 1 "/test/test.png"; header_is 0 "CustomHeader" "one";
          line_is 1 1 1 "/test/test2.png"; header_is 1 "AnotherHeader" "two";
          line_is 2 1 1 "/test/test3.png"; header_is 2 "ThirdHeader" "three"].
Definition gets_and_posts : list RequestProperties_t → bool :=
  checks [count_is 5;
          line_is 0 1 1 "/test/test.png"; header_is 0 "CustomHeader" "one";
          line_is 1 1 2 "/backend/test1"; header_is 1 "Content-Type" "application/json";
          line_is 2 1 1 "/test/test2.png"; header_is 2 "Host" "test.dns"].
Definition post_partial : list RequestProperties_t → bool :=
  checks [count_is 1; line_is 0 HTTP_VERSION_1_1 HTTP_METHOD_POST "/other/path";
          header_is 0 "Content-Type" "application/json"].

Definition three_gets : bytes :=
  HTTP_REQUEST_GET_SINGLE1 ++ HTTP_REQUEST_GET_SINGLE2 ++ HTTP_REQUEST_GET_SINGLE3.
Definition gets_with_posts : bytes :=
  HTTP_REQUEST_GET_SINGLE1 ++ HTTP_REQUEST_POST_SINGLE ++ HTTP_REQUEST_GET_SINGLE2 ++
  HTTP_REQUEST_POST_SINGLE ++ HTTP_REQUEST_GET_SINGLE3.

Definition test_single_valid_get_request_full_transmit : bool :=
  after [HTTP_REQUEST_GET_SINGLE1] get_single.
Definition test_single_post_request_full_transmit : bool :=
  after [HTTP_REQUEST_POST_SINGLE] post_single.
Definition test_multiple_valid_get_request_full_transmit : bool :=
  after [three_gets] gets_multiple.
Definition test_multiple_valid_get_and_post_requests_full_transmit : bool :=
  after [gets_with_posts] gets_and_posts.
Definition test_single_valid_post_request_partial_transmit : bool :=
  after [HTTP_REQUEST_POST_PARTIAL1; HTTP_REQUEST_POST_PARTIAL2; HTTP_REQUEST_POST_PARTIAL3]
    post_partial.
Definition test_single_valid_get_request_1byte_transmit : bool :=
  after (bytewise HTTP_REQUEST_GET_SINGLE1) get_single.
Definition test_single_post_request_1byte_transmit : bool :=
  after (bytewise HTTP_REQUEST_POST_SINGLE) post_single.
Definition test_multiple_valid_get_request_1byte_transmit : bool :=
  after (bytewise three_gets) gets_multiple.
Definition test_multiple_valid_get_and_post_requests_1byte_transmit : bool :=
  after (bytewise gets_with_posts) gets_and_posts.
Definition test_single_valid_post_request_partial_1byte_transmit : bool :=
  after (bytewise HTTP_REQUEST_POST_PARTIAL1 ++ bytewise HTTP_REQUEST_POST_PARTIAL2 ++
         bytewise HTTP_REQUEST_POST_PARTIAL3) post_partial.

(** ** Query parameters *)

Definition get_ok2 : list RequestProperties_t → bool :=
  checks [count_is 1;
          line_is 0 HTTP_VERSION_1_1 HTTP_METHOD_GET
            "/test2.html?hello=hello1&test=test2&here=there";
          header_is 0 "Header2" "two"; param_is 0 "hello" "hello1"; param_is 0 "test" "test2";
          param_is 0 "here" "there"].

Definition test_valid_get_parameters_1 : bool :=
  after [HTTP_REQUEST_GET_OK1] (checks [count_is 1;
    line_is 0 HTTP_VERSION_1_1 HTTP_METHOD_GET "/test/test.html?a=1&b=2";
    header_is 0 "CustomHeader1" "three"; param_is 0 "a" "1"; param_is 0 "b" "2"]).
Definition test_valid_get_parameters_2 : bool := after [HTTP_REQUEST_GET_OK2] get_ok2.

(** The expected text has the pairs in the order the hash map yields them. *)
Definition hash_order (m : gmap bytes bytes) : list (bytes * bytes) :=
  omap (λ k, pair k <$> m !! k) [str "here"; str "test"; str "hello"].

Definition quoted (s : string) : bytes := [JSON.DQ] ++ str s ++ [JSON.DQ].

Definition test_urlparamsmap2_json : bool :=
  after [HTTP_REQUEST_GET_OK2] (λ rs, get_ok2 rs &&
    bool_decide (JSON.URLParamsMap2JSON hash_order <$> (URLParams <$> rs !! 0) =
      Some (str "{ " ++ quoted "payload" ++ str ": { " ++
            quoted "here" ++ str ": " ++ quoted "there" ++ str ", " ++
            quoted "test" ++ str ": " ++ quoted "test2" ++ str ", " ++
            quoted "hello" ++ str ": " ++ quoted "hello1" ++ str " }}"))).

(** ** Malformed headers *)

Definition test_malformed_header_missing_space_after_colon : bool :=
  after [lines ["GET /test HTTP/1.1"; "Host:example.com"; "Content-Type: text/html"; ""]]
    (checks [count_is 1; header_count 0 "Host" 0; header_count 0 "Content-Type" 1]).
Definition test_malformed_header_disallowed_at_character : bool :=
  after [lines ["GET /test HTTP/1.1"; "H@ost: example.com"; "Valid-Header: ok"; ""]]
    (checks [count_is 1; url_is 0 "/test"; header_count 0 "Valid-Header" 1]).
Definition test_malformed_header_empty_name : bool :=
  after [lines ["GET /test HTTP/1.1"; ": emptyname"; "Host: valid.host"; ""]]
    (checks [count_is 1; header_count 0 "" 0; header_count 0 "Host" 1]).
Definition test_malformed_header_multiple_combined : bool :=
  after [lines ["GET /path HTTP/1.1"; "Host:nospace"; "X-Bad@Name: badval"; ": emptyname";
                "ValidHeader: validvalue"; "Another@Bad: another"; ""]]
    (checks [count_is 1; header_count 0 "ValidHeader" 1; header_is 0 "ValidHeader" "validvalue";
             header_count 0 "Host" 0; header_count 0 "" 0]).
Definition test_malformed_header_null_byte_in_value : bool :=
  after [lines ["GET /test HTTP/1.1"] ++ str "Host: exam" ++ raw [0] ++
         lines ["ple.com"; "X-Other: present"; ""]] (count_is 1).
Definition test_malformed_header_only_colon : bool :=
  after [lines ["GET /test HTTP/1.1"; ":"; "Host: example.com"; ""]]
    (checks [count_is 1; header_count 0 "" 0]).

(** ** Methods other than GET and POST *)

Definition test_invalid_method_delete : bool :=
  after [lines ["DELETE /test HTTP/1.1"; "Host: example.com"; ""]] (count_is 0).
Definition test_invalid_method_put : bool :=
  after [lines ["PUT /resource HTTP/1.1"; "Host: example.com"; "Content-Length: 0"; ""]]
    (count_is 0).
Definition test_invalid_method_patch : bool :=
  after [lines ["PATCH /resource HTTP/1.1"; "Host: example.com"; "Content-Length: 5"; ""] ++
         str "hello"] (count_is 0).
Definition test_invalid_method_head : bool :=
  after [lines ["HEAD /test HTTP/1.1"; "Host: example.com"; ""]] (count_is 0).
Definition test_invalid_method_options : bool :=
  after [lines ["OPTIONS * HTTP/1.1"; "Host: example.com"; ""]] (count_is 0).
Definition test_invalid_method_connect : bool :=
  after [lines ["CONNECT example.com:443 HTTP/1.1"; "Host: example.com:443"; ""]] (count_is 0).
Definition test_invalid_method_trace : bool :=
  after [lines ["TRACE /test HTTP/1.1"; "Host: example.com"; ""]] (count_is 0).

(** ** Garbage *)

Definition test_garbage_printable_ascii : bool :=
  after [str "ThisisNotHTTP RandomGarbage!@#$%^&*()~`<>?/\|"] (count_is 0).
Definition test_garbage_raw_binary_bytes : bool :=
  after [raw (seq 0 16 ++ [255; 254; 253; 252; 251; 250; 249; 248; 128; 129; 130; 131; 132; 133;
              134; 135; 171; 205; 239; 18; 52; 86; 120; 154])] (count_is 0).
Definition test_garbage_with_embedded_end_marker : bool :=
  after [raw [222; 173; 190; 239; 202; 254; 186; 190; 13; 10; 13; 10; 255; 254; 171; 205; 18; 52;
              86; 120]] (count_is 0).
Definition test_garbage_with_fake_http_method_prefix : bool :=
  after [lines ["GET#@$!%^&*garbage_not_http_at_all"; ""]] (count_is 0).
Definition test_garbage_empty_input : bool := after [[]] (count_is 0).
Definition test_garbage_only_end_marker : bool := after [lines [""; ""]] (count_is 0).
Definition test_garbage_repeated_end_markers : bool :=
  after [lines [""; ""; ""; ""; ""; ""]] (count_is 0).

Definition SYNTHETIC_BINARY_BLOB : bytes := raw
  [127; 69; 76; 70; 2; 1; 1; 0; 0; 0; 0; 0; 0; 0; 0; 0; 2; 0; 62; 0; 1; 0; 0; 0;
   176; 16; 64; 0; 0; 0; 0; 0; 64; 0; 0; 0; 0; 0; 0; 0; 248; 197; 3; 0; 0; 0; 0; 0;
   0; 0; 0; 0; 64; 0; 56; 0; 9; 0; 64; 0; 30; 0; 29; 0].
Definition test_binary_file_kmod_full_chunks : bool :=
  after (replicate 64 SYNTHETIC_BINARY_BLOB) (count_is 0).
Definition test_binary_file_kmod_byte_by_byte : bool :=
  after (bytewise SYNTHETIC_BINARY_BLOB) (count_is 0).

(** ** Stress *)

Definition test_crash_request_line_method_only : bool := after [lines ["GET"; ""]] (count_is 0).
Definition test_crash_request_line_missing_version : bool :=
  after [lines ["GET /test"; "Host: example.com"; ""]] (count_is 0).
Definition test_crash_request_line_wrong_version : bool :=
  after [lines ["GET /test HTTP/2.0"; "Host: example.com"; ""]] (count_is 0).
Definition test_crash_buffer_overflow_attempt : bool :=
  after (replicate 2 (replicate (Z.to_nat 4096) "A"%char)) (count_is 0).
Definition test_crash_extremely_long_url : bool :=
  after [str "GET /" ++ replicate (Z.to_nat 2000) "x"%char ++ lines [" HTTP/1.1"; "Host: x.x"; ""]]
    (λ rs, bool_decide (length rs <= 1)).
Definition test_crash_post_without_content_length : bool :=
  after [lines ["POST /submit HTTP/1.1"; "Host: example.com"; "Content-Type: text/plain"; ""] ++
         str "hello"] (count_is 0).
Definition test_crash_post_nonnumeric_content_length : bool :=
  after [lines ["POST /submit HTTP/1.1"; "Host: example.com"; "Content-Length: abc"; ""] ++
         str "hello"] (count_is 0).
Definition test_crash_post_oversized_content_length : bool :=
  after [lines ["POST /submit HTTP/1.1"; "Host: example.com"; "Content-Length: 65535"; ""] ++
         str "payload"] (count_is 0).
Definition test_crash_post_zero_content_length : bool :=
  after [lines ["POST /submit HTTP/1.1"; "Host: example.com"; "Content-Length: 0"; ""]]
    (checks [count_is 1; method_is 0 HTTP_METHOD_POST; payload_is 0 ""]).
Definition test_crash_request_with_null_bytes : bool :=
  after [lines ["GET /test HTTP/1.1"] ++ str "X-Header: value" ++ raw [0] ++
         lines [""; "Host: example.com"; ""]]
    (checks [count_is 1; url_is 0 "/test"]).
Definition test_crash_mixed_valid_invalid_requests : bool :=
  after [lines ["GET /valid HTTP/1.1"; "Host: example.com"; "";
                "DELETE /invalid HTTP/1.1"; "Host: example.com"; "";
                "POST /valid HTTP/1.1"; "Host: example.com"; "Content-Length: 2"; ""] ++ str "{}"]
    (checks [count_is 1; method_is 0 HTTP_METHOD_GET; url_is 0 "/valid"]).
Definition test_crash_request_leading_space_in_method : bool :=
  after [lines [" GET /test HTTP/1.1"; "Host: example.com"; ""]] (count_is 0).
Definition test_crash_repeated_large_garbage_chunks : bool :=
  after (map (λ n, replicate (Z.to_nat 1024) (ascii_of_nat n)) [1; 255; 171; 127; 66]) (count_is 0).

(** ** The suite *)

Definition parser_tests : list bool := [
  test_single_valid_get_request_full_transmit;
  test_single_post_request_full_transmit;
  test_multiple_valid_get_request_full_transmit;
  test_multiple_valid_get_and_post_requests_full_transmit;
  test_single_valid_post_request_partial_transmit;
  test_single_valid_get_request_1byte_transmit;
  test_single_post_request_1byte_transmit;
  test_multiple_valid_get_request_1byte_transmit;
  test_multiple_valid_get_and_post_requests_1byte_transmit;
  test_single_valid_post_request_partial_1byte_transmit;
  test_valid_get_parameters_1;
  test_valid_get_parameters_2;
  test_urlparamsmap2_json;
  test_malformed_header_missing_space_after_colon;
  test_malformed_header_disallowed_at_character;
  test_malformed_header_empty_name;
  test_malformed_header_multiple_combined;
  test_malformed_header_null_byte_in_value;
  test_malformed_header_only_colon;
  test_invalid_method_delete;
  test_invalid_method_put;
  test_invalid_method_patch;
  test_invalid_method_head;
  test_invalid_method_options;
  test_invalid_method_connect;
  test_invalid_method_trace;
  test_garbage_printable_ascii;
  test_garbage_raw_binary_bytes;
  test_garbage_with_embedded_end_marker;
  test_garbage_with_fake_http_method_prefix;
  test_garbage_empty_input;
  test_garbage_only_end_marker;
  test_garbage_repeated_end_markers;
  test_binary_file_kmod_full_chunks;
  test_binary_file_kmod_byte_by_byte;
  test_crash_request_line_method_only;
  test_crash_request_line_missing_version;
  test_crash_request_line_wrong_version;
  test_crash_buffer_overflow_attempt;
  test_crash_extremely_long_url;
  test_crash_post_without_content_length;
  test_crash_post_nonnumeric_content_length;
  test_crash_post_oversized_content_length;
  test_crash_post_zero_content_length;
  test_crash_request_with_null_bytes;
  test_crash_mixed_valid_invalid_requests;
  test_crash_request_leading_space_in_method;
  test_crash_repeated_large_garbage_chunks].

Lemma parser_tests_pass : parser_tests = replicate 48 true.
Proof. vm_compute. reflexivity. Qed.

End ParserTests.
