(* ===== verification/UnitTests.v ===== *)
(** * Conformance: the tests of the generator and of the helpers

    test/unit/http-generator, test/unit/memory-manager, test/unit/memory-alignment,
    test/integration/string-functions, test/integration/vector-multi-erase and
    test/integration/event, run on the model as ParserTests.v runs the parser's. The three cases on the
    Date header have a fixed date for the clock's. *)
From S2P Require Export Memory HttpGenerator Configuration ParserTests.
From stdpp Require Import options.

Module GeneratorTests.
Import StringHelper HTTPGenerator ParserTests.

(** ** Fixture *)

Definition contains (needle haystack : bytes) : bool :=
  bool_decide (is_Some (find needle haystack)).
Definition startsWith (prefix s : bytes) : bool := bool_decide (rfind prefix s 0 = Some 0).

(** The bytes behind the metadata, after the body is set and the head made. *)
Definition getHeaderResponse (bodyBuffer : bytes) (bodySize : Z) : St HTTPGenerator bytes :=
  _ ← modify (MsgSetBodyRef (InBody bodyBuffer 0) bodySize);
  _ ← MsgGenerate map_to_list;
  metadata ← MsgGetSendMetadata;
  g ← get;
  lift (load (BufferRef metadata) (BufferSize metadata) g).

(** A case: a new generator, reset and prepared, and the checks on its head. *)
Definition case (prepare : HTTPGenerator → HTTPGenerator) (body : bytes) (bodySize : Z)
    (check : bytes → bool) : bool :=
  match getHeaderResponse body bodySize
          (prepare (MsgReset (init (replicate HeaderBufferSize zero)))) with
  | (_, inr response) => check response
  | (_, inl _) => false
  end.

(** A body at the front of a buffer of 64 bytes. *)
Definition buffer (body : bytes) : bytes := body ++ replicate (64 - length body) zero.

Definition line (s : string) : bytes := str s ++ CRLF.

(** ** Status line, body and length *)

Definition test_default_status_line : bool :=
  case id [zero] 0 (startsWith (line "HTTP/1.1 200 OK")).
Definition test_custom_status_code_and_text : bool :=
  case (MsgSetStatus 404 (str "Not Found")) [zero] 0 (startsWith (line "HTTP/1.1 404 Not Found")).
Definition test_500_internal_server_error_status : bool :=
  case (MsgSetStatus 500 (str "Internal Server Error")) [zero] 0
    (startsWith (line "HTTP/1.1 500 Internal Server Error")).
Definition test_empty_body_content_length_zero : bool :=
  case id [zero] 0 (contains (line "Content-Length: 0")).
Definition test_body_appears_in_response : bool :=
  let body := str "{" ++ quoted "status" ++ str ":" ++ quoted "ok" ++ str "}" in
  case id (buffer body) (Z.of_nat (length body)) (contains (line "Content-Length: 15")).
Definition test_content_length_matches_body : bool :=
  let body := str "Hello, World!" in
  case id (buffer body) (Z.of_nat (length body))
    (contains (str "Content-Length: " ++ to_string (Z.of_nat (length body)) ++ CRLF)).
Definition test_binary_body_content_length : bool :=
  let body := str "ab" ++ [zero] ++ str "cd" in
  case id (buffer body) (Z.of_nat (length body)) (contains (line "Content-Length: 5")).

(** ** Headers *)

Definition test_add_single_header : bool :=
  case (MsgAddHeader (str "Content-Type") (str "text/html")) [zero] 0
    (contains (line "Content-Type: text/html")).
Definition test_add_multiple_headers : bool :=
  case (λ g, MsgAddHeader (str "Cache-Control") (str "no-cache")
          (MsgAddHeader (str "X-Custom-Header") (str "custom-value")
            (MsgAddHeader (str "Content-Type") (str "application/json") g))) [zero] 0
    (λ r, contains (line "Content-Type: application/json") r &&
          contains (line "X-Custom-Header: custom-value") r &&
          contains (line "Cache-Control: no-cache") r).
Definition test_headers_appear_before_body_separator : bool :=
  case (MsgAddHeader (str "X-Test") (str "value")) (buffer (str "body")) 4
    (λ r, match find (line "X-Test: value") r, find (CRLF ++ CRLF) r with
          | Some header_pos, Some sep_pos => bool_decide (header_pos < sep_pos)
          | _, _ => false
          end).

Definition test_crlf_in_header_value_is_currently_included : bool :=
  case (λ g, MsgAddHeader (str "X-Evil") (str "bad" ++ CRLF ++ str "value")
          (MsgAddHeader (str "X-Safe") (str "good-value") g)) [zero] 0
    (λ r, contains (line "X-Safe: good-value") r &&
          contains (str "X-Evil: bad" ++ CRLF ++ line "value") r).
Definition test_cr_only_in_header_value_is_currently_included : bool :=
  case (MsgAddHeader (str "X-Evil-CR") (str "bad" ++ [CR] ++ str "value")) [zero] 0
    (contains (str "X-Evil-CR: bad" ++ [CR] ++ line "value")).
Definition test_lf_only_in_header_value_is_currently_included : bool :=
  case (MsgAddHeader (str "X-Evil-LF") (str "bad" ++ [LF] ++ str "value")) [zero] 0
    (contains (str "X-Evil-LF: bad" ++ [LF] ++ line "value")).
Definition test_crlf_in_header_name_is_currently_included : bool :=
  case (MsgAddHeader (str "X-Evil" ++ CRLF ++ str "Injected") (str "value")) [zero] 0
    (contains (str "X-Evil" ++ CRLF ++ line "Injected: value")).

(** ** Date header *)

Definition sample_date : bytes := str "Thu, 14 May 2026 09:03:24 GMT".

(** The text between "Date: " and the end of its line. *)
Definition date_value (response : bytes) : option bytes :=
  pos ← find (str "Date: ") response;
  let value := drop (pos + 6) response in
  stop ← find CRLF value;
  mret (take stop value).

(** The shape of a date: a letter for [a], a digit for [0], itself otherwise. *)
Definition shape_char (pattern c : ascii) : bool :=
  let n := nat_of_ascii c in
  if decide (pattern = "a"%char) then
    bool_decide (65 <= n <= 90 ∨ 97 <= n <= 122)
  else if decide (pattern = "0"%char) then bool_decide (48 <= n <= 57)
  else bool_decide (pattern = c).
Definition shape (pattern s : bytes) : bool :=
  bool_decide (length pattern = length s) && forallb (λ pc, shape_char pc.1 pc.2) (zip pattern s).

Definition test_add_date_header_present : bool :=
  case (MsgAddDateHeader sample_date) [zero] 0 (contains (str "Date: ")).
Definition test_add_date_header_ends_with_gmt : bool :=
  case (MsgAddDateHeader sample_date) [zero] 0
    (λ r, match date_value r with
          | Some d => bool_decide (3 <= length d ∧ drop (length d - 3) d = str "GMT")
          | None => false
          end).
Definition test_add_date_header_format : bool :=
  case (MsgAddDateHeader sample_date) [zero] 0
    (λ r, match date_value r with
          | Some d => shape (str "aaa, 00 aaa 0000 00:00:00 ") (take 26 d) &&
                      bool_decide (drop 26 d = str "GMT")
          | None => false
          end).

Definition test_full_response_structure : bool :=
  case (λ g, MsgAddHeader (str "Content-Type") (str "text/plain")
          (MsgSetStatus 200 (str "OK") g)) (buffer (str "Hello")) 5
    (λ r, startsWith (line "HTTP/1.1 200 OK") r && contains (line "Content-Type: text/plain") r &&
          contains (line "Content-Length: 5") r && contains (CRLF ++ CRLF) r &&
          bool_decide (0 < length r)).

Definition generator_tests : list bool := [
  test_default_status_line;
  test_custom_status_code_and_text;
  test_500_internal_server_error_status;
  test_empty_body_content_length_zero;
  test_body_appears_in_response;
  test_content_length_matches_body;
  test_binary_body_content_length;
  test_add_single_header;
  test_add_multiple_headers;
  test_headers_appear_before_body_separator;
  test_crlf_in_header_value_is_currently_included;
  test_cr_only_in_header_value_is_currently_included;
  test_lf_only_in_header_value_is_currently_included;
  test_crlf_in_header_name_is_currently_included;
  test_add_date_header_present;
  test_add_date_header_ends_with_gmt;
  test_add_date_header_format;
  test_full_response_structure].

Lemma generator_tests_pass : generator_tests = replicate 18 true.
Proof. vm_compute. reflexivity. Qed.

End GeneratorTests.

Module HelperTests.
Import StringHelper.

(** ** String functions *)

Definition nth_is (k : nat) (s : bytes) (rs : list bytes) : bool := bool_decide (rs !! k = Some s).

Definition test_string_split_1 : bool :=
  let Result := (split (str "TestValue1-TestValue2-TestValue3") (str "-") []).2 in
  let LFCR := [LF; CR] in
  let Result2 := (split (str "TestHTTP1" ++ LFCR ++ str "TestHTTP2" ++ LFCR ++ str "TestHTTP3" ++
                         [LF] ++ LFCR ++ str "End") LFCR []).2 in
  nth_is 0 (str "TestValue1") Result && nth_is 1 (str "TestValue2") Result &&
  nth_is 0 (str "TestHTTP1") Result2 && nth_is 1 (str "TestHTTP2") Result2 &&
  nth_is 2 (str "TestHTTP3" ++ [LF]) Result2.

Definition test_string_split_remains : bool :=
  let '(TestString1, Result) := split (str "TestHTTP1" ++ [LF; CR]) [LF; CR] [] in
  nth_is 0 (str "TestHTTP1") Result && bool_decide (length TestString1 = 0).

Definition rsplit_head (s : bytes) : list bytes :=
  rsplit s (default (length s) (find [LF] s)) (str " ") [].

Definition test_string_rsplit_1 : bool :=
  let Result := rsplit_head (str "GET /path/to/file.txt HTTP/1.1" ++ [LF] ++ str " Continues " ++
                             [LF] ++ str " Again... ") in
  let Result2 := rsplit_head (str "GET / HTTP/1.1" ++ [LF] ++ str "Header1: HeaderContent1" ++
                              [LF] ++ str "Header2: HeaderContent2" ++ [LF; CR]) in
  nth_is 0 (str "HTTP/1.1") Result && nth_is 1 (str "/path/to/file.txt") Result &&
  nth_is 2 (str "GET") Result &&
  nth_is 0 (str "HTTP/1.1") Result2 && nth_is 1 (str "/") Result2 && nth_is 2 (str "GET") Result2.

(** ** Memory manager *)

(** The pointers of successive calls of a manager with base address 4096. *)
Definition next_pointers (sizeofT SegmentCount SegmentSize : Z) (n : nat) : fault + list Z :=
  m ← MemoryManager.construct (λ _, Some 4096%Z) SegmentCount SegmentSize;
  mret (MemoryManager.pointers sizeofT n m).

Definition offsets_are (sizeofT SegmentCount SegmentSize : Z) (offsets : list Z) : bool :=
  bool_decide (next_pointers sizeofT SegmentCount SegmentSize (length offsets) =
               inr (map (λ off, 4096 + off * sizeofT)%Z offsets)).

Definition test_basic_memory_manager_char_type : bool :=
  offsets_are 1 15 11 [0; 1*11; 2*11]%Z.
Definition test_basic_memory_manager_int64_type : bool :=
  offsets_are 8 27 16 [0; 1*16*8; 2*16*8]%Z.
Definition test_basic_memory_manager_short_type : bool :=
  offsets_are 2 120 38 [0; 1*38*2; 2*38*2]%Z.
Definition test_basic_memory_manager_int64_type_oob : bool :=
  offsets_are 8 5 24 [0; 1*24*8; 2*24*8; 3*24*8; 4*24*8]%Z.
Definition test_memory_manager_wraps_after_segment_count : bool :=
  offsets_are 1 3 4 [0; 4; 8; 0; 4]%Z.

(** *** test/unit/memory-alignment

    The cases on the addresses of segments expect the first call to hand out
    the second segment, as those above do not. *)

Definition aligned_base (alignofT SegmentCount SegmentSize : Z) : bool :=
  match MemoryManager.construct (λ _, Some 4096%Z) SegmentCount SegmentSize with
  | inr m => MemoryManager.isAligned alignofT (MemoryManager.getMemBaseAddress m)
  | inl _ => false
  end.

Definition aligned_pointers (sizeofT alignofT SegmentCount SegmentSize : Z) (n : nat) : bool :=
  match next_pointers sizeofT SegmentCount SegmentSize n with
  | inr ps => forallb (MemoryManager.isAligned alignofT) ps
  | inl _ => false
  end.

Definition test_memorymanager_base_alignment : bool :=
  aligned_base 16 10 100 && aligned_base 2 10 100 && aligned_base 4 10 100 &&
  aligned_base 2 10 100.
Definition test_char_pointer_arithmetic : bool := offsets_are 1 15 11 [11; 22; 33]%Z.
Definition test_uint16_pointer_arithmetic : bool := offsets_are 2 10 20 [40; 80; 120]%Z.
Definition test_uint32_pointer_arithmetic : bool := offsets_are 4 8 16 [64; 128; 192]%Z.
Definition test_int64_pointer_arithmetic : bool := offsets_are 8 27 16 [128; 256; 384]%Z.
Definition test_short_pointer_arithmetic : bool := offsets_are 2 120 38 [76; 152; 228]%Z.
Definition test_segment_wraparound : bool :=
  offsets_are 8 5 24 [1*24*8; 2*24*8; 3*24*8; 4*24*8; 0]%Z.
Definition test_alignment_preservation : bool := aligned_pointers 4 4 10 256 10.
Definition test_isAligned_utility : bool :=
  aligned_base 4 5 100 && aligned_pointers 4 4 5 100 5.

Definition alignment_tests : list bool := [
  test_memorymanager_base_alignment;
  test_char_pointer_arithmetic;
  test_uint16_pointer_arithmetic;
  test_uint32_pointer_arithmetic;
  test_int64_pointer_arithmetic;
  test_short_pointer_arithmetic;
  test_segment_wraparound;
  test_alignment_preservation;
  test_isAligned_utility].

(** The six cases on addresses fail. *)
Lemma alignment_tests_results :
  alignment_tests = [true] ++ replicate 6 false ++ [true; true].
Proof. vm_compute. reflexivity. Qed.

(** The first buffer of a manager is at its base, whatever its type and sizes. *)
Theorem first_pointer_is_base sizeofT malloc SegmentCount SegmentSize m n :
  MemoryManager.construct malloc SegmentCount SegmentSize = inr m →
  head (MemoryManager.pointers sizeofT (S n) m) = Some (MemoryManager.getMemBaseAddress m).
Proof.
  unfold MemoryManager.construct. case_decide; [done|].
  destruct (malloc _) as [base|]; [|done]. intros [= <-].
  cbn [MemoryManager.pointers]. unfold MemoryManager.getNextMemPointer, MemoryManager.getMemPointer.
  cbn. f_equal. case_decide; lia.
Qed.

Lemma first_pointer_is_base_witness :
  head (MemoryManager.pointers 8 5 (MemoryManager.mkManager 27 16 0 4096)) = Some 4096%Z.
Proof.
  apply (first_pointer_is_base 8 (λ _, Some 4096%Z) 27 16
    (MemoryManager.mkManager 27 16 0 4096) 4). reflexivity.
Defined.

(** ** Events (test/integration/event)

    The state is the text that has been printed. *)

Definition check_function : St bytes bool := mret false.
Definition callback_function : St bytes () := modify (λ out, out ++ str "Callback!" ++ [LF]).

Definition test_event : bool :=
  let pTest := Event.registerEvent check_function callback_function in
  bool_decide ((_ ← Event.checkEvent pTest; Event.callCallback pTest) [] =
               (str "Callback!" ++ [LF], inr ())).

Lemma test_event_passes : test_event = true.
Proof. vm_compute. reflexivity. Qed.

(** ** Erasing several elements *)

Definition test_vector_erase : bool :=
  match Vector.erase [1; 2; 3; 4; 5; 6; 7; 8; 9; 10; 11; 12; 13] [1; 3; 7; 12]%Z with
  | inr v => bool_decide (take 9 v = [1; 3; 5; 6; 7; 9; 10; 11; 12])
  | inl _ => false
  end.

Definition helper_tests : list bool := [
  test_string_split_1;
  test_string_split_remains;
  test_string_rsplit_1;
  test_basic_memory_manager_char_type;
  test_basic_memory_manager_int64_type;
  test_basic_memory_manager_short_type;
  test_basic_memory_manager_int64_type_oob;
  test_memory_manager_wraps_after_segment_count;
  test_vector_erase].

Lemma helper_tests_pass : helper_tests = replicate 9 true.
Proof. vm_compute. reflexivity. Qed.

End HelperTests.
