(* ===== verification/XmlTests.v ===== *)
(** * The test cases of the message parser

    test/unit/xml-parser/test-xml-parser.cpp, test-xml-parser-fuzz.cpp and
    test/integration/xml-parser/test-xml-parser-e2e.cpp, evaluated on the model.
    What the XML library makes of the texts of these cases is written down here:
    a syntax error, an error of validity, or the document. *)
From S2P Require Export NlapTheorems.
From stdpp Require Import options.

Module XmlTests.
Import XMLParser.

Inductive verdict := Malformed | Invalid | Valid (d : dom).

(** ** Texts and documents *)

Definition elem (name : string) (children : list dom) : dom := Element (str name) children.

Fixpoint print (d : dom) : bytes :=
  match d with
  | Element tag children =>
      str "<" ++ tag ++ str ">" ++ concat (map print children) ++ str "</" ++ tag ++ str ">"
  | Text s | CData s => s
  | Other => []
  end.

Definition common (UUID : string) : list dom :=
  [leaf "UUID" UUID; leaf "Protocol" "NLAP"; leaf "Version" "0.1"; leaf "Subtype" "NLAMP"].

Definition request (UUID Host URL Agent : string) : dom :=
  elem "NLAP" [elem "Request" (common UUID ++
    [elem "Header" [leaf "Host" Host; leaf "URL" URL; leaf "User-Agent" Agent]])].

Definition response (UUID MimeType : string) (payload : list dom) : dom :=
  elem "NLAP" [elem "Response" (common UUID ++
    [elem "Header" [leaf "Mime-Type" MimeType]] ++ payload ++
    [elem "Status" [leaf "Code" "0"; leaf "Description" "ok"]])].

Definition VALID_REQUEST : dom :=
  request "123e4567-e89b-12d3-a456-426614174000" "testapp1.local" "/testpath/index.html"
    "Falcon-Browser".
Definition VALID_RESPONSE : dom := response "123e4567-e89b-12d3-a456-426614174001" "text/plain" [].
Definition HEALTH_REQUEST : dom := request "request-1" "testapp1.local" "/health" "Falcon".
Definition HEALTH_RESPONSE : dom :=
  response "response-1" "application/json"
    [Element (str "Payload") [Text (str "{" ++ quoted (str "ok") ++ str ":true}")]].

Definition BROKEN : bytes :=
  str "<NLAP><Request><UUID>x</UUID><Protocol>NLAP</Protocol></RequestX></NLAP>".
Definition INVALID_DTD : dom :=
  elem "NLAP" [elem "Request" [leaf "Protocol" "NLAP"; leaf "Version" "0.1";
    leaf "Subtype" "NLAMP"; elem "Header" []]].

(** ** The library on these texts *)

Definition known : list (bytes * verdict) :=
  [(BROKEN, Malformed); (print INVALID_DTD, Invalid)] ++
  map (λ d, (print d, Valid d)) [VALID_REQUEST; VALID_RESPONSE; HEALTH_REQUEST; HEALTH_RESPONSE].

Definition judge (Parseable : bytes) : verdict :=
  match filter (λ p, ensureParseableXML p.1 = Parseable) known with
  | (_, v) :: _ => v
  | [] => Malformed
  end.

Definition syntax_run (s : bytes) : list report :=
  ResetErrors :: match judge s with Malformed => [FatalErrorReport (str "syntax")] | _ => [] end.

Definition dtd_run (s : bytes) : list report * option (option dom) :=
  match judge s with
  | Malformed => ([FatalErrorReport (str "syntax")], None)
  | Invalid => ([ResetErrors; ErrorReport (str "content")], Some None)
  | Valid d => ([ResetErrors; WarningReport (str "warning")], Some (Some d))
  end.

Definition run (size : nat) (Input : bytes) : ParseResult_t :=
  parse syntax_run dtd_run size (Some Input).

(** [Result.Results.at(k).at(...).at(...)] and the text a node points at. *)
Fixpoint node_at (n : XMLNode) (path : list string) : option XMLNode :=
  match path with
  | [] => Some n
  | name :: path => Children n !! str name ≫= λ c, node_at c path
  end.

Definition text_at (Input : bytes) (r : ParseResult_t) (k : nat) (path : list string) :
    option bytes :=
  tree ← Results r !! k;
  n ← node_at (Node tree None 0) path;
  a ← Address n;
  mret (substr Input a (Length n)).

Definition fails_with (code : Z) (r : ParseResult_t) : bool :=
  bool_decide (ErrorCode r = code) && bool_decide (length (Results r) = 0).

Definition delivers (n : nat) (r : ParseResult_t) : bool :=
  bool_decide (ErrorCode r = 0%Z) && bool_decide (length (Results r) = n).

(** ** The cases *)

Definition parse_single_message_and_validate_leaf_pointer : bool :=
  let Buffer := print VALID_REQUEST in
  let Result := run 4096 Buffer in
  delivers 1 Result &&
  bool_decide (text_at Buffer Result 0 ["NLAP"; "Request"; "Header"; "URL"] =
               Some (str "/testpath/index.html")).

Definition parse_multiple_messages_returns_vector : bool :=
  delivers 2 (run 8192 (print VALID_REQUEST ++ print VALID_RESPONSE)).

Definition parse_invalid_syntax_returns_error : bool :=
  fails_with XML_ERROR_INVALID_SYNTAX (run 4096 BROKEN).

Definition parse_invalid_dtd_content_returns_error : bool :=
  fails_with XML_ERROR_INVALID_CONTENT_DTD (run 4096 (print INVALID_DTD)).

Definition parse_invalid_framing_returns_error : bool :=
  fails_with XML_ERROR_INVALID_FRAMING
    (run 8192 (print VALID_REQUEST ++ str "BAD" ++ print VALID_RESPONSE)).

(** With the size the parser was constructed with the input is refused. *)
Definition parse_buffer_size_runtime_override : bool :=
  fails_with XML_ERROR_INVALID_FRAMING (run 32 (print VALID_REQUEST)) &&
  delivers 1 (run 8192 (print VALID_REQUEST)).

Definition end_to_end_parse_request_and_response_stream : bool :=
  let Stream := print HEALTH_REQUEST ++ print HEALTH_RESPONSE in
  let Result := run 4096 Stream in
  delivers 2 Result &&
  bool_decide (text_at Stream Result 0 ["NLAP"; "Request"; "Header"; "Host"] =
               Some (str "testapp1.local")) &&
  bool_decide (text_at Stream Result 1 ["NLAP"; "Response"; "Status"; "Code"] = Some (str "0")).

Definition xml_tests : list bool := [
  parse_single_message_and_validate_leaf_pointer;
  parse_multiple_messages_returns_vector;
  parse_invalid_syntax_returns_error;
  parse_invalid_dtd_content_returns_error;
  parse_invalid_framing_returns_error;
  parse_buffer_size_runtime_override;
  end_to_end_parse_request_and_response_stream].

(** ** test-xml-parser-fuzz.cpp

    The 200 mutations of its seed are random; that the result is a known one
    holds for every text, and whatever the library makes of it. *)

Definition SEED_XML : dom :=
  elem "NLAP" [elem "Request" (common "123e4567-e89b-12d3-a456-426614174000" ++
    [elem "Header" [leaf "Host" "testapp1.local"]])].

Definition IsKnownResult (r : ParseResult_t) : bool :=
  bool_decide (ErrorCode r ∈
    [0%Z; XML_ERROR_INVALID_CONTENT_DTD; XML_ERROR_INVALID_SYNTAX; XML_ERROR_INVALID_FRAMING]).

Lemma message_result_known syntax_run dtd_run s :
  (parseMessage syntax_run dtd_run s).1 ∈
    [0%Z; XML_ERROR_INVALID_CONTENT_DTD; XML_ERROR_INVALID_SYNTAX].
Proof.
  unfold parseMessage. destruct (hasAnyError _); [by_decide|].
  destruct (dtd_run _) as [reports [[[]|]|]]; (destruct (hasAnyError _); [by_decide|]); try by_decide.
  destruct (populate_children _ _ _ _ _) as [[? ?] ?]. by_decide.
Qed.

Theorem xml_parser_fuzz_like_mutation_sweep syntax_run dtd_run size Input :
  IsKnownResult (parse syntax_run dtd_run size Input) = true.
Proof.
  apply bool_decide_eq_true. unfold parse. destruct Input as [Input|]; [|by_decide].
  case_decide; [by_decide|]. destruct (splitMessages Input) as [slices err].
  assert (∀ acc, match parse_slices syntax_run dtd_run slices acc with
                 | inl e => e ∈ [0%Z; XML_ERROR_INVALID_CONTENT_DTD; XML_ERROR_INVALID_SYNTAX]
                 | inr _ => True
                 end) as Hs.
  { induction slices as [|s slices IH]; intros acc; [done|]. cbn.
    pose proof (message_result_known syntax_run dtd_run s) as Hm.
    destruct (parseMessage _ _ s) as [e t]. case_decide; [done|apply IH]. }
  specialize (Hs []). destruct (parse_slices _ _ slices []) as [e|ts]; cbn.
  - set_solver.
  - destruct err; by_decide.
Qed.

(** The seed is cut as one message, so the mutations reach the library. *)
Example seed_delivered : delivers 1 (parse (λ _, []) (λ _, ([], Some (Some SEED_XML))) 8192
  (Some (print SEED_XML))) = true.
Proof. vm_compute. reflexivity. Qed.

Lemma xml_tests_pass : xml_tests = replicate 7 true.
Proof. vm_compute. reflexivity. Qed.

End XmlTests.
